(* ===== verification/_CoqProject ===== *)
-Q . S2P
Prelude.v
RustStd.v
Error.v
Schema.v
Crdt.v
Lww.v
Payload.v
Policy.v
Explain.v
Replica.v
State.v
Feed.v
Merge.v
Demo.v
MergeTheorems.v
FeedTheorems.v
SchemaFacts.v
PolicyFacts.v
Membership.v
Partial.v
Codegen.v
Simulator.v
Sqlite.v
Client.v
ClientFacts.v
ClientInv.v
ClientLocal.v
ClientAck.v
ClientDelta.v
ClientScopes.v
ClientOps.v
ClientDemo.v
ClientTheorems.v
ClientReplication.v
SyncServer.v
ClientSync.v
ClientTotal.v
ClientProgress.v
LiveServer.v
SharedServer.v
ClientTermination.v
ClientInit.v
ClientInitTheorems.v
MultiTable.v
MultiTableLive.v
MultiDemo.v
Ffi.v
Postgres.v
Server.v
ServerFacts.v
ServerRun.v
ServerFeed.v
ServerInv.v
ServerSteps.v
ServerSession.v
ServerTotal.v
ServerAnswers.v
ServerStatements.v
ServerTheorems.v
ServerSync.v
ServerLive.v
ServerConcurrent.v
ServerSerial.v
MultiServer.v
ServerPartial.v
ServerLimits.v
ServerDemo.v
ConcurrentDemo.v
Http.v
HttpTheorems.v
Auth.v
AuthTheorems.v
HttpClient.v
HttpSync.v
HttpLive.v
Examples.v
ServerMain.v
HttpDemo.v
StackDemo.v
MultiServerDemo.v
