(* ===== verification/Prelude.v ===== *)
(** * Loomabase: a verification development

    Loomabase keeps tables on many devices in sync: every device has a SQLite
    database whose triggers record each cell that changes, every cell carries
    a Lamport clock and the device that wrote it, and a server merges what the
    devices send, the last writer winning, and pages the changes back. This
    library models the Rust implementation (src/src, src/loomabase-ffi) and
    proves what makes it correct. Definitions keep the names of the source.

    ** The files

    Foundations
    - Prelude: results, the state-and-error monad [stM], loops, transactions
      ([transactional]) and their lemmas; RustStd: machine integers with their
      overflow, UTF-8 text, reals, [BTreeMap] iteration, binary search; Error:
      the error type of src/src/error.rs.

    The protocol and the reference server (crdt.rs, policy.rs, explain.rs,
    replica.rs, schema.rs, codegen.rs, simulator.rs)
    - Crdt: values, metadata, payloads, [decide_lww], every validator; Payload:
      what the validators accept; Lww: the order of versions and what it means
      to take in writes ([absorbs]), with the interface [LwwReplica] that the
      servers implement.
    - Policy, Explain, Replica: authorizers and validators as operational
      classes, explanations, interests, requests and responses of partial
      replicas.
    - State: [CrdtState], the in-memory server, with every operation; Feed: its
      invariant [state_wf] and its pages; Merge: the merge loop against a
      two-phase specification ([merge_run]); MergeTheorems, FeedTheorems,
      Membership, Partial, PolicyFacts: convergence, replays, authorization,
      sessions, partial syncs.
    - Schema, SchemaFacts: contracts, fingerprints, the generated SQL as exact
      strings, migrations; Codegen: the generated SDK models; Simulator: the
      network simulator. Demo holds the data of the witnesses.

    The edge database (client.rs)
    - Sqlite: typed values, CAST to text and back; Client: the tables of a
      device ([ClientDb]), one function per operation, the triggers, the sync
      functions over any transport.
    - ClientFacts, ClientInv ([client_wf]), ClientLocal, ClientAck,
      ClientDelta, ClientScopes, ClientOps: lemmas per group of operations;
      ClientTheorems, ClientReplication: what the operations guarantee;
      SyncServer: what a syncing client relies on, as a class of operations and
      a class of laws, with the reference server as first instance;
      ClientSync: executions of a client and any such server, and their
      convergence; ClientTotal, ClientProgress: when the client completes a
      sync, and how far a page brings it; LiveServer: a server that answers, as
      a second class; ClientTermination: against it every page succeeds and the
      page loop ends; ClientInit, ClientInitTheorems: opening and migrating a
      database file.
    - SharedServer: what the client of one table sees of a server that keeps
      several; MultiTable, MultiTableLive: a device that keeps several tables
      in one database file ([EdgeDb]), as a transition system whose syncs
      overlap ([device_step]), its projection to the executions of ClientSync,
      and syncing all tables one after the other; MultiDemo: witnesses.

    The PostgreSQL server (server.rs)
    - Postgres: the relations as a record ([PgDb]) and the driver; Server: the
      merge, partial merge, leases, epochs and schema initialization,
      statement by statement; ServerFacts, ServerRun, ServerFeed, ServerInv,
      ServerSteps, ServerSession: lemmas; ServerTotal: when a merge succeeds,
      audit included; ServerAnswers: its response is valid for the client, and
      its pages make progress; ServerSync, ServerLive: a tenant of the database
      as a [SyncServer] and as a [LiveServer]; MultiServer, MultiServerDemo: all
      the tables of the database ([MultiPg]), for a device with several;
      ServerTheorems, ServerPartial, ServerLimits: refinement of the reference
      server, tenant isolation, exact pages, sessions across expiry, rotation
      and restores, audit, and the inputs it cannot serve. ServerDemo holds the
      witnesses.
    - ServerStatements: a merge as a program of SQL statements ([merge_prog],
      [partial_prog]), equal to the functions of Server when run alone, and
      what of the database it depends on ([sees]); ServerConcurrent:
      transactions that interleave their statements ([conc_step]);
      ServerSerial: every tenant sees them one at a time; ConcurrentDemo: a
      scheduler, an interleaving, and a rotation that races with a merge.

    The service (http.rs, auth.rs, server_main.rs) and the C library
    - Http, HttpTheorems: handlers with transactions, statuses and counters;
      Auth, AuthTheorems: the authenticators and token encoders; ServerMain:
      from the environment to the listener; HttpDemo: witnesses.
    - HttpClient: the transports of a device over reqwest and a network that
      loses requests and answers; HttpSync: the service as a [SyncServer], and
      the convergence of the whole stack; HttpLive: the service as a
      [LiveServer], and the return of the whole stack; Examples: the example programs
      (src/examples), each main over its two devices and a server; StackDemo:
      a concrete run of the stack, and the mains run to their last assertion.
    - Ffi: the exported C functions over the reference server.

    ** How the parts fit

    A client step reads its delta ([local_delta]), a transport answers it, and
    [complete_sync] acknowledges and applies the answer. What the client needs
    of a transport is the interface of SyncServer: the cells behind it, an
    exchange, the other things that happen there, and the laws of a session.
    LiveServer adds that requests are answered. Both have three instances,
    stacked on each other: [merge] of the reference
    server; [merge_crdt_states] in a transaction of the PostgreSQL server
    (ServerSync, ServerLive), which also refines the reference
    (ServerTheorems); and the HTTP service in front of that (HttpSync,
    HttpLive). ClientSync and ClientTermination are proved once, against the
    interfaces. Tables of a contract meet in what they share: the clock of the
    device, its cursors and scope relations, and on the server the clocks, the
    sequence, the leases and the epoch. A table [t] therefore also steps when
    the code runs for another table: such a step leaves what is [t]'s own alone
    and only moves what is shared forward ([other_table] in ClientOps,
    [other_sessions] in ServerSteps), and MultiTable and MultiServer show that
    the real operations of the other tables are such steps. The reference server, the client and a tenant of
    PostgreSQL are instances of [LwwReplica]; the convergence of merges is
    proved against that. Http uses the authenticators through the class
    [DeviceAuthenticator], the servers use policies through [SyncAuthorizer]
    and [SyncValidator].

    ** What the theorems show

    - Data: merges converge in any order, replays change nothing, a write is
      authorized and attributed, validation accepts exactly the well-formed
      payloads, clocks stay in bounds.
    - Feeds: a page is an interval of the change sequence, and a device that
      sends back its cursor misses nothing.
    - Clients: the tables stay well formed under every operation, no local
      write is lost by a sync, deltas are exactly the dirty cells, partial
      scopes hold exactly their members, stale answers are refused.
    - Both ends: in every execution neither loses what the other acknowledged;
      syncing until caught up returns, and then both hold the same cells - also
      over HTTP against PostgreSQL, after lost requests and answers, where both
      application tables then show the same values.
    - Several tables: whatever a device does with its tables, each goes through
      an execution of its own; syncing them one after the other against one
      PostgreSQL database returns, and every table then agrees with its tenant.
    - Opening a database of an earlier version brings it up to the contract.
    - The PostgreSQL server refines the reference server; tenants are isolated;
      every cell is audited once.
    - The service: a request reaches only the tenant of an authenticated
      identity, tokens are accepted exactly when valid, the server fails
      closed, every counter is exact at every moment. The C library reports
      correctly on every branch of a call.
    - Concurrency: interleaved transactions are serializable, tenant by tenant;
      numbers other sessions draw leave gaps in the sequence of a merge.

    ** Restrictions of the theorems

    - stack_converges and stack_returns are about tables without real columns
      ([no_reals]) and, like device_returns_on_postgres, about servers whose
      policies deny nothing ([permissive]): reals can drift in JSON, and a
      denied cell differs between device and server. device_returns_on_postgres
      asks that the values survive JSONB ([json_exact]), which [no_reals]
      implies. The theorems about a client and an abstract server
      (ClientSync, ClientTermination) have no such restriction: it is in the
      instances.
    - server_refines_reference compares with a server that has no tenants and
      no JSONB: policies that ignore the tenant ([tenant_blind]) and values
      that come back as they were ([values_survive]).
    - device_projects and device_returns_on_postgres need tables whose logs,
      indexes and triggers have names of their own ([tables_apart],
      [pg_apart]); client_init_migrates needs [names_distinct]. [Contract::new]
      does not check this: it accepts a table [x] next to a table [x_crdt],
      which is the log of [x].
    - concurrent_serializable lets an epoch rotation run only while no merge is
      between reading the epoch and its end; [rotation_race] shows what happens
      otherwise.
    - supabase_identity_safe gives a device to one user among subjects without
      a slash only.

    ** Parameters and hypotheses

    Code that is not in the repository is a parameter: [SerdeJson] (the length
    of a cell in JSON; [serde_total], [value_serde_total]: it exists),
    [StrDebug] ([{:?}] of a string; [debug_laws]: it escapes what is not
    printable), [SqlText_externals] (SQLite's text of a real;
    [f64_text_exact]: it reads back as a finite real), [Pg_externals] (JSONB
    numbers, random identifiers, the collation; [json_finite],
    [uuids_distinct], [uuids_identify]), [Jwt_externals] (base64, HMAC, RSA, JSON, jsonwebtoken;
    [jwt_laws]), [Ffi_externals] (the allocator, JSON), [Reqwest_externals]
    (statuses and JSON on the client's side; [reqwest_laws], and
    [reqwest_reads] when nothing fails). Each law is met by the
    concrete instance of a witness.

    [has_room] and the bounds on clocks say that the 63-bit counters are not
    exhausted; the operations' behaviour at the limits is modelled and they
    fail there. Recursion is structural; the page loop of the client has the
    fuel of the source, [MAX_SYNC_PAGES_PER_CALL], and ClientTermination shows
    when it is enough.

    ** Not modelled

    - Row-level security as such (every statement names its tenant), deadlocks
      and isolation levels other than read committed; ServerConcurrent has the
      lock on the tenant's clock row and on leases. In the other files a
      merge sees the tables alone, which ServerSerial justifies.
    - What a schema migration of the server does to the rows of an older
      contract; its statements are modelled as text.
    - The lock of a handle of the C library: calls are modelled one at a time.
    - Routing, body limits, request timeouts and logging (axum, tower,
      tracing); a request that is dropped is a step of its own. Sockets and
      signals in server_main.rs.
    - Memory itself: in Ffi a pointer is an address in a map and undefined
      behaviour has no outcome.
    - benchmark_main.rs, simulation_report.rs and generate_sdks.rs measure,
      print and write files; the SDK packages, demos, deployment files and fuzz
      targets are other languages or tests.

    - Several tables are modelled for a device against the in-memory server
      and against PostgreSQL; the HTTP service is composed with one table, as
      each deployment of server_main.rs serves one.

    ** Plan

    Next: the rows of older contracts under the migrations of the server, and
    the memory of the C library under overlapping calls. *)
From stdpp Require Export base strings gmap sorting pretty list numbers.

(** ** The result type

    Rust's [Result<A, E>], with the error first so that [result E] is a
    monad for stdpp's [x ← m; k] notation. *)
Inductive result (E A : Type) : Type :=
| Ok (a : A)
| Err (e : E).
Arguments Ok {E A} a.
Arguments Err {E A} e.

Definition is_ok {E A} (r : result E A) : bool :=
  match r with Ok _ => true | Err _ => false end.

#[export] Instance result_ret {E} : MRet (result E) := λ A a, Ok a.
#[export] Instance result_bind {E} : MBind (result E) := λ A B f r,
  match r with Ok a => f a | Err e => Err e end.
#[export] Instance result_fmap {E} : FMap (result E) := λ A B f r,
  match r with Ok a => Ok (f a) | Err e => Err e end.

#[export] Instance result_eq_dec {E A} `{EqDecision E, EqDecision A} :
  EqDecision (result E A).
Proof. solve_decision. Defined.

(** [ok_or x e] is Rust's [x.ok_or(e)]. *)
Definition ok_or {E A} (o : option A) (e : E) : result E A :=
  match o with Some a => Ok a | None => Err e end.

(** [guard b e] is [if !b { return Err(e) }]. *)
Definition ensure {E} (b : bool) (e : E) : result E unit :=
  if b then Ok tt else Err e.

(** [for x in l { f(x)?; }] *)
Fixpoint for_each {E A} (f : A → result E unit) (l : list A) : result E unit :=
  match l with
  | [] => Ok tt
  | x :: l => match f x with Ok _ => for_each f l | Err e => Err e end
  end.

(** [for x in l { acc = f(acc, x)?; }] *)
Fixpoint foldM {E A B} (f : B → A → result E B) (b : B) (l : list A) : result E B :=
  match l with
  | [] => Ok b
  | x :: l => match f b x with Ok b' => foldM f b' l | Err e => Err e end
  end.

(** [l.iter().map(f).collect::<Result<Vec<_>>>()] *)
Fixpoint mapR {E A B} (f : A → result E B) (l : list A) : result E (list B) :=
  match l with
  | [] => Ok []
  | x :: l => y ← f x; ys ← mapR f l; Ok (y :: ys)
  end.

(** ** State passing with errors

    A handler that mutates its state and may fail half way: the state it
    had reached when it failed is part of the outcome. *)
Definition stM (S E A : Type) : Type := S → result E A * S.

Definition st_ret {S E A} (a : A) : stM S E A := λ s, (Ok a, s).
Definition st_bind {S E A B} (m : stM S E A) (k : A → stM S E B) : stM S E B :=
  λ s, match m s with
       | (Ok a, s') => k a s'
       | (Err e, s') => (Err e, s')
       end.
Definition st_lift {S E A} (r : result E A) : stM S E A := λ s, (r, s).
Definition st_get {S E} : stM S E S := λ s, (Ok s, s).
Definition st_modify {S E} (f : S → S) : stM S E unit := λ s, (Ok tt, f s).

Declare Scope loom_scope.
Delimit Scope loom_scope with loom.
Notation "x <-- m ;; k" := (st_bind m (λ x, k))
  (at level 100, m at next level, right associativity) : loom_scope.
Notation "m ;;; k" := (st_bind m (λ _, k))
  (at level 100, right associativity) : loom_scope.

Fixpoint st_for {S E A} (f : A → stM S E unit) (l : list A) : stM S E unit :=
  match l with
  | [] => st_ret tt
  | x :: l => st_bind (f x) (λ _, st_for f l)
  end.

(** Running a body inside a transaction: the new state is kept only when
    the body succeeds ([let mut working = self.clone(); ...; *self = working]
    and the database transactions alike). *)
Definition transactional {S E A} (m : stM S E A) : stM S E A :=
  λ s, match m s with
       | (Ok a, s') => (Ok a, s')
       | (Err e, _) => (Err e, s)
       end.

(** ** Lemmas of the result monad *)
Section result_lemmas.
Context {E : Type}.

Lemma bind_ok {A B} (m : result E A) (f : A → result E B) b :
  (m ≫= f) = Ok b ↔ ∃ a, m = Ok a ∧ f a = Ok b.
Proof. destruct m; simpl; split; naive_solver. Qed.

Lemma ensure_ok b (e : E) : ensure b e = Ok tt ↔ b = true.
Proof. destruct b; simpl; naive_solver. Qed.

Lemma ensure_bind {B} b (e : E) (k : unit → result E B) r :
  (ensure b e ≫= k) = Ok r ↔ b = true ∧ k tt = Ok r.
Proof. destruct b; simpl; naive_solver. Qed.

Lemma bind_unit_ok {B} (m : result E unit) (k : unit → result E B) r :
  (m ≫= k) = Ok r ↔ m = Ok tt ∧ k tt = Ok r.
Proof. destruct m as [[]|]; simpl; naive_solver. Qed.

Lemma ok_or_ok {A} (o : option A) (e : E) a : ok_or o e = Ok a ↔ o = Some a.
Proof. destruct o; simpl; naive_solver. Qed.

Lemma for_each_ok {A} (f : A → result E unit) l :
  for_each f l = Ok tt ↔ Forall (λ x, f x = Ok tt) l.
Proof.
  induction l as [|x l IH]; simpl; [by split|].
  rewrite Forall_cons_iff. destruct (f x) as [[]|]; naive_solver.
Qed.

Lemma foldM_app {A B} (f : B → A → result E B) b l1 l2 :
  foldM f b (l1 ++ l2) = foldM f b l1 ≫= λ b', foldM f b' l2.
Proof.
  revert b; induction l1 as [|x l1 IH]; intros b; simpl; [done|].
  destruct (f b x); simpl; auto.
Qed.

(** Rule for loops: an invariant indexed by the elements done so far. *)
Lemma foldM_inv {A B} (f : B → A → result E B) (P : list A → B → Prop) b l b' :
  foldM f b l = Ok b' →
  P [] b →
  (∀ done x b1 b2, x ∈ l → P done b1 → f b1 x = Ok b2 → P (done ++ [x]) b2) →
  P l b'.
Proof.
  intros Hf Hb Hstep.
  assert (∀ rest pre b1, l = pre ++ rest → P pre b1 → foldM f b1 rest = Ok b' → P l b')
    as Hgen.
  { induction rest as [|x rest IH]; intros pre b1 Hl Hpre; simpl.
    - intros [= ->]. by rewrite Hl, app_nil_r.
    - destruct (f b1 x) as [b2|] eqn:Hx; [|done]. intros Hrest.
      apply (IH (pre ++ [x]) b2); [by rewrite <-app_assoc|..|done].
      apply (Hstep _ _ b1); [|done|done]. rewrite Hl. set_solver. }
  by apply (Hgen l [] b).
Qed.

(** A loop all of whose steps succeed under an invariant succeeds. *)
Lemma foldM_total {A B} (f : B → A → result E B) (P : B → Prop) b l :
  P b →
  (∀ x b1, x ∈ l → P b1 → ∃ b2, f b1 x = Ok b2 ∧ P b2) →
  ∃ b', foldM f b l = Ok b' ∧ P b'.
Proof.
  revert b; induction l as [|x l IH]; intros b Hb Hstep; simpl; [by eauto|].
  destruct (Hstep x b) as (b2 & Hx & Hb2); [set_solver|done|].
  rewrite Hx. apply IH; [done|]. intros y b1 Hy. apply Hstep. set_solver.
Qed.

Lemma mapR_ok {A B} (f : A → result E B) l l' :
  mapR f l = Ok l' ↔ Forall2 (λ x y, f x = Ok y) l l'.
Proof.
  revert l'; induction l as [|x l IH]; intros l'; simpl.
  - split; [intros [= <-]; constructor|by inversion 1].
  - rewrite bind_ok. setoid_rewrite bind_ok. split.
    + intros (y & Hy & ys & Hys & [= <-]). constructor; [done|by apply IH].
    + inversion 1 as [|? y ? ys Hy Hys]; subst.
      exists y; split; [done|]. exists ys; split; [by apply IH|done].
Qed.

Lemma mapR_total {A B} (f : A → result E B) l :
  (∃ l', mapR f l = Ok l') ↔ (∀ x, x ∈ l → ∃ y, f x = Ok y).
Proof.
  induction l as [|x l IH]; simpl.
  - split; [by intros _ x ?%not_elem_of_nil|by eexists].
  - split.
    + intros (l' & (y & Hy & (ys & Hys & _)%bind_ok)%bind_ok) z [->|Hz]%elem_of_cons; [by eauto|].
      apply IH; eauto.
    + intros Hall. destruct (Hall x) as [y Hy]; [set_solver|].
      destruct (proj2 IH) as [ys Hys]; [set_solver|]. exists (y :: ys). by rewrite Hy, Hys.
Qed.
End result_lemmas.

(** ** Lemmas of the state monad *)
Section st_lemmas.
Context {S E : Type}.

Lemma st_bind_ok {A B} (m : stM S E A) (k : A → stM S E B) s b s' :
  st_bind m k s = (Ok b, s') ↔
  ∃ a s1, m s = (Ok a, s1) ∧ k a s1 = (Ok b, s').
Proof. unfold st_bind. destruct (m s) as [[a|e] s1]; naive_solver. Qed.

Lemma st_lift_ok {A} (r : result E A) (s s' : S) a :
  st_lift r s = (Ok a, s') ↔ r = Ok a ∧ s' = s.
Proof. unfold st_lift; naive_solver. Qed.

(** A check, or a computation that does not touch the state, comes first. *)
Lemma st_check_ok {B} (r : result E unit) (k : unit → stM S E B) s b s' :
  st_bind (st_lift r) k s = (Ok b, s') ↔ r = Ok tt ∧ k tt s = (Ok b, s').
Proof. unfold st_bind, st_lift. destruct r as [[]|]; naive_solver. Qed.
Lemma st_pure_ok {A B} (r : result E A) (k : A → stM S E B) s b s' :
  st_bind (st_lift r) k s = (Ok b, s') ↔ ∃ a, r = Ok a ∧ k a s = (Ok b, s').
Proof. unfold st_bind, st_lift. destruct r; naive_solver. Qed.

Lemma st_get_ok (s s' : S) a : st_get (E:=E) s = (Ok a, s') ↔ a = s ∧ s' = s.
Proof. unfold st_get; naive_solver. Qed.

Lemma st_modify_ok (f : S → S) (s s' : S) a :
  st_modify (E:=E) f s = (Ok a, s') ↔ s' = f s.
Proof. unfold st_modify; destruct a; naive_solver. Qed.

Lemma st_ret_ok {A} (x : A) (s s' : S) a :
  st_ret (E:=E) x s = (Ok a, s') ↔ a = x ∧ s' = s.
Proof. unfold st_ret; naive_solver. Qed.

Lemma st_for_app {A} (f : A → stM S E unit) l1 l2 s :
  st_for f (l1 ++ l2) s = st_bind (st_for f l1) (λ _, st_for f l2) s.
Proof.
  revert s; induction l1 as [|x l1 IH]; intros s; simpl; [done|].
  unfold st_bind. destruct (f x s) as [[]]; [|done]. by rewrite IH.
Qed.

Lemma st_for_fmap {A B} (f : B → stM S E unit) (h : A → B) l s :
  st_for f (h <$> l) s = st_for (λ x, f (h x)) l s.
Proof.
  revert s; induction l as [|x l IH]; intros s; [done|]. rewrite fmap_cons. simpl.
  unfold st_bind. destruct (f (h x) s) as [[]]; [|done]. by rewrite IH.
Qed.

(** A loop in a loop is one loop over the flattened list. *)
Lemma st_for_bind {A B} (f : B → stM S E unit) (g : A → list B) l s :
  st_for f (l ≫= g) s = st_for (λ x, st_for f (g x)) l s.
Proof.
  revert s; induction l as [|x l IH]; intros s; [done|].
  rewrite bind_cons, st_for_app. simpl. unfold st_bind.
  destruct (st_for f (g x) s) as [[]]; [|done]. by rewrite IH.
Qed.

Lemma st_for_ext {A} (f g : A → stM S E unit) l s :
  (∀ x s, x ∈ l → f x s = g x s) → st_for f l s = st_for g l s.
Proof.
  revert s; induction l as [|x l IH]; intros s Hfg; simpl; [done|].
  unfold st_bind. rewrite Hfg by set_solver. destruct (g x s) as [[]]; [|done].
  apply IH. intros y s1 Hy. apply Hfg. set_solver.
Qed.

(** Loop rule for [st_for], with the elements done so far. *)
Lemma st_for_inv {A} (f : A → stM S E unit) (P : list A → S → Prop) l s s' :
  st_for f l s = (Ok tt, s') →
  P [] s →
  (∀ done x s1 s2, x ∈ l → P done s1 → f x s1 = (Ok tt, s2) → P (done ++ [x]) s2) →
  P l s'.
Proof.
  intros Hf Hs Hstep.
  assert (∀ rest pre s1, l = pre ++ rest → P pre s1 →
            st_for f rest s1 = (Ok tt, s') → P l s') as Hgen.
  { induction rest as [|x rest IH]; intros pre s1 Hl Hpre; simpl.
    - intros [= ->]. by rewrite Hl, app_nil_r.
    - intros ([] & s2 & Hx & Hrest)%st_bind_ok.
      apply (IH (pre ++ [x]) s2); [by rewrite <-app_assoc|..|done].
      apply (Hstep _ _ s1); [|done|done]. rewrite Hl. set_solver. }
  by apply (Hgen l [] s).
Qed.

Lemma st_for_total {A} (f : A → stM S E unit) (P : S → Prop) l s :
  P s →
  (∀ x s1, x ∈ l → P s1 → ∃ s2, f x s1 = (Ok tt, s2) ∧ P s2) →
  ∃ s', st_for f l s = (Ok tt, s') ∧ P s'.
Proof.
  revert s; induction l as [|x l IH]; intros s Hs Hstep; simpl; [by eexists|].
  destruct (Hstep x s) as (s2 & Hx & Hs2); [set_solver|done|].
  unfold st_bind. rewrite Hx. apply IH; [done|].
  intros y s1 Hy. apply Hstep. set_solver.
Qed.

Lemma transactional_err {A} (m : stM S E A) s e s' :
  transactional m s = (Err e, s') → s' = s.
Proof. unfold transactional. destruct (m s) as [[]]; naive_solver. Qed.

Lemma transactional_ok {A} (m : stM S E A) s a s' :
  transactional m s = (Ok a, s') ↔ m s = (Ok a, s').
Proof. unfold transactional. destruct (m s) as [[]]; naive_solver. Qed.

(** A computation whose failures leave the state as it was. *)
Definition fails_clean {A} (m : stM S E A) : Prop :=
  ∀ s e s', m s = (Err e, s') → s' = s.

Lemma fails_clean_transactional {A} (m : stM S E A) : fails_clean (transactional m).
Proof. intros s e s'. apply transactional_err. Qed.

Lemma fails_clean_lift {A} (r : result E A) : fails_clean (st_lift (S:=S) r).
Proof. by intros s e s' [= _ <-]. Qed.

Lemma fails_clean_check {A B} (r : result E A) (k : A → stM S E B) :
  (∀ a, fails_clean (k a)) → fails_clean (st_bind (st_lift r) k).
Proof.
  intros Hk s e s'. unfold st_bind, st_lift. destruct r as [a|]; [apply Hk|by intros [= _ <-]].
Qed.
(** A computation that relates every state to the one it ends in, whether it
    succeeds or fails half way. *)
Definition st_keeps {A} (R : S → S → Prop) (m : stM S E A) : Prop :=
  ∀ s r s', m s = (r, s') → R s s'.

Section keeps.
Context (R : S → S → Prop) `{!PreOrder R}.

Lemma st_keeps_ret {A} (a : A) : st_keeps R (st_ret a).
Proof. by intros s r s' [= _ <-]. Qed.
Lemma st_keeps_lift {A} (r : result E A) : st_keeps R (st_lift r).
Proof. by intros s r' s' [= _ <-]. Qed.
Lemma st_keeps_get : st_keeps R st_get.
Proof. by intros s r s' [= _ <-]. Qed.
Lemma st_keeps_modify f : (∀ s, R s (f s)) → st_keeps R (st_modify f).
Proof. by intros Hf s r s' [= _ <-]. Qed.
Lemma st_keeps_bind {A B} (m : stM S E A) (k : A → stM S E B) :
  st_keeps R m → (∀ a, st_keeps R (k a)) → st_keeps R (st_bind m k).
Proof.
  intros Hm Hk s r s'. unfold st_bind. destruct (m s) as [[a|e] s1] eqn:H1.
  - intros H2. transitivity s1; [by apply (Hm _ _ _ H1)|by apply (Hk _ _ _ _ H2)].
  - intros [= _ <-]. by apply (Hm _ _ _ H1).
Qed.
Lemma st_keeps_for {A} (f : A → stM S E unit) l :
  (∀ x, x ∈ l → st_keeps R (f x)) → st_keeps R (st_for f l).
Proof.
  intros Hf. induction l as [|x l IH]; [apply st_keeps_ret|]. simpl.
  apply st_keeps_bind; [apply Hf; set_solver|]. intros []. apply IH.
  intros y Hy. apply Hf. set_solver.
Qed.
Lemma st_keeps_transactional {A} (m : stM S E A) : st_keeps R m → st_keeps R (transactional m).
Proof.
  intros Hm s r s'. unfold transactional. destruct (m s) as [[a|e] s1] eqn:H1; intros [= _ <-].
  - by apply (Hm _ _ _ H1).
  - done.
Qed.
End keeps.
End st_lemmas.

(** [auto with clean] shows that an operation fails cleanly. *)
Create HintDb clean.
#[export] Hint Resolve fails_clean_transactional fails_clean_lift fails_clean_check : clean.

(** [auto with keeps] decomposes a computation; what is left are its updates. *)
Create HintDb keeps.
#[export] Hint Resolve st_keeps_ret st_keeps_lift st_keeps_get st_keeps_bind
  st_keeps_transactional : keeps.

(** ** Lists *)
Lemma omap_cons_eq {A B} (f : A → option B) (x : A) (l : list A) :
  omap f (x :: l) = match f x with Some y => y :: omap f l | None => omap f l end.
Proof. done. Qed.

Lemma length_omap_le {A B} (f : A → option B) (l : list A) :
  (length (omap f l) ≤ length l)%nat.
Proof.
  induction l as [|x l IH]; [done|].
  rewrite omap_cons_eq. destruct (f x); cbn [length]; lia.
Qed.

(** The last element of a sorted list is its greatest. *)
Lemma sorted_last_max {A} (R : relation A) `{!Reflexive R} l x y :
  StronglySorted R l → list.last l = Some y → x ∈ l → R x y.
Proof.
  intros Hs [init ->]%last_Some. apply StronglySorted_app in Hs as (Hcross & _ & _).
  intros [Hx| ->%list_elem_of_singleton]%elem_of_app; [|done]. apply Hcross; set_solver.
Qed.

(** ** Automation

    [loom] is the rewrite base that exposes what a successful monadic run
    did; [inv_ok] applies it to the hypotheses and splits the result. *)
Create Rewrite HintDb loom.
#[export] Hint Rewrite @bind_unit_ok @bind_ok @ensure_ok @ok_or_ok @for_each_ok : loom.
#[export] Hint Rewrite @st_bind_ok @st_lift_ok @st_get_ok @st_modify_ok @st_ret_ok
  @transactional_ok : loom.

Ltac inv_ok_step :=
  match goal with
  | H : (_ ≫= _) = Ok _ |- _ => apply bind_ok in H as (? & ? & ?)
  | H : ensure _ _ = Ok _ |- _ => apply ensure_ok in H
  | H : ensure _ _ = Ok ?u |- _ => destruct u; apply ensure_ok in H
  | H : ok_or _ _ = Ok _ |- _ => apply ok_or_ok in H
  | H : st_bind _ _ _ = (Ok _, _) |- _ => apply st_bind_ok in H as (? & ? & ? & ?)
  | H : st_lift _ _ = (Ok _, _) |- _ => apply st_lift_ok in H as [? ?]
  | H : st_get _ = (Ok _, _) |- _ => apply st_get_ok in H as [? ?]
  | H : st_modify _ _ = (Ok _, _) |- _ => apply st_modify_ok in H
  | H : st_ret _ _ = (Ok _, _) |- _ => apply st_ret_ok in H as [? ?]
  | H : Ok _ = Ok _ |- _ => injection H as H
  | H : Err _ = Ok _ |- _ => discriminate H
  | H : Ok _ = Err _ |- _ => discriminate H
  | u : unit |- _ => destruct u
  end.
Ltac inv_ok := repeat (inv_ok_step; simplify_eq/=).

(** Splits boolean guards into the propositions they decide. *)
Ltac split_guards :=
  repeat match goal with
  | H : negb _ = true |- _ => apply negb_true_iff in H
  | H : negb _ = false |- _ => apply negb_false_iff in H
  | H : _ && _ = true |- _ => apply andb_true_iff in H as [? ?]
  | H : _ || _ = false |- _ => apply orb_false_iff in H as [? ?]
  | H : bool_decide _ = true |- _ => apply bool_decide_eq_true in H
  | H : bool_decide _ = false |- _ => apply bool_decide_eq_false in H
  | H : (_ <=? _)%N = true |- _ => apply N.leb_le in H
  | H : (_ <=? _)%N = false |- _ => apply N.leb_gt in H
  | H : (_ <? _)%N = true |- _ => apply N.ltb_lt in H
  | H : (_ <? _)%N = false |- _ => apply N.ltb_ge in H
  | H : (_ <=? _)%Z = true |- _ => apply Z.leb_le in H
  | H : (_ <=? _)%Z = false |- _ => apply Z.leb_gt in H
  | H : (_ <? _)%Z = true |- _ => apply Z.ltb_lt in H
  | H : (_ <? _)%Z = false |- _ => apply Z.ltb_ge in H
  | H : (_ =? _)%string = true |- _ => apply String.eqb_eq in H
  | H : (_ =? _)%string = false |- _ => apply String.eqb_neq in H
  end.
