(* ===== verification/RustStd.v ===== *)
(** * The parts of Rust's standard library the program uses

    Machine integers and their conversions, [str] as its UTF-8 bytes,
    [f64] and its partial equality, [BTreeMap] as a finite map with an
    ordered iteration, and [slice::binary_search]. *)
From Stdlib Require Export Ascii.
From Stdlib Require Import SpecFloat.
From S2P Require Import Prelude.

(** ** Machine integers

    [u16], [u32], [u64] and [usize] are [N], [i64] is [Z]; each operation
    that can leave the range says what happens there. *)
Definition U64_MAX : N := 18446744073709551615.
Definition I64_MAX : N := 9223372036854775807.
Definition i64_min : Z := -9223372036854775808.
Definition i64_max : Z := 9223372036854775807.

(** [a.checked_add(b)] on [u64]. *)
Definition u64_checked_add (a b : N) : option N :=
  if (a + b <=? U64_MAX)%N then Some (a + b)%N else None.
(** [a.checked_add(b)] on [i64]. *)
Definition i64_checked_add (a b : Z) : option Z :=
  if (i64_min <=? a + b)%Z && (a + b <=? i64_max)%Z then Some (a + b)%Z else None.
(** [a.saturating_sub(b)] on [u64]: truncated subtraction of [N]. *)
Definition u64_saturating_sub (a b : N) : N := (a - b)%N.
(** [a += b] on [u64] in a release build: wrap-around modulo [2^64]. *)
Definition u64_wrapping_add (a b : N) : N := ((a + b) mod 2 ^ 64)%N.
(** [a.wrapping_mul(b)] on [u64]. *)
Definition u64_wrapping_mul (a b : N) : N := ((a * b) mod 2 ^ 64)%N.
(** [i64::try_from(x : u64)]. *)
Definition i64_try_from_u64 (x : N) : option Z :=
  if (x <=? I64_MAX)%N then Some (Z.of_N x) else None.
(** [u64::try_from(x : i64)]. *)
Definition u64_try_from_i64 (x : Z) : option N :=
  if (0 <=? x)%Z then Some (Z.to_N x) else None.

(** ** [str] *)

(** [s.len()]: the number of bytes. *)
Definition str_len (s : string) : N := N.of_nat (String.length s).
Lemma str_app_assoc (a b c : string) : a +:+ (b +:+ c) = (a +:+ b) +:+ c.
Proof. induction a as [|x a IH]; [reflexivity|]. 
  change (String x (a +:+ (b +:+ c)) = String x ((a +:+ b) +:+ c)). by rewrite IH.
Qed.
Definition str_is_empty (s : string) : bool :=
  match s with EmptyString => true | _ => false end.
Definition byte_of (c : ascii) : N := N_of_ascii c.

(** [s.chars()]: the code points of a UTF-8 string. A [String] is always
    valid UTF-8, so the sequences are complete; the last clauses only make
    the function total. *)
Fixpoint str_chars (s : string) : list N :=
  match s with
  | EmptyString => []
  | String c0 s0 =>
    let b0 := byte_of c0 in
    if (b0 <? 128)%N then b0 :: str_chars s0
    else match s0 with
    | EmptyString => []
    | String c1 s1 =>
      let b1 := byte_of c1 in
      if (b0 <? 224)%N then ((b0 - 192) * 64 + (b1 - 128))%N :: str_chars s1
      else match s1 with
      | EmptyString => []
      | String c2 s2 =>
        let b2 := byte_of c2 in
        if (b0 <? 240)%N
        then ((b0 - 224) * 4096 + (b1 - 128) * 64 + (b2 - 128))%N :: str_chars s2
        else match s2 with
        | EmptyString => []
        | String c3 s3 =>
          let b3 := byte_of c3 in
          ((b0 - 240) * 262144 + (b1 - 128) * 4096 + (b2 - 128) * 64 + (b3 - 128))%N
            :: str_chars s3
        end
      end
    end
  end.

(** [char::is_control]: the Unicode category Cc, U+0000..=U+001F and
    U+007F..=U+009F. *)
Definition char_is_control (c : N) : bool :=
  (c <=? 31)%N || ((127 <=? c)%N && (c <=? 159)%N).
Definition str_has_control (s : string) : bool := existsb char_is_control (str_chars s).

(** [s.starts_with(prefix)]: byte prefix. *)
Fixpoint str_starts_with (s prefix : string) : bool :=
  match prefix, s with
  | EmptyString, _ => true
  | String p ps, String c cs => Ascii.eqb p c && str_starts_with cs ps
  | String _ _, EmptyString => false
  end.

(** [s.bytes()] *)
Definition str_bytes (s : string) : list N := byte_of <$> String.list_ascii_of_string s.

(** [u8::is_ascii_lowercase], [u8::is_ascii_digit] *)
Definition is_ascii_lowercase (b : N) : bool := (97 <=? b)%N && (b <=? 122)%N.
Definition is_ascii_digit (b : N) : bool := (48 <=? b)%N && (b <=? 57)%N.

(** [str::eq_ignore_ascii_case] *)
Definition ascii_to_lower (c : ascii) : ascii :=
  let b := byte_of c in
  if (65 <=? b)%N && (b <=? 90)%N then ascii_of_N (b + 32) else c.
Fixpoint str_to_ascii_lower (s : string) : string :=
  match s with
  | EmptyString => EmptyString
  | String c s => String (ascii_to_lower c) (str_to_ascii_lower s)
  end.
Definition eq_ignore_ascii_case (a b : string) : bool :=
  (str_to_ascii_lower a =? str_to_ascii_lower b)%string.

(** [v.join(sep)] *)
Fixpoint str_join (sep : string) (l : list string) : string :=
  match l with
  | [] => ""
  | [x] => x
  | x :: l => x +:+ sep +:+ str_join sep l
  end.

(** [{:016x}] of a [u64]: sixteen lowercase hexadecimal digits. *)
Definition hex_digit (d : N) : ascii :=
  if (d <? 10)%N then ascii_of_N (48 + d) else ascii_of_N (87 + d).
Fixpoint hex_pad (width : nat) (x : N) (acc : string) : string :=
  match width with
  | O => acc
  | S w => hex_pad w (N.shiftr x 4) (String (hex_digit (N.land x 15)) acc)
  end.
Definition fmt_016x (x : N) : string := hex_pad 16 x "".

(** ** Partial order of keys: [Ord for str] and [Ord] for pairs

    [str] compares its bytes lexicographically, which is [String.le]. *)
Class KeyOrder (K : Type) := {
  key_le : relation K;
  #[global] key_le_dec :: RelDecision key_le;
  #[global] key_le_po :: PartialOrder key_le;
  #[global] key_le_total :: Total key_le;
}.
#[export] Instance string_key_order : KeyOrder string := {| key_le := String.le |}.

Definition pair_le {A B} `{KeyOrder A, KeyOrder B} (p q : A * B) : Prop :=
  key_le p.1 q.1 ∧ (p.1 = q.1 → key_le p.2 q.2).
#[export] Instance pair_le_dec {A B} `{EqDecision A, KeyOrder A, KeyOrder B} :
  RelDecision (pair_le (A:=A) (B:=B)).
Proof.
  intros p q. unfold pair_le.
  destruct (decide (key_le p.1 q.1)) as [Hl|Hl]; [|right; tauto].
  destruct (decide (p.1 = q.1)) as [He|He]; [|left; tauto].
  destruct (decide (key_le p.2 q.2)) as [Hr|Hr]; [left|right]; tauto.
Defined.
#[export] Instance pair_key_order {A B} `{EqDecision A, KeyOrder A, KeyOrder B} :
  KeyOrder (A * B).
Proof.
  refine {| key_le := pair_le; key_le_dec := pair_le_dec |}.
  - split; [split|].
    + intros [a b]; split; simpl; reflexivity.
    + intros [a1 b1] [a2 b2] [a3 b3] [H1 H1'] [H2 H2']; simpl in *; split; simpl.
      { by transitivity a2. }
      intros ->. assert (a2 = a3) as -> by (by apply (anti_symm key_le)).
      transitivity b2; auto.
    + intros [a1 b1] [a2 b2] [H1 H1'] [H2 H2']; simpl in *.
      assert (a1 = a2) as -> by (by apply (anti_symm key_le)).
      f_equal. apply (anti_symm key_le); auto.
  - intros [a1 b1] [a2 b2]. unfold pair_le; simpl.
    destruct (decide (a1 = a2)) as [->|Hne].
    + destruct (total key_le b1 b2); [left|right]; split; auto; reflexivity.
    + destruct (total key_le a1 a2); [left|right]; split; auto; congruence.
Defined.

Definition key_lt {K} `{KeyOrder K} (x y : K) : Prop := key_le x y ∧ x ≠ y.
#[export] Instance key_lt_dec {K} `{EqDecision K, KeyOrder K} : RelDecision (key_lt (K:=K)).
Proof. intros x y; unfold key_lt; apply _. Defined.

(** [previous >= next] on [&str], and [<] *)
Definition str_lt (a b : string) : bool := bool_decide (key_lt a b).

Section key_order.
Context `{EqDecision K, KeyOrder K}.
Implicit Types x y z : K.

#[export] Instance key_lt_strict : StrictOrder (key_lt (K:=K)).
Proof.
  split.
  - intros x [_ H1]. congruence.
  - intros x y z [Hxy Hne] [Hyz Hne']. split; [by transitivity y|].
    intros ->. apply Hne. by apply (anti_symm key_le).
Qed.

Lemma key_lt_trichotomy x y : key_lt x y ∨ x = y ∨ key_lt y x.
Proof.
  unfold key_lt. destruct (decide (x = y)) as [|Hne]; [by auto|].
  destruct (total key_le x y); naive_solver.
Qed.

Lemma key_lt_not_le x y : key_lt x y ↔ ¬ key_le y x.
Proof.
  unfold key_lt. split.
  - intros [Hle Hne] Hle'. apply Hne. by apply (anti_symm key_le).
  - intros Hn. destruct (total key_le x y) as [Hle|]; [|done].
    split; [done|]. intros ->. apply Hn. reflexivity.
Qed.

Lemma key_le_lt_eq x y : key_le x y ↔ key_lt x y ∨ x = y.
Proof.
  unfold key_lt. destruct (decide (x = y)) as [->|]; [|naive_solver].
  split; [by auto|intros _; reflexivity].
Qed.
End key_order.

(** ** [f64]

    An IEEE-754 double as sign, mantissa and exponent; [==] is IEEE
    equality: NaN differs from itself and the two zeros are equal. *)
Abbreviation f64 := spec_float.
#[export] Instance f64_eq_dec : EqDecision f64.
Proof. solve_decision. Defined.

Definition f64_eqb (x y : f64) : bool := SFeqb x y.
Definition f64_is_finite (x : f64) : bool :=
  match x with S754_zero _ | S754_finite _ _ _ => true | _ => false end.

(** Equality up to the sign of zero. *)
Definition f64_sim (x y : f64) : Prop :=
  x = y ∨ ∃ s s', x = S754_zero s ∧ y = S754_zero s'.

#[export] Instance f64_sim_equivalence : Equivalence f64_sim.
Proof.
  split; unfold f64_sim.
  - by left.
  - intros x y [->|(s & s' & -> & ->)]; eauto 6.
  - intros x y z [->|(s & s' & -> & ->)]; [done|].
    intros [<-|(t & t' & _ & ->)]; right; eauto.
Qed.

Lemma f64_eqb_same_sign (s : bool) m m' e e' :
  f64_eqb (S754_finite s m e) (S754_finite s m' e') = true ↔ m = m' ∧ e = e'.
Proof.
  unfold f64_eqb, SFeqb; simpl. destruct (Z.compare_spec e e') as [->| |].
  - change (Pos.compare_cont Eq m m') with (m ?= m')%positive.
    destruct (Pos.compare_spec m m') as [->| |]; destruct s; simpl; split;
      try done; try (intros [-> _]; lia).
  - destruct s; split; try done; intros [_ ->]; lia.
  - destruct s; split; try done; intros [_ ->]; lia.
Qed.

Lemma f64_eqb_finite x y :
  f64_is_finite x = true → f64_eqb x y = true ↔ f64_sim x y.
Proof.
  intros Hfin. unfold f64_sim.
  destruct x as [s|s| |s m e]; try done.
  - destruct y as [s'|[]| |[] m' e']; unfold f64_eqb; simpl; split; try done; eauto;
      intros [|(? & ? & ? & ?)]; done.
  - destruct y as [s'|s'| |s' m' e'].
    1-3: unfold f64_eqb; destruct s; try destruct s'; simpl; split; try done;
      intros [|(? & ? & ? & ?)]; done.
    destruct (decide (s = s')) as [->|Hne].
    + rewrite f64_eqb_same_sign. split; [intros [-> ->]; by left|].
      intros [|(? & ? & ? & ?)]; naive_solver.
    + unfold f64_eqb; destruct s, s'; simpl; split; try done;
        intros [|(? & ? & ? & ?)]; congruence.
Qed.

(** ** [BTreeMap]

    A finite map whose iteration goes through the keys in increasing
    order. *)
Section btree.
Context `{Countable K, !KeyOrder K}.

Definition entry_le {V} (p q : K * V) : Prop := key_le p.1 q.1.
Definition entry_lt {V} (p q : K * V) : Prop := key_lt p.1 q.1.
#[export] Instance entry_le_dec {V} : RelDecision (entry_le (V:=V)).
Proof. intros p q; unfold entry_le; apply _. Defined.
#[export] Instance entry_le_total {V} : Total (entry_le (V:=V)).
Proof. intros p q; unfold entry_le; apply (total key_le). Qed.
#[export] Instance entry_le_trans {V} : Transitive (entry_le (V:=V)).
Proof. intros p q r; unfold entry_le; by transitivity (q.1). Qed.

(** [m.iter()], [m.keys()], [m.values()] *)
Definition bt_iter {V} (m : gmap K V) : list (K * V) := merge_sort entry_le (map_to_list m).
Definition bt_keys {V} (m : gmap K V) : list K := (bt_iter m).*1.
Definition bt_values {V} (m : gmap K V) : list V := (bt_iter m).*2.

(** [m.contains_key(k)] *)
Definition bt_contains {V} (m : gmap K V) (k : K) : bool := bool_decide (is_Some (m !! k)).

Lemma bt_iter_perm {V} (m : gmap K V) : bt_iter m ≡ₚ map_to_list m.
Proof. apply merge_sort_Permutation. Qed.

Lemma elem_of_bt_iter {V} (m : gmap K V) k v : (k, v) ∈ bt_iter m ↔ m !! k = Some v.
Proof. rewrite bt_iter_perm. apply elem_of_map_to_list. Qed.

Lemma elem_of_bt_values {V} (m : gmap K V) v : v ∈ bt_values m ↔ ∃ k, m !! k = Some v.
Proof.
  unfold bt_values. rewrite list_elem_of_fmap. split.
  - intros ([k w] & -> & Hk%elem_of_bt_iter). by exists k.
  - intros [k Hk]. exists (k, v). by rewrite elem_of_bt_iter.
Qed.

Lemma elem_of_bt_keys {V} (m : gmap K V) k : k ∈ bt_keys m ↔ is_Some (m !! k).
Proof.
  unfold bt_keys. rewrite list_elem_of_fmap. split.
  - intros ([k' w] & -> & Hk%elem_of_bt_iter). by exists w.
  - intros [v Hk]. exists (k, v). by rewrite elem_of_bt_iter.
Qed.

Lemma NoDup_bt_keys {V} (m : gmap K V) : NoDup (bt_keys m).
Proof. unfold bt_keys. rewrite bt_iter_perm. apply NoDup_fst_map_to_list. Qed.

Lemma length_bt_iter {V} (m : gmap K V) : length (bt_iter m) = size m.
Proof. rewrite bt_iter_perm. apply length_map_to_list. Qed.

Lemma bt_iter_empty {V} : bt_iter (∅ : gmap K V) = [].
Proof. unfold bt_iter. by rewrite map_to_list_empty. Qed.

Lemma list_to_map_bt_iter {V} (m : gmap K V) : list_to_map (bt_iter m) = m.
Proof.
  rewrite <-(list_to_map_to_list m) at 2.
  apply list_to_map_proper; [apply NoDup_bt_keys|apply bt_iter_perm].
Qed.

Lemma entry_lt_of_le {V} (l : list (K * V)) :
  NoDup l.*1 → StronglySorted entry_le l → StronglySorted entry_lt l.
Proof.
  induction l as [|[k v] l IH]; simpl; intros Hnd Hs; [constructor|].
  apply list.NoDup_cons in Hnd as [Hk Hnd]. inversion Hs as [|? ? Hs' Hall]; subst.
  constructor; [by apply IH|]. rewrite list.Forall_forall in Hall |- *.
  intros [k' v'] Hin. split; [by apply Hall|]. simpl. intros ->.
  apply Hk. rewrite list_elem_of_fmap. by exists (k', v').
Qed.

(** The iteration is in strictly increasing key order. *)
Lemma bt_iter_sorted {V} (m : gmap K V) : StronglySorted entry_lt (bt_iter m).
Proof.
  apply entry_lt_of_le; [apply NoDup_bt_keys|].
  unfold bt_iter. apply (StronglySorted_merge_sort entry_le).
Qed.

Lemma bt_keys_sorted {V} (m : gmap K V) : StronglySorted key_lt (bt_keys m).
Proof.
  unfold bt_keys. generalize (bt_iter_sorted m). generalize (bt_iter m).
  induction 1 as [|[k v] l Hl IH Hall]; simpl; constructor; [done|].
  rewrite Forall_fmap. done.
Qed.

Lemma bt_keys_empty {V} (m : gmap K V) : bt_keys m = [] ↔ m = ∅.
Proof.
  split; [|intros ->; unfold bt_keys; by rewrite bt_iter_empty].
  intros Hk. apply map_empty. intros k. apply eq_None_not_Some.
  rewrite <-elem_of_bt_keys, Hk. apply not_elem_of_nil.
Qed.
End btree.

(** ** [slice::binary_search(x).is_ok()]

    The loop of the standard library: halve the window until one element
    is left. *)
Section binary_search.
Context `{EqDecision K, !KeyOrder K}.

Fixpoint bsearch_loop (l : list K) (x : K) (base size : nat) (fuel : nat) : nat :=
  match fuel with
  | O => base
  | S fuel =>
    if (size <=? 1)%nat then base else
    let half := Nat.div2 size in
    let mid := (base + half)%nat in
    match l !! mid with
    | Some y => bsearch_loop l x (if decide (key_lt x y) then base else mid)
                  (size - half) fuel
    | None => base
    end
  end.
Definition binary_search (l : list K) (x : K) : bool :=
  match l with
  | [] => false
  | _ => bool_decide (l !! bsearch_loop l x 0 (length l) (length l) = Some x)
  end.
End binary_search.

Section binary_search_lemmas.
Context `{EqDecision K, !KeyOrder K}.
Implicit Types (l : list K) (x y : K).

Lemma sorted_lookup_lt l i j x y :
  StronglySorted key_lt l → l !! i = Some x → l !! j = Some y → (i < j)%nat → key_lt x y.
Proof.
  intros Hs. revert i j; induction Hs as [|z l Hs IH Hall]; intros i j; [done|].
  destruct j as [|j]; [lia|]. simpl. destruct i as [|i]; simpl.
  - intros [= ->] Hj _. rewrite list.Forall_forall in Hall.
    apply Hall, list_elem_of_lookup. by exists j.
  - intros Hi Hj ?. apply (IH i j); [done|done|lia].
Qed.

Lemma bsearch_loop_spec l x i fuel base size :
  StronglySorted key_lt l → l !! i = Some x →
  (base ≤ i < base + size)%nat → (base + size ≤ length l)%nat → (size ≤ fuel)%nat →
  bsearch_loop l x base size fuel = i.
Proof.
  intros Hs Hi. revert base size.
  induction fuel as [|fuel IH]; intros base size Hbi Hlen Hfuel; simpl; [lia|].
  destruct (Nat.leb_spec size 1) as [Hle|Hgt]; [lia|].
  assert (Nat.div2 size < size ∧ 1 ≤ Nat.div2 size ∧ Nat.div2 size ≤ size - Nat.div2 size)%nat
    as (Hd1 & Hd2 & Hd3).
  { rewrite Nat.div2_div. pose proof (Nat.div_mod_eq size 2).
    pose proof (Nat.mod_upper_bound size 2). lia. }
  destruct (lookup_lt_is_Some_2 l (base + Nat.div2 size)) as [y Hy]; [lia|].
  rewrite Hy. case_decide as Hxy; apply IH; try lia.
  - destruct (decide (i < base + Nat.div2 size)%nat) as [|Hnlt]; [lia|].
    destruct (decide (i = base + Nat.div2 size)%nat) as [->|Hne].
    + exfalso. assert (x = y) as -> by congruence. by apply (irreflexivity key_lt y).
    + exfalso. assert (key_lt y x) as Hyx by (eapply (sorted_lookup_lt l (base + Nat.div2 size) i); [done|done|done|lia]).
      apply (irreflexivity key_lt x). by transitivity y.
  - destruct (decide (i < base + Nat.div2 size)%nat) as [Hlt|]; [|lia].
    exfalso. apply Hxy. by apply (sorted_lookup_lt l i (base + Nat.div2 size)).
Qed.

(** On a sorted slice the search decides membership. *)
Lemma binary_search_spec l x :
  StronglySorted key_lt l → binary_search l x = true ↔ x ∈ l.
Proof.
  intros Hs. unfold binary_search. split.
  - destruct l as [|z l]; [done|]. intros Hb%bool_decide_eq_true.
    apply list_elem_of_lookup. eauto.
  - intros [i Hi]%list_elem_of_lookup. destruct l as [|z l]; [done|].
    apply bool_decide_eq_true.
    pose proof (lookup_lt_Some _ _ _ Hi). rewrite (bsearch_loop_spec _ x i); done || lia.
Qed.

Lemma binary_search_false l x :
  StronglySorted key_lt l → binary_search l x = false ↔ x ∉ l.
Proof.
  intros Hs. rewrite <-(binary_search_spec l x Hs).
  destruct (binary_search l x); naive_solver.
Qed.
End binary_search_lemmas.

(** ** Rows of cells

    [rows.entry(row).or_default().insert(column, cell)]: the nested map the
    program groups flat cells into. *)
Definition row_insert {V} (rows : gmap string (gmap string V)) (row column : string) (v : V)
  : gmap string (gmap string V) :=
  <[row := <[column := v]> (default ∅ (rows !! row))]> rows.

(** The cell of a nested map. *)
Definition row_cell {V} (rows : gmap string (gmap string V)) (row column : string) : option V :=
  rows !! row ≫= λ columns, columns !! column.

Definition group_rows {V} (l : list ((string * string) * V)) : gmap string (gmap string V) :=
  foldl (λ rows e, row_insert rows e.1.1 e.1.2 e.2) ∅ l.

Section rows.
Context {V : Type}.
Implicit Types (rows : gmap string (gmap string V)) (l : list ((string * string) * V)).

Lemma row_cell_insert_eq rows r c v : row_cell (row_insert rows r c v) r c = Some v.
Proof. unfold row_cell, row_insert. by rewrite lookup_insert_eq; simpl; rewrite lookup_insert_eq. Qed.

Lemma row_cell_insert_ne rows r c v r' c' :
  (r, c) ≠ (r', c') → row_cell (row_insert rows r c v) r' c' = row_cell rows r' c'.
Proof.
  intros Hne. unfold row_cell, row_insert. destruct (decide (r = r')) as [->|Hr].
  - rewrite lookup_insert_eq; simpl. rewrite lookup_insert_ne by congruence.
    by destruct (rows !! r').
  - by rewrite lookup_insert_ne.
Qed.

Lemma group_rows_snoc l e :
  group_rows (l ++ [e]) = row_insert (group_rows l) e.1.1 e.1.2 e.2.
Proof. unfold group_rows. by rewrite foldl_app. Qed.

(** Grouping loses no cell and invents none. *)
Lemma group_rows_cell l r c v :
  NoDup l.*1 → row_cell (group_rows l) r c = Some v ↔ ((r, c), v) ∈ l.
Proof.
  induction l as [|[[r0 c0] v0] l IH] using rev_ind; intros Hnd.
  { unfold row_cell, group_rows; simpl. rewrite lookup_empty. simpl.
    split; [done|]. by intros ?%not_elem_of_nil. }
  rewrite group_rows_snoc; simpl. rewrite fmap_app in Hnd; simpl in Hnd.
  apply list.NoDup_app in Hnd as (Hnd & Hdisj & _).
  assert ((r0, c0) ∉ l.*1) as Hfresh by (intros Hin; eapply Hdisj; [done|set_solver]).
  rewrite elem_of_app, list_elem_of_singleton.
  destruct (decide ((r0, c0) = (r, c))) as [[= -> ->]|Hne].
  - rewrite row_cell_insert_eq. split; [intros [= ->]; by right|].
    intros [Hin|[= ->]]; [|done]. exfalso. apply Hfresh.
    rewrite list_elem_of_fmap. by exists ((r, c), v).
  - rewrite row_cell_insert_ne by done. rewrite IH by done. naive_solver.
Qed.

(** No row of a grouping is empty. *)
Lemma group_rows_nonempty l r columns : group_rows l !! r = Some columns → columns ≠ ∅.
Proof.
  induction l as [|[[r0 c0] v0] l IH] using rev_ind; [done|].
  rewrite group_rows_snoc; unfold row_insert; simpl. intros Hl.
  destruct (decide (r0 = r)) as [->|Hne].
  - rewrite lookup_insert_eq in Hl. injection Hl as <-. apply insert_non_empty.
  - rewrite lookup_insert_ne in Hl by done. by apply IH.
Qed.

Lemma group_rows_dom l r :
  is_Some (group_rows l !! r) ↔ ∃ c v, ((r, c), v) ∈ l.
Proof.
  induction l as [|[[r0 c0] v0] l IH] using rev_ind.
  { unfold group_rows; simpl. rewrite lookup_empty. split; [by intros []|].
    intros (c & v & []%not_elem_of_nil). }
  rewrite group_rows_snoc; unfold row_insert; simpl.
  setoid_rewrite elem_of_app. setoid_rewrite list_elem_of_singleton.
  destruct (decide (r0 = r)) as [->|Hne].
  - rewrite lookup_insert_eq. split; [|eauto]. intros _. exists c0, v0. by right.
  - rewrite lookup_insert_ne by done. rewrite IH. naive_solver.
Qed.
End rows.
