(* ===== verification/Error.v ===== *)
(** * Errors exposed by the protocol and the persistence adapters (src/error.rs) *)
From S2P Require Import Prelude RustStd.

(** The variants that wrap a third-party error carry its text. *)
Inductive SyncError : Type :=
| Sqlite (e : string)
| Postgres (e : string)
| Serialization (e : string)
| InvalidPayload (msg : string)
| SchemaMismatch (expected actual : N)
| ClockOverflow
| SqliteLockPoisoned
| BlockingTask (msg : string)
| SyncPageBudgetExhausted.

#[export] Instance SyncError_eq_dec : EqDecision SyncError.
Proof. solve_decision. Defined.

(** [pub type Result<T> = std::result::Result<T, SyncError>] *)
Abbreviation Result := (result SyncError).

Definition invalid {A} (msg : string) : Result A := Err (InvalidPayload msg).

(** [impl Display], as [#[error(...)]] derives it. *)
Definition SyncError_to_string (error : SyncError) : string :=
  match error with
  | Sqlite e => "SQLite error: " +:+ e
  | Postgres e => "PostgreSQL error: " +:+ e
  | Serialization e => "serialization error: " +:+ e
  | InvalidPayload msg => "invalid payload: " +:+ msg
  | SchemaMismatch expected actual =>
    "schema fingerprint mismatch: payload 0x" +:+ fmt_016x actual +:+
    ", local contract 0x" +:+ fmt_016x expected
  | ClockOverflow => "Lamport clock overflow"
  | SqliteLockPoisoned => "SQLite mutex was poisoned by a panic"
  | BlockingTask msg => "blocking task failed: " +:+ msg
  | SyncPageBudgetExhausted => "sync page budget exhausted before the client caught up"
  end.

(** Text produced by code outside the repository's own logic: the [Debug]
    form of a string, which depends on the Unicode tables of the compiler.
    It only ever reaches error messages and explanations. *)
Class StrDebug := { str_debug : string → string }.
