(* ===== verification/Schema.v ===== *)
(** * The declarative sync contract and SQL generation (src/schema.rs) *)
From S2P Require Import Prelude RustStd Error.

(** Reserved names ([crdt::DELETED_COLUMN] and the constants of schema.rs). *)
Definition TITLE_COLUMN : string := "title".
Definition COMPLETED_COLUMN : string := "completed".
Definition DELETED_COLUMN : string := "deleted".
Definition LIVENESS_COLUMN : string := DELETED_COLUMN.
Definition PRIMARY_KEY_COLUMN : string := "id".
Definition MAX_IDENTIFIER_LEN : N := 63.
Definition I64_MAX_LITERAL : string := "9223372036854775807".

(** ** Column types *)
Inductive ColumnType := TText | TInteger | TReal | TBoolean.
#[export] Instance ColumnType_eq_dec : EqDecision ColumnType.
Proof. solve_decision. Defined.

Definition sqlite_type (ty : ColumnType) : string :=
  match ty with
  | TText => "TEXT" | TInteger => "INTEGER" | TReal => "REAL" | TBoolean => "BOOLEAN"
  end.
Definition postgres_type (ty : ColumnType) : string :=
  match ty with
  | TText => "TEXT" | TInteger => "BIGINT" | TReal => "DOUBLE PRECISION"
  | TBoolean => "BOOLEAN"
  end.
Definition sqlite_default (ty : ColumnType) : string :=
  match ty with TText => "''" | TInteger | TReal | TBoolean => "0" end.
Definition postgres_default (ty : ColumnType) : string :=
  match ty with TText => "''" | TInteger | TReal => "0" | TBoolean => "FALSE" end.
Definition tag (ty : ColumnType) : string :=
  match ty with
  | TText => "text" | TInteger => "integer" | TReal => "real" | TBoolean => "boolean"
  end.
Definition sqlite_capture_expr (ty : ColumnType) (column : string) : string :=
  match ty with
  | TText => "NEW." +:+ column
  | TInteger | TReal | TBoolean => "CAST(NEW." +:+ column +:+ " AS TEXT)"
  end.

(** ** Tables *)
Record ColumnDef := { cd_name : string; cd_ty : ColumnType }.
#[export] Instance ColumnDef_eq_dec : EqDecision ColumnDef.
Proof. solve_decision. Defined.
Definition ColumnDef_new (name : string) (ty : ColumnType) : ColumnDef :=
  {| cd_name := name; cd_ty := ty |}.

Record TableDef := { td_name : string; td_columns : list ColumnDef }.
#[export] Instance TableDef_eq_dec : EqDecision TableDef.
Proof. solve_decision. Defined.

(** [validate_sql_identifier]'s test, and the function with its error. *)
Definition is_identifier_start (b : N) : bool := (b =? 95)%N || is_ascii_lowercase b.
Definition is_identifier_byte (b : N) : bool :=
  (b =? 95)%N || is_ascii_lowercase b || is_ascii_digit b.

Section schema.
Context `{!StrDebug}.

Definition validate_sql_identifier (kind name : string) : Result unit :=
  let valid :=
    negb (str_is_empty name)
    && (str_len name <=? MAX_IDENTIFIER_LEN)%N
    && match str_bytes name with [] => false | b :: _ => is_identifier_start b end
    && forallb is_identifier_byte (str_bytes name) in
  if valid then Ok tt
  else invalid (kind +:+ " " +:+ str_debug name +:+
    " must be a lowercase [a-z0-9_] SQL identifier of 1..=" +:+
    pretty MAX_IDENTIFIER_LEN +:+ " bytes").

Definition RESERVED_TABLES : list string :=
  ["client_state"; "loomabase_cursor"; "loomabase_cursor_lease";
   "loomabase_server_state"; "loomabase_state"].

Definition TableDef_new_column (seen : gset string) (column : ColumnDef)
  : Result (gset string) :=
  validate_sql_identifier "column name" (cd_name column) ≫= λ _,
  if bool_decide (cd_name column = PRIMARY_KEY_COLUMN)
     || bool_decide (cd_name column = LIVENESS_COLUMN)
  then invalid ("column name " +:+ cd_name column +:+ " is reserved")
  else if bool_decide (cd_name column ∈ seen)
  then invalid ("duplicate column " +:+ cd_name column)
  else Ok ({[ cd_name column ]} ∪ seen).

Definition TableDef_new (name : string) (columns : list ColumnDef) : Result TableDef :=
  validate_sql_identifier "table name" name ≫= λ _,
  if bool_decide (name ∈ RESERVED_TABLES)
  then invalid ("table name " +:+ name +:+ " is reserved")
  else match columns with
  | [] => invalid "a synchronized table needs at least one application column"
  | _ =>
    foldM TableDef_new_column ∅ columns ≫= λ _,
    Ok {| td_name := name; td_columns := columns |}
  end.

End schema.

Definition crdt_table (t : TableDef) : string := td_name t +:+ "_crdt".

Definition synchronized_columns (t : TableDef) : list ColumnDef :=
  td_columns t ++ [ColumnDef_new LIVENESS_COLUMN TBoolean].
Definition synchronized_column_names (t : TableDef) : list string :=
  cd_name <$> synchronized_columns t.

Definition column_type (t : TableDef) (name : string) : option ColumnType :=
  if bool_decide (name = LIVENESS_COLUMN) then Some TBoolean
  else cd_ty <$> List.find (λ column, bool_decide (cd_name column = name)) (td_columns t).

Definition todos_table : TableDef :=
  {| td_name := "todos";
     td_columns := [ColumnDef_new TITLE_COLUMN TText;
                    ColumnDef_new COMPLETED_COLUMN TBoolean] |}.

(** ** Fingerprints *)
Definition fnv1a_64_step (hash byte : N) : N :=
  u64_wrapping_mul (N.lxor hash byte) 1099511628211.
Definition fnv1a_64 (bytes : list N) : N :=
  foldl fnv1a_64_step 14695981039346656037%N bytes.

Definition table_descriptor (t : TableDef) : string :=
  foldl (λ descriptor column,
           descriptor +:+ ";" +:+ cd_name column +:+ ":" +:+ tag (cd_ty column))
        ("loomabase-contract-v1;" +:+ td_name t) (synchronized_columns t).
Definition table_fingerprint (t : TableDef) : N :=
  fnv1a_64 (str_bytes (table_descriptor t)).

(** ** Column DDL *)
Definition sqlite_column_ddl (column : ColumnDef) : string :=
  let ddl := cd_name column +:+ " " +:+ sqlite_type (cd_ty column) +:+
             " NOT NULL DEFAULT " +:+ sqlite_default (cd_ty column) in
  if bool_decide (cd_ty column = TBoolean)
  then ddl +:+ " CHECK (" +:+ cd_name column +:+ " IN (0, 1))"
  else ddl.
Definition postgres_column_ddl (column : ColumnDef) : string :=
  cd_name column +:+ " " +:+ postgres_type (cd_ty column) +:+
  " NOT NULL DEFAULT " +:+ postgres_default (cd_ty column).

(** ** Migrations

    [existing] maps the columns of the table found in the database to their
    declared types. *)
Definition incompatible_type_change (column : string) : SyncError :=
  InvalidPayload ("incompatible schema change: column " +:+ column +:+
                  " already exists with a different type").

Definition reject_removed_columns (existing : gmap string string) (expected : list string)
  : Result unit :=
  let expected : gset string := list_to_set expected in
  match List.find (λ column, bool_decide (¬ column ∈ expected)) (bt_keys existing) with
  | Some removed =>
    invalid ("incompatible schema change: existing column " +:+ removed +:+
             " was removed from the contract")
  | None => Ok tt
  end.

Definition sqlite_migration_column (t : TableDef) (existing : gmap string string)
    (acc : list string * bool) (column : ColumnDef) : Result (list string * bool)%type :=
  match existing !! cd_name column with
  | None =>
    Ok (acc.1 ++ ["ALTER TABLE " +:+ td_name t +:+ " ADD COLUMN " +:+
                  sqlite_column_ddl column], true)
  | Some declared =>
    if negb (eq_ignore_ascii_case declared (sqlite_type (cd_ty column)))
    then Err (incompatible_type_change (cd_name column))
    else Ok acc
  end.
Definition sqlite_migration_sql (t : TableDef) (existing : gmap string string)
  : Result (list string) :=
  reject_removed_columns existing
    (PRIMARY_KEY_COLUMN :: (cd_name <$> synchronized_columns t)) ≫= λ _,
  foldM (sqlite_migration_column t existing) ([], false) (synchronized_columns t) ≫= λ acc : (list string * bool)%type,
  Ok (if acc.2
      then acc.1 ++ ["DROP TRIGGER IF EXISTS " +:+ td_name t +:+ "_crdt_after_insert"]
      else acc.1).

Definition postgres_migration_column (t : TableDef) (existing : gmap string string)
    (statements : list string) (column : ColumnDef) : Result (list string) :=
  match existing !! cd_name column with
  | None =>
    Ok (statements ++ ["ALTER TABLE " +:+ td_name t +:+ " ADD COLUMN IF NOT EXISTS " +:+
                       postgres_column_ddl column])
  | Some declared =>
    if negb (eq_ignore_ascii_case declared (postgres_type (cd_ty column)))
    then Err (incompatible_type_change (cd_name column))
    else Ok statements
  end.
Definition postgres_migration_sql (t : TableDef) (existing : gmap string string)
  : Result (list string) :=
  reject_removed_columns existing
    ("tenant_id" :: PRIMARY_KEY_COLUMN :: (cd_name <$> synchronized_columns t)) ≫= λ _,
  foldM (postgres_migration_column t existing) [] (synchronized_columns t).

Definition postgres_crdt_migration_sql (t : TableDef) (existing : gmap string string)
  : Result (list string) :=
  if bool_decide (existing = ∅) then Ok [] else
  match existing !! "seq" with
  | Some declared =>
    if negb (eq_ignore_ascii_case declared "bigint")
    then Err (incompatible_type_change "seq") else Ok tt
  | None => Ok tt
  end ≫= λ _,
  let crdt := crdt_table t in
  Ok ["ALTER TABLE " +:+ crdt +:+ " ADD COLUMN IF NOT EXISTS seq BIGINT";
      "UPDATE " +:+ crdt +:+ " SET seq = nextval('loomabase_seq') WHERE seq IS NULL";
      "ALTER TABLE " +:+ crdt +:+ " ALTER COLUMN seq SET NOT NULL";
      "ALTER TABLE " +:+ crdt +:+
        " ALTER COLUMN seq SET DEFAULT nextval('loomabase_seq')"].

(** ** The SQLite schema and its change-capture triggers *)
Definition clock_overflow_guard : string :=
"    SELECT CASE
        WHEN (SELECT lamport_clock FROM client_state WHERE singleton = 1) >= " +:+
I64_MAX_LITERAL +:+ "
        THEN RAISE(ABORT, 'lamport clock overflow')
    END;".

Definition capture_statement (crdt : string) (column : ColumnDef) : string :=
"    INSERT INTO " +:+ crdt +:+ "(todo_id, column_name, value, lamport_clock, device_id, dirty)
    SELECT NEW.id, '" +:+ cd_name column +:+ "', " +:+
    sqlite_capture_expr (cd_ty column) (cd_name column) +:+ ", lamport_clock, device_id, 1
    FROM client_state WHERE singleton = 1
    ON CONFLICT(todo_id, column_name) DO UPDATE SET
        value = excluded.value,
        lamport_clock = excluded.lamport_clock,
        device_id = excluded.device_id,
        dirty = 1;".

Definition nl : string := "
".

Definition sqlite_schema_fixed : string := "
CREATE TABLE IF NOT EXISTS client_state (
    singleton INTEGER PRIMARY KEY CHECK (singleton = 1),
    device_id TEXT NOT NULL,
    lamport_clock INTEGER NOT NULL CHECK (lamport_clock >= 0),
    applying_remote INTEGER NOT NULL DEFAULT 0 CHECK (applying_remote IN (0, 1))
);
CREATE TABLE IF NOT EXISTS loomabase_cursor (
    crdt_table TEXT PRIMARY KEY,
    cursor INTEGER NOT NULL DEFAULT 0,
    cursor_token TEXT,
    server_epoch TEXT
);
".

Definition sqlite_app_table (t : TableDef) : string :=
  nl +:+ "CREATE TABLE IF NOT EXISTS " +:+ td_name t +:+ " (" +:+ nl +:+
  "    id TEXT PRIMARY KEY" +:+
  String.concat "" ((λ column, "," +:+ nl +:+ "    " +:+ sqlite_column_ddl column)
                      <$> td_columns t) +:+
  "," +:+ nl +:+ "    " +:+ sqlite_column_ddl (ColumnDef_new LIVENESS_COLUMN TBoolean) +:+
  nl +:+ ");" +:+ nl.

Definition sqlite_crdt_table (t : TableDef) : string :=
  let crdt := crdt_table t in "
CREATE TABLE IF NOT EXISTS " +:+ crdt +:+ " (
    todo_id TEXT NOT NULL,
    column_name TEXT NOT NULL,
    value TEXT NOT NULL,
    lamport_clock BIGINT NOT NULL CHECK (lamport_clock >= 0),
    device_id TEXT NOT NULL,
    dirty INTEGER NOT NULL DEFAULT 1 CHECK (dirty IN (0, 1)),
    PRIMARY KEY (todo_id, column_name),
    FOREIGN KEY (todo_id) REFERENCES " +:+ td_name t +:+ "(id) ON DELETE CASCADE
);

CREATE INDEX IF NOT EXISTS " +:+ crdt +:+ "_dirty_idx
    ON " +:+ crdt +:+ "(dirty, todo_id, column_name);
".

Definition sqlite_insert_trigger (t : TableDef) : string :=
  let crdt := crdt_table t in "
CREATE TRIGGER IF NOT EXISTS " +:+ crdt +:+ "_after_insert
AFTER INSERT ON " +:+ td_name t +:+ "
WHEN (SELECT applying_remote FROM client_state WHERE singleton = 1) = 0
BEGIN
" +:+ clock_overflow_guard +:+ "
    UPDATE client_state SET lamport_clock = lamport_clock + 1 WHERE singleton = 1;" +:+
  String.concat "" ((λ column, nl +:+ capture_statement crdt column)
                      <$> synchronized_columns t) +:+
  nl +:+ "END;" +:+ nl.

Definition sqlite_update_trigger (t : TableDef) (column : ColumnDef) : string :=
  let crdt := crdt_table t in
  let col := cd_name column in "
CREATE TRIGGER IF NOT EXISTS " +:+ crdt +:+ "_after_" +:+ col +:+ "_update
AFTER UPDATE OF " +:+ col +:+ " ON " +:+ td_name t +:+ "
WHEN OLD." +:+ col +:+ " IS NOT NEW." +:+ col +:+ "
 AND (SELECT applying_remote FROM client_state WHERE singleton = 1) = 0
BEGIN
" +:+ clock_overflow_guard +:+ "
    UPDATE client_state SET lamport_clock = lamport_clock + 1 WHERE singleton = 1;
" +:+ capture_statement crdt column +:+ "
END;
".

Definition sqlite_schema (t : TableDef) : string :=
  sqlite_schema_fixed +:+ sqlite_app_table t +:+ sqlite_crdt_table t +:+
  sqlite_insert_trigger t +:+
  String.concat "" (sqlite_update_trigger t <$> synchronized_columns t).

(** ** The PostgreSQL schema and its tenant isolation *)
Definition postgres_schema_fixed : string := "
CREATE TABLE IF NOT EXISTS loomabase_state (
    tenant_id TEXT PRIMARY KEY,
    lamport_clock BIGINT NOT NULL CHECK (lamport_clock >= 0)
);
CREATE TABLE IF NOT EXISTS loomabase_cursor_lease (
    tenant_id TEXT NOT NULL,
    device_id TEXT NOT NULL,
    crdt_table TEXT NOT NULL,
    max_issued_cursor BIGINT NOT NULL CHECK (max_issued_cursor >= 0),
    cursor_token TEXT NOT NULL DEFAULT gen_random_uuid()::text,
    server_epoch TEXT NOT NULL,
    last_seen_at TIMESTAMPTZ NOT NULL DEFAULT clock_timestamp(),
    PRIMARY KEY (tenant_id, device_id, crdt_table)
);
CREATE TABLE IF NOT EXISTS loomabase_server_state (
    singleton BOOLEAN PRIMARY KEY DEFAULT TRUE CHECK (singleton),
    server_epoch TEXT NOT NULL
);
INSERT INTO loomabase_server_state(singleton, server_epoch)
VALUES (TRUE, gen_random_uuid()::text)
ON CONFLICT(singleton) DO NOTHING;
CREATE TABLE IF NOT EXISTS loomabase_audit_log (
    audit_id TEXT PRIMARY KEY DEFAULT gen_random_uuid()::text,
    tenant_id TEXT NOT NULL,
    table_name TEXT NOT NULL,
    todo_id TEXT NOT NULL,
    column_name TEXT NOT NULL,
    device_id TEXT NOT NULL,
    outcome TEXT NOT NULL,
    reason TEXT NOT NULL,
    incoming_value JSONB NOT NULL,
    incoming_lamport BIGINT NOT NULL CHECK (incoming_lamport >= 0),
    incoming_device_id TEXT NOT NULL,
    current_value JSONB,
    current_lamport BIGINT CHECK (current_lamport IS NULL OR current_lamport >= 0),
    current_device_id TEXT,
    created_at TIMESTAMPTZ NOT NULL DEFAULT clock_timestamp()
);
CREATE INDEX IF NOT EXISTS loomabase_audit_log_tenant_created_idx
    ON loomabase_audit_log(tenant_id, created_at DESC);
CREATE INDEX IF NOT EXISTS loomabase_audit_log_cell_idx
    ON loomabase_audit_log(tenant_id, table_name, todo_id, column_name, created_at DESC);
CREATE SEQUENCE IF NOT EXISTS loomabase_seq;
".

Definition postgres_schema (t : TableDef) : string :=
  let crdt := crdt_table t in
  postgres_schema_fixed +:+
  nl +:+ "CREATE TABLE IF NOT EXISTS " +:+ td_name t +:+ " (" +:+ nl +:+
  "    tenant_id TEXT NOT NULL," +:+ nl +:+ "    id TEXT NOT NULL" +:+
  String.concat "" ((λ column, "," +:+ nl +:+ "    " +:+ postgres_column_ddl column)
                      <$> td_columns t) +:+
  "," +:+ nl +:+ "    " +:+ postgres_column_ddl (ColumnDef_new LIVENESS_COLUMN TBoolean) +:+
  "," +:+ nl +:+ "    PRIMARY KEY (tenant_id, id)" +:+ nl +:+ ");" +:+ nl +:+ "
CREATE TABLE IF NOT EXISTS " +:+ crdt +:+ " (
    tenant_id TEXT NOT NULL,
    todo_id TEXT NOT NULL,
    column_name TEXT NOT NULL,
    value JSONB NOT NULL,
    lamport_clock BIGINT NOT NULL CHECK (lamport_clock >= 0),
    device_id TEXT NOT NULL,
    seq BIGINT NOT NULL DEFAULT nextval('loomabase_seq'),
    PRIMARY KEY(tenant_id, todo_id, column_name),
    FOREIGN KEY (tenant_id, todo_id) REFERENCES " +:+ td_name t +:+
    "(tenant_id, id) ON DELETE CASCADE
);
CREATE INDEX IF NOT EXISTS " +:+ crdt +:+ "_clock_idx
    ON " +:+ crdt +:+ "(tenant_id, lamport_clock, device_id);
CREATE INDEX IF NOT EXISTS " +:+ crdt +:+ "_seq_idx
    ON " +:+ crdt +:+ "(tenant_id, seq);
".

Definition postgres_rls (table : string) : string := "
ALTER TABLE " +:+ table +:+ " ENABLE ROW LEVEL SECURITY;
ALTER TABLE " +:+ table +:+ " FORCE ROW LEVEL SECURITY;
DROP POLICY IF EXISTS loomabase_tenant_isolation ON " +:+ table +:+ ";
CREATE POLICY loomabase_tenant_isolation ON " +:+ table +:+ "
    USING (tenant_id = current_setting('loomabase.tenant_id', true))
    WITH CHECK (tenant_id = current_setting('loomabase.tenant_id', true));
".
Definition postgres_rls_policies (t : TableDef) : string :=
  String.concat "" (postgres_rls <$>
    ["loomabase_state"; "loomabase_cursor_lease"; "loomabase_audit_log";
     td_name t; crdt_table t]).

(** ** Contracts: several tables sharing one edge database *)
Record Contract := { ct_tables : list TableDef }.

Definition Contract_new_table (seen : gset string) (t : TableDef) : Result (gset string) :=
  if bool_decide (td_name t ∈ seen)
  then invalid ("duplicate table " +:+ td_name t)
  else Ok ({[ td_name t ]} ∪ seen).
Definition Contract_new (tables : list TableDef) : Result Contract :=
  match tables with
  | [] => invalid "a contract needs at least one table"
  | _ =>
    foldM Contract_new_table ∅ tables ≫= λ _, Ok {| ct_tables := tables |}
  end.

Definition Contract_sqlite_schema (c : Contract) : string :=
  String.concat "" (sqlite_schema <$> ct_tables c).

#[export] Instance N_key_order : KeyOrder N.
Proof. refine {| key_le := N.le |}. Defined.

Definition contract_descriptor (fingerprints : list (string * N)) : string :=
  foldl (λ descriptor '(name, fingerprint),
           descriptor +:+ ";" +:+ name +:+ "=" +:+ fmt_016x fingerprint)
        "loomabase-contract-v1" fingerprints.
Definition Contract_fingerprint (c : Contract) : N :=
  let fingerprints := (λ t, (td_name t, table_fingerprint t)) <$> ct_tables c in
  fnv1a_64 (str_bytes (contract_descriptor (merge_sort key_le fingerprints))).
