(* ===== verification/Crdt.v ===== *)
(** * CRDT values, protocol payloads and their validation (src/crdt.rs)

    The types of the wire protocol, the validators every payload goes
    through before it can touch a replica, and the last-writer-wins
    decision. *)
From Stdlib Require Import Strings.Byte.
From S2P Require Import Prelude RustStd Error Schema.

Definition SERVER_DEVICE_ID : string := "loomabase-server".
Definition MIN_SUPPORTED_PROTOCOL_VERSION : N := 3.
Definition PROTOCOL_VERSION : N := 4.
Definition MAX_PAYLOAD_ROWS : N := 10000.
Definition MAX_PAYLOAD_CELLS : N := 20000.
Definition MAX_RESPONSE_CELLS : N := 1000.
Definition MAX_RESPONSE_BYTES : N := 4194304.
Definition MAX_TEXT_BYTES : N := 1048576.
Definition MAX_REJECTION_REASON_BYTES : N := 2048.
Definition MAX_STORABLE_LAMPORT : N := I64_MAX.
Definition MAX_CLOCK_ADVANCE_PER_SYNC : N := 1000000.

(** ** Data *)
Inductive CrdtValue :=
| VNull
| VInteger (i : Z)
| VReal (r : f64)
| VText (s : string)
| VBoolean (b : bool)
| VBlob (bytes : list byte).
#[export] Instance byte_eq_dec : EqDecision byte := Byte.byte_eq_dec.
#[export] Instance CrdtValue_eq_dec : EqDecision CrdtValue.
Proof. solve_decision. Defined.

Record ColumnMetadata := { lamport_clock : N; device_id : string }.
#[export] Instance ColumnMetadata_eq_dec : EqDecision ColumnMetadata.
Proof. solve_decision. Defined.

Record CrdtColumn := { value : CrdtValue; metadata : ColumnMetadata }.
#[export] Instance CrdtColumn_eq_dec : EqDecision CrdtColumn.
Proof. solve_decision. Defined.

Record RowChange := { todo_id : string; columns : gmap string CrdtColumn }.
#[export] Instance RowChange_eq_dec : EqDecision RowChange.
Proof. solve_decision. Defined.

Inductive SyncRejectionKind := AuthorizationDenied | ValidationFailed.
#[export] Instance SyncRejectionKind_eq_dec : EqDecision SyncRejectionKind.
Proof. solve_decision. Defined.

Record SyncRejection := {
  sr_todo_id : string;
  sr_column_name : string;
  sr_kind : SyncRejectionKind;
  sr_reason : string;
  sr_value : CrdtValue;
  sr_metadata : ColumnMetadata;
}.
#[export] Instance SyncRejection_eq_dec : EqDecision SyncRejection.
Proof. solve_decision. Defined.

Record SyncPayload := {
  protocol_version : N;
  schema_fingerprint : N;
  source_device_id : string;
  source_lamport : N;
  changes : list RowChange;
  cursor : Z;
  has_more : bool;
  cursor_reset : bool;
  cursor_token : option string;
  server_epoch : option string;
  rejections : list SyncRejection;
}.
#[export] Instance SyncPayload_eq_dec : EqDecision SyncPayload.
Proof. solve_decision. Defined.

Definition SyncPayload_empty (source : string) (lamport : N) (t : TableDef) : SyncPayload :=
  {| protocol_version := PROTOCOL_VERSION;
     schema_fingerprint := table_fingerprint t;
     source_device_id := source;
     source_lamport := lamport;
     changes := [];
     cursor := 0;
     has_more := false;
     cursor_reset := false;
     cursor_token := None;
     server_epoch := None;
     rejections := [] |}.

(** ** [PartialEq] and [Ord]

    [value_eqb] is the derived equality, which compares reals with IEEE
    equality; [metadata_compare] is the derived lexicographic order. *)
Definition value_eqb (a b : CrdtValue) : bool :=
  match a, b with
  | VNull, VNull => true
  | VInteger i, VInteger j => (i =? j)%Z
  | VReal r, VReal s => f64_eqb r s
  | VText s, VText t => (s =? t)%string
  | VBoolean b, VBoolean c => Bool.eqb b c
  | VBlob x, VBlob y => bool_decide (x = y)
  | _, _ => false
  end.

Definition metadata_compare (a b : ColumnMetadata) : comparison :=
  match N.compare (lamport_clock a) (lamport_clock b) with
  | Eq => String.compare (device_id a) (device_id b)
  | c => c
  end.

(** ** Field validators *)
Definition validate_identifier (field value : string) : Result unit :=
  if str_is_empty value || (255 <? str_len value)%N || str_has_control value
  then invalid (field +:+ " must contain between 1 and 255 non-control characters")
  else Ok tt.

Definition validate_rejection_reason (reason : string) : Result unit :=
  if str_is_empty reason || (MAX_REJECTION_REASON_BYTES <? str_len reason)%N
     || str_has_control reason
  then invalid ("rejection reason must contain between 1 and " +:+
                pretty MAX_REJECTION_REASON_BYTES +:+ " non-control bytes")
  else Ok tt.

Definition validate_clock (clock : N) : Result unit :=
  if (clock <=? MAX_STORABLE_LAMPORT)%N then Ok tt else Err ClockOverflow.

Definition validate_clock_advance (current observed : N) : Result unit :=
  if (u64_saturating_sub observed current <=? MAX_CLOCK_ADVANCE_PER_SYNC)%N then Ok tt
  else invalid ("Lamport clock advances by more than the " +:+
                pretty MAX_CLOCK_ADVANCE_PER_SYNC +:+ " per-sync limit").

Definition validate_column (t : TableDef) (column_name : string) (v : CrdtValue)
  : Result unit :=
  match column_type t column_name with
  | None => invalid ("column is not synchronizable: " +:+ column_name)
  | Some ty =>
    match ty, v with
    | TText, VText text =>
      if (str_len text <=? MAX_TEXT_BYTES)%N then Ok tt
      else invalid ("text column " +:+ column_name +:+ " exceeds the " +:+
                    pretty MAX_TEXT_BYTES +:+ "-byte limit")
    | TInteger, VInteger _ | TBoolean, VBoolean _ => Ok tt
    | TReal, VReal real =>
      if f64_is_finite real then Ok tt
      else invalid ("real column " +:+ column_name +:+ " must be finite")
    | _, _ => invalid ("invalid value type for column " +:+ column_name)
    end
  end.

Definition validate_column_name (t : TableDef) (column_name : string) : Result unit :=
  match column_type t column_name with
  | Some _ => Ok tt
  | None => invalid ("column is not synchronizable: " +:+ column_name)
  end.

(** ** Payload validation *)

(** What the loop over the rows has seen so far. *)
Record validate_acc := {
  changed_cells : gset (string * string);
  changed_rows : gset string;
  cell_count : N;
}.

Definition validate_cell_change (t : TableDef) (row_id : string) (acc : validate_acc)
    (cell : string * CrdtColumn) : Result validate_acc :=
  let '(column_name, column) := cell in
  let count := (cell_count acc + 1)%N in
  if (MAX_PAYLOAD_CELLS <? count)%N
  then invalid ("payload exceeds the " +:+ pretty MAX_PAYLOAD_CELLS +:+
                " changed-cell limit")
  else
    validate_column t column_name (value column) ≫= λ _,
    validate_identifier "metadata.device_id" (device_id (metadata column)) ≫= λ _,
    validate_clock (lamport_clock (metadata column)) ≫= λ _,
    if bool_decide ((row_id, column_name) ∈ changed_cells acc)
    then invalid "payload contains a duplicate cell"
    else Ok {| changed_cells := {[ (row_id, column_name) ]} ∪ changed_cells acc;
               changed_rows := changed_rows acc;
               cell_count := count |}.

Definition validate_row_change (t : TableDef) (acc : validate_acc) (row : RowChange)
  : Result validate_acc :=
  validate_identifier "todo_id" (todo_id row) ≫= λ _,
  if bool_decide (todo_id row ∈ changed_rows acc)
  then invalid "payload contains a duplicate row"
  else if bool_decide (columns row = ∅)
  then invalid ("row " +:+ todo_id row +:+ " does not contain columns")
  else
    foldM (validate_cell_change t (todo_id row))
      {| changed_cells := changed_cells acc;
         changed_rows := {[ todo_id row ]} ∪ changed_rows acc;
         cell_count := cell_count acc |}
      (bt_iter (columns row)).

Definition validate_rejection (t : TableDef) (rejection : SyncRejection) : Result unit :=
  validate_identifier "rejection.todo_id" (sr_todo_id rejection) ≫= λ _,
  validate_column t (sr_column_name rejection) (sr_value rejection) ≫= λ _,
  validate_identifier "rejection.metadata.device_id"
    (device_id (sr_metadata rejection)) ≫= λ _,
  validate_clock (lamport_clock (sr_metadata rejection)) ≫= λ _,
  validate_rejection_reason (sr_reason rejection).

Definition validate_token (field : string * option string) : Result unit :=
  match field.2 with
  | Some v => validate_identifier field.1 v
  | None => Ok tt
  end.

(** [SyncPayload::validate] *)
Definition validate (p : SyncPayload) (t : TableDef) : Result unit :=
  if negb ((MIN_SUPPORTED_PROTOCOL_VERSION <=? protocol_version p)%N
           && (protocol_version p <=? PROTOCOL_VERSION)%N)
  then invalid ("unsupported protocol version " +:+ pretty (protocol_version p) +:+
                "; supported range is " +:+ pretty MIN_SUPPORTED_PROTOCOL_VERSION +:+
                "..=" +:+ pretty PROTOCOL_VERSION)
  else
  let local_fingerprint := table_fingerprint t in
  if negb (schema_fingerprint p =? local_fingerprint)%N
  then Err (SchemaMismatch local_fingerprint (schema_fingerprint p))
  else
  validate_identifier "source_device_id" (source_device_id p) ≫= λ _,
  validate_clock (source_lamport p) ≫= λ _,
  if (cursor p <? 0)%Z then invalid "cursor cannot be negative" else
  for_each validate_token
    [("cursor_token", cursor_token p); ("server_epoch", server_epoch p)] ≫= λ _,
  if (MAX_PAYLOAD_ROWS <? N.of_nat (length (changes p)))%N
  then invalid ("payload exceeds the " +:+ pretty MAX_PAYLOAD_ROWS +:+
                " changed-row limit")
  else if (MAX_PAYLOAD_CELLS <? N.of_nat (length (rejections p)))%N
  then invalid ("payload exceeds the " +:+ pretty MAX_PAYLOAD_CELLS +:+
                " rejected-cell limit")
  else
  foldM (validate_row_change t)
    {| changed_cells := ∅; changed_rows := ∅; cell_count := 0 |} (changes p) ≫= λ _,
  for_each (validate_rejection t) (rejections p).

(** The cells of a payload, in iteration order:
    [changes.iter().flat_map(|row| row.columns.values())]. *)
Definition payload_columns (p : SyncPayload) : list CrdtColumn :=
  changes p ≫= λ row, bt_values (columns row).

Definition validate_attribution (authenticated : string) (lamport : N)
    (column : CrdtColumn) : Result unit :=
  if negb (device_id (metadata column) =? authenticated)%string
  then invalid "a client cannot attribute a change to another device"
  else if (lamport <? lamport_clock (metadata column))%N
  then invalid "a column clock cannot exceed the source clock"
  else Ok tt.

(** [SyncPayload::validate_client_request] *)
Definition validate_client_request (p : SyncPayload) (authenticated : string)
    (t : TableDef) : Result unit :=
  validate p t ≫= λ _,
  validate_identifier "authenticated_device_id" authenticated ≫= λ _,
  if (authenticated =? SERVER_DEVICE_ID)%string
  then invalid "the reserved server device ID cannot authenticate as a client"
  else if negb (source_device_id p =? authenticated)%string
  then invalid "source_device_id does not match the authenticated device"
  else if has_more p || cursor_reset p
  then invalid "a client request cannot set response-only cursor flags"
  else if negb (bool_decide (rejections p = []))
  then invalid "a client request cannot contain server rejection records"
  else
  for_each (λ row, for_each (validate_attribution authenticated (source_lamport p))
                     (bt_values (columns row))) (changes p).

(** [SyncPayload::validate_server_response] *)
Definition validate_server_response (p : SyncPayload) (t : TableDef) : Result unit :=
  validate p t ≫= λ _,
  if negb (source_device_id p =? SERVER_DEVICE_ID)%string
  then invalid "remote payload is not attributed to the Loomabase server"
  else if existsb (λ clock, (source_lamport p <? clock)%N)
            (((λ column, lamport_clock (metadata column)) <$> payload_columns p) ++
             ((λ rejection, lamport_clock (sr_metadata rejection)) <$> rejections p))
  then invalid "a response cell clock cannot exceed the server source clock"
  else Ok tt.

(** [SyncPayload::max_observed_clock] *)
Definition max_observed_clock (p : SyncPayload) : N :=
  foldl N.max (source_lamport p)
    ((λ column, lamport_clock (metadata column)) <$> payload_columns p).

(** [SyncRejection::new] *)
Definition SyncRejection_new (todo_id column_name : string) (kind : SyncRejectionKind)
    (reason : string) (v : CrdtValue) (m : ColumnMetadata) : Result SyncRejection :=
  let rejection :=
    {| sr_todo_id := todo_id; sr_column_name := column_name; sr_kind := kind;
       sr_reason := reason; sr_value := v; sr_metadata := m |} in
  validate_identifier "rejection.todo_id" (sr_todo_id rejection) ≫= λ _,
  validate_identifier "rejection.column_name" (sr_column_name rejection) ≫= λ _,
  validate_identifier "rejection.metadata.device_id"
    (device_id (sr_metadata rejection)) ≫= λ _,
  validate_clock (lamport_clock (sr_metadata rejection)) ≫= λ _,
  validate_rejection_reason (sr_reason rejection) ≫= λ _,
  Ok rejection.

(** ** The last-writer-wins decision *)
Inductive MergeDecision := AcceptIncoming | KeepCurrent | EqualVersion.

Definition decide_lww (current incoming : ColumnMetadata) : MergeDecision :=
  match metadata_compare incoming current with
  | Gt => AcceptIncoming
  | Lt => KeepCurrent
  | Eq => EqualVersion
  end.

(** The decision every adapter takes on one cell ([CrdtState::merge_inner],
    [apply_remote_payload] and [merge_crdt_states_with_security] share this
    [match]): whether the incoming cell is written, or the error for one
    version that carries two values. *)
Definition should_apply (current : option CrdtColumn) (incoming : CrdtColumn)
  : Result bool :=
  match current with
  | None => Ok true
  | Some current =>
    match decide_lww (metadata current) (metadata incoming) with
    | AcceptIncoming => Ok true
    | KeepCurrent => Ok false
    | EqualVersion =>
      if value_eqb (value current) (value incoming) then Ok false
      else invalid "the same CRDT version cannot identify different values"
    end
  end.
