(* ===== verification/Lww.v ===== *)
(** * The algebra of last-writer-wins cells

    The abstract specification every replica implements: versions are
    totally ordered, a cell only moves up in that order, and a replica that
    has taken in a set of writes holds, for each cell, a greatest one of
    them. The merges of the reference server and of the SQLite client are
    shown to meet [absorbs]; convergence is proved here, once, from it. *)
From S2P Require Import Prelude RustStd Error Schema Crdt.

Abbreviation cell_key := (string * string)%type.
Abbreviation cell_map := (gmap (string * string) CrdtColumn).
Abbreviation cell_write := ((string * string) * CrdtColumn)%type.

(** ** Version order *)
Definition version_lt (a b : ColumnMetadata) : Prop :=
  (lamport_clock a < lamport_clock b)%N ∨
  (lamport_clock a = lamport_clock b ∧ key_lt (device_id a) (device_id b)).

(** ** Values up to the sign of a zero

    Rust's [==] on values is not an equivalence (NaN), but what it accepts
    is contained in this one; on the finite reals validation lets through,
    the two agree. *)
#[export] Instance value_equiv : Equiv CrdtValue := λ a b,
  a = b ∨ ∃ r s, a = VReal r ∧ b = VReal s ∧ f64_sim r s.
#[export] Instance column_equiv : Equiv CrdtColumn := λ a b,
  metadata a = metadata b ∧ value a ≡ value b.

(** [lww_le a b]: a replica that holds [b] needs no news of [a]. *)
Definition lww_le (a b : CrdtColumn) : Prop :=
  version_lt (metadata a) (metadata b) ∨ a ≡ b.

(** ** What taking in writes means

    [absorbs m l m']: [m'] comes from [m] by taking in the writes of [l]:
    every cell of [m'] is one of [m] or of [l], and is above all of them. *)
Definition offered (m : cell_map) (l : list cell_write) (k : cell_key) (c : CrdtColumn) : Prop :=
  m !! k = Some c ∨ (k, c) ∈ l.
Record absorbs (m : cell_map) (l : list cell_write) (m' : cell_map) : Prop := {
  absorbs_origin k c : m' !! k = Some c → offered m l k c;
  absorbs_above k c : offered m l k c → ∃ c', m' !! k = Some c' ∧ lww_le c c';
}.

(** [m] holds nothing [m'] does not dominate. *)
Definition cells_le (m m' : cell_map) : Prop :=
  ∀ k c, m !! k = Some c → ∃ c', m' !! k = Some c' ∧ lww_le c c'.

(** ** The interface of a replica

    A replica state exposes its cells; a delivery that succeeds carries
    writes and absorbs them. *)
Class LwwReplica (St D : Type) := {
  replica_cells : St → cell_map;
  delivery_writes : D → list cell_write;
  delivers : St → D → St → Prop;
  delivers_absorbs s d s' :
    delivers s d s' → absorbs (replica_cells s) (delivery_writes d) (replica_cells s');
}.

(** A sequence of successful deliveries. *)
Inductive deliveries {St D} `{LwwReplica St D} : St → list D → St → Prop :=
| deliveries_nil s : deliveries s [] s
| deliveries_cons s d s1 ds s2 :
    delivers s d s1 → deliveries s1 ds s2 → deliveries s (d :: ds) s2.

(** ** Facts about versions *)
Lemma string_compare_refl s : String.compare s s = Eq.
Proof.
  pose proof (String.compare_antisym s s) as Ha.
  by destruct (String.compare s s).
Qed.

Lemma string_compare_lt a b : String.compare a b = Lt ↔ key_lt a b.
Proof.
  unfold key_lt; simpl. unfold String.le, String.leb.
  destruct (String.compare a b) eqn:Hc.
  - apply String.compare_eq_iff in Hc. split; [done|]. by intros [_ ?].
  - split; [|done]. intros _. split; [done|]. intros ->.
    by rewrite string_compare_refl in Hc.
  - split; [done|]. by intros [[] _].
Qed.

Lemma metadata_compare_lt a b : metadata_compare a b = Lt ↔ version_lt a b.
Proof.
  unfold metadata_compare, version_lt.
  destruct (N.compare_spec (lamport_clock a) (lamport_clock b)) as [He|Hl|Hl].
  - rewrite string_compare_lt. split; [by right|]. intros [?|[_ ?]]; [lia|done].
  - split; [by left|done].
  - split; [done|]. intros [?|[? _]]; lia.
Qed.

Lemma metadata_compare_eq a b : metadata_compare a b = Eq ↔ a = b.
Proof.
  unfold metadata_compare. destruct a as [c d], b as [c' d']; simpl.
  destruct (N.compare_spec c c') as [->|Hl|Hl].
  - split; [by intros ->%String.compare_eq_iff|]. intros [= ->]. apply string_compare_refl.
  - split; [done|]. intros [= -> ->]; lia.
  - split; [done|]. intros [= -> ->]; lia.
Qed.

Lemma metadata_compare_antisym a b : metadata_compare a b = CompOpp (metadata_compare b a).
Proof.
  unfold metadata_compare. rewrite N.compare_antisym.
  destruct (lamport_clock b ?= lamport_clock a)%N; simpl; [|done..].
  apply String.compare_antisym.
Qed.

#[export] Instance version_lt_strict : StrictOrder version_lt.
Proof.
  split.
  - intros a [?|[_ ?]]; [lia|]. by apply (irreflexivity key_lt (device_id a)).
  - intros a b c [Hab|[Hab Hd]] [Hbc|[Hbc Hd']]; unfold version_lt; try (left; lia).
    right. split; [congruence|]. by transitivity (device_id b).
Qed.

Lemma version_trichotomy a b : version_lt a b ∨ a = b ∨ version_lt b a.
Proof.
  rewrite <-!metadata_compare_lt, <-metadata_compare_eq, (metadata_compare_antisym b a).
  destruct (metadata_compare a b); simpl; auto.
Qed.

(** [decide_lww] computes that order. *)
Lemma decide_lww_accept current incoming :
  decide_lww current incoming = AcceptIncoming ↔ version_lt current incoming.
Proof.
  rewrite <-metadata_compare_lt. unfold decide_lww.
  rewrite (metadata_compare_antisym current incoming).
  by destruct (metadata_compare incoming current).
Qed.

Lemma decide_lww_keep current incoming :
  decide_lww current incoming = KeepCurrent ↔ version_lt incoming current.
Proof.
  rewrite <-metadata_compare_lt. unfold decide_lww.
  by destruct (metadata_compare incoming current).
Qed.

Lemma decide_lww_equal current incoming :
  decide_lww current incoming = EqualVersion ↔ current = incoming.
Proof.
  rewrite (symmetry_iff (=) current incoming), <-metadata_compare_eq. unfold decide_lww.
  by destruct (metadata_compare incoming current).
Qed.

(** ** Facts about values and cells *)
#[export] Instance value_equivalence : Equivalence (≡@{CrdtValue}).
Proof.
  unfold equiv, value_equiv. split.
  - by left.
  - intros a b [->|(r & s & -> & -> & Hs)]; [by left|]. right. exists s, r.
    split_and!; [done..|by symmetry].
  - intros a b c [->|(r & s & -> & -> & Hs)]; [done|].
    intros [<-|(r' & s' & [= <-] & -> & Hs')]; right; [by eauto|].
    exists r, s'. split_and!; [done..|by transitivity s].
Qed.
#[export] Instance column_equivalence : Equivalence (≡@{CrdtColumn}).
Proof.
  unfold equiv, column_equiv. split.
  - done.
  - intros a b [? ?]. by split.
  - intros a b c [Hab ?] [Hbc ?]. split; [congruence|]. by transitivity (value b).
Qed.

#[export] Instance metadata_proper : Proper ((≡@{CrdtColumn}) ==> (=)) metadata.
Proof. by intros a b [? _]. Qed.
#[export] Instance value_proper : Proper ((≡@{CrdtColumn}) ==> (≡)) value.
Proof. by intros a b [_ ?]. Qed.

Lemma f64_eqb_sim r s : f64_eqb r s = true → f64_sim r s.
Proof.
  intros Heq. destruct (f64_is_finite r) eqn:Hr; [by apply f64_eqb_finite|].
  unfold f64_eqb in Heq. destruct r as [| [] | |], s as [|[]| |[]]; simpl in *; try done;
    by left.
Qed.

(** What Rust's [==] accepts is equivalent. *)
Lemma value_eqb_equiv a b : value_eqb a b = true → a ≡ b.
Proof.
  destruct a, b; simpl; intros Heq; try done; try (by left).
  - left. f_equal. by apply Z.eqb_eq.
  - right. eexists _, _. split_and!; [done..|]. by apply f64_eqb_sim.
  - left. f_equal. by apply String.eqb_eq.
  - left. f_equal. by apply Bool.eqb_prop.
  - left. f_equal. by apply bool_decide_eq_true in Heq.
Qed.

(** The values that [validate_column] can accept. *)
Definition value_storable (v : CrdtValue) : Prop :=
  match v with
  | VReal r => f64_is_finite r = true
  | VInteger _ | VText _ | VBoolean _ => True
  | VNull | VBlob _ => False
  end.

Lemma value_eqb_storable a b : value_storable a → value_eqb a b = true ↔ a ≡ b.
Proof.
  intros Ha. split; [apply value_eqb_equiv|].
  intros [<-|(r & s & -> & -> & Hs)]; simpl in *; [|by apply f64_eqb_finite].
  destruct a; simpl in *; try done.
  - apply Z.eqb_refl.
  - by apply f64_eqb_finite.
  - apply String.eqb_refl.
  - apply Bool.eqb_reflx.
Qed.

#[export] Instance lww_le_preorder : PreOrder lww_le.
Proof.
  split.
  - intros a. by right.
  - intros a b c [Hab|Hab] [Hbc|Hbc]; unfold lww_le.
    + left. by transitivity (metadata b).
    + left. by rewrite <-Hbc.
    + left. by rewrite Hab.
    + right. by transitivity b.
Qed.

(** Two cells that dominate each other are the same up to [≡]. *)
Lemma lww_le_antisym a b : lww_le a b → lww_le b a → a ≡ b.
Proof.
  intros [Hab|?] [Hba|?]; [|done..].
  exfalso. apply (irreflexivity version_lt (metadata a)). by transitivity (metadata b).
Qed.

(** ** One cell decision *)
Lemma should_apply_true current incoming :
  should_apply current incoming = Ok true →
  ∀ c, current = Some c → version_lt (metadata c) (metadata incoming).
Proof.
  intros Hs c ->. simpl in Hs.
  destruct (decide_lww _ _) eqn:Hd; try done; [by apply decide_lww_accept|].
  by destruct (value_eqb _ _).
Qed.

Lemma should_apply_false current incoming :
  should_apply current incoming = Ok false →
  ∃ c, current = Some c ∧ lww_le incoming c.
Proof.
  destruct current as [c|]; simpl; [|done]. intros Hs. exists c. split; [done|].
  destruct (decide_lww _ _) eqn:Hd; try done.
  - left. by apply decide_lww_keep.
  - destruct (value_eqb _ _) eqn:Hv; [|done]. right. apply decide_lww_equal in Hd.
    split; [done|]. symmetry. by apply value_eqb_equiv.
Qed.

(** A cell that already dominates the incoming one is kept. *)
Lemma should_apply_le c incoming :
  lww_le incoming c → value_storable (value c) → should_apply (Some c) incoming = Ok false.
Proof.
  intros Hle Hv. simpl. destruct Hle as [Hlt|[Hm Heq]].
  - by rewrite (proj2 (decide_lww_keep _ _)).
  - rewrite (proj2 (decide_lww_equal _ _)) by done.
    by rewrite (proj2 (value_eqb_storable _ _ Hv)).
Qed.

(** ** Composing absorptions *)
Lemma absorbs_nil m : absorbs m [] m.
Proof.
  split; unfold offered; [by left|].
  intros k c [Hc|[]%not_elem_of_nil]. by exists c.
Qed.

Lemma absorbs_app m l1 m1 l2 m2 :
  absorbs m l1 m1 → absorbs m1 l2 m2 → absorbs m (l1 ++ l2) m2.
Proof.
  intros [Ho1 Ha1] [Ho2 Ha2]. split; unfold offered in *; intros k c.
  - intros [Hc|Hc]%Ho2; [apply Ho1 in Hc|]; set_solver.
  - rewrite elem_of_app. intros [Hc|[Hc|Hc]]; [| |by apply Ha2; right];
      destruct (Ha1 k c) as (c1 & Hc1 & Hle1); eauto;
      destruct (Ha2 k c1) as (c2 & Hc2 & Hle2); eauto;
      exists c2; split; [done| |done|]; by transitivity c1.
Qed.

(** The step of a merge loop. *)
Lemma absorbs_write m k c :
  (∀ c0, m !! k = Some c0 → version_lt (metadata c0) (metadata c)) →
  absorbs m [(k, c)] (<[k := c]> m).
Proof.
  intros Hlt. split; unfold offered; intros k' c'; rewrite list_elem_of_singleton.
  - destruct (decide (k = k')) as [->|Hne].
    + rewrite lookup_insert_eq. intros [= ->]. by right.
    + rewrite lookup_insert_ne by done. by left.
  - destruct (decide (k = k')) as [->|Hne].
    + rewrite lookup_insert_eq. intros [Hc|[= ->]]; exists c; (split; [done|]); [|done].
      left. by apply Hlt.
    + rewrite lookup_insert_ne by done. intros [Hc|[= -> ->]]; [by exists c'|done].
Qed.

Lemma absorbs_skip m k c c0 :
  m !! k = Some c0 → lww_le c c0 → absorbs m [(k, c)] m.
Proof.
  intros Hk Hle. split; unfold offered; intros k' c'; rewrite list_elem_of_singleton.
  - by left.
  - intros [Hc|[= -> ->]]; [by exists c'|by exists c0].
Qed.

Lemma absorbs_cells_le m l m' : absorbs m l m' → cells_le m m'.
Proof. intros [_ Ha] k c Hk. apply Ha. by left. Qed.

#[export] Instance cells_le_preorder : PreOrder cells_le.
Proof.
  split.
  - intros m k c Hk. by exists c.
  - intros m1 m2 m3 H12 H23 k c Hk.
    destruct (H12 k c Hk) as (c2 & Hk2 & Hle2).
    destruct (H23 k c2 Hk2) as (c3 & Hk3 & Hle3).
    exists c3. split; [done|]. by transitivity c2.
Qed.

Lemma cells_le_antisym m1 m2 : cells_le m1 m2 → cells_le m2 m1 → m1 ≡ m2.
Proof.
  intros H12 H21 k. destruct (m1 !! k) as [c1|] eqn:H1, (m2 !! k) as [c2|] eqn:H2.
  - constructor. destruct (H12 k c1 H1) as (c & Hc & Hle).
    destruct (H21 k c2 H2) as (c' & Hc' & Hle'). simplify_eq.
    by apply lww_le_antisym.
  - destruct (H12 k c1 H1) as (c & Hc & _). congruence.
  - destruct (H21 k c2 H2) as (c & Hc & _). congruence.
  - constructor.
Qed.

(** The outcome only depends on the set of writes offered. *)
Lemma absorbs_unique m l1 l2 m1 m2 :
  (∀ w, w ∈ l1 ↔ w ∈ l2) → absorbs m l1 m1 → absorbs m l2 m2 → m1 ≡ m2.
Proof.
  intros Hl H1 H2.
  apply cells_le_antisym; intros k c Hc.
  - apply (absorbs_above _ _ _ H2). destruct (absorbs_origin _ _ _ H1 _ _ Hc) as [?|Hin].
    + by left.
    + right. by apply Hl.
  - apply (absorbs_above _ _ _ H1). destruct (absorbs_origin _ _ _ H2 _ _ Hc) as [?|Hin].
    + by left.
    + right. by apply Hl.
Qed.

(** ** Replicas *)
Section replica.
Context {St D : Type} `{!LwwReplica St D}.
Implicit Types (s : St) (d : D) (ds : list D).

Lemma deliveries_absorbs s ds s' :
  deliveries s ds s' →
  absorbs (replica_cells s) (ds ≫= delivery_writes) (replica_cells s').
Proof.
  induction 1 as [s|s d s1 ds s2 Hd Hds IH]; simpl; [apply absorbs_nil|].
  eapply absorbs_app; [by apply delivers_absorbs|done].
Qed.

(** Strong eventual convergence: replicas that have successfully taken in
    the same set of deliveries, in whatever order and however often, hold
    the same cells. *)
Lemma deliveries_converge s ds1 ds2 s1 s2 :
  (∀ d, d ∈ ds1 ↔ d ∈ ds2) →
  deliveries s ds1 s1 → deliveries s ds2 s2 →
  replica_cells s1 ≡ replica_cells s2.
Proof.
  intros Hset H1%deliveries_absorbs H2%deliveries_absorbs.
  eapply absorbs_unique; [|done..]. intros w. rewrite !list_elem_of_bind. naive_solver.
Qed.
End replica.
