(* ===== verification/Payload.v ===== *)
(** * What payload validation accepts

    A declarative description of a well-formed payload, the proof that the
    validators of [Crdt] accept exactly that, and the consequences the
    merges rely on. *)
From S2P Require Import Prelude RustStd Error Schema Crdt Lww.

(** ** Specification *)
Definition identifier_ok (s : string) : Prop :=
  s ≠ "" ∧ (str_len s ≤ 255)%N ∧ Forall (λ c, char_is_control c = false) (str_chars s).

Definition reason_ok (s : string) : Prop :=
  s ≠ "" ∧ (str_len s ≤ MAX_REJECTION_REASON_BYTES)%N ∧
  Forall (λ c, char_is_control c = false) (str_chars s).

(** The values a column of a given type may carry. *)
Definition type_accepts (ty : ColumnType) (v : CrdtValue) : Prop :=
  match ty, v with
  | TText, VText text => (str_len text ≤ MAX_TEXT_BYTES)%N
  | TInteger, VInteger _ | TBoolean, VBoolean _ => True
  | TReal, VReal real => f64_is_finite real = true
  | _, _ => False
  end.
Definition column_accepts (t : TableDef) (name : string) (v : CrdtValue) : Prop :=
  ∃ ty, column_type t name = Some ty ∧ type_accepts ty v.

Definition metadata_wf (m : ColumnMetadata) : Prop :=
  identifier_ok (device_id m) ∧ (lamport_clock m ≤ MAX_STORABLE_LAMPORT)%N.
Definition cell_wf (t : TableDef) (name : string) (column : CrdtColumn) : Prop :=
  column_accepts t name (value column) ∧ metadata_wf (metadata column).
Definition rejection_wf (t : TableDef) (r : SyncRejection) : Prop :=
  identifier_ok (sr_todo_id r) ∧ column_accepts t (sr_column_name r) (sr_value r) ∧
  metadata_wf (sr_metadata r) ∧ reason_ok (sr_reason r).

Definition row_wf (t : TableDef) (row : RowChange) : Prop :=
  identifier_ok (todo_id row) ∧ columns row ≠ ∅ ∧
  ∀ name column, columns row !! name = Some column → cell_wf t name column.

(** The number of cells of a list of rows. *)
Definition total_cells (rows : list RowChange) : nat :=
  sum_list ((λ row, size (columns row)) <$> rows).

Record payload_wf (p : SyncPayload) (t : TableDef) : Prop := {
  wf_version : (MIN_SUPPORTED_PROTOCOL_VERSION ≤ protocol_version p ≤ PROTOCOL_VERSION)%N;
  wf_fingerprint : schema_fingerprint p = table_fingerprint t;
  wf_source : identifier_ok (source_device_id p);
  wf_lamport : (source_lamport p ≤ MAX_STORABLE_LAMPORT)%N;
  wf_cursor : (0 ≤ cursor p)%Z;
  wf_token v : cursor_token p = Some v → identifier_ok v;
  wf_epoch v : server_epoch p = Some v → identifier_ok v;
  wf_row_count : (N.of_nat (length (changes p)) ≤ MAX_PAYLOAD_ROWS)%N;
  wf_rejection_count : (N.of_nat (length (rejections p)) ≤ MAX_PAYLOAD_CELLS)%N;
  wf_distinct : NoDup (todo_id <$> changes p);
  wf_rows : Forall (row_wf t) (changes p);
  wf_cell_count : (N.of_nat (total_cells (changes p)) ≤ MAX_PAYLOAD_CELLS)%N;
  wf_rejections : Forall (rejection_wf t) (rejections p);
}.

Record client_request_wf (p : SyncPayload) (device : string) (t : TableDef) : Prop := {
  cr_payload : payload_wf p t;
  cr_device : identifier_ok device;
  cr_not_server : device ≠ SERVER_DEVICE_ID;
  cr_source : source_device_id p = device;
  cr_flags : has_more p = false ∧ cursor_reset p = false;
  cr_rejections : rejections p = [];
  cr_attribution row name column :
    row ∈ changes p → columns row !! name = Some column →
    device_id (metadata column) = device ∧
    (lamport_clock (metadata column) ≤ source_lamport p)%N;
}.

Record server_response_wf (p : SyncPayload) (t : TableDef) : Prop := {
  sv_payload : payload_wf p t;
  sv_source : source_device_id p = SERVER_DEVICE_ID;
  sv_clocks row name column :
    row ∈ changes p → columns row !! name = Some column →
    (lamport_clock (metadata column) ≤ source_lamport p)%N;
  sv_rejection_clocks r :
    r ∈ rejections p → (lamport_clock (sr_metadata r) ≤ source_lamport p)%N;
}.

(** ** The field validators *)
Lemma str_is_empty_spec s : str_is_empty s = true ↔ s = "".
Proof. by destruct s. Qed.

Lemma existsb_false_forall {A} (f : A → bool) l :
  existsb f l = false ↔ Forall (λ x, f x = false) l.
Proof.
  induction l as [|x l IH]; simpl; [by split|].
  rewrite orb_false_iff, IH, Forall_cons_iff. done.
Qed.

Lemma validate_identifier_ok field s : validate_identifier field s = Ok tt ↔ identifier_ok s.
Proof.
  unfold validate_identifier, identifier_ok, str_has_control.
  rewrite <-str_is_empty_spec, <-existsb_false_forall.
  destruct (str_is_empty s), (N.ltb_spec 255 (str_len s)), (existsb _ _); simpl;
    split; try done; intros (? & ? & ?); try done; lia.
Qed.

Lemma validate_rejection_reason_ok s : validate_rejection_reason s = Ok tt ↔ reason_ok s.
Proof.
  unfold validate_rejection_reason, reason_ok, str_has_control.
  rewrite <-str_is_empty_spec, <-existsb_false_forall.
  destruct (str_is_empty s), (N.ltb_spec MAX_REJECTION_REASON_BYTES (str_len s)),
    (existsb _ _); simpl; split; try done; intros (? & ? & ?); try done; lia.
Qed.

Lemma validate_clock_ok c : validate_clock c = Ok tt ↔ (c ≤ MAX_STORABLE_LAMPORT)%N.
Proof. unfold validate_clock. destruct (N.leb_spec c MAX_STORABLE_LAMPORT); split; done || lia. Qed.

Lemma validate_clock_advance_ok current observed :
  validate_clock_advance current observed = Ok tt ↔
  (observed ≤ current + MAX_CLOCK_ADVANCE_PER_SYNC)%N.
Proof.
  unfold validate_clock_advance, u64_saturating_sub.
  destruct (N.leb_spec (observed - current) MAX_CLOCK_ADVANCE_PER_SYNC); split; done || lia.
Qed.

Lemma validate_column_ok t name v : validate_column t name v = Ok tt ↔ column_accepts t name v.
Proof.
  unfold validate_column, column_accepts.
  destruct (column_type t name) as [ty|]; [|split; [done|by intros (? & ? & ?)]].
  transitivity (type_accepts ty v); [|naive_solver].
  destruct ty, v; simpl; try (split; done).
  - destruct (N.leb_spec (str_len s) MAX_TEXT_BYTES); split; done || lia.
  - by destruct (f64_is_finite r).
Qed.

Lemma validate_column_name_ok t name :
  validate_column_name t name = Ok tt ↔ is_Some (column_type t name).
Proof.
  unfold validate_column_name.
  destruct (column_type t name); split; eauto; done.
Qed.

Lemma column_accepts_storable t name v : column_accepts t name v → value_storable v.
Proof. intros (ty & _ & Hv). by destruct ty, v. Qed.

(** ** The row loop *)
Lemma validate_cell_change_ok t row_id acc name column acc' :
  validate_cell_change t row_id acc (name, column) = Ok acc' ↔
  (cell_count acc + 1 ≤ MAX_PAYLOAD_CELLS)%N ∧ cell_wf t name column ∧
  ((row_id, name) ∉ changed_cells acc) ∧
  acc' = {| changed_cells := {[ (row_id, name) ]} ∪ changed_cells acc;
            changed_rows := changed_rows acc;
            cell_count := (cell_count acc + 1)%N |}.
Proof.
  unfold validate_cell_change, cell_wf, metadata_wf. simpl.
  destruct (N.ltb_spec MAX_PAYLOAD_CELLS (cell_count acc + 1)) as [Hgt|Hle].
  { split; [done|]. intros [? _]. lia. }
  rewrite !bind_unit_ok, validate_column_ok, validate_identifier_ok, validate_clock_ok.
  case_bool_decide; split; naive_solver.
Qed.

Lemma validate_cells_ok t row_id (l : list (string * CrdtColumn)) acc :
  NoDup l.*1 →
  (∀ name, (row_id, name) ∉ changed_cells acc) →
  (cell_count acc ≤ MAX_PAYLOAD_CELLS)%N →
  let acc' := {| changed_cells := list_to_set ((λ name, (row_id, name)) <$> l.*1) ∪ changed_cells acc;
                 changed_rows := changed_rows acc;
                 cell_count := (cell_count acc + N.of_nat (length l))%N |} in
  ∀ r, foldM (validate_cell_change t row_id) acc l = Ok r ↔
    r = acc' ∧ (cell_count acc' ≤ MAX_PAYLOAD_CELLS)%N ∧ Forall (λ e, cell_wf t e.1 e.2) l.
Proof.
  intros Hnd Hfresh Hcount acc' r. unfold acc'; clear acc'.
  assert (Hgen : ∀ l acc, NoDup l.*1 → (∀ name, name ∈ l.*1 → (row_id, name) ∉ changed_cells acc) →
    (cell_count acc ≤ MAX_PAYLOAD_CELLS)%N →
    foldM (validate_cell_change t row_id) acc l = Ok r ↔
    r = {| changed_cells := list_to_set ((λ name, (row_id, name)) <$> l.*1) ∪ changed_cells acc;
           changed_rows := changed_rows acc;
           cell_count := (cell_count acc + N.of_nat (length l))%N |} ∧
    (cell_count acc + N.of_nat (length l) ≤ MAX_PAYLOAD_CELLS)%N ∧
    Forall (λ e, cell_wf t e.1 e.2) l); [|by apply Hgen; auto].
  clear. induction l as [|[name column] l IH]; intros acc Hnd Hfresh Hcount.
  { simpl. rewrite N.add_0_r, (left_id_L ∅ (∪)). destruct acc; simpl in *.
    split; [by intros [= <-]|by intros (-> & _)]. }
  cbn [foldM]. simpl in Hnd. apply list.NoDup_cons in Hnd as [Hname Hnd].
  destruct (validate_cell_change t row_id acc (name, column)) as [acc1|e] eqn:Hstep.
  - apply validate_cell_change_ok in Hstep as (Hle & Hwf & _ & ->).
    rewrite IH; simpl; [|done| |done].
    + rewrite list.Forall_cons. simpl.
      replace (cell_count acc + 1 + N.of_nat (length l))%N
        with (cell_count acc + N.of_nat (S (length l)))%N by lia.
      rewrite (assoc_L (∪)), (comm_L (∪) _ {[ (row_id, name) ]}). naive_solver.
    + intros name' Hin'. specialize (Hfresh name'). set_solver.
  - split; [done|]. intros (_ & Hle & Hall). exfalso. apply list.Forall_cons in Hall as [Hwf Hall].
    assert (∃ r1, validate_cell_change t row_id acc (name, column) = Ok r1) as [r1 Hr1]; [|congruence].
    eexists. apply validate_cell_change_ok. simpl in Hle.
    split_and!; [lia|done|apply Hfresh; set_solver|reflexivity].
Qed.

Lemma size_bt_iter (m : gmap string CrdtColumn) : length (bt_iter m) = size m.
Proof. apply length_bt_iter. Qed.

Lemma Forall_bt_iter (P : string → CrdtColumn → Prop) (m : gmap string CrdtColumn) :
  Forall (λ e, P e.1 e.2) (bt_iter m) ↔ (∀ k c, m !! k = Some c → P k c).
Proof.
  rewrite list.Forall_forall. split.
  - intros Hall k c Hk. apply (Hall (k, c)). by apply elem_of_bt_iter.
  - intros Hall [k c] Hin%elem_of_bt_iter. by apply Hall.
Qed.

(** One row: the identifiers seen so far are those of earlier rows only. *)
Definition acc_consistent (acc : validate_acc) : Prop :=
  (∀ k, k ∈ changed_cells acc → k.1 ∈ changed_rows acc) ∧
  (cell_count acc ≤ MAX_PAYLOAD_CELLS)%N.

Lemma validate_row_change_ok t acc row r :
  acc_consistent acc →
  validate_row_change t acc row = Ok r ↔
  row_wf t row ∧ (todo_id row ∉ changed_rows acc) ∧
  (cell_count acc + N.of_nat (size (columns row)) ≤ MAX_PAYLOAD_CELLS)%N ∧
  r = {| changed_cells := list_to_set ((λ name, (todo_id row, name)) <$> (bt_iter (columns row)).*1)
                          ∪ changed_cells acc;
         changed_rows := {[ todo_id row ]} ∪ changed_rows acc;
         cell_count := (cell_count acc + N.of_nat (size (columns row)))%N |}.
Proof.
  intros [Hcons Hcount]. unfold validate_row_change, row_wf.
  rewrite bind_unit_ok, validate_identifier_ok.
  case_bool_decide as Hseen; [split; naive_solver|].
  case_bool_decide as Hempty; [split; naive_solver|].
  rewrite validate_cells_ok; simpl; [| | |done].
  - rewrite Forall_bt_iter, size_bt_iter. naive_solver.
  - apply NoDup_bt_keys.
  - intros name Hin. by apply Hcons in Hin.
Qed.

Lemma total_cells_cons row rows :
  total_cells (row :: rows) = (size (columns row) + total_cells rows)%nat.
Proof. done. Qed.

Lemma validate_rows_ok t rows acc :
  acc_consistent acc →
  (∃ r, foldM (validate_row_change t) acc rows = Ok r) ↔
  Forall (row_wf t) rows ∧ NoDup (todo_id <$> rows) ∧
  (∀ row, row ∈ rows → todo_id row ∉ changed_rows acc) ∧
  (cell_count acc + N.of_nat (total_cells rows) ≤ MAX_PAYLOAD_CELLS)%N.
Proof.
  revert acc; induction rows as [|row rows IH]; intros acc Hacc; simpl; rewrite ?total_cells_cons.
  { destruct Hacc as [_ Hcount]. split; [|by eauto].
    intros _. split_and!; [done|apply NoDup_nil_2|set_solver|cbn; lia]. }
  destruct (validate_row_change t acc row) as [acc1|e] eqn:Hrow.
  - apply validate_row_change_ok in Hrow as (Hwf & Hfresh & Hle & ->); [|done].
    rewrite IH; simpl.
    + rewrite list.Forall_cons, list.NoDup_cons. destruct Hacc as [Hcons _].
      split.
      * intros (Hall & Hnd & Hrows & Htot). split_and!; [done|done| |done| |lia].
        -- rewrite list_elem_of_fmap. intros (row' & Heq & Hin').
           apply (Hrows row' Hin'). rewrite Heq. set_solver.
        -- intros row' [->|Hin']%elem_of_cons; [done|]. specialize (Hrows row' Hin'). set_solver.
      * intros ([_ Hall] & [Hnin Hnd] & Hrows & Htot). split_and!; [done|done| |lia].
        intros row' Hin' [Heq%elem_of_singleton|Hin'']%elem_of_union.
        -- apply Hnin. rewrite <-Heq, list_elem_of_fmap. eauto.
        -- apply (Hrows row'); set_solver.
    + split; simpl; [|done]. intros k [Hk|Hk]%elem_of_union.
      * apply elem_of_list_to_set, list_elem_of_fmap in Hk as (name & -> & _). set_solver.
      * apply elem_of_union_r. by apply Hacc.
  - split; [by intros [? ?]|]. intros ([Hwf Hall]%list.Forall_cons_1 & Hnd & Hrows & Htot).
    exfalso. assert (∃ r, validate_row_change t acc row = Ok r) as [r Hr]; [|congruence].
    eexists. apply validate_row_change_ok; [done|].
    split_and!; [done|apply Hrows; set_solver|lia|reflexivity].
Qed.

Lemma validate_rejection_ok t r : validate_rejection t r = Ok tt ↔ rejection_wf t r.
Proof.
  unfold validate_rejection, rejection_wf, metadata_wf.
  rewrite !bind_unit_ok, !validate_identifier_ok, validate_column_ok, validate_clock_ok,
    validate_rejection_reason_ok. naive_solver.
Qed.

Lemma validate_token_ok field o :
  validate_token (field, o) = Ok tt ↔ (∀ v, o = Some v → identifier_ok v).
Proof.
  unfold validate_token; simpl. destruct o as [v|]; [|naive_solver].
  rewrite validate_identifier_ok. naive_solver.
Qed.

(** ** [validate] accepts exactly the well-formed payloads *)
Lemma validate_ok p t : validate p t = Ok tt ↔ payload_wf p t.
Proof.
  unfold validate.
  destruct (N.leb_spec MIN_SUPPORTED_PROTOCOL_VERSION (protocol_version p)) as [Hv1|Hv1];
    [|split; [done|intros []; lia]].
  destruct (N.leb_spec (protocol_version p) PROTOCOL_VERSION) as [Hv2|Hv2];
    [|split; [done|intros []; lia]].
  cbn [negb andb]. destruct (N.eqb_spec (schema_fingerprint p) (table_fingerprint t)) as [Hf|Hf];
    [|split; [done|by intros []]].
  cbn [negb]. rewrite !bind_unit_ok, validate_identifier_ok, validate_clock_ok.
  destruct (Z.ltb_spec (cursor p) 0) as [Hc|Hc]; [split; [naive_solver|intros []; lia]|].
  rewrite bind_unit_ok, (for_each_ok validate_token), !Forall_cons_iff, !validate_token_ok.
  destruct (N.ltb_spec MAX_PAYLOAD_ROWS (N.of_nat (length (changes p)))) as [Hr|Hr];
    [split; [naive_solver|intros []; lia]|].
  destruct (N.ltb_spec MAX_PAYLOAD_CELLS (N.of_nat (length (rejections p)))) as [Hj|Hj];
    [split; [naive_solver|intros []; lia]|].
  rewrite bind_ok. setoid_rewrite for_each_ok.
  pose proof (validate_rows_ok t (changes p)
    {| changed_cells := ∅; changed_rows := ∅; cell_count := 0 |}) as Hrows; simpl in Hrows.
  assert (Forall (λ r, validate_rejection t r = Ok tt) (rejections p)
          ↔ Forall (rejection_wf t) (rejections p)) as Hrej.
  { rewrite !list.Forall_forall. by setoid_rewrite validate_rejection_ok. }
  split.
  - intros (Hs & Hl & (Htok & Hep & _) & acc & Hacc & Hrj).
    destruct (proj1 (Hrows ltac:(by split)) (ex_intro _ acc Hacc)) as (Hwf & Hnd & _ & Htot).
    apply Hrej in Hrj. split; done || lia.
  - intros [? ? ? ? ? ? ? ? ? ? ? ?]. split_and!; try done.
    destruct (proj2 (Hrows ltac:(by split))) as [acc Hacc]; [|by exists acc; split; [|apply Hrej]].
    split_and!; done || set_solver.
Qed.

(** ** Requests and responses *)
Lemma Forall_bt_values (P : CrdtColumn → Prop) (m : gmap string CrdtColumn) :
  Forall P (bt_values m) ↔ (∀ k c, m !! k = Some c → P c).
Proof.
  rewrite list.Forall_forall. setoid_rewrite elem_of_bt_values. naive_solver.
Qed.

Lemma validate_attribution_ok device lamport c :
  validate_attribution device lamport c = Ok tt ↔
  device_id (metadata c) = device ∧ (lamport_clock (metadata c) ≤ lamport)%N.
Proof.
  unfold validate_attribution.
  destruct (String.eqb_spec (device_id (metadata c)) device) as [->|Hne]; simpl;
    [|split; [done|by intros [? _]]].
  destruct (N.ltb_spec lamport (lamport_clock (metadata c))); split; done || lia.
Qed.

Lemma elem_of_payload_columns p c :
  c ∈ payload_columns p ↔
  ∃ row name, row ∈ changes p ∧ columns row !! name = Some c.
Proof.
  unfold payload_columns. rewrite list_elem_of_bind.
  setoid_rewrite elem_of_bt_values. naive_solver.
Qed.

Lemma validate_client_request_ok p device t :
  validate_client_request p device t = Ok tt ↔ client_request_wf p device t.
Proof.
  unfold validate_client_request.
  rewrite !bind_unit_ok, validate_ok, validate_identifier_ok.
  destruct (String.eqb_spec device SERVER_DEVICE_ID) as [Hs|Hs];
    [split; [naive_solver|by intros []]|].
  destruct (String.eqb_spec (source_device_id p) device) as [Hd|Hd];
    [|split; [naive_solver|by intros []]].
  destruct (has_more p) eqn:Hm; [split; [naive_solver|intros [? ? ? ? [? ?]]; congruence]|].
  destruct (cursor_reset p) eqn:Hr;
    [split; [naive_solver|intros [? ? ? ? [? ?]]; congruence]|].
  cbn [negb orb]. case_bool_decide as Hj; [|split; [naive_solver|by intros []]].
  cbn [negb]. rewrite for_each_ok, list.Forall_forall.
  setoid_rewrite for_each_ok. setoid_rewrite Forall_bt_values.
  setoid_rewrite validate_attribution_ok.
  split; [intros (? & ? & Ha); split; eauto|intros []; split_and!; eauto].
Qed.

Lemma validate_server_response_ok p t :
  validate_server_response p t = Ok tt ↔ server_response_wf p t.
Proof.
  unfold validate_server_response. rewrite bind_unit_ok, validate_ok.
  destruct (String.eqb_spec (source_device_id p) SERVER_DEVICE_ID) as [Hs|Hs];
    [|split; [naive_solver|by intros []]].
  cbn [negb]. destruct (existsb _ _) eqn:He.
  - split; [naive_solver|]. intros [Hwf _ Hcells Hrej]. exfalso.
    apply existsb_exists in He as (clock & Hin%list_elem_of_In & Hlt%N.ltb_lt).
    rewrite elem_of_app, !list_elem_of_fmap in Hin.
    destruct Hin as [(c & -> & (row & name & ? & ?)%elem_of_payload_columns)|(r & -> & Hr)].
    + specialize (Hcells row name c ltac:(done) ltac:(done)). lia.
    + specialize (Hrej r Hr). lia.
  - apply existsb_false_forall in He. rewrite list.Forall_forall in He.
    setoid_rewrite N.ltb_ge in He. setoid_rewrite elem_of_app in He.
    setoid_rewrite list_elem_of_fmap in He. setoid_rewrite elem_of_payload_columns in He.
    split; [|by intros []]. intros [Hwf _]. split; [done|done|naive_solver|naive_solver].
Qed.

(** ** The observed clock *)
Lemma foldl_max_ge (l : list N) (b : N) : (b ≤ foldl N.max b l)%N.
Proof.
  revert b; induction l as [|x l IH]; intros b; simpl; [lia|]. specialize (IH (N.max b x)). lia.
Qed.
Lemma foldl_max_elem (l : list N) (b x : N) : x ∈ l → (x ≤ foldl N.max b l)%N.
Proof.
  revert b; induction l as [|y l IH]; intros b; simpl; [by intros ?%not_elem_of_nil|].
  intros [->|Hin]%elem_of_cons; [|by apply IH].
  pose proof (foldl_max_ge l (N.max b y)). lia.
Qed.
Lemma foldl_max_le (l : list N) (b m : N) :
  (b ≤ m)%N → Forall (λ x, (x ≤ m)%N) l → (foldl N.max b l ≤ m)%N.
Proof.
  intros Hb Hl. revert b Hb; induction Hl as [|x l Hx Hl IH]; intros b Hb; simpl; [done|].
  apply IH. lia.
Qed.

Lemma max_observed_clock_source p : (source_lamport p ≤ max_observed_clock p)%N.
Proof. apply foldl_max_ge. Qed.

Lemma max_observed_clock_cell p row name c :
  row ∈ changes p → columns row !! name = Some c →
  (lamport_clock (metadata c) ≤ max_observed_clock p)%N.
Proof.
  intros Hrow Hc. apply foldl_max_elem, list_elem_of_fmap. exists c. split; [done|].
  apply elem_of_payload_columns. eauto.
Qed.

Lemma max_observed_clock_le p m :
  (source_lamport p ≤ m)%N →
  (∀ row name c, row ∈ changes p → columns row !! name = Some c →
    (lamport_clock (metadata c) ≤ m)%N) →
  (max_observed_clock p ≤ m)%N.
Proof.
  intros Hs Hc. apply foldl_max_le; [done|]. rewrite list.Forall_forall.
  intros x (c & -> & (row & name & ? & ?)%elem_of_payload_columns)%list_elem_of_fmap. eauto.
Qed.

(** In a validated request the source clock is the observed clock. *)
Lemma client_request_observed p device t :
  client_request_wf p device t → max_observed_clock p = source_lamport p.
Proof.
  intros Hwf. apply N.le_antisymm; [|apply max_observed_clock_source].
  apply max_observed_clock_le; [done|]. intros row name c Hrow Hc.
  by eapply (cr_attribution _ _ _ Hwf).
Qed.

(** The writes a payload carries. *)
Definition payload_writes (p : SyncPayload) : list cell_write :=
  changes p ≫= λ row, (λ e : string * CrdtColumn, ((todo_id row, e.1), e.2))
                        <$> bt_iter (columns row).

Lemma elem_of_payload_writes p k c :
  (k, c) ∈ payload_writes p ↔
  ∃ row, row ∈ changes p ∧ todo_id row = k.1 ∧ columns row !! k.2 = Some c.
Proof.
  unfold payload_writes. rewrite list_elem_of_bind. setoid_rewrite list_elem_of_fmap.
  split.
  - intros (row & ([name c'] & Heq & Hin%elem_of_bt_iter) & Hrow). simplify_eq/=. eauto.
  - intros (row & Hrow & Hid & Hc). exists row. split; [|done].
    exists (k.2, c). rewrite elem_of_bt_iter. destruct k; simplify_eq/=. done.
Qed.

Lemma length_payload_writes p : length (payload_writes p) = total_cells (changes p).
Proof.
  unfold payload_writes. induction (changes p) as [|row rows IH]; [done|].
  rewrite total_cells_cons, <-IH. simpl. by rewrite length_app, length_fmap, size_bt_iter.
Qed.

Lemma NoDup_payload_writes p : NoDup (todo_id <$> changes p) → NoDup (payload_writes p).*1.
Proof.
  unfold payload_writes. intros Hnd.
  induction (changes p) as [|row rows IH]; [constructor|].
  rewrite fmap_cons in Hnd. apply list.NoDup_cons in Hnd as [Hrow Hnd].
  rewrite bind_cons, fmap_app, list.NoDup_app. split_and!; [| |by apply IH].
  - replace (_.*1) with (pair (todo_id row) <$> (bt_iter (columns row)).*1)
      by by rewrite <-!list_fmap_compose.
    apply NoDup_fmap_2; [by intros ? ? [=]|apply NoDup_bt_keys].
  - intros k. rewrite !list_elem_of_fmap.
    intros (w & -> & (e & -> & _)%list_elem_of_fmap) (w' & Heq & Hin).
    apply list_elem_of_bind in Hin as (row' & (e' & -> & _)%list_elem_of_fmap & Hrow').
    simplify_eq/=. apply Hrow. rewrite list_elem_of_fmap. eauto.
Qed.

(** C38: Validation accepts exactly the well-formed payloads: what
    [validate], [validate_client_request] and [validate_server_response]
    let through is described, without the order of the checks, by
    [payload_wf], [client_request_wf] and [server_response_wf]. *)
Theorem payload_validation_exact p device t :
  (validate p t = Ok tt ↔ payload_wf p t) ∧
  (validate_client_request p device t = Ok tt ↔ client_request_wf p device t) ∧
  (validate_server_response p t = Ok tt ↔ server_response_wf p t).
Proof.
  split; [apply validate_ok|]. split; [apply validate_client_request_ok|].
  apply validate_server_response_ok.
Qed.
