(* ===== verification/Policy.v ===== *)
(** * Authorization, business validation and audit (src/policy.rs)

    The traits [SyncAuthorizer] and [SyncValidator] are operational type
    classes; the [Arc<dyn ...>] objects the program stores are their one
    method, partially applied to the object. *)
From S2P Require Import Prelude RustStd Error Schema Crdt.

Record SyncContext := {
  tenant_id : string;
  authenticated_device_id : string;
  ctx_table : TableDef;
}.

Record CellMutation := {
  cm_todo_id : string;
  cm_column_name : string;
  cm_value : CrdtValue;
  cm_metadata : ColumnMetadata;
}.

Inductive PolicyDecision :=
| Allow
| Deny (kind : SyncRejectionKind) (reason : string).
#[export] Instance PolicyDecision_eq_dec : EqDecision PolicyDecision.
Proof. solve_decision. Defined.

(** [PolicyDecision::deny] *)
Definition PolicyDecision_deny (kind : SyncRejectionKind) (reason : string)
  : Result PolicyDecision :=
  validate_rejection_reason reason ≫= λ _, Ok (Deny kind reason).

(** The signature both traits share. *)
Definition CellPolicy : Type :=
  SyncContext → CellMutation → option CrdtColumn → Result PolicyDecision.

Class SyncAuthorizer (T : Type) := authorize_cell : T → CellPolicy.
Class SyncValidator (T : Type) := validate_cell : T → CellPolicy.

(** ** The authorizers and validators the library ships *)
Inductive AllowAllAuthorizer := mk_AllowAllAuthorizer.
#[export] Instance AllowAllAuthorizer_authorizer : SyncAuthorizer AllowAllAuthorizer :=
  λ _ _ _ _, Ok Allow.

Inductive NoopValidator := mk_NoopValidator.
#[export] Instance NoopValidator_validator : SyncValidator NoopValidator :=
  λ _ _ _ _, Ok Allow.

(** Validates a list of column names into a set. *)
Definition validated_columns (t : TableDef) (names : list string) : Result (gset string) :=
  foldM (λ (acc : gset string) column,
           validate_column_name t column ≫= λ _, Ok ({[ column ]} ∪ acc)) ∅ names.

Record ColumnAllowListAuthorizer := { writable_columns : gset string }.
Definition ColumnAllowListAuthorizer_new (t : TableDef) (names : list string)
  : Result ColumnAllowListAuthorizer :=
  validated_columns t names ≫= λ columns, Ok {| writable_columns := columns |}.
#[export] Instance ColumnAllowListAuthorizer_authorizer :
  SyncAuthorizer ColumnAllowListAuthorizer := λ self _ mutation _,
  if bool_decide (cm_column_name mutation ∈ writable_columns self) then Ok Allow
  else PolicyDecision_deny AuthorizationDenied
         ("writes to column " +:+ cm_column_name mutation +:+ " are not authorized").

Record MaxTextLengthValidator := {
  max_bytes : N;
  mtl_columns : option (gset string);
}.
Definition MaxTextLengthValidator_all_text_columns (max : N) : MaxTextLengthValidator :=
  {| max_bytes := max; mtl_columns := None |}.
Definition MaxTextLengthValidator_columns (t : TableDef) (max : N) (names : list string)
  : Result MaxTextLengthValidator :=
  validated_columns t names ≫= λ columns,
  Ok {| max_bytes := max; mtl_columns := Some columns |}.
Definition applies_to (self : MaxTextLengthValidator) (column_name : string) : bool :=
  match mtl_columns self with
  | None => true
  | Some columns => bool_decide (column_name ∈ columns)
  end.
#[export] Instance MaxTextLengthValidator_validator :
  SyncValidator MaxTextLengthValidator := λ self _ mutation _,
  match cm_value mutation with
  | VText text =>
    if negb (applies_to self (cm_column_name mutation))
       || (str_len text <=? max_bytes self)%N
    then Ok Allow
    else PolicyDecision_deny ValidationFailed
           ("text value for column " +:+ cm_column_name mutation +:+ " exceeds " +:+
            pretty (max_bytes self) +:+ " bytes")
  | _ => Ok Allow
  end.

Record CompositeValidator := { validators : list CellPolicy }.
Fixpoint composite_validate (l : list CellPolicy) : CellPolicy := λ context mutation current,
  match l with
  | [] => Ok Allow
  | validator :: l =>
    decision ← validator context mutation current;
    match decision with
    | Deny _ _ => Ok decision
    | Allow => composite_validate l context mutation current
    end
  end.
#[export] Instance CompositeValidator_validator : SyncValidator CompositeValidator :=
  λ self, composite_validate (validators self).

(** ** The security hooks of a merge *)
Inductive AuditMode := AuditDisabled | AuditDatabase.

Record SyncSecurity := {
  authorizer : CellPolicy;
  validator : CellPolicy;
  audit_mode : AuditMode;
}.
Definition SyncSecurity_default : SyncSecurity :=
  {| authorizer := authorize_cell mk_AllowAllAuthorizer;
     validator := validate_cell mk_NoopValidator;
     audit_mode := AuditDatabase |}.
Definition SyncSecurity_new (a v : CellPolicy) (m : AuditMode) : SyncSecurity :=
  {| authorizer := a; validator := v; audit_mode := m |}.
Definition SyncSecurity_without_audit (a v : CellPolicy) : SyncSecurity :=
  {| authorizer := a; validator := v; audit_mode := AuditDisabled |}.

(** ** Audit events *)
Inductive SyncAuditOutcome :=
| Accepted | KeptCurrent | Idempotent | RejectedAuthorization | RejectedValidation.
Definition outcome_as_str (outcome : SyncAuditOutcome) : string :=
  match outcome with
  | Accepted => "accepted"
  | KeptCurrent => "kept_current"
  | Idempotent => "idempotent"
  | RejectedAuthorization => "rejected_authorization"
  | RejectedValidation => "rejected_validation"
  end.

Record SyncAuditEvent := {
  ae_table_name : string;
  ae_todo_id : string;
  ae_column_name : string;
  ae_outcome : SyncAuditOutcome;
  ae_reason : string;
  ae_incoming_value : CrdtValue;
  ae_incoming_metadata : ColumnMetadata;
  ae_current_value : option CrdtValue;
  ae_current_metadata : option ColumnMetadata;
}.
Definition SyncAuditEvent_new (context : SyncContext) (mutation : CellMutation)
    (current : option CrdtColumn) (outcome : SyncAuditOutcome) (reason : string)
  : Result SyncAuditEvent :=
  validate_identifier "audit.table_name" (td_name (ctx_table context)) ≫= λ _,
  validate_identifier "audit.todo_id" (cm_todo_id mutation) ≫= λ _,
  validate_identifier "audit.column_name" (cm_column_name mutation) ≫= λ _,
  validate_identifier "audit.incoming_device_id" (device_id (cm_metadata mutation)) ≫= λ _,
  validate_rejection_reason reason ≫= λ _,
  Ok {| ae_table_name := td_name (ctx_table context);
        ae_todo_id := cm_todo_id mutation;
        ae_column_name := cm_column_name mutation;
        ae_outcome := outcome;
        ae_reason := reason;
        ae_incoming_value := cm_value mutation;
        ae_incoming_metadata := cm_metadata mutation;
        ae_current_value := value <$> current;
        ae_current_metadata := metadata <$> current |}.
