(* ===== verification/Explain.v ===== *)
(** * Explanations of every LWW decision (src/explain.rs) *)
From S2P Require Import Prelude RustStd Error Schema Crdt.

Inductive ConflictWinner := WIncoming | WCurrent | WEqual | WInvalidConflict.
Inductive ConflictReason :=
| MissingCurrentValue
| HigherLamportClock
| LowerLamportClock
| DeviceIdTieBreak
| SameVersionSameValue
| SameVersionDifferentValue.

Record ConflictExplanation := {
  winner : ConflictWinner;
  reason : ConflictReason;
  ce_current : option ColumnMetadata;
  ce_incoming : ColumnMetadata;
  summary : string;
}.

Section explain.
Context `{!StrDebug}.

Definition explain_decision (current incoming : CrdtColumn)
  : ConflictWinner * ConflictReason * string :=
  let ic := lamport_clock (metadata incoming) in
  let cc := lamport_clock (metadata current) in
  match decide_lww (metadata current) (metadata incoming) with
  | AcceptIncoming =>
    if (cc <? ic)%N
    then (WIncoming, HigherLamportClock,
          "incoming clock " +:+ pretty ic +:+ " is greater than current clock " +:+ pretty cc)
    else (WIncoming, DeviceIdTieBreak,
          "clocks are equal and incoming device ID " +:+
          str_debug (device_id (metadata incoming)) +:+ " sorts after current device ID " +:+
          str_debug (device_id (metadata current)))
  | KeepCurrent =>
    if (ic <? cc)%N
    then (WCurrent, LowerLamportClock,
          "incoming clock " +:+ pretty ic +:+ " is lower than current clock " +:+ pretty cc)
    else (WCurrent, DeviceIdTieBreak,
          "clocks are equal and incoming device ID " +:+
          str_debug (device_id (metadata incoming)) +:+ " sorts before current device ID " +:+
          str_debug (device_id (metadata current)))
  | EqualVersion =>
    if value_eqb (value current) (value incoming)
    then (WEqual, SameVersionSameValue,
          "incoming value is an idempotent replay of the current version")
    else (WInvalidConflict, SameVersionDifferentValue,
          "the same CRDT version identifies two different values")
  end.

Definition explain_lww (current : option CrdtColumn) (incoming : CrdtColumn)
  : ConflictExplanation :=
  match current with
  | None =>
    {| winner := WIncoming;
       reason := MissingCurrentValue;
       ce_current := None;
       ce_incoming := metadata incoming;
       summary := "incoming value wins because the cell does not exist" |}
  | Some current =>
    let '(w, r, s) := explain_decision current incoming in
    {| winner := w;
       reason := r;
       ce_current := Some (metadata current);
       ce_incoming := metadata incoming;
       summary := s |}
  end.

End explain.
