(* ===== verification/Replica.v ===== *)
(** * Partial-replica membership protocol and query planning (src/replica.rs) *)
From S2P Require Import Prelude RustStd Error Schema Crdt.

Definition MAX_KNOWN_MEMBERS : N := 100000.

Inductive ReplicaPredicate :=
| IdEquals (expected : string)
| IdPrefix (prefix : string)
| ColumnEquals (column : string) (v : CrdtValue).

Record ReplicaInterest := { predicates : list ReplicaPredicate; limit : N }.

Record PartialReplicaRequest := {
  prq_scope_id : string;
  prq_scope_version : N;
  interest : ReplicaInterest;
  known_member_ids : list string;
  prq_sync : SyncPayload;
}.

Record PartialReplicaResponse := {
  prs_scope_id : string;
  prs_scope_version : N;
  member_ids : list string;
  evicted_row_ids : list string;
  prs_sync : SyncPayload;
}.

Record QueryPlan := { sql : string; parameters : list CrdtValue }.

(** ** Validation *)
Definition validate_predicate (t : TableDef) (predicate : ReplicaPredicate) : Result unit :=
  match predicate with
  | IdEquals v | IdPrefix v =>
    if str_is_empty v || (255 <? str_len v)%N
    then invalid "replica ID predicate must contain 1 to 255 bytes" else Ok tt
  | ColumnEquals column v => validate_column t column v
  end.

Definition interest_validate (i : ReplicaInterest) (t : TableDef) : Result unit :=
  if (limit i =? 0)%N || (MAX_PAYLOAD_ROWS <? limit i)%N
  then invalid ("replica interest limit must be between 1 and " +:+ pretty MAX_PAYLOAD_ROWS)
  else if (32 <? N.of_nat (length (predicates i)))%N
  then invalid "replica interest exceeds 32 predicates"
  else for_each (validate_predicate t) (predicates i).

Definition validate_member_id (previous : option string) (id : string)
  : Result (option string) :=
  validate_identifier "partial replica member ID" id ≫= λ _,
  if match previous with Some v => negb (str_lt v id) | None => false end
  then invalid "partial replica member IDs must be unique and sorted"
  else Ok (Some id).

Definition validate_member_ids (ids : list string) : Result unit :=
  if (MAX_KNOWN_MEMBERS <? N.of_nat (length ids))%N
  then invalid ("partial replica exceeds the " +:+ pretty MAX_KNOWN_MEMBERS +:+
                " member limit")
  else foldM validate_member_id None ids ≫= λ _, Ok tt.

Definition validate_scope_version (version : N) : Result unit :=
  if (version =? 0)%N || bool_decide (i64_try_from_u64 version = None)
  then invalid "partial replica scope_version must be between 1 and i64::MAX"
  else Ok tt.

Definition request_validate (r : PartialReplicaRequest) (t : TableDef)
    (authenticated : string) : Result unit :=
  validate_identifier "scope_id" (prq_scope_id r) ≫= λ _,
  validate_scope_version (prq_scope_version r) ≫= λ _,
  interest_validate (interest r) t ≫= λ _,
  validate_client_request (prq_sync r) authenticated t ≫= λ _,
  validate_member_ids (known_member_ids r).

Definition response_validate (r : PartialReplicaResponse) (t : TableDef) : Result unit :=
  validate_identifier "scope_id" (prs_scope_id r) ≫= λ _,
  validate_scope_version (prs_scope_version r) ≫= λ _,
  validate_server_response (prs_sync r) t ≫= λ _,
  validate_member_ids (member_ids r) ≫= λ _,
  validate_member_ids (evicted_row_ids r) ≫= λ _,
  if existsb (binary_search (evicted_row_ids r)) (member_ids r)
  then invalid "a row cannot be both a scope member and evicted"
  else if negb (bool_decide (todo_id <$> changes (prs_sync r) = member_ids r))
  then invalid "partial replica snapshot rows must exactly match member_ids"
  else Ok tt.

(** ** Query planning *)
Definition plan_predicate (acc : list string * list CrdtValue) (predicate : ReplicaPredicate)
  : list string * list CrdtValue :=
  let '(clauses, params) := acc in
  let index := "$" +:+ pretty (length params + 1)%nat in
  match predicate with
  | IdEquals v => (clauses ++ ["id = " +:+ index], params ++ [VText v])
  | IdPrefix v => (clauses ++ ["starts_with(id, " +:+ index +:+ ")"], params ++ [VText v])
  | ColumnEquals column v => (clauses ++ [column +:+ " = " +:+ index], params ++ [v])
  end.

Definition postgres_plan (i : ReplicaInterest) (t : TableDef) (tenant : string)
  : Result QueryPlan :=
  interest_validate i t ≫= λ _,
  let '(clauses, params) :=
    foldl plan_predicate (["tenant_id = $1"; "deleted = FALSE"], [VText tenant])
      (predicates i) in
  Ok {| sql := "SELECT * FROM " +:+ td_name t +:+ " WHERE " +:+
               str_join " AND " clauses +:+ " ORDER BY id LIMIT " +:+ pretty (limit i);
        parameters := params |}.

(** [ReplicaInterest::matches], on the values of one row. [values.get(column)
    == Some(value)] compares with [PartialEq]. *)
Definition predicate_matches (row_id : string) (values : gmap string CrdtValue)
    (predicate : ReplicaPredicate) : bool :=
  match predicate with
  | IdEquals expected => (row_id =? expected)%string
  | IdPrefix prefix => str_starts_with row_id prefix
  | ColumnEquals column v =>
    match values !! column with Some w => value_eqb w v | None => false end
  end.
Definition interest_matches (i : ReplicaInterest) (row_id : string)
    (values : gmap string CrdtValue) : bool :=
  forallb (predicate_matches row_id values) (predicates i).
