(* ===== verification/State.v ===== *)
(** * The in-memory reference server (src/crdt.rs, [CrdtState])

    [merge_inner] mutates the state as it goes and can fail half way, so it
    is written in the state-and-error monad [stM CrdtState SyncError]; the
    public operations wrap it in the clone-and-commit of the source. *)
From S2P Require Import Prelude RustStd Error Schema Crdt Policy Replica.

Local Open Scope loom_scope.

(** [serde_json] is not part of the repository: the length of the JSON text
    of a cell and of a value, or the serialization error. *)
Class SerdeJson := {
  column_json_len : CrdtColumn → Result N;
  value_json_len : CrdtValue → Result N;
}.

Record CrdtState := {
  global_lamport : N;
  cells : gmap (string * string) CrdtColumn;
  table : TableDef;
  seq : N;
  cell_seq : gmap (string * string) N;
  issued_cursors : gmap string Z;
}.

Definition CrdtState_new (t : TableDef) : CrdtState :=
  {| global_lamport := 0;
     cells := ∅;
     table := t;
     seq := 0;
     cell_seq := ∅;
     issued_cursors := ∅ |}.
Definition CrdtState_default : CrdtState := CrdtState_new todos_table.

Definition set_global_lamport (clock : N) (s : CrdtState) : CrdtState :=
  {| global_lamport := clock; cells := cells s; table := table s; seq := seq s;
     cell_seq := cell_seq s; issued_cursors := issued_cursors s |}.
Definition set_issued_cursors (m : gmap string Z) (s : CrdtState) : CrdtState :=
  {| global_lamport := global_lamport s; cells := cells s; table := table s; seq := seq s;
     cell_seq := cell_seq s; issued_cursors := m |}.

(** [self.seq += 1; self.cell_seq.insert(key, self.seq); self.cells.insert(key, incoming)] *)
Definition write_cell (key : string * string) (incoming : CrdtColumn) (s : CrdtState)
  : CrdtState :=
  let next := u64_wrapping_add (seq s) 1 in
  {| global_lamport := global_lamport s;
     cells := <[key := incoming]> (cells s);
     table := table s;
     seq := next;
     cell_seq := <[key := next]> (cell_seq s);
     issued_cursors := issued_cursors s |}.

Section state.
Context `{!SerdeJson}.

(** ** Merging one cell

    The loop body of [merge_inner]; the local vector [rejections] travels
    with the state. *)
Definition MergeM (A : Type) : Type := stM (CrdtState * list SyncRejection) SyncError A.

Definition reject_cell (row_id column_name : string) (incoming : CrdtColumn)
    (kind : SyncRejectionKind) (reason : string) : MergeM unit :=
  rejection <-- st_lift (SyncRejection_new row_id column_name kind reason
                           (value incoming) (metadata incoming)) ;;
  st_modify (λ '(s, rs), (s, rs ++ [rejection])).

Definition merge_cell (security : SyncSecurity) (context : SyncContext) (row_id : string)
    (cell : string * CrdtColumn) : MergeM unit :=
  let '(column_name, incoming) := cell in
  let key := (row_id, column_name) in
  acc <-- st_get ;;
  let current := cells acc.1 !! key in
  let mutation := {| cm_todo_id := row_id; cm_column_name := column_name;
                     cm_value := value incoming; cm_metadata := metadata incoming |} in
  authorized <-- st_lift (authorizer security context mutation current) ;;
  match authorized with
  | Deny kind reason => reject_cell row_id column_name incoming kind reason
  | Allow =>
    validated <-- st_lift (validator security context mutation current) ;;
    match validated with
    | Deny kind reason => reject_cell row_id column_name incoming kind reason
    | Allow =>
      apply <-- st_lift (should_apply current incoming) ;;
      if apply : bool
      then st_modify (λ '(s, rs), (write_cell key incoming s, rs))
      else st_ret tt
    end
  end.

Definition merge_row (security : SyncSecurity) (context : SyncContext) (row : RowChange)
  : MergeM unit :=
  st_for (merge_cell security context (todo_id row)) (bt_iter (columns row)).

(** ** The change feed *)

(** [i64::try_from(seq).unwrap_or(i64::MAX)] *)
Definition seq_cursor (n : N) : Z := default i64_max (i64_try_from_u64 n).

Definition cell_sequence (s : CrdtState) (key : string * string) : N :=
  default 0%N (cell_seq s !! key).

Definition Candidate : Type := N * (string * string) * CrdtColumn.
Definition candidate_le (a b : Candidate) : Prop := (a.1.1 ≤ b.1.1)%N.
#[export] Instance candidate_le_dec : RelDecision candidate_le.
Proof. intros a b; unfold candidate_le; apply _. Defined.

Definition candidates (s : CrdtState) (effective_cursor : Z) : list Candidate :=
  merge_sort candidate_le
    (omap (λ '(key, column),
             let n := cell_sequence s key in
             if (effective_cursor <? seq_cursor n)%Z then Some (n, key, column) else None)
          (bt_iter (cells s))).

(** The state of the paging loop. *)
Record page := {
  page_rows : gmap string (gmap string CrdtColumn);
  page_bytes : N;
  page_cursor : Z;
  page_included : N;
}.

Fixpoint fill_page (l : list Candidate) (p : page) : Result page :=
  match l with
  | [] => Ok p
  | (n, (row_id, column_name), column) :: l =>
    json ← column_json_len column;
    let cell_bytes := (json + str_len row_id + str_len column_name)%N in
    if (MAX_RESPONSE_CELLS <=? page_included p)%N
       || ((0 <? page_included p)%N
           && (MAX_RESPONSE_BYTES <? page_bytes p + cell_bytes)%N)
    then Ok p
    else fill_page l
      {| page_rows := row_insert (page_rows p) row_id column_name column;
         page_bytes := (page_bytes p + cell_bytes)%N;
         page_cursor := seq_cursor n;
         page_included := (page_included p + 1)%N |}
  end.

(** [rows.into_iter().map(|(todo_id, columns)| RowChange { .. })] *)
Definition row_changes (rows : gmap string (gmap string CrdtColumn)) : list RowChange :=
  (λ '(row_id, cols), {| todo_id := row_id; columns := cols |}) <$> bt_iter rows.

Definition cursor_is_valid (s : CrdtState) (device : string) (c : Z) : bool :=
  (c =? 0)%Z ||
  ((c <=? seq_cursor (seq s))%Z && (c <=? default 0%Z (issued_cursors s !! device))%Z).

(** [issued_cursors.entry(device).and_modify(max).or_insert(next)] *)
Definition issue_cursor (device : string) (next : Z) (m : gmap string Z) : gmap string Z :=
  match m !! device with
  | Some c => <[device := Z.max c next]> m
  | None => <[device := next]> m
  end.

(** ** [CrdtState::merge_inner] *)
Definition merge_inner (p : SyncPayload) (device : string) (security : SyncSecurity)
  : stM CrdtState SyncError SyncPayload := λ s0,
  (s <-- st_get ;;
   st_lift (validate_client_request p device (table s)) ;;;
   let observed_clock := max_observed_clock p in
   st_lift (validate_clock_advance (global_lamport s) observed_clock) ;;;
   let context := {| tenant_id := "reference-tenant"; authenticated_device_id := device;
                     ctx_table := table s |} in
   rejected <-- (λ s, match st_for (merge_row security context) (changes p) (s, []) with
                      | (Ok _, (s', rs)) => (Ok rs, s')
                      | (Err e, (s', _)) => (Err e, s')
                      end) ;;
   s <-- st_get ;;
   clock <-- st_lift (ok_or (u64_checked_add (N.max (global_lamport s) observed_clock) 1)
                        ClockOverflow) ;;
   st_modify (set_global_lamport clock) ;;;
   s <-- st_get ;;
   let server_seq := seq_cursor (seq s) in
   let valid := cursor_is_valid s device (cursor p) in
   let reset := negb (cursor p =? 0)%Z && negb valid in
   let effective := if valid then cursor p else 0%Z in
   let cands := candidates s effective in
   pg <-- st_lift (fill_page cands
            {| page_rows := ∅; page_bytes := 0; page_cursor := effective;
               page_included := 0 |}) ;;
   let more := (page_included pg <? N.of_nat (length cands))%N in
   let next := if more then page_cursor pg else server_seq in
   st_modify (λ s, set_issued_cursors (issue_cursor device next (issued_cursors s)) s) ;;;
   s <-- st_get ;;
   st_ret {| protocol_version := protocol_version p;
             schema_fingerprint := table_fingerprint (table s);
             source_device_id := SERVER_DEVICE_ID;
             source_lamport := global_lamport s;
             changes := row_changes (page_rows pg);
             cursor := next;
             has_more := more;
             cursor_reset := reset;
             cursor_token := None;
             server_epoch := None;
             rejections := rejected |}) s0.

(** [CrdtState::merge_with_security] and [CrdtState::merge] *)
Definition merge_with_security (p : SyncPayload) (device : string) (security : SyncSecurity)
  : stM CrdtState SyncError SyncPayload :=
  transactional (merge_inner p device security).

Definition open_security : SyncSecurity :=
  SyncSecurity_without_audit (authorize_cell mk_AllowAllAuthorizer)
    (validate_cell mk_NoopValidator).

Definition merge (p : SyncPayload) (device : string) : stM CrdtState SyncError SyncPayload :=
  merge_with_security p device open_security.

(** ** Authoritative partial replicas *)
Definition values_by_row (s : CrdtState) : gmap string (gmap string CrdtValue) :=
  group_rows ((λ e : (string * string) * CrdtColumn, (e.1, value e.2)) <$> bt_iter (cells s)).

Definition is_deleted (values : gmap string CrdtValue) : bool :=
  match values !! DELETED_COLUMN with
  | Some v => value_eqb v (VBoolean true)
  | None => false
  end.

Definition partial_members (i : ReplicaInterest) (s : CrdtState) : list string :=
  fst <$> filter (λ e : string * gmap string CrdtValue,
                    negb (is_deleted e.2) && interest_matches i e.1 e.2 = true)
                 (bt_iter (values_by_row s)).

Definition snapshot_cell (members : list string)
    (acc : gmap string (gmap string CrdtColumn) * N)
    (cell : (string * string) * CrdtColumn)
  : Result (gmap string (gmap string CrdtColumn) * N)%type :=
  let '((row_id, column_name), column) := cell in
  if binary_search members row_id then
    json ← column_json_len column;
    let bytes := (acc.2 + (json + str_len row_id + str_len column_name))%N in
    if (MAX_RESPONSE_BYTES <? bytes)%N
    then invalid ("partial replica snapshot exceeds the " +:+ pretty MAX_RESPONSE_BYTES +:+
                  "-byte limit")
    else Ok (row_insert acc.1 row_id column_name column, bytes)
  else Ok acc.

Definition with_snapshot (changes' : list RowChange) (p : SyncPayload) : SyncPayload :=
  {| protocol_version := protocol_version p;
     schema_fingerprint := schema_fingerprint p;
     source_device_id := source_device_id p;
     source_lamport := source_lamport p;
     changes := changes';
     cursor := cursor p;
     has_more := false;
     cursor_reset := cursor_reset p;
     cursor_token := cursor_token p;
     server_epoch := server_epoch p;
     rejections := rejections p |}.

(** [CrdtState::merge_partial_inner] *)
Definition merge_partial_inner (r : PartialReplicaRequest) (device : string)
  : stM CrdtState SyncError PartialReplicaResponse := λ s0,
  (s <-- st_get ;;
   st_lift (request_validate r (table s) device) ;;;
   sync <-- merge (prq_sync r) device ;;
   s <-- st_get ;;
   let members := partial_members (interest r) s in
   st_lift (if (limit (interest r) <? N.of_nat (length members))%N
            then invalid ("partial replica scope exceeds its declared limit of " +:+
                          pretty (limit (interest r)) +:+ " rows")
            else Ok tt) ;;;
   snapshot <-- st_lift (foldM (snapshot_cell members) (∅, 0%N) (bt_iter (cells s))) ;;
   let evicted := filter (λ row_id, binary_search members row_id = false)
                    (known_member_ids r) in
   let response :=
     {| prs_scope_id := prq_scope_id r;
        prs_scope_version := prq_scope_version r;
        member_ids := members;
        evicted_row_ids := evicted;
        prs_sync := with_snapshot (row_changes snapshot.1) sync |} in
   st_lift (response_validate response (table s)) ;;;
   st_ret response) s0.

(** [CrdtState::merge_partial] *)
Definition merge_partial (r : PartialReplicaRequest) (device : string)
  : stM CrdtState SyncError PartialReplicaResponse :=
  transactional (merge_partial_inner r device).

End state.
