(* ===== verification/Feed.v ===== *)
(** * The change feed of the reference server (src/crdt.rs, [CrdtState])

    What the candidates of a cursor are, which of them a page takes, and
    what the rows of the page hold. *)
From S2P Require Import Prelude RustStd Error Schema Crdt Lww Payload Policy Replica State.

(** The cell of a candidate, as a write. *)
Definition candidate_write (c : Candidate) : cell_write := (c.1.2, c.2).

(** ** The invariant of a server state *)
Record state_wf (s : CrdtState) : Prop := {
  sw_cells k c : cells s !! k = Some c → identifier_ok k.1 ∧ cell_wf (table s) k.2 c;
  sw_clocks k c : cells s !! k = Some c → (lamport_clock (metadata c) < global_lamport s)%N;
  sw_lamport : (global_lamport s ≤ U64_MAX)%N;
  sw_dom k : is_Some (cells s !! k) ↔ is_Some (cell_seq s !! k);
  sw_inj k k' n : cell_seq s !! k = Some n → cell_seq s !! k' = Some n → k = k';
  sw_range k n : cell_seq s !! k = Some n → (1 ≤ n ≤ seq s)%N;
  sw_seq : (seq s ≤ I64_MAX)%N;
  sw_issued d z : issued_cursors s !! d = Some z → (0 ≤ z ≤ seq_cursor (seq s))%Z;
}.

Definition effective_cursor (s : CrdtState) (device : string) (c : Z) : Z :=
  if cursor_is_valid s device c then c else 0%Z.
Definition start_page (effective : Z) : page :=
  {| page_rows := ∅; page_bytes := 0; page_cursor := effective; page_included := 0 |}.
Definition page_more (s : CrdtState) (effective : Z) (pg : page) : bool :=
  (page_included pg <? N.of_nat (length (candidates s effective)))%N.
Definition page_next (s : CrdtState) (effective : Z) (pg : page) : Z :=
  if page_more s effective pg then page_cursor pg else seq_cursor (seq s).

(** ** Candidates *)
Lemma elem_of_candidates s z n k c :
  (n, k, c) ∈ candidates s z ↔
  cells s !! k = Some c ∧ n = cell_sequence s k ∧ (z < seq_cursor n)%Z.
Proof.
  unfold candidates. rewrite merge_sort_Permutation, list_elem_of_omap. split.
  - intros ([k' c'] & Hin%elem_of_bt_iter & Hif). cbn zeta in Hif.
    destruct (Z.ltb_spec z (seq_cursor (cell_sequence s k'))); naive_solver.
  - intros (Hc & -> & Hlt). exists (k, c). rewrite elem_of_bt_iter. split; [done|].
    cbn zeta. destruct (Z.ltb_spec z (seq_cursor (cell_sequence s k))); [done|lia].
Qed.

#[export] Instance candidate_le_refl : Reflexive candidate_le.
Proof. intros a. unfold candidate_le. lia. Qed.
#[export] Instance candidate_le_trans : Transitive candidate_le.
Proof. intros a b c. unfold candidate_le. lia. Qed.
#[export] Instance candidate_le_total : Total candidate_le.
Proof. intros a b. unfold candidate_le. lia. Qed.

Lemma candidates_sorted s z : StronglySorted candidate_le (candidates s z).
Proof. apply (StronglySorted_merge_sort candidate_le). Qed.

Lemma NoDup_candidate_keys s z : NoDup (candidate_write <$> candidates s z).*1.
Proof.
  unfold candidates. rewrite merge_sort_Permutation.
  pose proof (NoDup_bt_keys (cells s)) as Hnd. unfold bt_keys in Hnd.
  induction (bt_iter (cells s)) as [|[k c] l IH]; [constructor|].
  rewrite fmap_cons in Hnd. apply list.NoDup_cons in Hnd as [Hk Hnd].
  rewrite omap_cons_eq. cbn zeta.
  destruct (z <? seq_cursor (cell_sequence s k))%Z; [|by apply IH]. rewrite !fmap_cons. constructor; [|by apply IH].
  rewrite !list_elem_of_fmap. intros (w & Hw & (cand & -> & Hc)%list_elem_of_fmap).
  apply list_elem_of_omap in Hc as ([k' c'] & Hin & Hif).
  apply Hk. rewrite list_elem_of_fmap. exists (k', c').
  cbn zeta in Hif. case_match; simplify_eq/=; done.
Qed.

(** ** Pages *)
Section page.
Context `{!SerdeJson}.

(** What [fill_page] does when it succeeds: it takes a prefix. *)
Definition page_after (p : page) (taken : list Candidate) (pg : page) : Prop :=
  page_rows pg = foldl (λ rows e, row_insert rows e.1.1 e.1.2 e.2) (page_rows p)
                   (candidate_write <$> taken) ∧
  page_included pg = (page_included p + N.of_nat (length taken))%N ∧
  page_cursor pg = match list.last taken with Some c => seq_cursor c.1.1 | None => page_cursor p end.

Lemma fill_page_prefix l p pg :
  fill_page l p = Ok pg →
  ∃ taken rest, l = taken ++ rest ∧ page_after p taken pg ∧
    ((page_included p = 0)%N → l ≠ [] → taken ≠ []) ∧
    ((page_included p ≤ MAX_RESPONSE_CELLS)%N → (page_included pg ≤ MAX_RESPONSE_CELLS)%N).
Proof.
  revert p; induction l as [|[[n [row column]] c] l IH]; intros p; simpl.
  { intros [= <-]. exists [], []. unfold page_after; simpl. split_and!; done || lia. }
  intros (json & Hjson & Hif)%bind_ok.
  destruct (_ || _) eqn:Hguard.
  - injection Hif as <-. exists [], ((n, (row, column), c) :: l).
    unfold page_after; simpl. split_and!; try done; [lia|].
    intros H0. apply orb_true_iff in Hguard as [Hg|Hg].
    + apply N.leb_le in Hg. unfold MAX_RESPONSE_CELLS in Hg. lia.
    + rewrite H0 in Hg. done.
  - apply orb_false_iff in Hguard as [Hg%N.leb_gt _].
    apply IH in Hif as (taken & rest & -> & (Hrows & Hinc & Hcur) & _ & Hmax); simpl in *.
    exists ((n, (row, column), c) :: taken), rest. split_and!; [done|..|done|].
    + unfold page_after. rewrite fmap_cons. cbn [foldl length].
      split_and!; [done|lia|]. rewrite Hcur, list.last_cons.
      by destruct (list.last taken).
    + intros _. apply Hmax. lia.
Qed.
End page.

(** ** Rows of a page *)
Lemma row_changes_ids rows : todo_id <$> row_changes rows = bt_keys rows.
Proof.
  unfold row_changes, bt_keys. rewrite <-list_fmap_compose.
  apply list_fmap_ext. by intros ? [row cols] _.
Qed.

Lemma elem_of_row_changes rows row :
  row ∈ row_changes rows ↔ rows !! todo_id row = Some (columns row).
Proof.
  unfold row_changes. rewrite list_elem_of_fmap. split.
  - intros ([r cols] & -> & Hin%elem_of_bt_iter). done.
  - intros Hrow. exists (todo_id row, columns row). rewrite elem_of_bt_iter. by destruct row.
Qed.

(** A payload whose rows group some cells carries these cells. *)
Lemma grouped_writes p l k c :
  changes p = row_changes (group_rows l) → NoDup l.*1 →
  (k, c) ∈ payload_writes p ↔ (k, c) ∈ l.
Proof.
  intros Hp Hnd. rewrite elem_of_payload_writes, Hp.
  destruct k as [row name]; simpl. rewrite <-group_rows_cell by done. unfold row_cell.
  setoid_rewrite elem_of_row_changes. split.
  - intros (rc & Hrow & <- & Hc). by rewrite Hrow.
  - intros (cols & Hrow & Hc)%bind_Some. exists {| todo_id := row; columns := cols |}.
    naive_solver.
Qed.

Lemma grouped_total p l :
  changes p = row_changes (group_rows l) → NoDup l.*1 →
  total_cells (changes p) = length l.
Proof.
  intros Hp Hnd. rewrite <-length_payload_writes. apply Permutation_length, NoDup_Permutation.
  - apply NoDup_fmap_1 with fst, NoDup_payload_writes.
    rewrite Hp, row_changes_ids. apply NoDup_bt_keys.
  - by apply NoDup_fmap_1 with fst.
  - intros [k c]. by apply grouped_writes.
Qed.

Lemma length_rows_total rows :
  Forall (λ row, columns row ≠ ∅) rows → (length rows ≤ total_cells rows)%nat.
Proof.
  induction 1 as [|row rows Hrow Hrows IH]; [done|].
  rewrite total_cells_cons; cbn [length].
  apply map_size_non_empty_iff in Hrow. lia.
Qed.

Lemma grouped_rows_nonempty l :
  Forall (λ row, columns row ≠ ∅) (row_changes (group_rows l)).
Proof.
  rewrite list.Forall_forall. intros row Hrow%elem_of_row_changes.
  by eapply group_rows_nonempty.
Qed.

(** ** Which cells a page holds *)
Lemma seq_cursor_small n : (n ≤ I64_MAX)%N → seq_cursor n = Z.of_N n.
Proof.
  intros Hn. unfold seq_cursor, i64_try_from_u64.
  by destruct (N.leb_spec n I64_MAX); [|lia].
Qed.

Lemma cell_sequence_Some s k n : cell_seq s !! k = Some n → cell_sequence s k = n.
Proof. unfold cell_sequence. by intros ->. Qed.

Lemma cell_sequence_range s k c :
  state_wf s → cells s !! k = Some c → (1 ≤ cell_sequence s k ≤ seq s)%N ∧ (seq s ≤ I64_MAX)%N.
Proof.
  intros Hwf Hc. destruct (proj1 (sw_dom _ Hwf k)) as [n Hn]; [by eexists|].
  rewrite (cell_sequence_Some _ _ _ Hn). split; [by apply (sw_range _ Hwf k)|apply (sw_seq _ Hwf)].
Qed.

Section exact.
Context `{!SerdeJson}.
Variables (s : CrdtState) (z : Z) (pg : page).
Hypothesis (Hwf : state_wf s).
Hypothesis (Hpg : fill_page (candidates s z) (start_page z) = Ok pg).

Lemma candidate_seq n k c :
  (n, k, c) ∈ candidates s z → cell_seq s !! k = Some n ∧ (1 ≤ n ≤ seq s)%N ∧ seq_cursor n = Z.of_N n.
Proof.
  intros (Hc & -> & Hlt)%elem_of_candidates.
  destruct (proj1 (sw_dom _ Hwf k)) as [n Hn]; [by eexists|].
  rewrite (cell_sequence_Some _ _ _ Hn). pose proof (sw_range _ Hwf _ _ Hn).
  pose proof (sw_seq _ Hwf). split_and!; [done|lia|lia|]. apply seq_cursor_small. lia.
Qed.

(** Two candidates on both sides of a cut have different numbers. *)
Lemma candidates_cut taken rest x y :
  candidates s z = taken ++ rest → x ∈ taken → y ∈ rest → (x.1.1 < y.1.1)%N.
Proof.
  intros Hsplit Hx Hy.
  pose proof (candidates_sorted s z) as Hs. rewrite Hsplit in Hs.
  apply StronglySorted_app in Hs as (Hcross & _ & _).
  pose proof (Hcross x y Hx Hy) as Hle. unfold candidate_le in Hle.
  destruct x as [[n k] c], y as [[n' k'] c']; simpl in *.
  assert (n ≠ n') as Hne; [|lia]. intros <-.
  destruct (candidate_seq n k c) as [H1 _]; [rewrite Hsplit; set_solver|].
  destruct (candidate_seq n k' c') as [H2 _]; [rewrite Hsplit; set_solver|].
  assert (k = k') as <- by (by apply (sw_inj _ Hwf _ _ n)).
  pose proof (NoDup_candidate_keys s z) as Hnd. rewrite Hsplit, !fmap_app in Hnd.
  apply list.NoDup_app in Hnd as (_ & Hdisj & _).
  apply (Hdisj k); rewrite !list_elem_of_fmap; [exists (k, c)|exists (k, c')];
    (split; [done|]); rewrite list_elem_of_fmap; [by exists (n, k, c)|by exists (n, k, c')].
Qed.

(** The page is a prefix of the candidates, and its cursor separates it
    from the rest. *)
Lemma page_split :
  ∃ taken rest, candidates s z = taken ++ rest ∧
    page_rows pg = group_rows (candidate_write <$> taken) ∧
    page_included pg = N.of_nat (length taken) ∧
    (page_included pg ≤ MAX_RESPONSE_CELLS)%N ∧
    (rest ≠ [] → taken ≠ []) ∧
    (∀ c, c ∈ taken → (seq_cursor c.1.1 ≤ page_cursor pg)%Z) ∧
    (∀ c, c ∈ rest → (page_cursor pg < seq_cursor c.1.1)%Z) ∧
    page_cursor pg = match list.last taken with Some c => seq_cursor c.1.1 | None => z end.
Proof.
  destruct (fill_page_prefix _ _ _ Hpg)
    as (taken & rest & Hsplit & (Hrows & Hinc & Hcur) & Hne & Hmax).
  simpl in Hrows, Hinc, Hcur, Hne, Hmax.
  assert (∀ c, c ∈ taken ++ rest → seq_cursor c.1.1 = Z.of_N c.1.1) as Hsmall.
  { rewrite <-Hsplit. intros [[n k] c] Hc. by apply candidate_seq in Hc as (_ & _ & ?). }
  pose proof (candidates_sorted s z) as Hst. rewrite Hsplit in Hst.
  apply StronglySorted_app in Hst as (_ & Hst & _).
  exists taken, rest. split_and!; try done.
  - apply Hmax. unfold MAX_RESPONSE_CELLS. lia.
  - intros Hrest. apply Hne; [done|]. rewrite Hsplit. by destruct taken.
  - intros c Hc. rewrite Hcur. destruct (list.last taken) as [y|] eqn:Hlast.
    + pose proof (sorted_last_max candidate_le _ c y Hst Hlast Hc) as Hle.
      apply last_Some_elem_of in Hlast. unfold candidate_le in Hle.
      rewrite !Hsmall by set_solver. lia.
    + apply last_None in Hlast as ->. set_solver.
  - intros c Hc. rewrite Hcur. destruct (list.last taken) as [y|] eqn:Hlast.
    + apply last_Some_elem_of in Hlast.
      pose proof (candidates_cut taken rest y c Hsplit Hlast Hc).
      rewrite !Hsmall by set_solver. lia.
    + apply last_None in Hlast as ->. simpl in *.
      assert (c ∈ candidates s z) as Hin by (by rewrite Hsplit).
      destruct c as [[n k] c]. by apply elem_of_candidates in Hin as (_ & _ & ?).
Qed.

(** The cells of a page are exactly those numbered in the interval between
    the cursor it starts from and the cursor it hands out. *)
Lemma page_exact p k c :
  changes p = row_changes (page_rows pg) →
  (k, c) ∈ payload_writes p ↔
  cells s !! k = Some c ∧
  (z < Z.of_N (cell_sequence s k) ≤ page_next s z pg)%Z.
Proof.
  intros Hp. destruct page_split
    as (taken & rest & Hsplit & Hrows & Hinc & _ & _ & Htaken & Hrest & _).
  rewrite Hrows in Hp. rewrite (grouped_writes _ _ _ _ Hp).
  2:{ pose proof (NoDup_candidate_keys s z) as Hnd. rewrite Hsplit, !fmap_app in Hnd.
      by apply list.NoDup_app in Hnd as (? & _). }
  unfold page_next, page_more. rewrite Hinc, Hsplit, length_app.
  assert (∀ n, (n, k, c) ∈ candidates s z ↔
    cells s !! k = Some c ∧ n = cell_sequence s k ∧ (z < Z.of_N n)%Z) as Hcand.
  { intros n. split.
    - intros Hin. destruct (candidate_seq _ _ _ Hin) as (_ & _ & Heq).
      apply elem_of_candidates in Hin as (? & ? & ?). split_and!; [done|done|lia].
    - intros (Hc & -> & ?). destruct (cell_sequence_range _ _ _ Hwf Hc).
      apply elem_of_candidates. rewrite seq_cursor_small by lia. done. }
  rewrite Hsplit in Hcand. setoid_rewrite elem_of_app in Hcand.
  rewrite list_elem_of_fmap. split.
  - intros ([[n k'] c'] & [= <- <-] & Hin).
    destruct (proj1 (Hcand n) (or_introl Hin)) as (Hc & -> & Hlt).
    destruct (cell_sequence_range _ _ _ Hwf Hc) as [? ?].
    specialize (Htaken _ Hin). cbn in Htaken. rewrite seq_cursor_small in Htaken by lia.
    pose proof (sw_seq _ Hwf). rewrite (seq_cursor_small (seq s)) by lia.
    case_match; split_and!; done || lia.
  - intros (Hc & Hlt & Hle). exists (cell_sequence s k, k, c). split; [done|].
    destruct (proj2 (Hcand (cell_sequence s k))) as [|Hin]; [done..|].
    destruct (cell_sequence_range _ _ _ Hwf Hc) as [? ?]. specialize (Hrest _ Hin). cbn in Hrest.
    rewrite seq_cursor_small in Hrest by lia.
    destruct rest as [|r0 rest]; [by apply not_elem_of_nil in Hin|].
    destruct (N.ltb_spec (N.of_nat (length taken)) (N.of_nat (length taken + length (r0 :: rest))));
      cbn [length] in *; lia.
Qed.

(** The cursor handed out moves forward, strictly when more is promised,
    and never beyond the newest write. *)
Lemma page_next_bounds :
  (0 ≤ z ≤ seq_cursor (seq s))%Z →
  (z ≤ page_next s z pg ≤ seq_cursor (seq s))%Z ∧
  (page_more s z pg = true → (z < page_next s z pg)%Z).
Proof.
  intros Hz. destruct page_split
    as (taken & rest & Hsplit & _ & Hinc & _ & Hne & _ & _ & Hcur).
  unfold page_next, page_more. rewrite Hinc, Hsplit, length_app.
  destruct (N.ltb_spec (N.of_nat (length taken)) (N.of_nat (length taken + length rest)))
    as [Hmore|Hall]; [|split; [lia|done]].
  rewrite Hcur. destruct (list.last taken) as [[[n k] c]|] eqn:Hlast.
  - apply last_Some_elem_of in Hlast. cbn.
    assert ((n, k, c) ∈ candidates s z) as Hin by (rewrite Hsplit; set_solver).
    destruct (candidate_seq _ _ _ Hin) as (_ & ? & Heq).
    apply elem_of_candidates in Hin as (_ & _ & ?). pose proof (sw_seq _ Hwf).
    rewrite (seq_cursor_small (seq s)) by lia. rewrite Heq in *. lia.
  - apply last_None in Hlast. destruct rest; [cbn in *; lia|]. by destruct Hne.
Qed.

(** A page that promises no more has told everything. *)
Lemma page_last : page_more s z pg = false → page_next s z pg = seq_cursor (seq s).
Proof. unfold page_next. by intros ->. Qed.

(** A page holds at most [MAX_RESPONSE_CELLS] cells. *)
Lemma page_cells_bound p :
  changes p = row_changes (page_rows pg) →
  (N.of_nat (total_cells (changes p)) ≤ MAX_RESPONSE_CELLS)%N.
Proof.
  intros Hp. destruct page_split
    as (taken & rest & Hsplit & Hrows & Hinc & Hmax & _).
  rewrite Hrows in Hp. rewrite (grouped_total _ _ Hp); [rewrite length_fmap; lia|].
  pose proof (NoDup_candidate_keys s z) as Hnd. rewrite Hsplit, !fmap_app in Hnd.
  by apply list.NoDup_app in Hnd as (? & _).
Qed.

Lemma page_rows_nonempty : Forall (λ row, columns row ≠ ∅) (row_changes (page_rows pg)).
Proof.
  destruct page_split as (taken & rest & Hsplit & -> & _). apply grouped_rows_nonempty.
Qed.
End exact.
