(* ===== verification/Merge.v ===== *)
(** * What a merge does to the reference server (src/crdt.rs, [CrdtState])

    The specification of a merge is in two phases: decide every incoming
    cell against the cells before the merge, then write the accepted ones.
    The program decides and writes cell by cell; the two agree because a
    valid payload names each cell once. *)
From S2P Require Import Prelude RustStd Error Schema Crdt Lww Payload Policy Replica State Feed.

(** ** Specification *)
Inductive CellOutcome :=
| OWrite (w : cell_write)
| OKeep
| OReject (r : SyncRejection).

Definition write_mutation (w : cell_write) : CellMutation :=
  {| cm_todo_id := w.1.1; cm_column_name := w.1.2;
     cm_value := value w.2; cm_metadata := metadata w.2 |}.

(** What becomes of one incoming cell. *)
Definition reject_outcome (w : cell_write) (kind : SyncRejectionKind) (reason : string)
  : Result CellOutcome :=
  r ← SyncRejection_new w.1.1 w.1.2 kind reason (value w.2) (metadata w.2); Ok (OReject r).
Definition cell_outcome (security : SyncSecurity) (context : SyncContext)
    (current : option CrdtColumn) (w : cell_write) : Result CellOutcome :=
  authorized ← authorizer security context (write_mutation w) current;
  match authorized with
  | Deny kind reason => reject_outcome w kind reason
  | Allow =>
    validated ← validator security context (write_mutation w) current;
    match validated with
    | Deny kind reason => reject_outcome w kind reason
    | Allow => b ← should_apply current w.2; Ok (if b : bool then OWrite w else OKeep)
    end
  end.

(** Phase one: decisions, all against [m]. *)
Definition decide_all (security : SyncSecurity) (context : SyncContext) (m : cell_map)
    (l : list cell_write) : Result (list CellOutcome) :=
  mapR (λ w, cell_outcome security context (m !! w.1) w) l.
Definition outcome_write (o : CellOutcome) : option cell_write :=
  match o with OWrite w => Some w | _ => None end.
Definition outcome_rejection (o : CellOutcome) : option SyncRejection :=
  match o with OReject r => Some r | _ => None end.

(** Phase two: the accepted cells, in order. *)
Definition write_all (s : CrdtState) (l : list cell_write) : CrdtState :=
  foldl (λ s w, write_cell w.1 w.2 s) s l.

(** The cells of a map after some writes with distinct keys. *)
Definition cells_after (m : cell_map) (l : list cell_write) : cell_map :=
  list_to_map l ∪ m.

(** ** Room for the writes *)
(** The write counter has room for every cell of the payload; it counts
    [2^63 - 1] writes. *)
Definition has_room (s : CrdtState) (p : SyncPayload) : Prop :=
  (seq s + N.of_nat (total_cells (changes p)) ≤ I64_MAX)%N.

(** ** The loop refines the specification *)
Section merge_loop.
Variables (security : SyncSecurity) (context : SyncContext).

(** The loop body, on a write. *)
Definition merge_write (w : cell_write) : MergeM unit :=
  merge_cell security context w.1.1 (w.1.2, w.2).

Lemma merge_rows_writes p acc :
  st_for (merge_row security context) (changes p) acc
  = st_for merge_write (payload_writes p) acc.
Proof.
  unfold payload_writes. rewrite st_for_bind. apply st_for_ext.
  intros row acc' _. unfold merge_row. rewrite st_for_fmap.
  apply st_for_ext. by intros [name c] acc'' _.
Qed.

Lemma merge_write_outcome w s rs :
  merge_write w (s, rs) =
  match cell_outcome security context (cells s !! w.1) w with
  | Ok (OWrite w) => (Ok tt, (write_cell w.1 w.2 s, rs))
  | Ok OKeep => (Ok tt, (s, rs))
  | Ok (OReject r) => (Ok tt, (s, rs ++ [r]))
  | Err e => (Err e, (s, rs))
  end.
Proof.
  destruct w as [[row name] c].
  unfold merge_write, merge_cell, cell_outcome, write_mutation, st_bind, st_get, st_lift;
    simpl.
  destruct (authorizer _ _ _ _) as [[|kind reason]|e]; simpl; [|..|done].
  - destruct (validator _ _ _ _) as [[|kind reason]|e]; simpl; [|..|done].
    + by destruct (should_apply _ _) as [[|]|e].
    + unfold reject_cell, reject_outcome, st_bind, st_lift; simpl.
      by destruct (SyncRejection_new _ _ _ _ _ _).
  - unfold reject_cell, reject_outcome, st_bind, st_lift; simpl.
    by destruct (SyncRejection_new _ _ _ _ _ _).
Qed.

Lemma cell_outcome_write current w w' :
  cell_outcome security context current w = Ok (OWrite w') → w' = w.
Proof.
  unfold cell_outcome, reject_outcome. intros H.
  repeat first [progress inv_ok | case_match | progress simplify_eq]; try done.
Qed.

Lemma decide_all_cons m w l :
  decide_all security context m (w :: l) =
  (o ← cell_outcome security context (m !! w.1) w;
   outs ← decide_all security context m l; Ok (o :: outs)).
Proof. done. Qed.

Lemma decide_all_frame m l k c :
  k ∉ l.*1 → decide_all security context (<[k := c]> m) l = decide_all security context m l.
Proof.
  intros Hk. induction l as [|w l IH]; [done|].
  rewrite fmap_cons in Hk. apply not_elem_of_cons in Hk as [Hne Hk].
  by rewrite !decide_all_cons, lookup_insert_ne, IH.
Qed.

Lemma merge_loop l s rs :
  NoDup l.*1 →
  match decide_all security context (cells s) l with
  | Ok outs => st_for merge_write l (s, rs)
      = (Ok tt, (write_all s (omap outcome_write outs), rs ++ omap outcome_rejection outs))
  | Err e => (st_for merge_write l (s, rs)).1 = Err e
  end.
Proof.
  revert s rs; induction l as [|w l IH]; intros s rs Hnd; [cbn; by rewrite app_nil_r|].
  rewrite fmap_cons in Hnd. apply list.NoDup_cons in Hnd as [Hw Hnd].
  rewrite decide_all_cons. simpl.
  unfold st_bind. rewrite merge_write_outcome.
  destruct (cell_outcome security context (cells s !! w.1) w) as [o|e] eqn:Ho; simpl; [|done].
  destruct o as [w'| |r].
  - apply cell_outcome_write in Ho as ->. specialize (IH (write_cell w.1 w.2 s) rs Hnd).
    simpl in IH. rewrite decide_all_frame in IH by done.
    by destruct (decide_all security context (cells s) l).
  - specialize (IH s rs Hnd). by destruct (decide_all security context (cells s) l).
  - specialize (IH s (rs ++ [r]) Hnd).
    destruct (decide_all security context (cells s) l); simpl; [|exact IH].
    by rewrite IH, <-app_assoc.
Qed.
End merge_loop.

(** ** Facts about the two phases *)
Section phases.
Context (security : SyncSecurity) (context : SyncContext).

Lemma decide_all_ok m l outs :
  decide_all security context m l = Ok outs ↔
  Forall2 (λ w o, cell_outcome security context (m !! w.1) w = Ok o) l outs.
Proof. apply mapR_ok. Qed.

(** The decided writes, and the rejections, are those of the list. *)
Lemma decide_all_sublist m l outs :
  decide_all security context m l = Ok outs → sublist (omap outcome_write outs) l.
Proof.
  rewrite decide_all_ok. induction 1 as [|w o l outs Ho Hall IH]; simpl; [constructor|].
  destruct o as [w'| |r]; simpl; [|by constructor..].
  apply cell_outcome_write in Ho as ->. by constructor.
Qed.

Lemma decide_all_accepted m l outs w :
  decide_all security context m l = Ok outs →
  w ∈ omap outcome_write outs ↔
  w ∈ l ∧ cell_outcome security context (m !! w.1) w = Ok (OWrite w).
Proof.
  rewrite decide_all_ok. induction 1 as [|w' o l outs Ho Hall IH]; simpl; [set_solver|].
  destruct o as [w''| |r]; simpl; rewrite ?elem_of_cons, IH.
  - pose proof (cell_outcome_write _ _ _ _ _ Ho) as ->. naive_solver.
  - split; [naive_solver|]. intros [[->|?] ?]; [congruence|naive_solver].
  - split; [naive_solver|]. intros [[->|?] ?]; [congruence|naive_solver].
Qed.

Lemma decide_all_rejected m l outs r :
  decide_all security context m l = Ok outs →
  r ∈ omap outcome_rejection outs ↔
  ∃ w, w ∈ l ∧ cell_outcome security context (m !! w.1) w = Ok (OReject r).
Proof.
  rewrite decide_all_ok. induction 1 as [|w' o l outs Ho Hall IH]; simpl; [set_solver|].
  setoid_rewrite elem_of_cons.
  destruct o as [w''| |r']; simpl; rewrite ?elem_of_cons, IH; naive_solver congruence.
Qed.

Lemma decide_all_lookup m l outs w :
  decide_all security context m l = Ok outs → w ∈ l →
  ∃ o, cell_outcome security context (m !! w.1) w = Ok o.
Proof.
  rewrite decide_all_ok. induction 1 as [|w' o l outs Ho Hall IH]; [set_solver|].
  intros [->|Hin]%elem_of_cons; eauto.
Qed.

Lemma length_rejections m l outs :
  decide_all security context m l = Ok outs →
  (length (omap outcome_rejection outs) ≤ length l)%nat.
Proof.
  intros Hd%decide_all_ok%Forall2_length. rewrite Hd. apply length_omap_le.
Qed.
End phases.

Lemma cells_after_lookup m l k c :
  NoDup l.*1 → cells_after m l !! k = Some c ↔ (k, c) ∈ l ∨ ((k ∉ l.*1) ∧ m !! k = Some c).
Proof.
  intros Hnd. unfold cells_after. rewrite lookup_union_Some_raw.
  rewrite <-elem_of_list_to_map, <-not_elem_of_list_to_map by done. done.
Qed.

Lemma write_all_frame s l :
  global_lamport (write_all s l) = global_lamport s ∧ table (write_all s l) = table s ∧
  issued_cursors (write_all s l) = issued_cursors s.
Proof.
  unfold write_all. revert s; induction l as [|w l IH]; intros s; simpl; [done|].
  by destruct (IH (write_cell w.1 w.2 s)) as (-> & -> & ->).
Qed.

Lemma write_all_cells s l : NoDup l.*1 → cells (write_all s l) = cells_after (cells s) l.
Proof.
  unfold cells_after, write_all.
  revert s; induction l as [|[k c] l IH]; intros s Hnd; simpl; [by rewrite (left_id_L ∅ (∪))|].
  rewrite fmap_cons in Hnd. apply list.NoDup_cons in Hnd as [Hk Hnd].
  rewrite IH by done. simpl. rewrite <-insert_union_r; [by rewrite insert_union_l|].
  by apply not_elem_of_list_to_map_1.
Qed.

Lemma u64_wrapping_add_small a b :
  (a + b ≤ U64_MAX)%N → u64_wrapping_add a b = (a + b)%N.
Proof. unfold U64_MAX, u64_wrapping_add. intros. rewrite N.mod_small; lia. Qed.

Lemma write_all_seq s l :
  (seq s + N.of_nat (length l) ≤ I64_MAX)%N →
  seq (write_all s l) = (seq s + N.of_nat (length l))%N.
Proof.
  unfold write_all. revert s; induction l as [|w l IH]; intros s; simpl; [lia|].
  intros Hroom. unfold I64_MAX in *.
  rewrite IH; unfold write_cell; simpl; rewrite u64_wrapping_add_small; unfold U64_MAX; lia.
Qed.

Lemma write_all_cell_seq_old s l k :
  k ∉ l.*1 → cell_seq (write_all s l) !! k = cell_seq s !! k.
Proof.
  unfold write_all. revert s; induction l as [|w l IH]; intros s; [done|].
  rewrite fmap_cons. intros [Hne Hk]%not_elem_of_cons. cbn [foldl].
  rewrite IH by done. simpl. by rewrite lookup_insert_ne.
Qed.

Lemma write_all_cell_seq_new s l i w :
  NoDup l.*1 → (seq s + N.of_nat (length l) ≤ I64_MAX)%N → l !! i = Some w →
  cell_seq (write_all s l) !! w.1 = Some (seq s + N.of_nat i + 1)%N.
Proof.
  revert s i; induction l as [|w' l IH]; intros s i Hnd Hroom; [done|].
  rewrite fmap_cons in Hnd. apply list.NoDup_cons in Hnd as [Hw Hnd]. simpl in Hroom.
  change (write_all s (w' :: l)) with (write_all (write_cell w'.1 w'.2 s) l).
  assert (seq (write_cell w'.1 w'.2 s) = (seq s + 1)%N) as Hseq.
  { unfold write_cell; simpl. apply u64_wrapping_add_small. unfold U64_MAX, I64_MAX in *. lia. }
  destruct i as [|i]; simpl.
  - intros [= ->]. rewrite write_all_cell_seq_old by done. simpl. rewrite lookup_insert_eq.
    f_equal. change (u64_wrapping_add (seq s) 1) with (seq (write_cell w.1 w.2 s)). lia.
  - intros Hi. rewrite (IH _ i) by (done || lia). f_equal. lia.
Qed.

(** Every cell after the writes is old, with its old number, or new. *)
Lemma write_all_cell_seq_cases s l k n :
  NoDup l.*1 → (seq s + N.of_nat (length l) ≤ I64_MAX)%N →
  cell_seq (write_all s l) !! k = Some n →
  ((k ∉ l.*1) ∧ cell_seq s !! k = Some n) ∨
  (∃ i w, l !! i = Some w ∧ w.1 = k ∧ n = (seq s + N.of_nat i + 1)%N).
Proof.
  intros Hnd Hroom Hn. destruct (decide (k ∈ l.*1)) as [Hin|Hnin].
  - right. apply list_elem_of_fmap in Hin as (w & -> & [i Hi]%list_elem_of_lookup).
    exists i, w. rewrite (write_all_cell_seq_new s l i w) in Hn by done. naive_solver.
  - left. by rewrite write_all_cell_seq_old in Hn.
Qed.

(** ** The writes of a request *)
Lemma payload_write_wf p t k c :
  payload_wf p t → (k, c) ∈ payload_writes p → identifier_ok k.1 ∧ cell_wf t k.2 c.
Proof.
  intros Hwf (row & Hrow & Hid & Hc)%elem_of_payload_writes.
  pose proof (wf_rows _ _ Hwf) as Hrows. rewrite list.Forall_forall in Hrows.
  destruct (Hrows row Hrow) as (Hi & _ & Hcells). rewrite <-Hid. eauto.
Qed.

Lemma request_write_clock p d t k c :
  client_request_wf p d t → (k, c) ∈ payload_writes p →
  device_id (metadata c) = d ∧ (lamport_clock (metadata c) ≤ source_lamport p)%N.
Proof.
  intros Hwf (row & Hrow & Hid & Hc)%elem_of_payload_writes.
  by apply (cr_attribution _ _ _ Hwf row k.2).
Qed.

(** ** The outcome of a successful merge *)
Definition merge_context (s : CrdtState) (device : string) : SyncContext :=
  {| tenant_id := "reference-tenant"; authenticated_device_id := device;
     ctx_table := table s |}.
Definition merged_state (s : CrdtState) (p : SyncPayload) (accepted : list cell_write)
  : CrdtState :=
  set_global_lamport (N.max (global_lamport s) (source_lamport p) + 1) (write_all s accepted).

Section merge.
Context `{!SerdeJson}.

Record merge_run (security : SyncSecurity) (p : SyncPayload) (device : string)
    (s : CrdtState) (outs : list CellOutcome) (pg : page) (r : SyncPayload)
    (s' : CrdtState) : Prop := {
  mr_request : client_request_wf p device (table s);
  mr_advance : (source_lamport p ≤ global_lamport s + MAX_CLOCK_ADVANCE_PER_SYNC)%N;
  mr_decided : decide_all security (merge_context s device) (cells s) (payload_writes p)
               = Ok outs;
  mr_clock : (N.max (global_lamport s) (source_lamport p) + 1 ≤ U64_MAX)%N;
  mr_page : let m := merged_state s p (omap outcome_write outs) in
            let effective := effective_cursor m device (cursor p) in
            fill_page (candidates m effective) (start_page effective) = Ok pg;
  mr_state : let m := merged_state s p (omap outcome_write outs) in
             let next := page_next m (effective_cursor m device (cursor p)) pg in
             s' = set_issued_cursors (issue_cursor device next (issued_cursors m)) m;
  mr_response : let m := merged_state s p (omap outcome_write outs) in
    let effective := effective_cursor m device (cursor p) in
    r = {| protocol_version := protocol_version p;
           schema_fingerprint := table_fingerprint (table s);
           source_device_id := SERVER_DEVICE_ID;
           source_lamport := N.max (global_lamport s) (source_lamport p) + 1;
           changes := row_changes (page_rows pg);
           cursor := page_next m effective pg;
           has_more := page_more m effective pg;
           cursor_reset := negb (cursor p =? 0)%Z && negb (cursor_is_valid m device (cursor p));
           cursor_token := None;
           server_epoch := None;
           rejections := omap outcome_rejection outs |};
}.

Lemma merge_inner_run security p device s r s' :
  merge_inner p device security s = (Ok r, s') ↔
  ∃ outs pg, merge_run security p device s outs pg r s'.
Proof.
  unfold merge_inner, st_bind at 1, st_get at 1.
  destruct (validate_client_request p device (table s)) as [[]|e] eqn:Hreq; cbn;
    [|split; [done|intros (? & ? & [Hwf%validate_client_request_ok]); congruence]].
  apply validate_client_request_ok in Hreq. rewrite (client_request_observed _ _ _ Hreq).
  destruct (validate_clock_advance _ _) as [[]|e] eqn:Hadv; cbn;
    [|split; [done|intros (? & ? & [_ Hwf%validate_clock_advance_ok]); congruence]].
  apply validate_clock_advance_ok in Hadv.
  unfold st_bind at 1. cbv beta. rewrite merge_rows_writes. fold (merge_context s device).
  pose proof (merge_loop security (merge_context s device) (payload_writes p) s []
                (NoDup_payload_writes _ (wf_distinct _ _ (cr_payload _ _ _ Hreq)))) as Hspec.
  destruct (decide_all _ _ _ _) as [outs|e] eqn:Hd.
  2:{ destruct (st_for _ _ _) as [[[]|] [? ?]]; simplify_eq/=.
      split; [done|]. intros (outs & pg & [_ _ Hd']). congruence. }
  rewrite Hspec. set (m := merged_state s p (omap outcome_write outs)).
  unfold u64_checked_add.
  destruct (write_all_frame s (omap outcome_write outs)) as (Hg & Ht & Hi).
  cbn. rewrite Hg, Ht. 
  destruct (N.leb_spec (N.max (global_lamport s) (source_lamport p) + 1) U64_MAX) as [Hc|Hc].
  2:{ split; [done|]. intros (outs' & pg & [_ _ _ Hc']). lia. }
  cbn [ok_or]. change (set_global_lamport _ _) with m.
  change (if cursor_is_valid m device (cursor p) then cursor p else 0%Z)
    with (effective_cursor m device (cursor p)).
  destruct (fill_page _ _) as [pg|e] eqn:Hpg.
  2:{ split; [done|]. intros (outs' & pg & [_ _ Hd' _ Hpg']).
      assert (outs' = outs) as -> by congruence.
      unfold start_page in Hpg'. fold m in Hpg'. cbn in Hpg'. congruence. }
  cbn. split.
  - unfold st_ret. intros [= <- <-]. exists outs, pg. split; try done.
  - intros (outs' & pg' & [_ _ Hd' _ Hpg' Hs Hr]).
    assert (outs' = outs) as -> by congruence. fold m in Hpg', Hs, Hr. cbn in Hpg'.
    unfold start_page in Hpg'. assert (pg' = pg) as -> by congruence.
    unfold st_ret. f_equal; [|done]. f_equal. by rewrite Hr.
Qed.
End merge.

Section run.
Context `{!SerdeJson}.
Context {security : SyncSecurity} {p : SyncPayload} {device : string} {s : CrdtState}.
Context {outs : list CellOutcome} {pg : page} {r : SyncPayload} {s' : CrdtState}.
Context (Hrun : merge_run security p device s outs pg r s').

Lemma run_accepted w :
  w ∈ omap outcome_write outs ↔
  w ∈ payload_writes p ∧
  cell_outcome security (merge_context s device) (cells s !! w.1) w = Ok (OWrite w).
Proof. eapply decide_all_accepted, mr_decided, Hrun. Qed.

Lemma run_rejected x :
  x ∈ rejections r ↔ ∃ w, w ∈ payload_writes p ∧
    cell_outcome security (merge_context s device) (cells s !! w.1) w = Ok (OReject x).
Proof.
  rewrite (mr_response _ _ _ _ _ _ _ _ Hrun). eapply decide_all_rejected, mr_decided, Hrun.
Qed.

Lemma run_distinct : NoDup (payload_writes p).*1.
Proof. apply NoDup_payload_writes, wf_distinct with (table s), (mr_request _ _ _ _ _ _ _ _ Hrun). Qed.

Lemma run_sublist : sublist (omap outcome_write outs) (payload_writes p).
Proof. eapply decide_all_sublist, mr_decided, Hrun. Qed.

Lemma run_accepted_distinct : NoDup (omap outcome_write outs).*1.
Proof. eapply sublist_NoDup; [apply run_distinct|]. apply fmap_sublist, run_sublist. Qed.

Lemma run_accepted_length : (length (omap outcome_write outs) ≤ total_cells (changes p))%nat.
Proof. rewrite <-length_payload_writes. apply sublist_length, run_sublist. Qed.

Lemma run_cells : cells s' = cells_after (cells s) (omap outcome_write outs).
Proof.
  rewrite (mr_state _ _ _ _ _ _ _ _ Hrun). simpl. apply write_all_cells, run_accepted_distinct.
Qed.

Lemma run_lookup k c :
  cells s' !! k = Some c ↔
  ((k, c) ∈ payload_writes p ∧
   cell_outcome security (merge_context s device) (cells s !! k) (k, c) = Ok (OWrite (k, c))) ∨
  (cells s !! k = Some c ∧ ∀ c', (k, c') ∈ payload_writes p →
   cell_outcome security (merge_context s device) (cells s !! k) (k, c') ≠ Ok (OWrite (k, c'))).
Proof.
  rewrite run_cells, cells_after_lookup by apply run_accepted_distinct.
  rewrite run_accepted. cbn [fst].
  assert (k ∉ (omap outcome_write outs).*1 ↔ ∀ c', (k, c') ∈ payload_writes p →
    cell_outcome security (merge_context s device) (cells s !! k) (k, c')
      ≠ Ok (OWrite (k, c'))) as ->; [|tauto].
  rewrite list_elem_of_fmap. split.
  - intros Hk c' Hin Hout. apply Hk. exists (k, c'). by rewrite run_accepted.
  - intros Hk ([k' c'] & -> & [Hin Hout]%run_accepted). by apply (Hk c').
Qed.

Lemma run_table : table s' = table s.
Proof.
  rewrite (mr_state _ _ _ _ _ _ _ _ Hrun). simpl.
  by destruct (write_all_frame s (omap outcome_write outs)) as (_ & ? & _).
Qed.

Lemma run_clock : global_lamport s' = (N.max (global_lamport s) (source_lamport p) + 1)%N.
Proof. by rewrite (mr_state _ _ _ _ _ _ _ _ Hrun). Qed.

(** ** The invariant is preserved *)
Section wf.
Context (Hwf : state_wf s) (Hroom : has_room s p).

Lemma run_room : (seq s + N.of_nat (length (omap outcome_write outs)) ≤ I64_MAX)%N.
Proof. pose proof run_accepted_length. unfold has_room in Hroom. lia. Qed.

Lemma merged_wf : state_wf (merged_state s p (omap outcome_write outs)).
Proof.
  pose proof run_accepted_distinct as Hnd. pose proof run_room as Hr.
  destruct (write_all_frame s (omap outcome_write outs)) as (_ & Ht & Hi).
  pose proof (write_all_seq s _ Hr) as Hseq.
  pose proof (mr_request _ _ _ _ _ _ _ _ Hrun) as Hreq.
  split; simpl; rewrite ?write_all_cells, ?Ht, ?Hi, ?Hseq by done.
  - intros k c [Hin|[_ Hc]]%cells_after_lookup; [|by apply (sw_cells _ Hwf)|done].
    apply run_accepted in Hin as [Hin _]. by apply (payload_write_wf p), Hin; apply Hreq.
  - intros k c [Hin|[_ Hc]]%cells_after_lookup; [| |done].
    + apply run_accepted in Hin as [Hin _].
      destruct (request_write_clock _ _ _ _ _ Hreq Hin). lia.
    + pose proof (sw_clocks _ Hwf _ _ Hc). lia.
  - apply (mr_clock _ _ _ _ _ _ _ _ Hrun).
  - intros k. destruct (decide (k ∈ (omap outcome_write outs).*1)) as [Hin|Hnin].
    + apply list_elem_of_fmap in Hin as ([k' c] & -> & Hin).
      pose proof Hin as [i Hl]%list_elem_of_lookup.
      pose proof (write_all_cell_seq_new s _ i _ Hnd Hr Hl) as ->. cbn.
      split; [by eexists|]. intros _. exists c. apply cells_after_lookup; auto.
    + rewrite write_all_cell_seq_old by done. rewrite <-(sw_dom _ Hwf k).
      split; intros [c Hc]; exists c; [apply cells_after_lookup in Hc as [Hc|[_ ?]]|apply cells_after_lookup]; auto.
      exfalso. apply Hnin. rewrite list_elem_of_fmap. by exists (k, c).
  - intros k k' n
      [[_ H1]|(i & w & Hi1 & <- & ->)]%write_all_cell_seq_cases
      [[_ H2]|(j & w' & Hi2 & <- & Heq)]%write_all_cell_seq_cases; try done.
    + by apply (sw_inj _ Hwf _ _ n).
    + pose proof (sw_range _ Hwf _ _ H1). lia.
    + pose proof (sw_range _ Hwf _ _ H2). lia.
    + assert (i = j) as -> by lia. congruence.
  - intros k n [[_ H1]|(i & w & Hi1%lookup_lt_Some & <- & ->)]%write_all_cell_seq_cases;
      [|lia|done|done].
    pose proof (sw_range _ Hwf _ _ H1). lia.
  - done.
  - intros d z Hz%(sw_issued _ Hwf). pose proof (sw_seq _ Hwf).
    rewrite seq_cursor_small in Hz |- * by lia. lia.
Qed.

Lemma effective_bounds :
  let m := merged_state s p (omap outcome_write outs) in
  (0 ≤ effective_cursor m device (cursor p) ≤ seq_cursor (seq m))%Z.
Proof.
  intros m. pose proof (sw_seq _ merged_wf) as Hle. fold m in Hle.
  rewrite seq_cursor_small by done.
  pose proof (wf_cursor _ _ (cr_payload _ _ _ (mr_request _ _ _ _ _ _ _ _ Hrun))) as Hc.
  unfold effective_cursor, cursor_is_valid. rewrite seq_cursor_small by done.
  destruct (Z.eqb_spec (cursor p) 0) as [->|Hne]; cbn [orb]; [lia|].
  destruct (Z.leb_spec (cursor p) (Z.of_N (seq m))); cbn [andb]; [|lia].
  case_match; lia.
Qed.

Lemma run_next_bounds :
  let m := merged_state s p (omap outcome_write outs) in
  let z := effective_cursor m device (cursor p) in
  (z ≤ cursor r ≤ seq_cursor (seq s'))%Z ∧ (has_more r = true → (z < cursor r)%Z) ∧
  (has_more r = false → cursor r = seq_cursor (seq s')).
Proof.
  intros m z. rewrite (mr_response _ _ _ _ _ _ _ _ Hrun), (mr_state _ _ _ _ _ _ _ _ Hrun).
  cbn. fold m. fold z.
  destruct (page_next_bounds m z pg merged_wf (mr_page _ _ _ _ _ _ _ _ Hrun) effective_bounds).
  split; [done|]. split; [done|].
  intros Hm. exact (page_last m z pg Hm).
Qed.

Lemma issue_cursor_Some d next (i : gmap string Z) d' z :
  issue_cursor d next i !! d' = Some z →
  i !! d' = Some z ∨ z = next ∨ ∃ z0, i !! d = Some z0 ∧ z = Z.max z0 next.
Proof.
  unfold issue_cursor. intros Hz. destruct (i !! d) as [z0|] eqn:Hd;
    apply lookup_insert_Some in Hz as [[<- <-]|[_ Hz]]; eauto.
Qed.

Lemma run_wf : state_wf s'.
Proof.
  pose proof merged_wf as Hm. pose proof run_next_bounds as (Hb & _ & _).
  rewrite (mr_response _ _ _ _ _ _ _ _ Hrun) in Hb.
  rewrite (mr_state _ _ _ _ _ _ _ _ Hrun) in Hb |- *. cbn in Hb.
  pose proof effective_bounds as He. cbn in He.
  destruct Hm as [? ? ? ? ? ? ? Hissued]. split; try done. cbn.
  intros d z [Hz|[->|(z0 & Hz%Hissued & ->)]]%issue_cursor_Some; [by apply Hissued in Hz|lia|].
  cbn in Hz. lia.
Qed.

(** A cell the merge did not change keeps its number; a changed one has a
    number above every old one. *)
Lemma run_sequence k :
  (cells s' !! k = cells s !! k ∧ cell_sequence s' k = cell_sequence s k) ∨
  (seq s < cell_sequence s' k)%N.
Proof.
  rewrite run_cells. rewrite (mr_state _ _ _ _ _ _ _ _ Hrun). unfold cell_sequence; simpl.
  destruct (decide (k ∈ (omap outcome_write outs).*1)) as [Hin|Hnin].
  - right. apply list_elem_of_fmap in Hin as (w & -> & [i Hi]%list_elem_of_lookup).
    rewrite (write_all_cell_seq_new s _ i w run_accepted_distinct run_room Hi). cbn. lia.
  - left. rewrite write_all_cell_seq_old by done. split; [|done].
    unfold cells_after. rewrite lookup_union_r; [done|]. by apply not_elem_of_list_to_map_1.
Qed.
End wf.
End run.
