(* ===== verification/Demo.v ===== *)
(** * A concrete run

    Two devices editing one todo through the reference server: the input
    the witnesses of the development evaluate. *)
From S2P Require Import Prelude RustStd Error Schema Crdt Lww Payload Policy Replica State.
From S2P Require Import Feed Merge.

(** An encoder that says 64 bytes for everything. *)
Definition demo_json : SerdeJson :=
  {| column_json_len := λ _, Ok 64%N; value_json_len := λ _, Ok 16%N |}.
(** A string in quotes, with a question mark for what would be escaped. *)
Definition plain_char (c : ascii) : bool :=
  let b := N_of_ascii c in (32 <=? b)%N && (b <? 127)%N && negb (b =? 34)%N && negb (b =? 92)%N.
Fixpoint demo_escape (s : string) : string :=
  match s with
  | EmptyString => ""
  | String c s => String (if plain_char c then c else "?"%char) (demo_escape s)
  end.
Definition demo_debug : StrDebug :=
  let quote := String (ascii_of_N 34) "" in {| str_debug := λ s, quote +:+ demo_escape s +:+ quote |}.

Definition demo_cell (v : CrdtValue) (clock : N) (device : string) : CrdtColumn :=
  {| value := v; metadata := {| lamport_clock := clock; device_id := device |} |}.

Definition demo_request (device : string) (clock : N) (rows : list RowChange) (c : Z)
  : SyncPayload :=
  {| protocol_version := PROTOCOL_VERSION;
     schema_fingerprint := table_fingerprint todos_table;
     source_device_id := device;
     source_lamport := clock;
     changes := rows;
     cursor := c;
     has_more := false;
     cursor_reset := false;
     cursor_token := None;
     server_epoch := None;
     rejections := [] |}.

Definition demo_row (cols : list (string * CrdtColumn)) : RowChange :=
  {| todo_id := "todo-1"; columns := list_to_map cols |}.

(** Device A creates the todo, device B then renames and completes it. *)
Definition request_a : SyncPayload :=
  demo_request "device-a" 1
    [demo_row [("title", demo_cell (VText "milk") 1 "device-a");
               ("completed", demo_cell (VBoolean false) 1 "device-a");
               ("deleted", demo_cell (VBoolean false) 1 "device-a")]] 0.
Definition request_b : SyncPayload :=
  demo_request "device-b" 2
    [demo_row [("title", demo_cell (VText "oat milk") 2 "device-b");
               ("completed", demo_cell (VBoolean true) 1 "device-b")]] 0.

Definition state_0 : CrdtState := CrdtState_new todos_table.

(** A policy under which only [title] can be written. *)
Definition title_only : SyncSecurity :=
  SyncSecurity_without_audit
    (authorize_cell {| writable_columns := {[ "title" ]} |}) (validate_cell mk_NoopValidator).

Section demo.
#[local] Existing Instance demo_json.

Definition response_of (res : Result SyncPayload * CrdtState) : SyncPayload :=
  match res.1 with Ok r => r | Err _ => request_a end.
Definition state_a : CrdtState := (merge request_a "device-a" state_0).2.
Definition state_b : CrdtState := (merge request_b "device-b" state_0).2.
Definition state_ab : CrdtState := (merge request_b "device-b" state_a).2.
Definition state_ba : CrdtState := (merge request_a "device-a" state_b).2.
Definition response_a : SyncPayload := response_of (merge request_a "device-a" state_0).
Definition response_b : SyncPayload := response_of (merge request_b "device-b" state_0).
Definition response_ab : SyncPayload := response_of (merge request_b "device-b" state_a).
Definition response_ba : SyncPayload := response_of (merge request_a "device-a" state_b).

Definition state_denied : CrdtState :=
  (merge_with_security request_b "device-b" title_only state_a).2.
Definition response_denied : SyncPayload :=
  response_of (merge_with_security request_b "device-b" title_only state_a).

Lemma demo_a : merge request_a "device-a" state_0 = (Ok response_a, state_a).
Proof. vm_compute. reflexivity. Qed.
Lemma demo_b : merge request_b "device-b" state_0 = (Ok response_b, state_b).
Proof. vm_compute. reflexivity. Qed.
Lemma demo_ab : merge request_b "device-b" state_a = (Ok response_ab, state_ab).
Proof. vm_compute. reflexivity. Qed.
Lemma demo_ba : merge request_a "device-a" state_b = (Ok response_ba, state_ba).
Proof. vm_compute. reflexivity. Qed.
Lemma demo_denied :
  merge_with_security request_b "device-b" title_only state_a
  = (Ok response_denied, state_denied).
Proof. vm_compute. reflexivity. Qed.
End demo.

(** Fresh states are well formed. *)
Lemma CrdtState_new_wf t : state_wf (CrdtState_new t).
Proof.
  split; try done.
  intros k. simpl. rewrite !lookup_empty. split; by intros [].
Qed.
Lemma state_0_room p : (N.of_nat (total_cells (changes p)) ≤ I64_MAX)%N → has_room state_0 p.
Proof. done. Qed.

(** Closes a comparison of two computable numbers. *)
Ltac vm_le := vm_compute; congruence.

Lemma run_of_demo p device s r s' :
  merge_inner (H:=demo_json) p device open_security s = (Ok r, s') →
  state_wf s → has_room s p → state_wf s'.
Proof. intros (outs & pg & Hrun)%(@merge_inner_run demo_json) Hwf Hroom. by apply (run_wf Hrun). Qed.

Lemma state_a_wf : state_wf state_a.
Proof.
  pose proof demo_a as Ha. unfold merge, merge_with_security in Ha.
  rewrite transactional_ok in Ha. eapply run_of_demo; [exact Ha|apply CrdtState_new_wf|].
  by vm_compute.
Qed.
