(* ===== verification/MergeTheorems.v ===== *)
(** * Correctness of the reference server (src/crdt.rs, [CrdtState])

    The theorems on [merge_with_security] and [merge], and a small concrete
    run that shows their hypotheses can hold. *)
From S2P Require Import Prelude RustStd Error Schema Crdt Lww Payload Policy Replica State.
From S2P Require Import Feed Merge Demo.

(** ** The server is a last-writer-wins replica *)
Section replica.
Context `{!SerdeJson}.

Lemma run_of_merge security p device s r s' :
  merge_with_security p device security s = (Ok r, s') →
  ∃ outs pg, merge_run security p device s outs pg r s'.
Proof. unfold merge_with_security. by rewrite transactional_ok, merge_inner_run. Qed.

Lemma open_outcome current device s w :
  cell_outcome open_security (merge_context s device) current w
  = (b ← should_apply current w.2; Ok (if b : bool then OWrite w else OKeep)).
Proof. done. Qed.

Lemma absorbs_decided security context m l outs :
  NoDup l.*1 →
  decide_all security context m l = Ok outs →
  (∀ w o, w ∈ l → cell_outcome security context (m !! w.1) w = Ok o →
    match o with
    | OWrite _ => ∀ c, m !! w.1 = Some c → version_lt (metadata c) (metadata w.2)
    | _ => ∃ c, m !! w.1 = Some c ∧ lww_le w.2 c
    end) →
  absorbs m l (cells_after m (omap outcome_write outs)).
Proof.
  intros Hnd Hd Hstep.
  assert (NoDup (omap outcome_write outs).*1) as Hnd'.
  { eapply sublist_NoDup; [exact Hnd|]. by eapply fmap_sublist, decide_all_sublist. }
  split; intros k c.
  - intros [Hin|[_ Hc]]%cells_after_lookup; [right|by left|done].
    by apply (decide_all_accepted _ _ _ _ _ _ Hd) in Hin as [? _].
  - assert (∀ c, m !! k = Some c → ∃ c', cells_after m (omap outcome_write outs) !! k = Some c' ∧
      lww_le c c') as Hold.
    { intros c0 Hc0. destruct (decide (k ∈ (omap outcome_write outs).*1)) as [Hin|Hnin].
      - apply list_elem_of_fmap in Hin as ([k' c1] & -> & Hin). exists c1.
        split; [apply cells_after_lookup; auto|].
        apply (decide_all_accepted _ _ _ _ _ _ Hd) in Hin as [Hin Hout].
        left. by apply (Hstep _ _ Hin Hout).
      - exists c0. split; [apply cells_after_lookup; auto|done]. }
    intros [Hc|Hin]; [by apply Hold|].
    destruct (decide_all_lookup _ _ _ _ _ _ Hd Hin) as [o Ho].
    pose proof (Hstep _ _ Hin Ho) as Hcase. destruct o as [w'| |x].
    + exists c. split; [|done]. apply cells_after_lookup; [done|]. left.
      pose proof (cell_outcome_write _ _ _ _ _ Ho) as ->.
      by apply (decide_all_accepted _ _ _ _ _ _ Hd).
    + destruct Hcase as (c0 & Hc0 & Hle). destruct (Hold c0 Hc0) as (c' & ? & ?).
      exists c'. split; [done|]. by transitivity c0.
    + destruct Hcase as (c0 & Hc0 & Hle). destruct (Hold c0 Hc0) as (c' & ? & ?).
      exists c'. split; [done|]. by transitivity c0.
Qed.

Lemma merge_absorbs p device s r s' :
  merge p device s = (Ok r, s') → absorbs (cells s) (payload_writes p) (cells s').
Proof.
  intros (outs & pg & Hrun)%run_of_merge. rewrite (run_cells Hrun).
  eapply absorbs_decided; [apply (run_distinct Hrun)|apply (mr_decided _ _ _ _ _ _ _ _ Hrun)|].
  intros w o Hin. rewrite open_outcome.
  destruct (should_apply _ _) as [[|]|e] eqn:Hs; intros [= <-].
  - by apply should_apply_true.
  - by apply should_apply_false.
Qed.

#[export] Program Instance CrdtState_replica : LwwReplica CrdtState (SyncPayload * string) := {|
  replica_cells := cells;
  delivery_writes d := payload_writes d.1;
  delivers s d s' := ∃ r, merge d.1 d.2 s = (Ok r, s');
|}.
Next Obligation. intros s [p device] s' [r Hm]. by eapply merge_absorbs. Qed.

Lemma two_deliveries p1 d1 p2 d2 s r1 s1 r2 s2 :
  merge p1 d1 s = (Ok r1, s1) → merge p2 d2 s1 = (Ok r2, s2) →
  deliveries s [(p1, d1); (p2, d2)] s2.
Proof.
  intros H1 H2. eapply deliveries_cons; [by exists r1|].
  eapply deliveries_cons; [by exists r2|]. constructor.
Qed.
End replica.

(** ** When a merge succeeds *)
Section total.
Context `{!SerdeJson}.

(** The JSON encoder does not fail on cells that passed validation. *)
Definition serde_total : Prop := ∀ c, value_storable (value c) → ∃ n, column_json_len c = Ok n.

Lemma fill_page_total l p :
  serde_total → (∀ c, c ∈ l → value_storable (value c.2)) → ∃ pg, fill_page l p = Ok pg.
Proof.
  intros Hserde. revert p; induction l as [|[[n [row name]] c] l IH]; intros p Hl; [by eexists|].
  cbn [fill_page]. destruct (Hserde c) as [len Hlen]; [apply (Hl (n, (row, name), c)); set_solver|].
  rewrite Hlen. cbn [mbind result_bind]. case_match; [by eexists|]. apply IH. set_solver.
Qed.

(** Success, on a well-formed state: the request is well formed, its clock
    is within the advance limit, and every cell has an outcome. *)
Lemma merge_inner_success security p device s :
  state_wf s → has_room s p → serde_total →
  (∃ r s', merge_with_security p device security s = (Ok r, s')) ↔
  client_request_wf p device (table s) ∧
  (source_lamport p ≤ global_lamport s + MAX_CLOCK_ADVANCE_PER_SYNC)%N ∧
  (N.max (global_lamport s) (source_lamport p) + 1 ≤ U64_MAX)%N ∧
  (∀ w, w ∈ payload_writes p →
     ∃ o, cell_outcome security (merge_context s device) (cells s !! w.1) w = Ok o).
Proof.
  intros Hwf Hroom Hserde. split.
  - intros (r & s' & (outs & pg & Hrun)%run_of_merge).
    destruct Hrun as [Hreq Hadv Hd Hclock _ _ _]. split_and!; try done.
    apply mapR_total. by eexists.
  - intros (Hreq & Hadv & Hclock & Houts).
    destruct (proj2 (mapR_total _ _) Houts) as [outs Hd].
    set (m := merged_state s p (omap outcome_write outs)).
    assert (∀ k c, cells m !! k = Some c → value_storable (value c)) as Hstore.
    { assert (NoDup (payload_writes p).*1) as Hnd
        by (eapply NoDup_payload_writes, wf_distinct, Hreq).
      intros k c. simpl. rewrite write_all_cells.
      2:{ eapply sublist_NoDup; [exact Hnd|]. by eapply fmap_sublist, decide_all_sublist. }
      intros [Hin|[_ Hc]]%cells_after_lookup.
      - apply (decide_all_accepted _ _ _ _ _ _ Hd) in Hin as [Hin _].
        eapply column_accepts_storable, (payload_write_wf p (table s)); [apply Hreq|done].
      - by eapply column_accepts_storable, (sw_cells _ Hwf).
      - eapply sublist_NoDup; [exact Hnd|]. by eapply fmap_sublist, decide_all_sublist. }
    destruct (fill_page_total (candidates m (effective_cursor m device (cursor p)))
      (start_page (effective_cursor m device (cursor p))) Hserde) as [pg Hpg].
    { intros [[n k] c] (Hc & _)%elem_of_candidates. by eapply Hstore. }
    eexists _, _. unfold merge_with_security. rewrite transactional_ok, merge_inner_run.
    exists outs, pg. split; try done.
Qed.
End total.

(** ** Replays *)
Section replay.
Context `{!SerdeJson}.

(** After a merge, every write of its request is already dominated. *)
Lemma merge_keeps p device s r s' :
  state_wf s → has_room s p → merge p device s = (Ok r, s') →
  ∀ w, w ∈ payload_writes p →
    cell_outcome open_security (merge_context s' device) (cells s' !! w.1) w = Ok OKeep.
Proof.
  intros Hwf Hroom Hm [k c] Hin.
  destruct (run_of_merge _ _ _ _ _ _ Hm) as (outs & pg & Hrun).
  destruct (absorbs_above _ _ _ (merge_absorbs _ _ _ _ _ Hm) k c) as (c' & Hc' & Hle);
    [by right|].
  rewrite open_outcome; cbn [fst snd]. rewrite Hc', should_apply_le; [done..|].
  by eapply column_accepts_storable, (sw_cells _ (run_wf Hrun Hwf Hroom)).
Qed.

Lemma merge_again p device s r s' r' s'' :
  state_wf s → has_room s p → merge p device s = (Ok r, s') →
  merge p device s' = (Ok r', s'') →
  cells s'' = cells s' ∧ seq s'' = seq s' ∧ cell_seq s'' = cell_seq s'.
Proof.
  intros Hwf Hroom Hm Hm'.
  destruct (run_of_merge _ _ _ _ _ _ Hm') as (outs' & pg' & Hrun').
  assert (omap outcome_write outs' = []) as Hnone.
  { destruct (omap outcome_write outs') as [|w l] eqn:Ho; [done|].
    assert (w ∈ omap outcome_write outs') as Hw by (rewrite Ho; set_solver).
    apply (run_accepted Hrun') in Hw as [Hin Hout].
    by rewrite (merge_keeps _ _ _ _ _ Hwf Hroom Hm) in Hout. }
  rewrite (mr_state _ _ _ _ _ _ _ _ Hrun'), Hnone. done.
Qed.
End replay.

(** ** Theorems on one merge *)
Section theorems.
Context `{!SerdeJson}.

(** C8: Convergence. Two copies of the reference server that have
    successfully merged the same set of requests, in any order and with any
    repetitions, hold the same cells. *)
Theorem merge_converges s ds1 ds2 s1 s2 :
  (∀ d, d ∈ ds1 ↔ d ∈ ds2) →
  deliveries s ds1 s1 → deliveries s ds2 s2 → cells s1 ≡ cells s2.
Proof. intros Hset H1 H2. exact (deliveries_converge s ds1 ds2 s1 s2 Hset H1 H2). Qed.

(** C24: A successful merge is pointwise: whatever the policy, the new cell
    of each key is decided by the old cell of that key and the one incoming
    write for it, and the rejections reported are exactly the denials. *)
Theorem merge_pointwise security p device s r s' :
  merge_with_security p device security s = (Ok r, s') →
  (∀ k c, cells s' !! k = Some c ↔
    ((k, c) ∈ payload_writes p ∧
     cell_outcome security (merge_context s device) (cells s !! k) (k, c)
       = Ok (OWrite (k, c))) ∨
    (cells s !! k = Some c ∧ ∀ c', (k, c') ∈ payload_writes p →
     cell_outcome security (merge_context s device) (cells s !! k) (k, c')
       ≠ Ok (OWrite (k, c')))) ∧
  (∀ x, x ∈ rejections r ↔ ∃ w, w ∈ payload_writes p ∧
    cell_outcome security (merge_context s device) (cells s !! w.1) w = Ok (OReject x)).
Proof.
  intros (outs & pg & Hrun)%run_of_merge. split; intros.
  - apply (run_lookup Hrun).
  - apply (run_rejected Hrun).
Qed.

(** C18: Every merge, failed or not, keeps the state well formed: cells are
    valid under the contract, clocks are below the server clock, each cell
    has its own sequence number in range and no cursor is issued beyond the
    newest write. *)
Theorem merge_preserves_wf security p device s res s' :
  state_wf s → has_room s p →
  merge_with_security p device security s = (res, s') → state_wf s'.
Proof.
  intros Hwf Hroom Hm. destruct res as [r|e].
  - destruct (run_of_merge _ _ _ _ _ _ Hm) as (outs & pg & Hrun).
    by apply (run_wf Hrun).
  - unfold merge_with_security in Hm. by apply transactional_err in Hm as ->.
Qed.

(** C23: A merge succeeds exactly when the request is well formed, its clock
    is within the advance limit and below the end of the clock, and every
    cell has an outcome; otherwise it leaves the state as it was. *)
Theorem merge_succeeds_iff security p device s :
  state_wf s → has_room s p → serde_total →
  match merge_with_security p device security s with
  | (Ok _, _) =>
    client_request_wf p device (table s) ∧
    (source_lamport p ≤ global_lamport s + MAX_CLOCK_ADVANCE_PER_SYNC)%N ∧
    (N.max (global_lamport s) (source_lamport p) + 1 ≤ U64_MAX)%N ∧
    (∀ w, w ∈ payload_writes p →
       ∃ o, cell_outcome security (merge_context s device) (cells s !! w.1) w = Ok o)
  | (Err _, s') =>
    s' = s ∧
    ¬ (client_request_wf p device (table s) ∧
       (source_lamport p ≤ global_lamport s + MAX_CLOCK_ADVANCE_PER_SYNC)%N ∧
       (N.max (global_lamport s) (source_lamport p) + 1 ≤ U64_MAX)%N ∧
       (∀ w, w ∈ payload_writes p →
          ∃ o, cell_outcome security (merge_context s device) (cells s !! w.1) w = Ok o))
  end.
Proof.
  intros Hwf Hroom Hserde.
  pose proof (merge_inner_success security p device s Hwf Hroom Hserde) as Hiff.
  destruct (merge_with_security p device security s) as [[r|e] s'] eqn:Hm.
  - apply Hiff. by eexists _, _.
  - split; [by eapply transactional_err|]. intros (? & ? & [=])%Hiff.
Qed.

(** C33: A request delivered twice changes nothing the second time: the
    replay succeeds, and no cell nor sequence number moves. *)
Theorem merge_idempotent p device s r s' :
  state_wf s → has_room s p → has_room s' p → serde_total →
  (global_lamport s' < U64_MAX)%N →
  merge p device s = (Ok r, s') →
  ∃ r' s'', merge p device s' = (Ok r', s'') ∧
    cells s'' = cells s' ∧ seq s'' = seq s' ∧ cell_seq s'' = cell_seq s'.
Proof.
  intros Hwf Hroom Hroom' Hserde Hmax Hm.
  destruct (run_of_merge _ _ _ _ _ _ Hm) as (outs & pg & Hrun).
  pose proof (run_wf Hrun Hwf Hroom) as Hwf'. pose proof (run_clock Hrun) as Hclock.
  destruct (proj2 (merge_inner_success open_security p device s' Hwf' Hroom' Hserde))
    as (r' & s'' & Hm').
  { rewrite (run_table Hrun). split_and!; [apply (mr_request _ _ _ _ _ _ _ _ Hrun)|lia..|].
    intros w Hw. eexists. by apply (merge_keeps p device s r s'). }
  exists r', s''. split; [done|]. by apply (merge_again p device s r s' r').
Qed.

(** C21: No cell changes without permission: a cell a merge wrote comes from
    the request, is stamped with the authenticated device, and both the
    authorizer and the validator allowed it on the cell it replaced. *)
Theorem merge_write_authorized security p device s r s' k c :
  merge_with_security p device security s = (Ok r, s') →
  cells s' !! k = Some c → cells s !! k ≠ Some c →
  (k, c) ∈ payload_writes p ∧ device_id (metadata c) = device ∧
  authorizer security (merge_context s device) (write_mutation (k, c)) (cells s !! k)
    = Ok Allow ∧
  validator security (merge_context s device) (write_mutation (k, c)) (cells s !! k)
    = Ok Allow ∧
  ∀ c0, cells s !! k = Some c0 → version_lt (metadata c0) (metadata c).
Proof.
  intros (outs & pg & Hrun)%run_of_merge [[Hin Hout]|[Hc _]]%(run_lookup Hrun) Hne; [|done].
  destruct (request_write_clock _ _ _ _ _ (mr_request _ _ _ _ _ _ _ _ Hrun) Hin) as [Hdev _].
  split; [done|]. split; [done|]. unfold cell_outcome, reject_outcome in Hout.
  apply bind_ok in Hout as (d1 & -> & Hout).
  destruct d1; [|by apply bind_ok in Hout as (? & _ & ?)].
  apply bind_ok in Hout as (d2 & -> & Hout).
  destruct d2; [|by apply bind_ok in Hout as (? & _ & ?)].
  apply bind_ok in Hout as ([|] & Hs & [=]).
  split; [done|]. split; [done|]. by apply should_apply_true.
Qed.
End theorems.

(** ** Witnesses *)
Section witnesses.
#[local] Existing Instance demo_json.

Lemma merge_converges_witness :
  cells state_ab ≡ cells state_ba.
Proof.
  apply (merge_converges state_0
    [(request_a, "device-a"); (request_b, "device-b")]
    [(request_b, "device-b"); (request_a, "device-a")]).
  - intros d. rewrite !elem_of_cons. tauto.
  - exact (two_deliveries _ _ _ _ _ _ _ _ _ demo_a demo_ab).
  - exact (two_deliveries _ _ _ _ _ _ _ _ _ demo_b demo_ba).
Defined.

Lemma merge_pointwise_witness :
  cells state_denied !! ("todo-1", "title") = Some (demo_cell (VText "oat milk") 2 "device-b") ∧
  cells state_denied !! ("todo-1", "completed") = Some (demo_cell (VBoolean false) 1 "device-a").
Proof.
  destruct (merge_pointwise title_only request_b "device-b" state_a _ _ demo_denied)
    as [Hcells _].
  split; apply Hcells.
  - left. split; [|by vm_compute].
    apply elem_of_payload_writes. eexists. split; [by left|]. by vm_compute.
  - right. split; [by vm_compute|]. intros c' (row & Hrow & Hid & Hc)%elem_of_payload_writes.
    apply list_elem_of_singleton in Hrow as ->. vm_compute in Hc. injection Hc as <-.
    by vm_compute.
Defined.

Lemma merge_preserves_wf_witness : state_wf state_ab.
Proof.
  apply (merge_preserves_wf open_security request_b "device-b" state_a (Ok response_ab));
    [exact state_a_wf|vm_le|exact demo_ab].
Defined.

Lemma demo_serde_total : serde_total.
Proof. intros c _. by exists 64%N. Qed.

Lemma merge_succeeds_iff_witness : client_request_wf request_b "device-b" (table state_a).
Proof.
  pose proof (merge_succeeds_iff open_security request_b "device-b" state_a
                state_a_wf ltac:(vm_le) demo_serde_total) as Hiff.
  change (merge_with_security request_b "device-b" open_security state_a)
    with (merge request_b "device-b" state_a) in Hiff.
  rewrite demo_ab in Hiff. apply Hiff.
Defined.

Lemma merge_idempotent_witness :
  ∃ r' s'', merge request_b "device-b" state_ab = (Ok r', s'') ∧
    cells s'' = cells state_ab ∧ seq s'' = seq state_ab ∧ cell_seq s'' = cell_seq state_ab.
Proof.
  apply (merge_idempotent request_b "device-b" state_a response_ab state_ab);
    [exact state_a_wf|vm_le|vm_le|exact demo_serde_total|vm_le|exact demo_ab].
Defined.

Lemma merge_write_authorized_witness :
  (("todo-1", "title"), demo_cell (VText "oat milk") 2 "device-b") ∈ payload_writes request_b.
Proof.
  apply (merge_write_authorized title_only request_b "device-b" state_a
    response_denied state_denied); [exact demo_denied|by vm_compute|by vm_compute].
Defined.
End witnesses.
