(* ===== verification/FeedTheorems.v ===== *)
(** * Correctness of the change feed of the reference server (src/crdt.rs)

    A response is always acceptable to the client it is for; its page is
    exactly an interval of the write log; and a device that keeps sending
    back the cursor it was given misses nothing. *)
From S2P Require Import Prelude RustStd Error Schema Crdt Lww Payload Policy Replica State.
From S2P Require Import Feed Merge Demo MergeTheorems.

(** ** Rejections are well formed *)
Lemma SyncRejection_new_ok row name kind reason v m x :
  SyncRejection_new row name kind reason v m = Ok x →
  x = {| sr_todo_id := row; sr_column_name := name; sr_kind := kind;
         sr_reason := reason; sr_value := v; sr_metadata := m |} ∧
  identifier_ok row ∧ metadata_wf m ∧ reason_ok reason.
Proof.
  unfold SyncRejection_new, metadata_wf.
  rewrite !bind_unit_ok, !validate_identifier_ok, validate_clock_ok, validate_rejection_reason_ok.
  simpl. naive_solver.
Qed.

Lemma cell_outcome_rejected security context current w x :
  cell_outcome security context current w = Ok (OReject x) →
  sr_todo_id x = w.1.1 ∧ sr_column_name x = w.1.2 ∧ sr_value x = value w.2 ∧
  sr_metadata x = metadata w.2 ∧ identifier_ok w.1.1 ∧ metadata_wf (metadata w.2) ∧
  reason_ok (sr_reason x).
Proof.
  unfold cell_outcome, reject_outcome. intros H0.
  assert (∃ kind reason, SyncRejection_new w.1.1 w.1.2 kind reason (value w.2) (metadata w.2)
    = Ok x) as (kind & reason & Hx).
  { apply bind_ok in H0 as ([|] & _ & H0); [|apply bind_ok in H0 as (? & ? & [= <-]); eauto].
    apply bind_ok in H0 as ([|] & _ & H0); [|apply bind_ok in H0 as (? & ? & [= <-]); eauto].
    by apply bind_ok in H0 as ([|] & _ & [=]). }
  apply SyncRejection_new_ok in Hx as (-> & ? & ? & ?). done.
Qed.

Section response.
Context `{!SerdeJson}.
Context {security : SyncSecurity} {p : SyncPayload} {device : string} {s : CrdtState}.
Context {outs : list CellOutcome} {pg : page} {r : SyncPayload} {s' : CrdtState}.
Context (Hrun : merge_run security p device s outs pg r s').
Context (Hwf : state_wf s) (Hroom : has_room s p).

Lemma response_changes : changes r = row_changes (page_rows pg).
Proof. by rewrite (mr_response _ _ _ _ _ _ _ _ Hrun). Qed.

Lemma response_page k c :
  (k, c) ∈ payload_writes r ↔
  cells s' !! k = Some c ∧
  (effective_cursor (merged_state s p (omap outcome_write outs)) device (cursor p)
     < Z.of_N (cell_sequence s' k) ≤ cursor r)%Z.
Proof.
  rewrite (page_exact _ _ _ (merged_wf Hrun Hwf Hroom) (mr_page _ _ _ _ _ _ _ _ Hrun) r k c
             response_changes).
  by rewrite (mr_response _ _ _ _ _ _ _ _ Hrun), (mr_state _ _ _ _ _ _ _ _ Hrun).
Qed.

Lemma response_rejections_wf : Forall (rejection_wf (table s)) (rejections r).
Proof.
  rewrite list.Forall_forall. intros x ([k c] & Hin & Hx)%(run_rejected Hrun).
  apply cell_outcome_rejected in Hx as (H1 & H2 & H3 & H4 & Hid & Hm & Hr).
  unfold rejection_wf. rewrite H1, H2, H3, H4. split_and!; try done.
  eapply (payload_write_wf p (table s)); [apply (mr_request _ _ _ _ _ _ _ _ Hrun)|done].
Qed.

Lemma response_row_wf : Forall (row_wf (table s)) (changes r).
Proof.
  pose proof (merged_wf Hrun Hwf Hroom) as Hm.
  pose proof (page_rows_nonempty _ _ _ Hm (mr_page _ _ _ _ _ _ _ _ Hrun)) as Hne.
  rewrite <-response_changes in Hne. rewrite list.Forall_forall in Hne |- *.
  intros row Hrow. pose proof (Hne row Hrow) as Hcols.
  assert (∀ name c, columns row !! name = Some c →
    identifier_ok (todo_id row) ∧ cell_wf (table s) name c) as Hcells.
  { intros name c Hc.
    assert (((todo_id row, name), c) ∈ payload_writes r) as [Hin _]%response_page.
    { apply elem_of_payload_writes. by exists row. }
    apply (sw_cells _ (run_wf Hrun Hwf Hroom)) in Hin. by rewrite (run_table Hrun) in Hin. }
  split_and!; [|done|by intros; apply Hcells].
  apply map_choose in Hcols as (name & c & Hc). by eapply Hcells.
Qed.

Lemma response_wf : (global_lamport s' ≤ MAX_STORABLE_LAMPORT)%N → server_response_wf r (table s).
Proof.
  intros Hmax. pose proof (merged_wf Hrun Hwf Hroom) as Hm.
  pose proof (mr_request _ _ _ _ _ _ _ _ Hrun) as Hreq. pose proof (cr_payload _ _ _ Hreq) as Hp.
  pose proof (page_cells_bound _ _ _ Hm (mr_page _ _ _ _ _ _ _ _ Hrun) r response_changes) as Hcells.
  pose proof (mr_response _ _ _ _ _ _ _ _ Hrun) as Hr.
  assert (source_lamport r = global_lamport s') as Hlamport by (by rewrite Hr, (run_clock Hrun)).
  assert (length (changes r) ≤ total_cells (changes r))%nat as Hrows.
  { apply length_rows_total. rewrite response_changes.
    eapply page_rows_nonempty; [exact Hm|apply Hrun]. }
  split.
  - split; try (rewrite Hr; done).
    + rewrite Hr. apply (wf_version _ _ Hp).
    + rewrite Hr. cbn. apply (validate_identifier_ok ""). reflexivity.
    + lia.
    + destruct (run_next_bounds Hrun Hwf Hroom) as (Hb & _ & _).
      pose proof (effective_bounds Hrun Hwf Hroom) as He. cbn in He. lia.
    + unfold MAX_RESPONSE_CELLS, MAX_PAYLOAD_ROWS in *. lia.
    + pose proof (length_rejections _ _ _ _ _ (mr_decided _ _ _ _ _ _ _ _ Hrun)) as Hlen.
      rewrite length_payload_writes in Hlen. rewrite Hr; cbn.
      pose proof (wf_cell_count _ _ Hp). lia.
    + rewrite response_changes, row_changes_ids. apply NoDup_bt_keys.
    + apply response_row_wf.
    + unfold MAX_RESPONSE_CELLS, MAX_PAYLOAD_CELLS in *. lia.
    + apply response_rejections_wf.
  - by rewrite Hr.
  - intros row name c Hrow Hc.
    assert (((todo_id row, name), c) ∈ payload_writes r) as [Hin _]%response_page.
    { apply elem_of_payload_writes. by exists row. }
    apply (sw_clocks _ (run_wf Hrun Hwf Hroom)) in Hin. lia.
  - intros x ([k c] & Hin & Hx)%(run_rejected Hrun).
    apply cell_outcome_rejected in Hx as (_ & _ & _ & -> & _).
    destruct (request_write_clock _ _ _ _ _ Hreq Hin) as [_ Hc].
    rewrite Hlamport, (run_clock Hrun). cbn. lia.
Qed.
End response.

(** ** A device and its cursor

    [covers s z m]: everything [s] wrote up to the cursor [z] is dominated
    in [m], the cells the device holds. *)
Definition covers (s : CrdtState) (z : Z) (m : cell_map) : Prop :=
  ∀ k c, cells s !! k = Some c → (Z.of_N (cell_sequence s k) ≤ z)%Z →
  ∃ c', m !! k = Some c' ∧ lww_le c c'.

Section session.
Context `{!SerdeJson}.

(** The life of one device's replica [m] and its cursor [z]: other devices
    merge, the device edits its own cells upwards, and it syncs, sending the
    cursor it holds and taking in the page it gets back. *)
Inductive session : CrdtState → Z → cell_map → Prop :=
| session_start s m : state_wf s → session s 0 m
| session_other s z m p device security r s' :
    session s z m → has_room s p →
    merge_with_security p device security s = (Ok r, s') → session s' z m
| session_local s z m m' : session s z m → cells_le m m' → session s z m'
| session_sync s z m p device security r s' m' :
    session s z m → has_room s p → cursor p = z →
    merge_with_security p device security s = (Ok r, s') →
    absorbs m (payload_writes r) m' → session s' (cursor r) m'.

Lemma covers_mono s z m m' : covers s z m → cells_le m m' → covers s z m'.
Proof.
  intros Hcov Hle k c Hc Hz. destruct (Hcov k c Hc Hz) as (c1 & H1 & Hc1).
  destruct (Hle k c1 H1) as (c2 & H2 & Hc2). exists c2. split; [done|]. by transitivity c1.
Qed.

(** Merges of others do not break the coverage: what they write is numbered
    beyond the cursor. *)
Lemma covers_merge s z m p device security r s' :
  state_wf s → has_room s p → (z ≤ Z.of_N (seq s))%Z →
  merge_with_security p device security s = (Ok r, s') → covers s z m → covers s' z m.
Proof.
  intros Hwf Hroom Hz (outs & pg & Hrun)%run_of_merge Hcov k c Hc Hk.
  destruct (run_sequence Hrun Hroom k) as [[Hold Hseq]|Hnew]; [|lia].
  rewrite Hold in Hc. rewrite Hseq in Hk. by apply Hcov.
Qed.

(** Taking in a page extends the coverage to the new cursor. *)
Lemma covers_sync s z m p device security r s' m' :
  state_wf s → has_room s p → (z ≤ Z.of_N (seq s))%Z → cursor p = z →
  merge_with_security p device security s = (Ok r, s') →
  absorbs m (payload_writes r) m' → covers s z m → covers s' (cursor r) m'.
Proof.
  intros Hwf Hroom Hz Hcur Hm Habs Hcov k c Hc Hk.
  pose proof (covers_merge _ _ _ _ _ _ _ _ Hwf Hroom Hz Hm Hcov k c Hc) as Hold.
  destruct (run_of_merge _ _ _ _ _ _ Hm) as (outs & pg & Hrun).
  destruct (decide (Z.of_N (cell_sequence s' k) ≤ z)%Z) as [Hle|Hgt].
  - destruct (Hold Hle) as (c1 & H1 & Hc1).
    destruct (absorbs_cells_le _ _ _ Habs k c1 H1) as (c2 & H2 & Hc2).
    exists c2. split; [done|]. by transitivity c1.
  - apply (absorbs_above _ _ _ Habs). right.
    apply (response_page Hrun Hwf Hroom). split; [done|]. split; [|done].
    unfold effective_cursor. rewrite Hcur. pose proof (wf_cursor _ _ (cr_payload _ _ _
      (mr_request _ _ _ _ _ _ _ _ Hrun))). case_match; lia.
Qed.

Lemma session_invariant s z m :
  session s z m → state_wf s ∧ (0 ≤ z ≤ Z.of_N (seq s))%Z ∧ covers s z m.
Proof.
  induction 1 as [s m Hwf|s z m p device security r s' _ (Hwf & Hz & Hcov) Hroom Hm
    |s z m m' _ (Hwf & Hz & Hcov) Hle|s z m p device security r s' m' _ (Hwf & Hz & Hcov) Hroom Hcur Hm Habs].
  - split_and!; [done|lia|lia|]. intros k c Hc Hk.
    destruct (cell_sequence_range _ _ _ Hwf Hc). lia.
  - destruct (run_of_merge _ _ _ _ _ _ Hm) as (outs & pg & Hrun).
    pose proof (run_wf Hrun Hwf Hroom) as Hwf'. split; [done|]. split.
    + rewrite (mr_state _ _ _ _ _ _ _ _ Hrun). cbn.
      rewrite write_all_seq by by apply run_room with (Hrun := Hrun). lia.
    + apply (covers_merge s z m p device security r); done || lia.
  - split_and!; [done|lia|lia|]. by eapply covers_mono.
  - destruct (run_of_merge _ _ _ _ _ _ Hm) as (outs & pg & Hrun).
    pose proof (run_wf Hrun Hwf Hroom) as Hwf'. split; [done|]. split.
    + destruct (run_next_bounds Hrun Hwf Hroom) as (Hb & _ & _).
      pose proof (effective_bounds Hrun Hwf Hroom) as He. cbn in He.
      rewrite seq_cursor_small in Hb by apply (sw_seq _ Hwf'). lia.
    + apply (covers_sync s z m p device security r); done || lia.
Qed.
End session.

(** ** Theorems *)
Section theorems.
Context `{!SerdeJson}.

(** What the server answers, a client accepts: the response of a
    successful merge passes [validate_server_response], as long as the
    server clock is storable. *)
Theorem merge_response_valid security p device s r s' :
  state_wf s → has_room s p → (global_lamport s' ≤ MAX_STORABLE_LAMPORT)%N →
  merge_with_security p device security s = (Ok r, s') →
  validate_server_response r (table s) = Ok tt.
Proof.
  intros Hwf Hroom Hmax (outs & pg & Hrun)%run_of_merge.
  apply validate_server_response_ok. by apply (response_wf Hrun).
Qed.

(** The page of a response holds exactly the cells whose last write is
    numbered after the cursor the server accepted and up to the cursor it
    hands out; it is bounded; the cursor never passes the newest write, is
    the newest write when the page is the last one, and moves strictly
    forward when it is not. A cursor the server never issued to the device
    counts as zero. *)
Theorem merge_page_exact security p device s r s' :
  state_wf s → has_room s p →
  merge_with_security p device security s = (Ok r, s') →
  ∃ effective,
    (effective = cursor p ∧ cursor_reset r = false ∨
     effective = 0%Z ∧ cursor_reset r = true) ∧
    (cursor_reset r = true ↔ cursor p ≠ 0%Z ∧
       ¬ (cursor p ≤ Z.of_N (seq s') ∧ cursor p ≤ default 0 (issued_cursors s !! device))%Z) ∧
    (∀ k c, (k, c) ∈ payload_writes r ↔
       cells s' !! k = Some c ∧ (effective < Z.of_N (cell_sequence s' k) ≤ cursor r)%Z) ∧
    (N.of_nat (total_cells (changes r)) ≤ MAX_RESPONSE_CELLS)%N ∧
    (effective ≤ cursor r ≤ Z.of_N (seq s'))%Z ∧
    (has_more r = false → cursor r = Z.of_N (seq s')) ∧
    (has_more r = true → (effective < cursor r)%Z).
Proof.
  intros Hwf Hroom (outs & pg & Hrun)%run_of_merge.
  set (m := merged_state s p (omap outcome_write outs)).
  pose proof (run_wf Hrun Hwf Hroom) as Hwf'. pose proof (merged_wf Hrun Hwf Hroom) as Hm.
  destruct (run_next_bounds Hrun Hwf Hroom) as (Hb & Hmore & Hlast). fold m in Hb, Hmore.
  rewrite seq_cursor_small in Hb, Hlast by apply (sw_seq _ Hwf').
  exists (effective_cursor m device (cursor p)).
  split; [|split; [|split; [|split; [|done]]]].
  - rewrite (mr_response _ _ _ _ _ _ _ _ Hrun). cbn. fold m.
    unfold effective_cursor. destruct (cursor_is_valid m device (cursor p)) eqn:Hv;
      [left; by rewrite andb_false_r|].
    right. unfold cursor_is_valid in Hv. destruct (cursor p =? 0)%Z; [done|]. done.
  - rewrite (mr_response _ _ _ _ _ _ _ _ Hrun), (mr_state _ _ _ _ _ _ _ _ Hrun). cbn. fold m.
    rewrite andb_true_iff, !negb_true_iff, Z.eqb_neq. unfold cursor_is_valid.
    change (issued_cursors m) with (issued_cursors (write_all s (omap outcome_write outs))).
    destruct (write_all_frame s (omap outcome_write outs)) as (_ & _ & ->).
    rewrite seq_cursor_small by apply (sw_seq _ Hm).
    change (seq m) with (seq (write_all s (omap outcome_write outs))).
    destruct (Z.eqb_spec (cursor p) 0); [naive_solver|]. cbn [orb].
    rewrite andb_false_iff, !Z.leb_gt. split; [|lia]. intros [? ?]. split; [done|]. lia.
  - apply (response_page Hrun Hwf Hroom).
  - eapply page_cells_bound; [exact Hm|apply (mr_page _ _ _ _ _ _ _ _ Hrun)|].
    apply (response_changes Hrun).
Qed.

(** C19: A device that always sends back the cursor it was given misses
    nothing, however its syncs interleave with the merges of others: at any
    point it dominates everything written up to its cursor, and after a last
    page ([has_more] is false) it dominates the whole server. *)
Theorem session_covers s z m :
  session s z m →
  covers s z m ∧
  (∀ p device security r s' m',
    has_room s p → cursor p = z →
    merge_with_security p device security s = (Ok r, s') → has_more r = false →
    absorbs m (payload_writes r) m' → cells_le (cells s') m').
Proof.
  intros Hs. destruct (session_invariant _ _ _ Hs) as (Hwf & Hz & Hcov). split; [done|].
  intros p device security r s' m' Hroom Hcur Hm Hlast Habs k c Hc.
  pose proof (session_sync _ _ _ _ _ _ _ _ _ Hs Hroom Hcur Hm Habs) as Hs'.
  destruct (session_invariant _ _ _ Hs') as (Hwf' & _ & Hcov'). apply Hcov'; [done|].
  destruct (run_of_merge _ _ _ _ _ _ Hm) as (outs & pg & Hrun).
  destruct (run_next_bounds Hrun Hwf Hroom) as (_ & _ & Hnext). rewrite Hnext by done.
  destruct (cell_sequence_range _ _ _ Hwf' Hc). rewrite seq_cursor_small; lia.
Qed.

(** C40: A merge moves the server clock forwards, past every clock in the
    payload and in the tables, and by no more than the advance limit plus one:
    the clocks it accepts are at most the limit ahead, and it ticks past the
    largest of them. The answer carries the clock it arrives at. *)
Theorem merge_clock_bounds security p device s r s' :
  state_wf s → has_room s p →
  merge_with_security p device security s = (Ok r, s') →
  source_lamport r = global_lamport s' ∧
  (global_lamport s < global_lamport s' ≤ global_lamport s + MAX_CLOCK_ADVANCE_PER_SYNC + 1)%N ∧
  (max_observed_clock p < global_lamport s')%N ∧
  (∀ k c, cells s' !! k = Some c → (lamport_clock (metadata c) < global_lamport s')%N).
Proof.
  intros Hwf Hroom (outs & pg & Hrun)%run_of_merge.
  pose proof (mr_advance _ _ _ _ _ _ _ _ Hrun). pose proof (run_clock Hrun) as Hclock.
  rewrite (client_request_observed _ _ _ (mr_request _ _ _ _ _ _ _ _ Hrun)).
  split; [by rewrite Hclock, (mr_response _ _ _ _ _ _ _ _ Hrun)|].
  split; [lia|]. split; [lia|]. apply (sw_clocks _ (run_wf Hrun Hwf Hroom)).
Qed.
End theorems.

(** ** Witnesses *)
Section witnesses.
#[local] Existing Instance demo_json.

Lemma merge_response_valid_witness :
  validate_server_response response_denied (table state_a) = Ok tt.
Proof.
  apply (merge_response_valid title_only request_b "device-b" state_a response_denied state_denied);
    [exact state_a_wf|vm_le|vm_le|exact demo_denied].
Defined.

Lemma merge_page_exact_witness :
  (N.of_nat (total_cells (changes response_ab)) ≤ MAX_RESPONSE_CELLS)%N ∧
  cursor response_ab = Z.of_N (seq state_ab).
Proof.
  destruct (merge_page_exact open_security request_b "device-b" state_a response_ab state_ab
              state_a_wf ltac:(vm_le) demo_ab) as (z & _ & _ & _ & Hn & _ & Hlast & _).
  split; [exact Hn|]. apply Hlast. by vm_compute.
Defined.

Lemma session_covers_witness :
  cells_le (cells state_ab) (cells_after ∅ (payload_writes response_ab)).
Proof.
  refine (proj2 (session_covers state_a 0 ∅ (session_start _ _ state_a_wf))
    request_b "device-b" open_security response_ab state_ab _ ltac:(vm_le) eq_refl demo_ab _ _);
    [by vm_compute|].
  assert (NoDup (payload_writes response_ab).*1) as Hnd
    by (apply NoDup_payload_writes, (bool_decide_unpack _); by vm_compute).
  split.
  - intros k c [Hin|[_ [=]]]%cells_after_lookup; [by right|done].
  - intros k c [[=]|Hin]. exists c. split; [|done].
    apply cells_after_lookup; [done|by left].
Defined.

Lemma merge_clock_bounds_witness :
  source_lamport response_ab = global_lamport state_ab.
Proof.
  apply (merge_clock_bounds open_security request_b "device-b" state_a response_ab state_ab);
    [exact state_a_wf|vm_le|exact demo_ab].
Defined.
End witnesses.
