(* ===== verification/SchemaFacts.v ===== *)
(** * What a contract guarantees (src/schema.rs)

    Contracts only ever hold safe SQL identifiers; columns are found by
    name; migrations are exact and idempotent; fingerprints are 64-bit and
    do not depend on the order tables are declared in. *)
From S2P Require Import Prelude RustStd Error Schema.

(** ** Specification *)

(** An identifier that needs no quoting: [[a-z_][a-z0-9_]*], at most 63
    bytes. *)
Definition sql_identifier (s : string) : Prop :=
  (str_len s ≤ MAX_IDENTIFIER_LEN)%N ∧
  (∃ b rest, str_bytes s = b :: rest ∧ is_identifier_start b = true) ∧
  Forall (λ b, is_identifier_byte b = true) (str_bytes s).

Record table_wf (t : TableDef) : Prop := {
  tw_name : sql_identifier (td_name t);
  tw_reserved : td_name t ∉ RESERVED_TABLES;
  tw_nonempty : td_columns t ≠ [];
  tw_columns : Forall (λ c, sql_identifier (cd_name c)) (td_columns t);
  tw_names : Forall (λ c, cd_name c ≠ PRIMARY_KEY_COLUMN ∧ cd_name c ≠ LIVENESS_COLUMN)
               (td_columns t);
  tw_distinct : NoDup (cd_name <$> td_columns t);
}.

(** ** Construction *)
Section construction.
Context `{!StrDebug}.

Lemma str_bytes_nil s : str_bytes s = [] ↔ s = "".
Proof. by destruct s. Qed.

Lemma forallb_Forall {A} (f : A → bool) l : forallb f l = true ↔ Forall (λ x, f x = true) l.
Proof.
  rewrite forallb_forall, list.Forall_forall. by setoid_rewrite list_elem_of_In.
Qed.

Lemma validate_sql_identifier_ok kind s :
  validate_sql_identifier kind s = Ok tt ↔ sql_identifier s.
Proof.
  unfold validate_sql_identifier, sql_identifier.
  set (valid := _ && _ && _ && _).
  assert (valid = true ↔ (str_len s ≤ MAX_IDENTIFIER_LEN)%N ∧
    (∃ b rest, str_bytes s = b :: rest ∧ is_identifier_start b = true) ∧
    Forall (λ b, is_identifier_byte b = true) (str_bytes s)) as <-; [|by destruct valid].
  unfold valid. rewrite !andb_true_iff, N.leb_le, forallb_Forall, negb_true_iff.
  destruct s as [|c s]; simpl.
  - split; [by intros [[[? _] _] _]|]. by intros (_ & (? & ? & ? & _) & _).
  - split; [intros (((_ & ?) & ?) & ?); naive_solver|].
    intros (? & (b & rest & [= <- <-] & ?) & ?). done.
Qed.

Lemma TableDef_new_columns columns seen :
  (∃ r, foldM TableDef_new_column seen columns = Ok r) ↔
  Forall (λ c, sql_identifier (cd_name c)) columns ∧
  Forall (λ c, cd_name c ≠ PRIMARY_KEY_COLUMN ∧ cd_name c ≠ LIVENESS_COLUMN) columns ∧
  NoDup (cd_name <$> columns) ∧ (∀ c, c ∈ columns → cd_name c ∉ seen).
Proof.
  revert seen; induction columns as [|c columns IH]; intros seen; cbn [foldM].
  { split; [|by eexists]. intros _. split_and!; [done|done|constructor|set_solver]. }
  rewrite fmap_cons, list.NoDup_cons, !Forall_cons_iff.
  destruct (TableDef_new_column seen c) as [seen'|e] eqn:Hc.
  - unfold TableDef_new_column in Hc. apply bind_unit_ok in Hc as [Hid Hc].
    apply validate_sql_identifier_ok in Hid. do 2 (case_bool_decide; [done|]); simpl in Hc.
    case_bool_decide; [done|]. injection Hc as <-. rewrite IH. split.
    + intros (? & ? & ? & Hfresh). split_and!; try done.
      * rewrite list_elem_of_fmap. intros (c' & Heq & Hc'). apply (Hfresh c' Hc'). set_solver.
      * intros c' [->|Hc']%elem_of_cons; [done|]. specialize (Hfresh c' Hc'). set_solver.
    + intros ([_ ?] & [_ ?] & [Hnin ?] & Hfresh). split_and!; try done.
      intros c' Hc' [Heq%elem_of_singleton|Hin]%elem_of_union.
      * apply Hnin. rewrite list_elem_of_fmap. by exists c'.
      * apply (Hfresh c'); set_solver.
  - split; [by intros [? ?]|]. intros ([Hid _] & [[H1 H2] _] & _ & Hfresh).
    unfold TableDef_new_column in Hc. rewrite (proj2 (validate_sql_identifier_ok _ _) Hid) in Hc.
    simpl in Hc. rewrite !bool_decide_false in Hc by (done || (apply Hfresh; set_solver)). done.
Qed.

Lemma TableDef_new_ok name columns t :
  TableDef_new name columns = Ok t ↔
  t = {| td_name := name; td_columns := columns |} ∧ table_wf t.
Proof.
  unfold TableDef_new. rewrite bind_unit_ok, validate_sql_identifier_ok. split.
  - intros [Hname Hif]. case_bool_decide; [done|]. destruct columns as [|c columns]; [done|].
    apply bind_ok in Hif as (seen & Hcols & [= <-]). split; [done|].
    destruct (proj1 (TableDef_new_columns (c :: columns) ∅) (ex_intro _ seen Hcols))
      as (? & ? & ? & _). by split.
  - intros [-> [Hname Hres Hne Hcols Hnames Hnd]]. simpl in *. split; [done|].
    rewrite bool_decide_false by done. destruct columns as [|c columns]; [done|].
    destruct (proj2 (TableDef_new_columns (c :: columns) ∅)) as [seen Hseen]; [set_solver|].
    rewrite Hseen. done.
Qed.

(** A contract table is accepted exactly when its name and columns are
    safe lowercase SQL identifiers, the name is not one of the library's own
    tables, there is at least one column, no column is called [id] or
    [deleted] and no two share a name. *)
Theorem TableDef_new_spec name columns :
  (∃ t, TableDef_new name columns = Ok t) ↔
  table_wf {| td_name := name; td_columns := columns |}.
Proof. setoid_rewrite TableDef_new_ok. naive_solver. Qed.
End construction.

(** ** Columns *)
Lemma find_by_name columns name :
  NoDup (cd_name <$> columns) →
  ∀ ty, cd_ty <$> List.find (λ column, bool_decide (cd_name column = name)) columns = Some ty ↔
    {| cd_name := name; cd_ty := ty |} ∈ columns.
Proof.
  intros Hnd ty. induction columns as [|[n ty'] columns IH]; simpl.
  { split; [done|]. by intros ?%not_elem_of_nil. }
  rewrite fmap_cons in Hnd. apply list.NoDup_cons in Hnd as [Hn Hnd]. simpl in *.
  rewrite elem_of_cons. case_bool_decide as Heq.
  - subst n. simpl. split; [intros [= ->]; by left|].
    intros [[= ->]|Hin]; [done|]. exfalso. apply Hn. rewrite list_elem_of_fmap.
    eexists. by split; [|exact Hin].
  - rewrite IH by done. naive_solver.
Qed.

Lemma column_type_iff t name ty :
  table_wf t →
  column_type t name = Some ty ↔
  {| cd_name := name; cd_ty := ty |} ∈ synchronized_columns t.
Proof.
  intros Hwf. unfold column_type, synchronized_columns.
  rewrite elem_of_app, list_elem_of_singleton. case_bool_decide as Hname.
  - subst name. split; [intros [= <-]; by right|].
    intros [Hin|[= ->]]; [|done]. exfalso. pose proof (tw_names _ Hwf) as Hall.
    rewrite list.Forall_forall in Hall. by destruct (Hall _ Hin) as [_ ?].
  - rewrite (find_by_name _ _ (tw_distinct _ Hwf)). split; [by left|].
    intros [Hin|Heq]; [done|]. unfold ColumnDef_new in Heq. congruence.
Qed.

(** ** Migrations *)

(** The columns a database lacks, and the ones it declares with another
    type. *)
Definition missing (existing : gmap string string) (columns : list ColumnDef) : list ColumnDef :=
  filter (λ c, existing !! cd_name c = None) columns.
Definition compatible (ty : ColumnType → string) (existing : gmap string string)
    (c : ColumnDef) : Prop :=
  ∀ declared, existing !! cd_name c = Some declared →
  eq_ignore_ascii_case declared (ty (cd_ty c)) = true.

Definition sqlite_add (t : TableDef) (c : ColumnDef) : string :=
  "ALTER TABLE " +:+ td_name t +:+ " ADD COLUMN " +:+ sqlite_column_ddl c.
Definition postgres_add (t : TableDef) (c : ColumnDef) : string :=
  "ALTER TABLE " +:+ td_name t +:+ " ADD COLUMN IF NOT EXISTS " +:+ postgres_column_ddl c.

(** The columns a database has once the missing ones were added. *)
Definition migrated (ty : ColumnType → string) (t : TableDef) (existing : gmap string string)
  : gmap string string :=
  existing ∪ list_to_map ((λ c, (cd_name c, ty (cd_ty c))) <$> synchronized_columns t).

Lemma reject_removed_columns_ok existing expected :
  reject_removed_columns existing expected = Ok tt ↔
  ∀ k, is_Some (existing !! k) → k ∈ expected.
Proof.
  unfold reject_removed_columns. setoid_rewrite <-elem_of_bt_keys.
  destruct (List.find _ _) as [k|] eqn:Hf.
  - split; [done|]. intros Hall. apply find_some in Hf as [Hin%list_elem_of_In Hk].
    apply bool_decide_eq_true in Hk. exfalso. apply Hk. apply elem_of_list_to_set. by apply Hall.
  - split; [|done]. intros _ k Hk. pose proof (find_none _ _ Hf k) as Hnone.
    rewrite <-list_elem_of_In in Hnone. specialize (Hnone Hk). apply bool_decide_eq_false in Hnone.
    apply dec_stable in Hnone. by apply elem_of_list_to_set in Hnone.
Qed.

Lemma sqlite_migration_loop t existing l acc r :
  foldM (sqlite_migration_column t existing) acc l = Ok r ↔
  Forall (compatible sqlite_type existing) l ∧
  r = (acc.1 ++ (sqlite_add t <$> missing existing l),
       acc.2 || negb (bool_decide (missing existing l = []))).
Proof.
  revert acc; induction l as [|c l IH]; intros acc; cbn [foldM].
  { destruct acc; simpl. rewrite app_nil_r, orb_false_r. split; [|by intros [_ ->]].
    by intros [= <-]. }
  rewrite Forall_cons_iff. unfold sqlite_migration_column at 1, missing, compatible.
  rewrite filter_cons. destruct (existing !! cd_name c) as [d|] eqn:Hc.
  - rewrite decide_False by done. destruct (eq_ignore_ascii_case _ _) eqn:He; cbn [negb].
    + rewrite IH. unfold missing. naive_solver.
    + split; [done|]. intros [[Hd _] _]. specialize (Hd d eq_refl). congruence.
  - rewrite decide_True by done. rewrite IH. simpl. rewrite <-app_assoc. unfold missing.
    rewrite orb_true_r. naive_solver.
Qed.

Lemma sqlite_migration_ok t existing stmts :
  sqlite_migration_sql t existing = Ok stmts ↔
  (∀ k, is_Some (existing !! k) → k = PRIMARY_KEY_COLUMN ∨ k ∈ synchronized_column_names t) ∧
  Forall (compatible sqlite_type existing) (synchronized_columns t) ∧
  stmts = (sqlite_add t <$> missing existing (synchronized_columns t)) ++
          (if decide (missing existing (synchronized_columns t) = []) then []
           else ["DROP TRIGGER IF EXISTS " +:+ td_name t +:+ "_crdt_after_insert"]).
Proof.
  unfold sqlite_migration_sql. rewrite bind_unit_ok, reject_removed_columns_ok, bind_ok.
  setoid_rewrite sqlite_migration_loop. setoid_rewrite elem_of_cons. fold (synchronized_column_names t).
  assert (∀ P Q : Prop, (P ↔ Q) → ∀ A : Prop, (A ∧ P) ↔ (A ∧ Q)) as Hand by tauto.
  apply Hand. split.
  - intros (r & (Hall & ->) & [= <-]). split; [done|]. simpl.
    case_bool_decide; case_decide; simpl; rewrite ?app_nil_r; done.
  - intros (Hall & ->). eexists. split; [by split|]. simpl.
    case_bool_decide; case_decide; simpl; rewrite ?app_nil_r; done.
Qed.

Lemma postgres_migration_loop t existing l acc r :
  foldM (postgres_migration_column t existing) acc l = Ok r ↔
  Forall (compatible postgres_type existing) l ∧
  r = acc ++ (postgres_add t <$> missing existing l).
Proof.
  revert acc; induction l as [|c l IH]; intros acc; cbn [foldM].
  { simpl. rewrite app_nil_r. naive_solver. }
  rewrite Forall_cons_iff. unfold postgres_migration_column at 1, missing, compatible.
  rewrite filter_cons. destruct (existing !! cd_name c) as [d|] eqn:Hc.
  - rewrite decide_False by done. destruct (eq_ignore_ascii_case _ _) eqn:He; cbn [negb].
    + rewrite IH. unfold missing. naive_solver.
    + split; [done|]. intros [[Hd _] _]. specialize (Hd d eq_refl). congruence.
  - rewrite decide_True by done. rewrite IH. simpl. rewrite <-app_assoc. naive_solver.
Qed.

Lemma postgres_migration_ok t existing stmts :
  postgres_migration_sql t existing = Ok stmts ↔
  (∀ k, is_Some (existing !! k) →
     k = "tenant_id" ∨ k = PRIMARY_KEY_COLUMN ∨ k ∈ synchronized_column_names t) ∧
  Forall (compatible postgres_type existing) (synchronized_columns t) ∧
  stmts = postgres_add t <$> missing existing (synchronized_columns t).
Proof.
  unfold postgres_migration_sql. rewrite bind_unit_ok, reject_removed_columns_ok.
  rewrite postgres_migration_loop. setoid_rewrite elem_of_cons. by setoid_rewrite elem_of_cons.
Qed.

Section migrated.
Variables (ty : ColumnType → string) (t : TableDef) (existing : gmap string string).

Lemma synchronized_names_distinct : table_wf t → NoDup (cd_name <$> synchronized_columns t).
Proof.
  intros Hwf.   unfold synchronized_columns. rewrite fmap_app, list.NoDup_app. split_and!.
  - apply (tw_distinct _ Hwf).
  - intros n (c & -> & Hc)%list_elem_of_fmap Hn%list_elem_of_singleton.
    pose proof (tw_names _ Hwf) as Hall. rewrite list.Forall_forall in Hall.
    by destruct (Hall c Hc) as [_ ?].
  - apply NoDup_singleton.
Qed.

Lemma migrated_lookup k d :
  migrated ty t existing !! k = Some d →
  existing !! k = Some d ∨
  ∃ c, c ∈ synchronized_columns t ∧ k = cd_name c ∧ d = ty (cd_ty c).
Proof.
  unfold migrated. intros [Hk|[_ Hk]]%lookup_union_Some_raw; [by left|right].
  apply elem_of_list_to_map_2, list_elem_of_fmap in Hk as (c & [= -> ->] & Hc). eauto.
Qed.

Lemma missing_migrated : missing (migrated ty t existing) (synchronized_columns t) = [].
Proof.
  unfold missing. apply dec_stable. intros Hne.
  destruct (filter _ _) as [|c l] eqn:Hf; [done|].
  assert (c ∈ filter (λ c, migrated ty t existing !! cd_name c = None) (synchronized_columns t))
    as [Hnone Hc]%list_elem_of_filter by (rewrite Hf; set_solver).
  apply lookup_union_None in Hnone as [_ Hnone].
  apply not_elem_of_list_to_map_2 in Hnone. apply Hnone.
  rewrite <-list_fmap_compose, list_elem_of_fmap. by exists c.
Qed.

Lemma compatible_migrated :
  table_wf t →
  Forall (compatible ty existing) (synchronized_columns t) →
  Forall (compatible ty (migrated ty t existing)) (synchronized_columns t).
Proof.
  rewrite !list.Forall_forall. intros Hwf Hall c Hc d [Hd|(c' & Hc' & Hn & ->)]%migrated_lookup.
  - by apply (Hall c Hc).
  - assert (c = c') as ->; [|apply String.eqb_refl].
    pose proof (synchronized_names_distinct Hwf) as Hnd.
    apply list_elem_of_lookup in Hc as [i Hi], Hc' as [j Hj].
    assert (i = j) as ->; [|congruence].
    apply (NoDup_lookup _ i j (cd_name c) Hnd); rewrite list_lookup_fmap;
      [by rewrite Hi|by rewrite Hj, Hn].
Qed.
End migrated.

(** Migrations add exactly the columns the contract has and the
    database lacks, in the order of the contract; running them again on the
    migrated table does nothing. A column that would change type or be
    removed makes the migration fail. *)
Theorem sqlite_migration_spec t existing :
  table_wf t →
  (∀ stmts, sqlite_migration_sql t existing = Ok stmts ↔
    (∀ k, is_Some (existing !! k) → k = PRIMARY_KEY_COLUMN ∨ k ∈ synchronized_column_names t) ∧
    Forall (compatible sqlite_type existing) (synchronized_columns t) ∧
    stmts = (sqlite_add t <$> missing existing (synchronized_columns t)) ++
            (if decide (missing existing (synchronized_columns t) = []) then []
             else ["DROP TRIGGER IF EXISTS " +:+ td_name t +:+ "_crdt_after_insert"])) ∧
  (is_ok (sqlite_migration_sql t existing) = true →
   sqlite_migration_sql t (migrated sqlite_type t existing) = Ok []).
Proof.
  intros Hwf. split; [intros; apply sqlite_migration_ok|].
  destruct (sqlite_migration_sql t existing) as [stmts|e] eqn:Hm; [|done]. intros _.
  apply sqlite_migration_ok in Hm as (Hkeys & Hall & _). apply sqlite_migration_ok.
  rewrite missing_migrated. split; [|split; [by apply compatible_migrated|done]].
  intros k [d [Hd|(c & Hc & -> & _)]%migrated_lookup]; [by apply Hkeys; eexists|].
  right. apply list_elem_of_fmap. eauto.
Qed.

(** The same for the PostgreSQL schema, which also has a [tenant_id]
    column. *)
Theorem postgres_migration_spec t existing :
  table_wf t →
  (∀ stmts, postgres_migration_sql t existing = Ok stmts ↔
    (∀ k, is_Some (existing !! k) →
       k = "tenant_id" ∨ k = PRIMARY_KEY_COLUMN ∨ k ∈ synchronized_column_names t) ∧
    Forall (compatible postgres_type existing) (synchronized_columns t) ∧
    stmts = postgres_add t <$> missing existing (synchronized_columns t)) ∧
  (is_ok (postgres_migration_sql t existing) = true →
   postgres_migration_sql t (migrated postgres_type t existing) = Ok []).
Proof.
  intros Hwf. split; [intros; apply postgres_migration_ok|].
  destruct (postgres_migration_sql t existing) as [stmts|e] eqn:Hm; [|done]. intros _.
  apply postgres_migration_ok in Hm as (Hkeys & Hall & _). apply postgres_migration_ok.
  rewrite missing_migrated. split; [|split; [by apply compatible_migrated|done]].
  intros k [d [Hd|(c & Hc & -> & _)]%migrated_lookup]; [by apply Hkeys; eexists|].
  do 2 right. apply list_elem_of_fmap. eauto.
Qed.

(** ** Fingerprints *)
Lemma fnv1a_64_bound bytes : (fnv1a_64 bytes < 2 ^ 64)%N.
Proof.
  unfold fnv1a_64. assert (∀ h, (h < 2 ^ 64)%N → (foldl fnv1a_64_step h bytes < 2 ^ 64)%N) as Hgen.
  { induction bytes as [|b bytes IH]; intros h Hh; simpl; [done|]. apply IH.
    apply N.mod_upper_bound. done. }
  by apply Hgen.
Qed.

(** The fingerprint of a contract is a 64-bit number that depends on its
    set of tables only, not on the order they are declared in. *)
Theorem Contract_fingerprint_order c c' :
  ct_tables c ≡ₚ ct_tables c' →
  Contract_fingerprint c = Contract_fingerprint c' ∧ (Contract_fingerprint c < 2 ^ 64)%N.
Proof.
  intros Hperm. split; [|apply fnv1a_64_bound]. unfold Contract_fingerprint. do 3 f_equal.
  apply (StronglySorted_unique key_le); [apply (StronglySorted_merge_sort key_le)..|].
  rewrite !merge_sort_Permutation. by rewrite Hperm.
Qed.

(** ** Witnesses *)
Definition plain_debug : StrDebug := {| str_debug := λ s, s |}.

Lemma todos_table_wf : table_wf todos_table.
Proof.
  apply (TableDef_new_ok (H:=plain_debug) "todos"
    [ColumnDef_new TITLE_COLUMN TText; ColumnDef_new COMPLETED_COLUMN TBoolean]).
  reflexivity.
Qed.

(** A database that predates the [completed] column. *)
Definition old_todos : gmap string string :=
  {[ "id" := "TEXT"; "title" := "text"; "deleted" := "BOOLEAN" ]}.

Lemma sqlite_migration_spec_witness :
  sqlite_migration_sql todos_table old_todos =
    Ok ["ALTER TABLE todos ADD COLUMN completed BOOLEAN NOT NULL DEFAULT 0 CHECK (completed IN (0, 1))";
        "DROP TRIGGER IF EXISTS todos_crdt_after_insert"] ∧
  sqlite_migration_sql todos_table (migrated sqlite_type todos_table old_todos) = Ok [].
Proof.
  split; [reflexivity|].
  apply (sqlite_migration_spec todos_table old_todos todos_table_wf). reflexivity.
Defined.

Lemma postgres_migration_spec_witness :
  postgres_migration_sql todos_table
    (migrated postgres_type todos_table {[ "tenant_id" := "text" ]}) = Ok [].
Proof.
  apply (postgres_migration_spec todos_table {[ "tenant_id" := "text" ]} todos_table_wf).
  reflexivity.
Defined.

Definition notes_table : TableDef :=
  {| td_name := "notes"; td_columns := [ColumnDef_new "body" TText] |}.

Lemma Contract_fingerprint_order_witness :
  Contract_fingerprint {| ct_tables := [todos_table; notes_table] |}
  = Contract_fingerprint {| ct_tables := [notes_table; todos_table] |}.
Proof.
  apply (Contract_fingerprint_order {| ct_tables := [todos_table; notes_table] |}
           {| ct_tables := [notes_table; todos_table] |}).
  apply Permutation_swap.
Defined.
