(* ===== verification/PolicyFacts.v ===== *)
(** * Policies and explanations (src/policy.rs, src/explain.rs)

    The shipped policies decide every valid mutation, a composite answers
    with its first denial, and the explanation of a decision is the decision
    the merge takes. *)
From S2P Require Import Prelude RustStd Error Schema Crdt Lww Payload Policy Explain SchemaFacts.

(** ** Composite validators *)

(** A composite validator allows a mutation when every validator does,
    and otherwise answers with the first one, in order, that denies or
    fails. *)
Theorem composite_first_deny l context mutation current d :
  composite_validate l context mutation current = d ↔
  (d = Ok Allow ∧ Forall (λ v : CellPolicy, v context mutation current = Ok Allow) l) ∨
  (d ≠ Ok Allow ∧ ∃ l1 v l2, l = l1 ++ v :: l2 ∧
     Forall (λ v : CellPolicy, v context mutation current = Ok Allow) l1 ∧
     v context mutation current = d).
Proof.
  revert d; induction l as [|v l IH]; intros d; simpl.
  { split; [intros <-; by left|]. intros [[-> _]|(_ & [|] & ? & ? & ? & _)]; done. }
  rewrite Forall_cons_iff. destruct (v context mutation current) as [[|kind reason]|e] eqn:Hv; simpl.
  - rewrite IH. split.
    + intros [[-> Hl]|(Hd & l1 & w & l2 & -> & Hl1 & Hw)]; [by left|right].
      split; [done|]. exists (v :: l1), w, l2. split_and!; [done|by constructor|done].
    + intros [[-> [_ Hl]]|(Hd & [|v' l1] & w & l2 & [= <- ->] & Hl1 & Hw)]; [by left|congruence|].
      right. split; [done|]. exists l1, w, l2. apply Forall_cons_iff in Hl1 as [_ ?]. done.
  - split; [intros <-; right; split; [done|]; by exists [], v, l|].
    intros [[-> [? _]]|(Hd & [|v' l1] & w & l2 & [= <- ->] & Hl1 & Hw)]; [congruence|congruence|].
    apply Forall_cons_iff in Hl1 as [? _]. congruence.
  - split; [intros <-; right; split; [done|]; by exists [], v, l|].
    intros [[-> [? _]]|(Hd & [|v' l1] & w & l2 & [= <- ->] & Hl1 & Hw)]; [congruence|congruence|].
    apply Forall_cons_iff in Hl1 as [? _]. congruence.
Qed.

(** ** Explanations *)
Section explain.
Context `{!StrDebug}.

Lemma key_lt_ne (a b : string) : key_lt a b → a ≠ b.
Proof. by intros [_ ?]. Qed.

(** Closes the equivalences of one branch, the versions known. *)
#[local] Ltac decide_case :=
  split; intros;
  repeat match goal with
  | H : _ ∨ _ |- _ => destruct H | H : _ ∧ _ |- _ => destruct H | H : ∃ _, _ |- _ => destruct H
  end;
  repeat match goal with H : key_lt _ _ |- _ => apply key_lt_ne in H end;
  try discriminate; try reflexivity; try (left; reflexivity); try (right; reflexivity);
  try (eexists; reflexivity); try lia; try (split; (lia || congruence)); congruence.
#[local] Ltac explain_case Hx :=
  split_and!; try decide_case;
  let x := fresh in let Hs := fresh in intros x Hs; rewrite (Hx x Hs); simpl;
  split_and!; decide_case.

(** An explanation names the winner the merge picks: the incoming value
    when the merge writes it, the current or an equal version when the merge
    keeps the cell, an invalid conflict when the merge rejects the payload;
    and its reason is the comparison that decided. *)
Theorem explain_lww_agrees current incoming :
  let e := explain_lww current incoming in
  (winner e = WIncoming ↔ should_apply current incoming = Ok true) ∧
  (winner e = WCurrent ∨ winner e = WEqual ↔ should_apply current incoming = Ok false) ∧
  (winner e = WInvalidConflict ↔ ∃ err, should_apply current incoming = Err err) ∧
  (reason e = MissingCurrentValue ↔ current = None) ∧
  (∀ c, current = Some c →
    (reason e = HigherLamportClock ↔
       (lamport_clock (metadata c) < lamport_clock (metadata incoming))%N) ∧
    (reason e = LowerLamportClock ↔
       (lamport_clock (metadata incoming) < lamport_clock (metadata c))%N) ∧
    (reason e = DeviceIdTieBreak ↔
       lamport_clock (metadata incoming) = lamport_clock (metadata c) ∧
       device_id (metadata incoming) ≠ device_id (metadata c))).
Proof.
  destruct current as [c|]; [|simpl; naive_solver]. cbn zeta.
  unfold explain_lww, explain_decision, should_apply.
  pose proof (decide_lww_accept (metadata c) (metadata incoming)) as Ha.
  pose proof (decide_lww_keep (metadata c) (metadata incoming)) as Hk.
  pose proof (decide_lww_equal (metadata c) (metadata incoming)) as He.
  unfold version_lt in Ha, Hk.
  destruct (metadata c) as [cc cd] eqn:Hc, (metadata incoming) as [ic id] eqn:Hi; simpl in *.
  assert (∀ x : CrdtColumn, Some c = Some x → metadata x = {| lamport_clock := cc; device_id := cd |})
    as Hx by (by intros x [= <-]).
  destruct (decide_lww _ _).
  - destruct Ha as [Ha _]. specialize (Ha eq_refl).
    destruct (N.ltb_spec cc ic); simpl; explain_case Hx.
  - destruct Hk as [Hk _]. specialize (Hk eq_refl).
    destruct (N.ltb_spec ic cc); simpl; explain_case Hx.
  - destruct He as [He _]. specialize (He eq_refl). injection He as -> ->.
    destruct (value_eqb (value c) (value incoming)); simpl; explain_case Hx.
Qed.
End explain.

(** ** The shipped policies *)
Lemma PolicyDecision_deny_ok kind why d :
  PolicyDecision_deny kind why = Ok d ↔ reason_ok why ∧ d = Deny kind why.
Proof.
  unfold PolicyDecision_deny. rewrite bind_unit_ok, validate_rejection_reason_ok. naive_solver.
Qed.

(** *** ASCII text *)
Definition ascii_text (s : string) : Prop := Forall (λ b, (32 ≤ b < 127)%N) (str_bytes s).

Lemma str_bytes_app a b : str_bytes (a +:+ b) = str_bytes a ++ str_bytes b.
Proof. unfold str_bytes. induction a as [|c a IH]; simpl; [done|]. by f_equal. Qed.
Lemma str_len_app a b : str_len (a +:+ b) = (str_len a + str_len b)%N.
Proof.
  unfold str_len. induction a as [|c a IH]; simpl; [done|].
  rewrite !Nat2N.inj_succ, IH. lia.
Qed.

Lemma ascii_text_chars s : ascii_text s → str_chars s = str_bytes s.
Proof.
  unfold ascii_text, str_bytes. induction s as [|c s IH]; cbn [String.list_ascii_of_string]; [done|].
  rewrite fmap_cons, Forall_cons_iff. intros [Hc Hs]. cbn [str_chars]. simpl in Hc.
  destruct (N.ltb_spec (byte_of c) 128); [|lia]. by rewrite IH.
Qed.

Lemma ascii_text_no_control s : ascii_text s → Forall (λ c, char_is_control c = false) (str_chars s).
Proof.
  intros Hs. rewrite (ascii_text_chars _ Hs). eapply list.Forall_impl; [exact Hs|].
  intros b Hb. unfold char_is_control.
  simpl in Hb. destruct (N.leb_spec b 31), (N.leb_spec 127 b); simpl; done || lia.
Qed.

Lemma sql_identifier_ascii s : sql_identifier s → ascii_text s.
Proof.
  intros (_ & _ & Hall). eapply list.Forall_impl; [exact Hall|]. intros b Hb. simpl in Hb.
  unfold is_identifier_byte, is_ascii_lowercase, is_ascii_digit in Hb.
  rewrite !orb_true_iff, !andb_true_iff, N.eqb_eq, !N.leb_le in Hb. lia.
Qed.

Lemma column_type_identifier t name :
  table_wf t → is_Some (column_type t name) → sql_identifier name.
Proof.
  intros Hwf [ty Hty]. unfold column_type in Hty. case_bool_decide as Hname.
  - subst name. apply (validate_sql_identifier_ok (H:={| str_debug := id |}) ""). reflexivity.
  - destruct (List.find _ _) as [c|] eqn:Hf; [|done].
    apply find_some in Hf as [Hc%list_elem_of_In Hn%bool_decide_eq_true]. subst name.
    pose proof (tw_columns _ Hwf) as Hall. rewrite list.Forall_forall in Hall. by apply Hall.
Qed.

Lemma validated_columns_ok t names columns :
  validated_columns t names = Ok columns →
  columns = list_to_set names ∧ Forall (λ n, is_Some (column_type t n)) names.
Proof.
  unfold validated_columns.
  assert (∀ acc, foldM (λ (acc : gset string) column,
      validate_column_name t column ≫= λ _, Ok ({[ column ]} ∪ acc)) acc names = Ok columns →
    columns = list_to_set names ∪ acc ∧ Forall (λ n, is_Some (column_type t n)) names) as Hgen.
  { induction names as [|n names IH]; intros acc; cbn [foldM].
    { intros [= <-]. split; [set_solver|constructor]. }
    destruct (validate_column_name t n) as [[]|e] eqn:Hn; simpl; [|done].
    apply validate_column_name_ok in Hn. intros [-> Hall]%IH.
    split; [set_solver|by constructor]. }
  intros [-> Hall]%Hgen. split; [set_solver|done].
Qed.

(** The column allow-list is total and exact: built for a contract, it
    allows the mutations of the listed columns and answers every other
    mutation of a column of the contract with a well-formed denial; it never
    fails a merge. *)
Theorem allow_list_decides t names a context m current :
  table_wf t → ColumnAllowListAuthorizer_new t names = Ok a →
  is_Some (column_type t (cm_column_name m)) →
  (cm_column_name m ∈ names ∧ authorize_cell a context m current = Ok Allow) ∨
  ((cm_column_name m ∉ names) ∧ ∃ why, reason_ok why ∧
     authorize_cell a context m current = Ok (Deny AuthorizationDenied why)).
Proof.
  intros Hwf Hnew Hcol. unfold ColumnAllowListAuthorizer_new in Hnew.
  apply bind_ok in Hnew as (columns & Hcols & [= <-]).
  apply validated_columns_ok in Hcols as [-> _].
  unfold authorize_cell, ColumnAllowListAuthorizer_authorizer; simpl.
  case_bool_decide as Hin; rewrite elem_of_list_to_set in Hin; [by left|right].
  split; [done|]. eexists. rewrite PolicyDecision_deny_ok.
  assert (reason_ok ("writes to column " +:+ cm_column_name m +:+ " are not authorized")); [|done].
  pose proof (column_type_identifier _ _ Hwf Hcol) as Hid.
  split_and!; [done|..].
  - rewrite !str_len_app. destruct Hid as [Hlen _].
    change (str_len "writes to column ") with 17%N. change (str_len " are not authorized") with 19%N.
    unfold MAX_IDENTIFIER_LEN, MAX_REJECTION_REASON_BYTES in *. lia.
  - apply ascii_text_no_control. unfold ascii_text. rewrite !str_bytes_app, !Forall_app.
    split_and!; [|by apply sql_identifier_ascii|];
      apply (bool_decide_unpack _); by vm_compute.
Qed.

(** ** Witnesses *)
Lemma allow_list_decides_witness :
  ∃ why, reason_ok why ∧
    authorize_cell {| writable_columns := {[ "title" ]} |}
      {| tenant_id := "acme"; authenticated_device_id := "device-a"; ctx_table := todos_table |}
      {| cm_todo_id := "todo-1"; cm_column_name := "completed"; cm_value := VBoolean true;
         cm_metadata := {| lamport_clock := 1; device_id := "device-a" |} |} None
    = Ok (Deny AuthorizationDenied why).
Proof.
  destruct (allow_list_decides todos_table ["title"] {| writable_columns := {[ "title" ]} |}
    {| tenant_id := "acme"; authenticated_device_id := "device-a"; ctx_table := todos_table |}
    {| cm_todo_id := "todo-1"; cm_column_name := "completed"; cm_value := VBoolean true;
       cm_metadata := {| lamport_clock := 1; device_id := "device-a" |} |} None
    todos_table_wf ltac:(by vm_compute) ltac:(by eexists)) as [[Hin _]|[_ Hdeny]]; [|exact Hdeny].
  exfalso. apply list_elem_of_singleton in Hin. discriminate Hin.
Defined.
