(* ===== verification/Membership.v ===== *)
(** * Interests, membership lists and query plans (src/replica.rs)

    What the validators of the partial-replica protocol accept, and the
    queries the planner builds. *)
From S2P Require Import Prelude RustStd Error Schema Crdt Lww Payload Replica.

(** ** Specification *)
Definition predicate_wf (t : TableDef) (p : ReplicaPredicate) : Prop :=
  match p with
  | IdEquals v | IdPrefix v => v ≠ "" ∧ (str_len v ≤ 255)%N
  | ColumnEquals column v => column_accepts t column v
  end.
Record interest_wf (i : ReplicaInterest) (t : TableDef) : Prop := {
  iw_limit : (1 ≤ limit i ≤ MAX_PAYLOAD_ROWS)%N;
  iw_count : (N.of_nat (length (predicates i)) ≤ 32)%N;
  iw_predicates : Forall (predicate_wf t) (predicates i);
}.
Record members_wf (ids : list string) : Prop := {
  mw_count : (N.of_nat (length ids) ≤ MAX_KNOWN_MEMBERS)%N;
  mw_ids : Forall identifier_ok ids;
  mw_sorted : StronglySorted key_lt ids;
}.

(** ** Sorted lists of keys *)
Section sorted_keys.
Context `{EqDecision K, !KeyOrder K}.

Lemma sorted_NoDup (l : list K) : StronglySorted key_lt l → NoDup l.
Proof.
  induction 1 as [|x l Hs IH Hall]; constructor; [|done].
  rewrite list.Forall_forall in Hall. intros Hx. by apply (irreflexivity key_lt x), Hall.
Qed.

(** A sorted list is determined by its elements. *)
Lemma sorted_unique (l1 l2 : list K) :
  StronglySorted key_lt l1 → StronglySorted key_lt l2 → (∀ x, x ∈ l1 ↔ x ∈ l2) → l1 = l2.
Proof.
  intros H1 H2 Helem. apply (StronglySorted_unique_strong key_lt); [|done|done|].
  - intros x y _ _ Hxy Hyx. exfalso. apply (irreflexivity key_lt x). by transitivity y.
  - apply NoDup_Permutation; [by apply sorted_NoDup..|done].
Qed.

Lemma sorted_filter (P : K → Prop) `{∀ x, Decision (P x)} (l : list K) :
  StronglySorted key_lt l → StronglySorted key_lt (filter P l).
Proof.
  induction 1 as [|x l Hs IH Hall]; [constructor|]. rewrite filter_cons.
  case_decide; [|done]. constructor; [done|]. rewrite list.Forall_forall in Hall |- *.
  intros y [_ Hy]%list_elem_of_filter. by apply Hall.
Qed.
End sorted_keys.

(** ** Validation of member lists *)
Lemma str_lt_spec a b : str_lt a b = true ↔ key_lt a b.
Proof. apply bool_decide_eq_true. Qed.

Definition above (previous : option string) (id : string) : Prop :=
  match previous with Some v => key_lt v id | None => True end.

Lemma validate_member_id_ok previous id r :
  validate_member_id previous id = Ok r ↔ identifier_ok id ∧ above previous id ∧ r = Some id.
Proof.
  unfold validate_member_id. rewrite bind_unit_ok, validate_identifier_ok. unfold above.
  destruct previous as [v|]; [|naive_solver].
  rewrite <-str_lt_spec. destruct (str_lt v id); simpl; naive_solver.
Qed.

Lemma validate_members_loop ids previous :
  (∃ r, foldM validate_member_id previous ids = Ok r) ↔
  Forall identifier_ok ids ∧ StronglySorted key_lt ids ∧ Forall (above previous) ids.
Proof.
  revert previous; induction ids as [|id ids IH]; intros previous; simpl.
  { split; [by repeat constructor|by eexists]. }
  rewrite !Forall_cons_iff. split.
  - intros [r Hr]. destruct (validate_member_id previous id) as [p|e] eqn:Hp; [|done].
    apply validate_member_id_ok in Hp as (Hid & Hab & ->).
    destruct (proj1 (IH (Some id)) (ex_intro _ r Hr)) as (Hids & Hs & Hall). simpl in Hall.
    split_and!; [done|done|by constructor|done|].
    eapply list.Forall_impl; [exact Hall|]. intros x Hx. destruct previous as [v|]; [|done].
    simpl in *. by transitivity id.
  - intros ([Hid Hids] & Hs & [Hab _]). inversion Hs as [|? ? Hs' Hall]; subst.
    rewrite (proj2 (validate_member_id_ok previous id (Some id))) by done.
    apply IH. split_and!; done.
Qed.

Lemma validate_member_ids_ok ids : validate_member_ids ids = Ok tt ↔ members_wf ids.
Proof.
  unfold validate_member_ids.
  destruct (N.ltb_spec MAX_KNOWN_MEMBERS (N.of_nat (length ids))) as [Hgt|Hle].
  { split; [done|]. intros [? _ _]. lia. }
  rewrite bind_ok. transitivity (∃ r, foldM validate_member_id None ids = Ok r);
    [naive_solver|]. rewrite validate_members_loop.
  split; [intros (? & ? & _); done|]. intros []. split_and!; [done|done|].
  rewrite list.Forall_forall. done.
Qed.

(** ** Validation of interests *)
Lemma validate_predicate_ok t p : validate_predicate t p = Ok tt ↔ predicate_wf t p.
Proof.
  destruct p as [v|v|column v]; simpl; [| |apply validate_column_ok];
    rewrite <-str_is_empty_spec; destruct (str_is_empty v), (N.ltb_spec 255 (str_len v)); simpl;
    split; try done; intros [? ?]; try done; lia.
Qed.

Lemma interest_validate_ok i t : interest_validate i t = Ok tt ↔ interest_wf i t.
Proof.
  unfold interest_validate.
  destruct (N.eqb_spec (limit i) 0) as [H0|H0]; cbn [orb]; [split; [done|intros []; lia]|].
  destruct (N.ltb_spec MAX_PAYLOAD_ROWS (limit i)); [split; [done|intros []; lia]|].
  destruct (N.ltb_spec 32 (N.of_nat (length (predicates i)))); [split; [done|intros []; lia]|].
  rewrite for_each_ok. split.
  - intros Hall. split; [lia|lia|]. eapply list.Forall_impl; [exact Hall|].
    intros p. apply validate_predicate_ok.
  - intros [_ _ Hall]. eapply list.Forall_impl; [exact Hall|].
    intros p. apply validate_predicate_ok.
Qed.

Lemma validate_scope_version_ok v :
  validate_scope_version v = Ok tt ↔ (1 ≤ v ≤ I64_MAX)%N.
Proof.
  unfold validate_scope_version, i64_try_from_u64.
  destruct (N.eqb_spec v 0) as [->|Hne]; cbn [orb]; [by split; [|lia]|].
  destruct (N.leb_spec v I64_MAX); case_bool_decide; split; done || lia.
Qed.

(** ** Requests and responses *)
Lemma request_validate_ok r t device :
  request_validate r t device = Ok tt ↔
  identifier_ok (prq_scope_id r) ∧ (1 ≤ prq_scope_version r ≤ I64_MAX)%N ∧
  interest_wf (interest r) t ∧ client_request_wf (prq_sync r) device t ∧
  members_wf (known_member_ids r).
Proof.
  unfold request_validate.
  by rewrite !bind_unit_ok, validate_identifier_ok, validate_scope_version_ok,
    interest_validate_ok, validate_client_request_ok, validate_member_ids_ok.
Qed.

Lemma response_validate_ok r t :
  response_validate r t = Ok tt ↔
  identifier_ok (prs_scope_id r) ∧ (1 ≤ prs_scope_version r ≤ I64_MAX)%N ∧
  server_response_wf (prs_sync r) t ∧ members_wf (member_ids r) ∧
  members_wf (evicted_row_ids r) ∧ (∀ id, id ∈ member_ids r → id ∉ evicted_row_ids r) ∧
  todo_id <$> changes (prs_sync r) = member_ids r.
Proof.
  unfold response_validate.
  rewrite !bind_unit_ok, validate_identifier_ok, validate_scope_version_ok,
    validate_server_response_ok, !validate_member_ids_ok.
  assert (members_wf (evicted_row_ids r) →
    existsb (binary_search (evicted_row_ids r)) (member_ids r) = false ↔
    (∀ id, id ∈ member_ids r → id ∉ evicted_row_ids r)) as Hex.
  { intros Hev. rewrite existsb_false_forall, list.Forall_forall.
    setoid_rewrite binary_search_false; [done|apply (mw_sorted _ Hev)]. }
  split.
  - intros (? & ? & ? & ? & Hev & Hif). specialize (Hex Hev).
    destruct (existsb _ _); [done|]. case_bool_decide; [|done]. naive_solver.
  - intros (? & ? & ? & ? & Hev & Hdisj & Heq).
    rewrite (proj2 (Hex Hev) Hdisj), Heq, bool_decide_true by done. done.
Qed.

(** ** Matching *)
Lemma str_starts_with_spec s p : str_starts_with s p = true ↔ ∃ rest, s = p +:+ rest.
Proof.
  revert s; induction p as [|c p IH]; intros s; [by destruct s; split; eauto|].
  destruct s as [|c' s]; [split; [done|by intros []]|].
  simpl. rewrite andb_true_iff, IH. split.
  - intros [->%Ascii.eqb_eq [rest ->]]. by exists rest.
  - intros [rest [= -> ->]]. rewrite Ascii.eqb_refl. eauto.
Qed.

Definition predicate_holds (row_id : string) (values : gmap string CrdtValue)
    (p : ReplicaPredicate) : Prop :=
  match p with
  | IdEquals expected => row_id = expected
  | IdPrefix prefix => ∃ rest, row_id = prefix +:+ rest
  | ColumnEquals column v => ∃ w, values !! column = Some w ∧ value_eqb w v = true
  end.

Lemma predicate_matches_spec row_id values p :
  predicate_matches row_id values p = true ↔ predicate_holds row_id values p.
Proof.
  destruct p as [v|v|column v]; simpl.
  - apply String.eqb_eq.
  - apply str_starts_with_spec.
  - destruct (values !! column); naive_solver.
Qed.

Lemma interest_matches_spec i row_id values :
  interest_matches i row_id values = true ↔
  ∀ p, p ∈ predicates i → predicate_holds row_id values p.
Proof.
  unfold interest_matches. rewrite forallb_forall. setoid_rewrite <-predicate_matches_spec.
  by setoid_rewrite <-list_elem_of_In.
Qed.

(** ** Query plans *)
Definition predicate_clause (index : nat) (p : ReplicaPredicate) : string :=
  match p with
  | IdEquals _ => "id = $" +:+ pretty index
  | IdPrefix _ => "starts_with(id, $" +:+ pretty index +:+ ")"
  | ColumnEquals column _ => column +:+ " = $" +:+ pretty index
  end.
Definition predicate_value (p : ReplicaPredicate) : CrdtValue :=
  match p with IdEquals v | IdPrefix v => VText v | ColumnEquals _ v => v end.

(** Two predicates that differ at most in the value they compare with. *)
Definition same_shape (p q : ReplicaPredicate) : Prop :=
  match p, q with
  | IdEquals _, IdEquals _ | IdPrefix _, IdPrefix _ => True
  | ColumnEquals c _, ColumnEquals c' _ => c = c'
  | _, _ => False
  end.

Fixpoint predicate_clauses (index : nat) (l : list ReplicaPredicate) : list string :=
  match l with
  | [] => []
  | p :: l => predicate_clause index p :: predicate_clauses (index + 1) l
  end.

Lemma plan_predicates l clauses params :
  foldl plan_predicate (clauses, params) l =
  (clauses ++ predicate_clauses (length params + 1) l, params ++ (predicate_value <$> l)).
Proof.
  revert clauses params; induction l as [|p l IH]; intros clauses params; cbn [foldl].
  { simpl. by rewrite !app_nil_r. }
  assert (plan_predicate (clauses, params) p =
    (clauses ++ [predicate_clause (length params + 1) p], params ++ [predicate_value p])) as ->.
  { by destruct p. }
  rewrite IH, length_app, <-!app_assoc. simpl. done.
Qed.

Lemma same_shape_clauses l l' index :
  Forall2 same_shape l l' → predicate_clauses index l = predicate_clauses index l'.
Proof.
  intros Hl. revert index; induction Hl as [|p q l l' Hpq Hl IH]; intros index; simpl; [done|].
  rewrite IH. f_equal. destruct p, q; simpl in *; congruence || done.
Qed.

Lemma postgres_plan_ok i t tenant plan :
  postgres_plan i t tenant = Ok plan ↔
  interest_wf i t ∧
  plan = {| sql := "SELECT * FROM " +:+ td_name t +:+ " WHERE " +:+
              str_join " AND " ("tenant_id = $1" :: "deleted = FALSE" ::
                                predicate_clauses 2 (predicates i)) +:+
              " ORDER BY id LIMIT " +:+ pretty (limit i);
            parameters := VText tenant :: (predicate_value <$> predicates i) |}.
Proof.
  unfold postgres_plan. rewrite bind_unit_ok, interest_validate_ok, plan_predicates.
  simpl. naive_solver.
Qed.

(** No injection. The text of a plan depends only on the shape of the
    interest: the tenant and every value compared with travel as parameters,
    in the order their placeholders are numbered, and every column named in
    the text is a column of the contract. *)
Theorem postgres_plan_no_injection i t tenant plan :
  postgres_plan i t tenant = Ok plan →
  parameters plan = VText tenant :: (predicate_value <$> predicates i) ∧
  (∀ i' tenant' plan',
    limit i' = limit i → Forall2 same_shape (predicates i) (predicates i') →
    postgres_plan i' t tenant' = Ok plan' → sql plan' = sql plan) ∧
  (∀ column v, ColumnEquals column v ∈ predicates i → is_Some (column_type t column)).
Proof.
  intros (Hwf & ->)%postgres_plan_ok. split; [done|]. split.
  - intros i' tenant' plan' Hlimit Hshape (_ & ->)%postgres_plan_ok. simpl.
    by rewrite (same_shape_clauses _ _ 2 Hshape), Hlimit.
  - intros column v Hin. pose proof (iw_predicates _ _ Hwf) as Hall.
    rewrite list.Forall_forall in Hall. destruct (Hall _ Hin) as (ty & Hty & _). by eexists.
Qed.

Definition demo_interest (title : string) : ReplicaInterest :=
  {| predicates := [IdPrefix "todo-"; ColumnEquals "title" (VText title)]; limit := 10 |}.

Lemma postgres_plan_no_injection_witness :
  ∃ plan, postgres_plan (demo_interest "x' OR 1=1") todos_table "acme" = Ok plan ∧
    sql plan = "SELECT * FROM todos WHERE tenant_id = $1 AND deleted = FALSE AND starts_with(id, $2) AND title = $3 ORDER BY id LIMIT 10" ∧
    parameters plan = [VText "acme"; VText "todo-"; VText "x' OR 1=1"].
Proof.
  eexists. split; [reflexivity|]. split; [reflexivity|].
  apply (postgres_plan_no_injection (demo_interest "x' OR 1=1") todos_table "acme").
  reflexivity.
Defined.

(** A list of members passes validation exactly when it is within the
    limit, every identifier is valid and the list is strictly sorted. *)
Theorem validate_member_ids_spec ids :
  validate_member_ids ids = Ok tt ↔
  (N.of_nat (length ids) ≤ MAX_KNOWN_MEMBERS)%N ∧
  Forall identifier_ok ids ∧ StronglySorted key_lt ids.
Proof. rewrite validate_member_ids_ok. split; [by intros []|]. intros (? & ? & ?). by split. Qed.
