(* ===== verification/Partial.v ===== *)
(** * Authoritative partial replicas (src/crdt.rs, [CrdtState::merge_partial])

    What a partial-replica response says: its members are the live rows of
    the merged server state that match the interest, its rows are exactly
    the cells of these members, and what it evicts is the rest of what the
    client knew. *)
From S2P Require Import Prelude RustStd Error Schema Crdt Lww Payload Policy Replica State.
From S2P Require Import Feed Merge MergeTheorems FeedTheorems Membership Demo.

(** ** Specification *)

(** A row the server holds at least one cell of. *)
Definition row_exists (s : CrdtState) (id : string) : Prop :=
  ∃ name c, cells s !! (id, name) = Some c.
Definition row_live (s : CrdtState) (id : string) : Prop :=
  ∀ c, cells s !! (id, DELETED_COLUMN) = Some c → value c ≠ VBoolean true.
Definition row_satisfies (s : CrdtState) (id : string) (p : ReplicaPredicate) : Prop :=
  match p with
  | IdEquals expected => id = expected
  | IdPrefix prefix => ∃ rest, id = prefix +:+ rest
  | ColumnEquals column v =>
    ∃ c, cells s !! (id, column) = Some c ∧ value_eqb (value c) v = true
  end.
Definition is_member (i : ReplicaInterest) (s : CrdtState) (id : string) : Prop :=
  row_exists s id ∧ row_live s id ∧ ∀ p, p ∈ predicates i → row_satisfies s id p.

(** ** Members *)
Lemma cell_values_distinct s :
  NoDup ((λ e : (string * string) * CrdtColumn, (e.1, value e.2)) <$> bt_iter (cells s)).*1.
Proof.
  replace (_.*1) with (bt_keys (cells s)) by by rewrite <-list_fmap_compose.
  apply NoDup_bt_keys.
Qed.

Lemma values_by_row_cell s id name v :
  row_cell (values_by_row s) id name = Some v ↔
  ∃ c, cells s !! (id, name) = Some c ∧ v = value c.
Proof.
  unfold values_by_row. rewrite group_rows_cell by apply cell_values_distinct.
  rewrite list_elem_of_fmap. split.
  - intros ([k c] & [= <- ->] & Hin%elem_of_bt_iter). eauto.
  - intros (c & Hc & ->). exists ((id, name), c). by rewrite elem_of_bt_iter.
Qed.

Lemma values_by_row_exists s id : is_Some (values_by_row s !! id) ↔ row_exists s id.
Proof.
  unfold values_by_row. rewrite group_rows_dom. split.
  - intros (name & v & ([k c] & [= <- ->] & Hin%elem_of_bt_iter)%list_elem_of_fmap).
    by exists name, c.
  - intros (name & c & Hc). exists name, (value c). rewrite list_elem_of_fmap.
    exists ((id, name), c). by rewrite elem_of_bt_iter.
Qed.

Lemma is_deleted_spec values :
  is_deleted values = true ↔ values !! DELETED_COLUMN = Some (VBoolean true).
Proof.
  unfold is_deleted. destruct (values !! DELETED_COLUMN) as [v|]; [|done].
  destruct v as [| | | |[]|]; simpl; split; done.
Qed.

Lemma elem_of_partial_members i s id : id ∈ partial_members i s ↔ is_member i s id.
Proof.
  unfold partial_members, is_member. rewrite list_elem_of_fmap.
  assert (∀ values, values_by_row s !! id = Some values →
    negb (is_deleted values) && interest_matches i id values = true ↔
    row_live s id ∧ ∀ p, p ∈ predicates i → row_satisfies s id p) as Hrow.
  { intros values Hv.
    assert (∀ name v, values !! name = Some v ↔ ∃ c, cells s !! (id, name) = Some c ∧ v = value c)
      as Hcell.
    { intros name v. rewrite <-values_by_row_cell. unfold row_cell. by rewrite Hv. }
    rewrite andb_true_iff, negb_true_iff, <-not_true_iff_false, is_deleted_spec.
    rewrite interest_matches_spec, Hcell. unfold row_live.
    split; intros [Hlive Hall]; (split; [naive_solver|]); intros p Hp; specialize (Hall p Hp);
      destruct p; simpl in *; try done; setoid_rewrite Hcell in Hall || setoid_rewrite Hcell;
      naive_solver. }
  split.
  - intros ([id' values] & -> & [Hf Hin%elem_of_bt_iter]%list_elem_of_filter). simpl in *.
    split; [apply values_by_row_exists; by eexists|]. by apply (Hrow values).
  - intros (Hex & Hsat). apply values_by_row_exists in Hex as [values Hv].
    exists (id, values). split; [done|]. apply list_elem_of_filter.
    rewrite elem_of_bt_iter. split; [by apply Hrow|done].
Qed.

Lemma partial_members_sorted i s : StronglySorted key_lt (partial_members i s).
Proof.
  unfold partial_members. pose proof (bt_keys_sorted (values_by_row s)) as Hs. unfold bt_keys in Hs.
  induction (bt_iter (values_by_row s)) as [|[id values] l IH]; [constructor|].
  rewrite fmap_cons in Hs. inversion Hs as [|? ? Hs' Hall]; subst.
  rewrite filter_cons. case_decide; [|by apply IH]. rewrite fmap_cons.
  constructor; [by apply IH|]. rewrite list.Forall_forall in Hall |- *.
  intros x (e & -> & [_ He]%list_elem_of_filter)%list_elem_of_fmap.
  apply Hall, list_elem_of_fmap. eauto.
Qed.

(** ** The snapshot *)
Section snapshot.
Context `{!SerdeJson}.

Lemma snapshot_loop members l rows bytes r :
  StronglySorted key_lt members →
  foldM (snapshot_cell members) (rows, bytes) l = Ok r →
  r.1 = foldl (λ rows e, row_insert rows e.1.1 e.1.2 e.2) rows
          (filter (λ e : cell_write, e.1.1 ∈ members) l).
Proof.
  intros Hs. revert rows bytes; induction l as [|[[row name] c] l IH]; intros rows bytes; simpl.
  { intros [= <-]. reflexivity. }
  rewrite filter_cons. simpl. unfold snapshot_cell at 1.
  destruct (binary_search members row) eqn:Hb.
  - rewrite decide_True by by apply binary_search_spec.
    destruct (column_json_len c) as [n|e]; simpl; [|done].
    destruct (MAX_RESPONSE_BYTES <? _)%N; [done|]. intros Hr. by apply IH in Hr.
  - rewrite decide_False by by apply binary_search_false. apply IH.
Qed.

Lemma snapshot_rows members s r :
  StronglySorted key_lt members →
  foldM (snapshot_cell members) (∅, 0%N) (bt_iter (cells s)) = Ok r →
  r.1 = group_rows (filter (λ e : cell_write, e.1.1 ∈ members) (bt_iter (cells s))).
Proof. intros Hs Hr. by apply (snapshot_loop members _ ∅ 0%N). Qed.

Lemma member_cells_distinct (P : cell_write → Prop) `{∀ e, Decision (P e)} s :
  NoDup (filter P (bt_iter (cells s))).*1.
Proof.
  eapply sublist_NoDup; [apply (NoDup_bt_keys (cells s))|].
  apply fmap_sublist, sublist_filter.
Qed.

(** What a successful partial merge did. *)
Lemma merge_partial_run r device s resp s' :
  merge_partial r device s = (Ok resp, s') →
  ∃ sync snapshot,
    request_validate r (table s) device = Ok tt ∧
    merge (prq_sync r) device s = (Ok sync, s') ∧
    (N.of_nat (length (partial_members (interest r) s')) ≤ limit (interest r))%N ∧
    foldM (snapshot_cell (partial_members (interest r) s')) (∅, 0%N) (bt_iter (cells s'))
      = Ok snapshot ∧
    resp = {| prs_scope_id := prq_scope_id r;
              prs_scope_version := prq_scope_version r;
              member_ids := partial_members (interest r) s';
              evicted_row_ids :=
                filter (λ id, binary_search (partial_members (interest r) s') id = false)
                  (known_member_ids r);
              prs_sync := with_snapshot (row_changes snapshot.1) sync |} ∧
    response_validate resp (table s') = Ok tt.
Proof.
  unfold merge_partial. rewrite transactional_ok. unfold merge_partial_inner.
  intros (? & ? & [-> ->]%st_get_ok & ([] & ? & [Hreq ->]%st_lift_ok & Hrun)%st_bind_ok)%st_bind_ok.
  apply st_bind_ok in Hrun as (sync & s1 & Hsync & Hrun).
  apply st_bind_ok in Hrun as (? & ? & [-> ->]%st_get_ok & Hrun).
  apply st_bind_ok in Hrun as ([] & ? & [Hlimit ->]%st_lift_ok & Hrun).
  apply st_bind_ok in Hrun as (snapshot & ? & [Hsnap ->]%st_lift_ok & Hrun).
  apply st_bind_ok in Hrun as ([] & ? & [Hresp ->]%st_lift_ok & [-> ->]%st_ret_ok).
  exists sync, snapshot. split_and!; try done.
  case_match eqn:Hl; [done|]. by apply N.ltb_ge in Hl.
Qed.
End snapshot.

(** ** Theorems *)
Section theorems.
Context `{!SerdeJson}.

Lemma snapshot_writes sync members s snapshot k c :
  StronglySorted key_lt members →
  foldM (snapshot_cell members) (∅, 0%N) (bt_iter (cells s)) = Ok snapshot →
  (k, c) ∈ payload_writes (with_snapshot (row_changes snapshot.1) sync) ↔
  cells s !! k = Some c ∧ k.1 ∈ members.
Proof.
  intros Hs Hsnap%snapshot_rows; [|done].
  rewrite (grouped_writes (with_snapshot (row_changes snapshot.1) sync)
    (filter (λ e : cell_write, e.1.1 ∈ members) (bt_iter (cells s)))); simpl.
  - rewrite list_elem_of_filter, elem_of_bt_iter. simpl. tauto.
  - by rewrite Hsnap.
  - apply member_cells_distinct.
Qed.

(** C37: A partial-replica response is authoritative: its members are exactly
    the live rows of the server, after the request's own writes were merged,
    that satisfy every predicate of the interest, in order; the snapshot
    carries exactly the cells of the members; and the evicted rows are
    exactly the known rows that are no longer members. *)
Theorem merge_partial_exact r device s resp s' :
  merge_partial r device s = (Ok resp, s') →
  (∃ sync, merge (prq_sync r) device s = (Ok sync, s')) ∧
  StronglySorted key_lt (member_ids resp) ∧
  (∀ id, id ∈ member_ids resp ↔ is_member (interest r) s' id) ∧
  (∀ k c, (k, c) ∈ payload_writes (prs_sync resp) ↔
     cells s' !! k = Some c ∧ is_member (interest r) s' k.1) ∧
  (∀ id, id ∈ evicted_row_ids resp ↔
     id ∈ known_member_ids r ∧ ¬ is_member (interest r) s' id).
Proof.
  intros (sync & snapshot & _ & Hsync & _ & Hsnap & -> & _)%merge_partial_run. simpl.
  pose proof (partial_members_sorted (interest r) s') as Hs.
  split; [by eexists|]. split; [done|]. split; [intros; apply elem_of_partial_members|].
  split.
  - intros k c. rewrite (snapshot_writes sync _ _ _ k c Hs Hsnap). by rewrite elem_of_partial_members.
  - intros id. rewrite list_elem_of_filter, binary_search_false, elem_of_partial_members by done.
    tauto.
Qed.

Lemma snapshot_ids members s snapshot :
  StronglySorted key_lt members → (∀ id, id ∈ members → row_exists s id) →
  foldM (snapshot_cell members) (∅, 0%N) (bt_iter (cells s)) = Ok snapshot →
  todo_id <$> row_changes snapshot.1 = members.
Proof.
  intros Hs Hex Hsnap%snapshot_rows; [|done]. rewrite row_changes_ids.
  apply sorted_unique; [apply bt_keys_sorted|done|]. intros id.
  rewrite elem_of_bt_keys, Hsnap, group_rows_dom.
  setoid_rewrite list_elem_of_filter. setoid_rewrite elem_of_bt_iter. simpl. split.
  - by intros (name & c & ? & _).
  - intros Hid. destruct (Hex id Hid) as (name & c & Hc). by exists name, c.
Qed.

Lemma snapshot_response_wf sync members s snapshot :
  state_wf s → server_response_wf sync (table s) → source_lamport sync = global_lamport s →
  StronglySorted key_lt members → (∀ id, id ∈ members → row_exists s id) →
  (N.of_nat (length members) ≤ MAX_PAYLOAD_ROWS)%N →
  foldM (snapshot_cell members) (∅, 0%N) (bt_iter (cells s)) = Ok snapshot →
  (N.of_nat (total_cells (row_changes snapshot.1)) ≤ MAX_PAYLOAD_CELLS)%N →
  server_response_wf (with_snapshot (row_changes snapshot.1) sync) (table s).
Proof.
  intros Hwf Hsv Hclock Hs Hex Hlen Hsnap Htotal.
  pose proof (sv_payload _ _ Hsv) as Hp.
  pose proof (snapshot_ids _ _ _ Hs Hex Hsnap) as Hids.
  assert (∀ row name c, row ∈ row_changes snapshot.1 → columns row !! name = Some c →
    cells s !! (todo_id row, name) = Some c) as Hcell.
  { intros row name c Hrow Hc.
    apply (snapshot_writes sync members s snapshot (todo_id row, name) c Hs Hsnap).
    apply elem_of_payload_writes. by exists row. }
  split; [|apply Hsv| |apply Hsv].
  - split; try apply Hp; simpl.
    + rewrite <-(length_fmap todo_id), Hids. done.
    + rewrite Hids. by apply sorted_NoDup.
    + rewrite list.Forall_forall. intros row Hrow.
      assert (todo_id row ∈ members) as (name & c & Hc)%Hex.
      { rewrite <-Hids, list_elem_of_fmap. eauto. }
      split; [by eapply (sw_cells _ Hwf (todo_id row, name))|]. split.
      * rewrite (snapshot_rows _ _ _ Hs Hsnap) in Hrow.
        pose proof (grouped_rows_nonempty
          (filter (λ e : cell_write, e.1.1 ∈ members) (bt_iter (cells s)))) as Hne.
        rewrite list.Forall_forall in Hne. by apply Hne.
      * intros name' c' Hc'. by eapply (sw_cells _ Hwf (todo_id row, name')), Hcell.
    + done.
  - simpl. intros row name c Hrow Hc. rewrite Hclock.
    pose proof (sw_clocks _ Hwf _ _ (Hcell row name c Hrow Hc)). lia.
Qed.

(** The check the server runs on its own partial response only ever
    fails on size: when the merge succeeds on a well-formed state, the
    members are within the declared limit and the snapshot within the byte
    and cell limits, the whole operation succeeds. *)
Theorem merge_partial_succeeds r device s sync s' snapshot :
  state_wf s → has_room s (prq_sync r) →
  request_validate r (table s) device = Ok tt →
  merge (prq_sync r) device s = (Ok sync, s') →
  (global_lamport s' ≤ MAX_STORABLE_LAMPORT)%N →
  (N.of_nat (length (partial_members (interest r) s')) ≤ limit (interest r))%N →
  foldM (snapshot_cell (partial_members (interest r) s')) (∅, 0%N) (bt_iter (cells s'))
    = Ok snapshot →
  (N.of_nat (total_cells (row_changes snapshot.1)) ≤ MAX_PAYLOAD_CELLS)%N →
  ∃ resp, merge_partial r device s = (Ok resp, s').
Proof.
  intros Hwf Hroom Hreq Hsync Hclock Hlimit Hsnap Htotal.
  set (members := partial_members (interest r) s') in *.
  set (sync' := with_snapshot (row_changes snapshot.1) sync).
  set (resp := {| prs_scope_id := prq_scope_id r;
                  prs_scope_version := prq_scope_version r;
                  member_ids := members;
                  evicted_row_ids :=
                    filter (λ id, binary_search members id = false) (known_member_ids r);
                  prs_sync := sync' |}).
  assert (response_validate resp (table s') = Ok tt) as Hresp; [|exists resp].
  2:{ unfold merge_partial. rewrite transactional_ok. unfold merge_partial_inner.
      repeat setoid_rewrite st_bind_ok. eexists _, _. rewrite st_get_ok.
      split; [done|]. exists tt, s. rewrite st_lift_ok. split; [done|].
      exists sync, s'. split; [done|]. exists s', s'. rewrite st_get_ok. split; [done|].
      exists tt, s'. rewrite st_lift_ok. split; [by rewrite (proj2 (N.ltb_ge (limit (interest r))
        (N.of_nat (length (partial_members (interest r) s')))) Hlimit)|].
      exists snapshot, s'. rewrite st_lift_ok. split; [done|].
      exists tt, s'. rewrite st_lift_ok. done. }
  apply request_validate_ok in Hreq as (Hid & Hver & Hint & Hclient & Hknown).
  destruct (run_of_merge _ _ _ _ _ _ Hsync) as (outs & pg & Hrun).
  pose proof (response_wf Hrun Hwf Hroom Hclock) as Hsv. rewrite <-(run_table Hrun) in Hsv.
  pose proof (run_wf Hrun Hwf Hroom) as Hwf'.
  pose proof (partial_members_sorted (interest r) s') as Hs. fold members in Hs.
  assert (∀ id, id ∈ members → row_exists s' id) as Hex
    by (intros id Hin; by apply elem_of_partial_members in Hin as [? _]).
  assert (source_lamport sync = global_lamport s') as Hlamport
    by (by rewrite (mr_response _ _ _ _ _ _ _ _ Hrun), (run_clock Hrun)).
  pose proof (iw_limit _ _ Hint) as Hmax.
  assert (N.of_nat (length members) ≤ MAX_PAYLOAD_ROWS)%N as Hlen by lia.
  apply response_validate_ok.
  refine (conj Hid (conj Hver (conj _ (conj _ (conj _ (conj _ _)))))).
  - by apply (snapshot_response_wf sync members s' snapshot).
  - split; simpl; [|rewrite list.Forall_forall; intros id (name & c & Hc)%Hex|done].
    + unfold MAX_PAYLOAD_ROWS, MAX_KNOWN_MEMBERS in *. lia.
    + by apply (sw_cells _ Hwf' (id, name) c).
  - split; simpl.
    + pose proof (mw_count _ Hknown).
      pose proof (length_filter (λ id, binary_search members id = false) (known_member_ids r)). lia.
    + pose proof (mw_ids _ Hknown) as Hids. rewrite list.Forall_forall in Hids |- *.
      intros id [_ Hin]%list_elem_of_filter. by apply Hids.
    + apply sorted_filter, (mw_sorted _ Hknown).
  - simpl. intros id Hin [Hb _]%list_elem_of_filter. by apply binary_search_false in Hb.
  - simpl. by apply (snapshot_ids members s').
Qed.
End theorems.

(** ** Witnesses *)
Definition partial_request (predicates : list ReplicaPredicate) (known : list string)
  : PartialReplicaRequest :=
  {| prq_scope_id := "inbox"; prq_scope_version := 1;
     interest := {| predicates := predicates; limit := 10 |};
     known_member_ids := known;
     prq_sync := demo_request "device-b" 2 [] 0 |}.

Section witnesses.
#[local] Existing Instance demo_json.

Definition partial_todos : PartialReplicaRequest :=
  partial_request [IdPrefix "todo-"; ColumnEquals "title" (VText "milk")] ["todo-0"].
Definition partial_run := merge_partial partial_todos "device-b" state_a.
Definition partial_state : CrdtState := partial_run.2.
Definition partial_response : PartialReplicaResponse :=
  match partial_run.1 with
  | Ok r => r
  | Err _ => {| prs_scope_id := ""; prs_scope_version := 0; member_ids := [];
                evicted_row_ids := []; prs_sync := request_a |}
  end.

Lemma demo_partial :
  merge_partial partial_todos "device-b" state_a = (Ok partial_response, partial_state).
Proof. vm_compute. reflexivity. Qed.

Lemma merge_partial_exact_witness :
  evicted_row_ids partial_response = ["todo-0"] ∧ is_member (interest partial_todos) partial_state "todo-1".
Proof.
  split; [by vm_compute|].
  destruct (merge_partial_exact partial_todos "device-b" state_a partial_response partial_state
              demo_partial) as (_ & _ & Hmembers & _).
  apply Hmembers. apply (bool_decide_unpack _). by vm_compute.
Defined.

Definition partial_sync : SyncPayload := response_of (merge (prq_sync partial_todos) "device-b" state_a).
Definition partial_snapshot : gmap string (gmap string CrdtColumn) * N :=
  match foldM (snapshot_cell (partial_members (interest partial_todos) partial_state))
          (∅ : gmap string (gmap string CrdtColumn), 0%N) (bt_iter (cells partial_state))
        return gmap string (gmap string CrdtColumn) * N with
  | Ok s => s
  | Err _ => (∅, 0%N)
  end.
Lemma demo_partial_sync :
  merge (prq_sync partial_todos) "device-b" state_a = (Ok partial_sync, partial_state).
Proof. vm_compute. reflexivity. Qed.
Lemma demo_partial_snapshot :
  foldM (snapshot_cell (partial_members (interest partial_todos) partial_state))
    (∅, 0%N) (bt_iter (cells partial_state)) = Ok partial_snapshot.
Proof. vm_compute. reflexivity. Qed.

Lemma merge_partial_succeeds_witness :
  ∃ resp, merge_partial partial_todos "device-b" state_a = (Ok resp, partial_state).
Proof.
  apply (merge_partial_succeeds partial_todos "device-b" state_a partial_sync partial_state
    partial_snapshot); [exact state_a_wf|vm_le|by vm_compute|exact demo_partial_sync
    |vm_le|vm_le|exact demo_partial_snapshot|vm_le].
Defined.

(** The cursor of a partial response is that of the full feed: the server
    hands it out although the page it belongs to was replaced by the
    snapshot of the scope. A device that sends it back in a full sync is
    told that it is up to date without having been told of the row. *)
Definition partial_nothing : PartialReplicaRequest := partial_request [IdEquals "todo-9"] [].
Definition skip_response : PartialReplicaResponse :=
  match (merge_partial partial_nothing "device-b" state_a).1 with
  | Ok r => r
  | Err _ => partial_response
  end.
Definition skip_state : CrdtState := (merge_partial partial_nothing "device-b" state_a).2.
Definition skip_request : SyncPayload :=
  demo_request "device-b" 2 [] (cursor (prs_sync skip_response)).

(** A partial sync moves the cursor past writes it did not send. A device
    whose scope matches nothing is answered with an empty snapshot and the
    cursor of the full feed; its next full sync with that cursor brings
    nothing and says there is no more, although the server holds a cell the
    device never received. *)
Lemma partial_cursor_skips :
  merge_partial partial_nothing "device-b" state_a = (Ok skip_response, skip_state) ∧
  changes (prs_sync skip_response) = [] ∧ has_more (prs_sync skip_response) = false ∧
  cells skip_state !! ("todo-1", "title") = Some (demo_cell (VText "milk") 1 "device-a") ∧
  match merge skip_request "device-b" skip_state with
  | (Ok r, _) => changes r = [] ∧ has_more r = false ∧ cursor_reset r = false
  | (Err _, _) => False
  end.
Proof. vm_compute. repeat split. Qed.
End witnesses.
