(* ===== verification/Codegen.v ===== *)
(** * SDK model generation (src/codegen.rs)

    Names are the safe identifiers of a contract, so the case conversions
    are the ASCII ones. *)
From S2P Require Import Prelude RustStd Error Schema SchemaFacts.

Inductive SdkLanguage := Swift | Kotlin | TypeScript | Dart.
#[export] Instance SdkLanguage_eq_dec : EqDecision SdkLanguage.
Proof. solve_decision. Defined.

Record GeneratedSdk := { language : SdkLanguage; files : gmap string string }.

(** ** Case conversions *)
Definition is_ascii_uppercase (b : N) : bool := (65 <=? b)%N && (b <=? 90)%N.
Definition ascii_to_upper (c : ascii) : ascii :=
  if is_ascii_lowercase (byte_of c) then ascii_of_N (byte_of c - 32) else c.
Definition underscore : ascii := "_".

(** [value.split('_')] *)
Fixpoint split_underscore (s : string) : list string :=
  match s with
  | EmptyString => [""]
  | String c s =>
    if Ascii.eqb c underscore then "" :: split_underscore s
    else match split_underscore s with
         | [] => [String c ""]
         | x :: l => String c x :: l
         end
  end.

Definition capitalize (part : string) : string :=
  match part with EmptyString => "" | String c s => String (ascii_to_upper c) s end.
Definition pascal_case (value : string) : string :=
  String.concat "" (capitalize <$> filter (λ part, negb (str_is_empty part) = true)
                      (split_underscore value)).

Fixpoint snake_case_from (first : bool) (s : string) : string :=
  match s with
  | EmptyString => ""
  | String c s =>
    (if negb first && is_ascii_uppercase (byte_of c) then "_" else "") +:+
    String (ascii_to_lower c) (snake_case_from false s)
  end.
Definition snake_case (value : string) : string := snake_case_from true value.

(** ** Types and file names *)
Definition swift_type (ty : ColumnType) : string :=
  match ty with
  | TText => "String" | TInteger => "Int64" | TReal => "Double" | TBoolean => "Bool"
  end.
Definition kotlin_type (ty : ColumnType) : string :=
  match ty with
  | TText => "String" | TInteger => "Long" | TReal => "Double" | TBoolean => "Boolean"
  end.
Definition typescript_type (ty : ColumnType) : string :=
  match ty with TText => "string" | TInteger | TReal => "number" | TBoolean => "boolean" end.
Definition dart_type (ty : ColumnType) : string :=
  match ty with
  | TText => "String" | TInteger => "int" | TReal => "double" | TBoolean => "bool"
  end.

Definition model_file_name (type_name : string) (lang : SdkLanguage) : string :=
  match lang with
  | Swift => type_name +:+ ".swift"
  | Kotlin => type_name +:+ ".kt"
  | TypeScript => str_to_ascii_lower type_name +:+ ".ts"
  | Dart => snake_case type_name +:+ ".dart"
  end.
Definition client_file_name (lang : SdkLanguage) : string :=
  match lang with
  | Swift => "LoomabaseTransport.swift"
  | Kotlin => "LoomabaseTransport.kt"
  | TypeScript => "loomabase_transport.ts"
  | Dart => "loomabase_transport.dart"
  end.

(** ** Texts *)
Definition quote : string := String (ascii_of_N 34) "".

Definition client_contract (lang : SdkLanguage) (fingerprint : N) : string :=
  match lang with
  | Swift => "import Foundation" +:+ nl +:+ nl +:+
      "public let loomabaseSchemaFingerprint: UInt64 = " +:+ pretty fingerprint +:+ nl +:+ nl +:+
      "public protocol LoomabaseTransport: Sendable {" +:+ nl +:+
      "    func sync(payload: Data) async throws -> Data" +:+ nl +:+ "}" +:+ nl
  | Kotlin => "package dev.loomabase.generated" +:+ nl +:+ nl +:+
      "const val LOOMABASE_SCHEMA_FINGERPRINT: ULong = " +:+ pretty fingerprint +:+ "u" +:+
      nl +:+ nl +:+ "fun interface LoomabaseTransport {" +:+ nl +:+
      "    suspend fun sync(payload: ByteArray): ByteArray" +:+ nl +:+ "}" +:+ nl
  | TypeScript => "export const LOOMABASE_SCHEMA_FINGERPRINT = " +:+ quote +:+
      pretty fingerprint +:+ quote +:+ ";" +:+ nl +:+ nl +:+
      "export interface LoomabaseTransport {" +:+ nl +:+
      "  sync(payload: Uint8Array): Promise<Uint8Array>;" +:+ nl +:+ "}" +:+ nl
  | Dart => "const String loomabaseSchemaFingerprint = '" +:+ pretty fingerprint +:+ "';" +:+
      nl +:+ nl +:+ "abstract interface class LoomabaseTransport {" +:+ nl +:+
      "  Future<List<int>> sync(List<int> payload);" +:+ nl +:+ "}" +:+ nl
  end.

Definition sdk_prologue (lang : SdkLanguage) (type_name : string) : string :=
  match lang with
  | Swift => "import Foundation" +:+ nl +:+ nl +:+ "public struct " +:+ type_name +:+
      ": Codable, Identifiable, Sendable {" +:+ nl +:+ "    public var id: String" +:+ nl
  | Kotlin => "package dev.loomabase.generated" +:+ nl +:+ nl +:+
      "import kotlinx.serialization.Serializable" +:+ nl +:+ nl +:+ "@Serializable" +:+ nl +:+
      "data class " +:+ type_name +:+ "(" +:+ nl +:+ "    val id: String," +:+ nl
  | TypeScript => "export interface " +:+ type_name +:+ " {" +:+ nl +:+ "  id: string;" +:+ nl
  | Dart => "class " +:+ type_name +:+ " {" +:+ nl +:+ "  final String id;" +:+ nl
  end.
Definition sdk_field (lang : SdkLanguage) (column : ColumnDef) : string :=
  match lang with
  | Swift => "    public var " +:+ cd_name column +:+ ": " +:+ swift_type (cd_ty column) +:+ nl
  | Kotlin => "    val " +:+ cd_name column +:+ ": " +:+ kotlin_type (cd_ty column) +:+ "," +:+ nl
  | TypeScript => "  " +:+ cd_name column +:+ ": " +:+ typescript_type (cd_ty column) +:+ ";" +:+ nl
  | Dart => "  final " +:+ dart_type (cd_ty column) +:+ " " +:+ cd_name column +:+ ";" +:+ nl
  end.
Definition sdk_epilogue (lang : SdkLanguage) (type_name : string) (columns : list ColumnDef)
  : string :=
  match lang with
  | Swift => "    public var " +:+ LIVENESS_COLUMN +:+ ": Bool" +:+ nl +:+ "}" +:+ nl
  | Kotlin => "    val " +:+ LIVENESS_COLUMN +:+ ": Boolean = false," +:+ nl +:+ ")" +:+ nl
  | TypeScript => "  " +:+ LIVENESS_COLUMN +:+ ": boolean;" +:+ nl +:+ "}" +:+ nl
  | Dart => "  final bool " +:+ LIVENESS_COLUMN +:+ ";" +:+ nl +:+ nl +:+
      "  const " +:+ type_name +:+ "({required this.id" +:+
      String.concat "" ((λ column, ", required this." +:+ cd_name column) <$> columns) +:+
      ", this." +:+ LIVENESS_COLUMN +:+ " = false});" +:+ nl +:+ "}" +:+ nl
  end.

(** The model file of one table. *)
Definition sdk_model (lang : SdkLanguage) (t : TableDef) : string :=
  let type_name := pascal_case (td_name t) in
  sdk_prologue lang type_name +:+
  String.concat "" (sdk_field lang <$> td_columns t) +:+
  sdk_epilogue lang type_name (td_columns t).
Definition sdk_file (lang : SdkLanguage) (t : TableDef) : string :=
  model_file_name (pascal_case (td_name t)) lang.

Definition generate_sdk (contract : Contract) (lang : SdkLanguage) : GeneratedSdk :=
  let models := foldl (λ files t, <[sdk_file lang t := sdk_model lang t]> files)
                  ∅ (ct_tables contract) in
  {| language := lang;
     files := <[client_file_name lang := client_contract lang (Contract_fingerprint contract)]>
                models |}.

(** ** What is generated *)
Lemma models_lookup lang l (m : gmap string string) file :
  foldl (λ files t, <[sdk_file lang t := sdk_model lang t]> files) m l !! file =
  match list.last (filter (λ t, sdk_file lang t = file) l) with
  | Some t => Some (sdk_model lang t)
  | None => m !! file
  end.
Proof.
  induction l as [|t l IH] using rev_ind; [done|].
  rewrite foldl_app, list.filter_app. cbn [foldl]. rewrite list.filter_cons, list.filter_nil.
  case_decide as Heq.
  - rewrite list.last_snoc, <-Heq. apply lookup_insert_eq.
  - rewrite app_nil_r, lookup_insert_ne by done. apply IH.
Qed.

(** An SDK always carries the transport with the fingerprint of the
    contract, and a model for each table whose file no later table and not
    the transport shares; nothing else. *)
Theorem generate_sdk_files contract lang file text :
  files (generate_sdk contract lang) !! file = Some text ↔
  (file = client_file_name lang ∧ text = client_contract lang (Contract_fingerprint contract)) ∨
  (file ≠ client_file_name lang ∧ ∃ before t after,
     ct_tables contract = before ++ t :: after ∧ file = sdk_file lang t ∧
     text = sdk_model lang t ∧ ∀ t', t' ∈ after → sdk_file lang t' ≠ file).
Proof.
  unfold generate_sdk; simpl. rewrite lookup_insert_Some, models_lookup, lookup_empty.
  split.
  - intros [[<- <-]|[Hne Hlast]]; [by left|right]. split; [done|].
    destruct (list.last _) as [t|] eqn:Hl; [|done]. injection Hlast as <-.
    induction (ct_tables contract) as [|t0 l IH] using rev_ind; [done|].
    rewrite list.filter_app, list.filter_cons, list.filter_nil in Hl. case_decide as Heq.
    + rewrite list.last_snoc in Hl. injection Hl as ->. exists l, t, [].
      split_and!; [done|done|done|]. by intros ? ?%not_elem_of_nil.
    + rewrite app_nil_r in Hl. destruct (IH Hl) as (before & t' & after & -> & -> & Ht & Hafter).
      exists before, t', (after ++ [t0]). rewrite <-app_assoc. split_and!; try done.
      intros t1 [Hin| ->%list_elem_of_singleton]%elem_of_app; [by apply Hafter|done].
  - intros [[-> ->]|(Hne & before & t & after & -> & -> & -> & Hafter)]; [by left|right].
    split; [done|]. rewrite list.filter_app, list.filter_cons, decide_True by done.
    replace (filter _ after) with (@nil TableDef); [by rewrite list.last_snoc|].
    symmetry. apply dec_stable. intros Hcons. destruct (filter _ after) as [|t' l] eqn:Hf; [done|].
    assert (t' ∈ filter (λ t', sdk_file lang t' = sdk_file lang t) after)
      as [Heq Hin]%list_elem_of_filter by (rewrite Hf; set_solver). by apply (Hafter t').
Qed.

Definition colliding_contract : list TableDef :=
  [{| td_name := "a_b"; td_columns := [ColumnDef_new "title" TText] |};
   {| td_name := "ab"; td_columns := [ColumnDef_new "body" TText] |}].
(** Two tables of one valid contract can share a model file: the second
    replaces the first, and the SDK misses a model. *)
Lemma generate_sdk_collision :
  ∃ c, Contract_new colliding_contract = Ok c ∧
    Forall table_wf colliding_contract ∧
    bt_keys (files (generate_sdk c TypeScript)) = ["ab.ts"; "loomabase_transport.ts"].
Proof.
  exists {| ct_tables := colliding_contract |}. split; [reflexivity|].
  split; [|by vm_compute].
  assert (∀ t, TableDef_new (H:=plain_debug) (td_name t) (td_columns t) = Ok t → table_wf t)
    as Hwf by (by intros t []%TableDef_new_ok).
  constructor; [|constructor; [|constructor]]; apply Hwf; reflexivity.
Qed.
