(* ===== verification/Simulator.v ===== *)
(** * The network simulator (src/simulator.rs)

    A reference server behind a network that drops and duplicates requests,
    with a trace and its HTML report. *)
From S2P Require Import Prelude RustStd Error Schema Crdt Lww Payload Policy Replica State.
From S2P Require Import Feed Merge Demo MergeTheorems.

Local Open Scope loom_scope.

Inductive SimulationAction := Delivered | Dropped | Duplicated.
Record SimulationEvent := {
  se_step : N;
  se_device_id : string;
  se_action : SimulationAction;
  se_changes : N;
  se_result : string;
}.
Record NetworkSimulator := {
  server : CrdtState;
  trace : list SimulationEvent;
  step : N;
}.

Definition NetworkSimulator_new (t : TableDef) : NetworkSimulator :=
  {| server := CrdtState_new t; trace := []; step := 0 |}.

(** [self.step += 1] and [self.trace.push(event)] *)
Definition next_step (sim : NetworkSimulator) : NetworkSimulator :=
  {| server := server sim; trace := trace sim; step := u64_wrapping_add (step sim) 1 |}.
Definition push_event (device : string) (action : SimulationAction) (changes : N) (res : string)
    (sim : NetworkSimulator) : NetworkSimulator :=
  {| server := server sim;
     trace := trace sim ++ [{| se_step := step sim; se_device_id := device;
                               se_action := action; se_changes := changes;
                               se_result := res |}];
     step := step sim |}.

Section simulator.
Context `{!SerdeJson}.

Definition SimM (A : Type) : Type := stM NetworkSimulator SyncError A.

(** [self.server.merge(payload, device_id)?] *)
Definition server_merge (p : SyncPayload) (device : string) : SimM SyncPayload := λ sim,
  let '(res, s') := merge p device (server sim) in
  (res, {| server := s'; trace := trace sim; step := step sim |}).

Definition deliver (p : SyncPayload) (device : string) : SimM SyncPayload :=
  st_modify next_step ;;;
  response <-- server_merge p device ;;
  st_modify (push_event device Delivered (N.of_nat (length (changes p)))
    ("accepted; " +:+ pretty (N.of_nat (length (changes response))) +:+ " response rows")) ;;;
  st_ret response.

Definition duplicate (p : SyncPayload) (device : string) : SimM SyncPayload :=
  first <-- deliver p device ;;
  st_modify next_step ;;;
  second <-- server_merge p device ;;
  st_modify (push_event device Duplicated (N.of_nat (length (changes second)))
    "duplicate delivery preserved cell state") ;;;
  st_ret first.

Definition drop_payload (p : SyncPayload) (device : string) (sim : NetworkSimulator)
  : NetworkSimulator :=
  push_event device Dropped (N.of_nat (length (changes p)))
    "network dropped payload before merge" (next_step sim).

Definition simulator_cells (sim : NetworkSimulator) : gmap (string * string) CrdtColumn :=
  cells (server sim).
End simulator.

(** ** The HTML report *)

(** [value.replace(c, by)] *)
Fixpoint str_replace (c : ascii) (by_ : string) (s : string) : string :=
  match s with
  | EmptyString => ""
  | String c' s => (if Ascii.eqb c' c then by_ else String c' "") +:+ str_replace c by_ s
  end.
Definition double_quote : ascii := ascii_of_N 34.
Definition escape_html (v : string) : string :=
  str_replace double_quote "&quot;"
    (str_replace ">" "&gt;" (str_replace "<" "&lt;" (str_replace "&" "&amp;" v))).

Definition action_debug (action : SimulationAction) : string :=
  match action with
  | Delivered => "Delivered" | Dropped => "Dropped" | Duplicated => "Duplicated"
  end.
Definition render_row (e : SimulationEvent) : string :=
  "<tr><td>" +:+ pretty (se_step e) +:+ "</td><td>" +:+ escape_html (se_device_id e) +:+
  "</td><td>" +:+ action_debug (se_action e) +:+ "</td><td>" +:+ pretty (se_changes e) +:+
  "</td><td>" +:+ escape_html (se_result e) +:+ "</td></tr>".
Definition html_quote : string := String double_quote "".
Definition render_html (sim : NetworkSimulator) : string :=
  "<!doctype html><html><head><meta charset=" +:+ html_quote +:+ "utf-8" +:+ html_quote +:+
  "><title>Loomabase Sync Simulation</title>" +:+
  "<style>body{font-family:system-ui;margin:2rem;background:#0b1020;color:#e8ecff}" +:+
  "table{border-collapse:collapse;width:100%}th,td{padding:.7rem;border:1px solid #34405f}" +:+
  "th{background:#18213b}h1{color:#8de1ff}</style></head><body>" +:+
  "<h1>Loomabase deterministic sync simulation</h1><p>Final cells: " +:+
  pretty (N.of_nat (size (cells (server sim)))) +:+ "</p>" +:+
  "<table><thead><tr><th>Step</th><th>Device</th><th>Action</th><th>Rows</th><th>Result</th></tr></thead>" +:+
  "<tbody>" +:+ String.concat "" (render_row <$> trace sim) +:+ "</tbody></table></body></html>".

(** ** Theorems *)
Lemma str_replace_app c by_ a b :
  str_replace c by_ (a +:+ b) = str_replace c by_ a +:+ str_replace c by_ b.
Proof.
  induction a as [|x a IH]; simpl; [done|]. rewrite IH.
  destruct (Ascii.eqb x c); [|done]. by rewrite str_app_assoc.
Qed.

(** What becomes of one character. *)
Definition escape_char (c : ascii) : string :=
  if Ascii.eqb c "&" then "&amp;" else if Ascii.eqb c "<" then "&lt;"
  else if Ascii.eqb c ">" then "&gt;" else if Ascii.eqb c double_quote then "&quot;"
  else String c "".
Fixpoint escape_all (s : string) : string :=
  match s with EmptyString => "" | String c s => escape_char c +:+ escape_all s end.

Definition html_safe (c : ascii) : Prop := c ≠ "<"%char ∧ c ≠ ">"%char ∧ c ≠ double_quote.

Lemma escape_char_replace c :
  str_replace double_quote "&quot;" (str_replace ">" "&gt;" (str_replace "<" "&lt;"
    (if Ascii.eqb c "&" then "&amp;" else String c ""))) = escape_char c.
Proof.
  unfold escape_char. destruct (Ascii.eqb_spec c "&") as [->|H1]; [done|]. simpl.
  destruct (Ascii.eqb_spec c "<") as [->|H2]; [done|]. simpl.
  destruct (Ascii.eqb_spec c ">") as [->|H3]; [done|]. simpl.
  by destruct (Ascii.eqb_spec c double_quote) as [->|H4].
Qed.

(** Escaping is one pass over the characters, whatever order the
    replacements run in, and its result holds no bracket and no quote: an
    identifier a device chose cannot leave the cell it is printed in. *)
Theorem escape_html_safe v :
  escape_html v = escape_all v ∧ Forall html_safe (String.list_ascii_of_string (escape_html v)).
Proof.
  assert (escape_html v = escape_all v) as Heq.
  { unfold escape_html. induction v as [|c v IH]; [done|].
    cbn [str_replace escape_all]. rewrite !str_replace_app, IH. f_equal. apply escape_char_replace. }
  split; [done|]. rewrite Heq. clear Heq. induction v as [|c v IH]; simpl; [constructor|].
  assert (∀ a b, String.list_ascii_of_string (a +:+ b)
    = String.list_ascii_of_string a ++ String.list_ascii_of_string b) as Happ.
  { intros a b. induction a as [|x a IHa]; simpl; [done|]. by f_equal. }
  rewrite Happ, Forall_app. split; [|done]. unfold escape_char, html_safe.
  destruct (Ascii.eqb_spec c "&"); [by repeat constructor|].
  destruct (Ascii.eqb_spec c "<"); [by repeat constructor|].
  destruct (Ascii.eqb_spec c ">"); [by repeat constructor|].
  destruct (Ascii.eqb_spec c double_quote); [by repeat constructor|].
  by repeat constructor.
Qed.

Section theorems.
Context `{!SerdeJson}.

(** Duplicated deliveries preserve cell state, as the trace claims: a
    duplicate leaves the server cells of a single delivery, and a drop those
    of none. *)
Theorem duplicate_preserves p device sim r sim' :
  state_wf (server sim) → has_room (server sim) p →
  duplicate p device sim = (Ok r, sim') →
  (∃ sim1, deliver p device sim = (Ok r, sim1) ∧
     simulator_cells sim' = simulator_cells sim1) ∧
  simulator_cells (drop_payload p device sim) = simulator_cells sim.
Proof.
  intros Hwf Hroom Hdup. split; [|done]. unfold duplicate in Hdup.
  apply st_bind_ok in Hdup as (r1 & sim1 & Hdel & Hdup).
  apply st_bind_ok in Hdup as ([] & ? & ->%st_modify_ok & Hdup).
  apply st_bind_ok in Hdup as (r2 & sim2 & Hsecond & Hdup).
  apply st_bind_ok in Hdup as ([] & ? & ->%st_modify_ok & [-> ->]%st_ret_ok).
  exists sim1. split; [done|]. unfold simulator_cells; simpl.
  unfold server_merge in Hsecond; simpl in Hsecond.
  destruct (merge p device (server sim1)) as [res s2] eqn:Hm2. injection Hsecond as -> <-. simpl.
  unfold deliver in Hdel.
  apply st_bind_ok in Hdel as ([] & ? & ->%st_modify_ok & Hdel).
  apply st_bind_ok in Hdel as (r0 & sim0 & Hfirst & Hdel).
  apply st_bind_ok in Hdel as ([] & ? & ->%st_modify_ok & [-> ->]%st_ret_ok). simpl in Hm2.
  unfold server_merge in Hfirst; simpl in Hfirst.
  destruct (merge p device (server sim)) as [res s1] eqn:Hm1. injection Hfirst as -> <-.
  simpl in Hm2 |- *. by apply (merge_again p device (server sim) r0 s1 r2 s2).
Qed.
End theorems.

Section witnesses.
#[local] Existing Instance demo_json.

Definition simulator_0 : NetworkSimulator := NetworkSimulator_new todos_table.
Definition simulator_dup : NetworkSimulator := (duplicate request_a "device-a" simulator_0).2.
Lemma demo_duplicate :
  duplicate request_a "device-a" simulator_0 = (Ok response_a, simulator_dup).
Proof. vm_compute. reflexivity. Qed.

Lemma duplicate_preserves_witness :
  length (trace simulator_dup) = 2%nat ∧
  ∃ sim1, deliver request_a "device-a" simulator_0 = (Ok response_a, sim1) ∧
    simulator_cells simulator_dup = simulator_cells sim1.
Proof.
  split; [reflexivity|].
  destruct (duplicate_preserves request_a "device-a" simulator_0 response_a simulator_dup
    (CrdtState_new_wf todos_table) ltac:(vm_le) demo_duplicate) as [Hdup _]. exact Hdup.
Defined.
End witnesses.
