(* ===== verification/Sqlite.v ===== *)
(** * SQLite values and their text form (src/client.rs)

    The edge database stores the value of a cell twice: typed, in the
    application table, and as text, in the CRDT log. The text of reals is
    written by Rust when a remote cell is applied and by SQLite's [CAST] when
    a trigger captures a local write; neither algorithm is in the
    repository, so both are parameters. *)
From S2P Require Import Prelude RustStd Error Schema Crdt.

Inductive SqlValue :=
| SqlText (s : string)
| SqlInteger (i : Z)
| SqlReal (r : f64).
#[export] Instance SqlValue_eq_dec : EqDecision SqlValue.
Proof. solve_decision. Defined.

(** Rust's [Display] and [FromStr] of [f64], SQLite's [CAST(x AS TEXT)], and
    the text of the error SQLite reports for a violated constraint. *)
Class SqlText_externals := {
  f64_to_string : f64 → string;
  f64_from_str : string → option f64;
  sqlite_real_text : f64 → string;
  sqlite_constraint_text : string;
}.

(** [str::parse::<i64>]: an optional sign, then decimal digits, within the
    range of [i64]. *)
Definition digit_value (c : ascii) : option Z :=
  let b := byte_of c in if is_ascii_digit b then Some (Z.of_N b - 48)%Z else None.
Fixpoint parse_digits (s : string) (acc : Z) : option Z :=
  match s with
  | EmptyString => Some acc
  | String c s => digit_value c ≫= λ d, parse_digits s (acc * 10 + d)%Z
  end.
Definition parse_nonempty_digits (s : string) : option Z :=
  match s with EmptyString => None | _ => parse_digits s 0 end.
Definition in_i64 (z : Z) : option Z :=
  if (i64_min <=? z)%Z && (z <=? i64_max)%Z then Some z else None.
Definition i64_from_str (s : string) : option Z :=
  match s with
  | String c rest =>
    if Ascii.eqb c "-" then parse_nonempty_digits rest ≫= λ z, in_i64 (- z)
    else if Ascii.eqb c "+" then parse_nonempty_digits rest ≫= in_i64
    else parse_nonempty_digits s ≫= in_i64
  | EmptyString => None
  end.

Section values.
Context `{!SqlText_externals}.

(** [CAST(v AS TEXT)], which is also what storing [v] in a [TEXT] column
    does. *)
Definition sql_to_text (v : SqlValue) : string :=
  match v with
  | SqlText s => s
  | SqlInteger i => pretty i
  | SqlReal r => sqlite_real_text r
  end.

(** [a IS b], between values of one column. *)
Definition sql_is (a b : SqlValue) : bool :=
  match a, b with
  | SqlText s, SqlText s' => (s =? s')%string
  | SqlInteger i, SqlInteger j => (i =? j)%Z
  | SqlReal x, SqlReal y => f64_eqb x y
  | _, _ => false
  end.

(** The value of a column its [INSERT] did not name: the [DEFAULT] clause of
    [sqlite_column_ddl], with the affinity of the column. *)
Definition sql_default (ty : ColumnType) : SqlValue :=
  match ty with
  | TText => SqlText ""
  | TInteger | TBoolean => SqlInteger 0
  | TReal => SqlReal (SpecFloat.S754_zero false)
  end.

(** What a change-capture trigger stores for a column. *)
Definition capture_value (ty : ColumnType) (v : SqlValue) : string := sql_to_text v.

Definition unstorable {A} : Result A :=
  invalid "value type cannot be stored in the SQLite edge schema".

Definition crdt_to_sqlite (v : CrdtValue) : Result SqlValue :=
  match v with
  | VText s => Ok (SqlText s)
  | VInteger i => Ok (SqlInteger i)
  | VReal r => Ok (SqlReal r)
  | VBoolean b => Ok (SqlInteger (if b then 1 else 0))
  | VNull | VBlob _ => unstorable
  end.

Definition encode_sqlite_value (v : CrdtValue) : Result string :=
  match v with
  | VText s => Ok s
  | VInteger i => Ok (pretty i)
  | VReal r => Ok (f64_to_string r)
  | VBoolean b => Ok (if b then "1" else "0")
  | VNull | VBlob _ => unstorable
  end.

Definition decode_sqlite_value (t : TableDef) (column_name raw_value : string)
  : Result CrdtValue :=
  match column_type t column_name with
  | None => invalid ("column is not synchronizable: " +:+ column_name)
  | Some TText => Ok (VText raw_value)
  | Some TInteger =>
    match i64_from_str raw_value with
    | Some i => Ok (VInteger i)
    | None => invalid "non-integer value in integer column"
    end
  | Some TReal =>
    match f64_from_str raw_value with
    | Some r => Ok (VReal r)
    | None => invalid "non-real value in real column"
    end
  | Some TBoolean =>
    if (raw_value =? "0")%string then Ok (VBoolean false)
    else if (raw_value =? "1")%string then Ok (VBoolean true)
    else invalid "non-canonical SQLite boolean"
  end.
End values.

Definition clock_from_i64 (clock : Z) : Result N :=
  match u64_try_from_i64 clock with
  | Some c => Ok c
  | None => invalid "negative clock stored in database"
  end.
Definition clock_to_i64 (clock : N) : Result Z := ok_or (i64_try_from_u64 clock) ClockOverflow.

(** ** Decimal text of an [i64] *)
Lemma pretty_N_char_digit d : (d < 10)%N → digit_value (pretty_N_char d) = Some (Z.of_N d).
Proof.
  intros Hd. assert (d = 0 ∨ d = 1 ∨ d = 2 ∨ d = 3 ∨ d = 4 ∨ d = 5 ∨ d = 6 ∨ d = 7 ∨ d = 8 ∨ d = 9)%N
    as Hcases by lia.
  by repeat (destruct Hcases as [->|Hcases]); try subst d.
Qed.

Lemma parse_pretty_go x s :
  (0 < x)%N → parse_digits (pretty_N_go x s) 0 = parse_digits s (Z.of_N x).
Proof.
  intros Hx. revert s. induction (N.lt_wf_0 x) as [x _ IH]. intros s.
  rewrite pretty_N_go_step by done.
  assert (x = 10 * (x / 10) + x mod 10)%N as Hdiv by (apply N.div_mod; done).
  assert (x mod 10 < 10)%N as Hmod by (apply N.mod_lt; done).
  destruct (decide (x / 10 = 0)%N) as [H0|Hne].
  - rewrite H0, pretty_N_go_0. cbn [parse_digits]. rewrite pretty_N_char_digit by done. simpl.
    f_equal. lia.
  - rewrite IH; [|apply N.div_lt; lia|lia].
    cbn [parse_digits]. rewrite pretty_N_char_digit by done. simpl. f_equal. lia.
Qed.

Lemma i64_from_digits s z :
  s ≠ "" → parse_digits s 0 = Some z → i64_from_str s = in_i64 z.
Proof.
  intros Hne Hp. destruct s as [|c s]; [done|]. unfold i64_from_str.
  destruct (Ascii.eqb_spec c "-") as [->|_]; [done|].
  destruct (Ascii.eqb_spec c "+") as [->|_]; [done|].
  unfold parse_nonempty_digits. by rewrite Hp.
Qed.

Lemma parse_pretty_N n : parse_digits (pretty n) 0 = Some (Z.of_N n).
Proof.
  unfold pretty, pretty_N. case_decide as H0; [by subst n|].
  rewrite parse_pretty_go by lia. done.
Qed.

Lemma pretty_N_nonempty (n : N) : pretty n ≠ "".
Proof.
  intros Hs. pose proof (parse_pretty_N n) as Hp. rewrite Hs in Hp. injection Hp as Hn.
  destruct n; [done|lia].
Qed.

(** Printing an [i64] and parsing it back. *)
Lemma i64_from_pretty z : (i64_min ≤ z ≤ i64_max)%Z → i64_from_str (pretty z) = Some z.
Proof.
  intros Hz. assert (in_i64 z = Some z) as Hin.
  { unfold in_i64. rewrite (proj2 (Z.leb_le i64_min z)), (proj2 (Z.leb_le z i64_max)) by lia. done. }
  destruct z as [|p|p]; [done| |].
  - change (pretty (Zpos p)) with (pretty (Npos p)).
    rewrite (i64_from_digits _ (Zpos p)); [done|apply pretty_N_nonempty|apply (parse_pretty_N (Npos p))].
  - change (pretty (Zneg p)) with (String "-" (pretty (Npos p))). unfold i64_from_str. cbn.
    unfold parse_nonempty_digits. pose proof (parse_pretty_N (Npos p)) as Hp.
    pose proof (pretty_N_nonempty (Npos p)). destruct (pretty (Npos p)) as [|c s]; [done|].
    rewrite Hp. exact Hin.
Qed.
