(* ===== verification/Client.v ===== *)
(** * The SQLite edge client (src/client.rs)

    The edge database as its tables, the SQL statements of the program as
    functions on them, triggers included, and every operation of the client
    as a transaction. The text of the schema those statements run against is
    in [Schema]; opening files, the connection mutex and the blocking pool
    are not modelled. *)
From S2P Require Import Prelude RustStd Error Schema Crdt Replica State Sqlite.

Local Open Scope loom_scope.

Definition MAX_SYNC_PAGES_PER_CALL : nat := 100.

(** ** The database *)
Record ClientState := {
  cs_device_id : string;
  cs_lamport : Z;
  cs_applying_remote : bool;
}.
(** A row of the CRDT log. *)
Record CellRow := {
  cr_value : string;
  cr_lamport : Z;
  cr_device : string;
  cr_dirty : bool;
}.
(** A row of [loomabase_cursor]. *)
Record CursorRow := {
  cu_cursor : Z;
  cu_token : option string;
  cu_epoch : option string;
}.
(** A row of the two scope relations: scope, CRDT table, row. *)
Abbreviation scope_row := (string * string * string)%type.

Record ClientDb := {
  client_state : option ClientState;
  app_rows : gmap string (gmap string SqlValue);
  crdt_rows : gmap (string * string) CellRow;
  cursors : gmap string CursorRow;
  scope_state : gmap (string * string) (Z * bool);
  scope_members : gset scope_row;
  scope_evictions : gset scope_row;
}.

Definition set_client_state (st : option ClientState) (db : ClientDb) : ClientDb :=
  {| client_state := st; app_rows := app_rows db; crdt_rows := crdt_rows db;
     cursors := cursors db; scope_state := scope_state db;
     scope_members := scope_members db; scope_evictions := scope_evictions db |}.
Definition set_app_rows (rows : gmap string (gmap string SqlValue)) (db : ClientDb) : ClientDb :=
  {| client_state := client_state db; app_rows := rows; crdt_rows := crdt_rows db;
     cursors := cursors db; scope_state := scope_state db;
     scope_members := scope_members db; scope_evictions := scope_evictions db |}.
Definition set_crdt_rows (rows : gmap (string * string) CellRow) (db : ClientDb) : ClientDb :=
  {| client_state := client_state db; app_rows := app_rows db; crdt_rows := rows;
     cursors := cursors db; scope_state := scope_state db;
     scope_members := scope_members db; scope_evictions := scope_evictions db |}.
Definition set_cursors (m : gmap string CursorRow) (db : ClientDb) : ClientDb :=
  {| client_state := client_state db; app_rows := app_rows db; crdt_rows := crdt_rows db;
     cursors := m; scope_state := scope_state db;
     scope_members := scope_members db; scope_evictions := scope_evictions db |}.
Definition set_scope_state (m : gmap (string * string) (Z * bool)) (db : ClientDb) : ClientDb :=
  {| client_state := client_state db; app_rows := app_rows db; crdt_rows := crdt_rows db;
     cursors := cursors db; scope_state := m;
     scope_members := scope_members db; scope_evictions := scope_evictions db |}.
Definition set_scope_members (m : gset scope_row) (db : ClientDb) : ClientDb :=
  {| client_state := client_state db; app_rows := app_rows db; crdt_rows := crdt_rows db;
     cursors := cursors db; scope_state := scope_state db;
     scope_members := m; scope_evictions := scope_evictions db |}.
Definition set_scope_evictions (m : gset scope_row) (db : ClientDb) : ClientDb :=
  {| client_state := client_state db; app_rows := app_rows db; crdt_rows := crdt_rows db;
     cursors := cursors db; scope_state := scope_state db;
     scope_members := scope_members db; scope_evictions := m |}.

Definition ClientM (A : Type) : Type := stM ClientDb SyncError A.

(** ** Statements on [client_state] *)

(** [SELECT ... FROM client_state WHERE singleton = 1], with [query_row]. *)
Definition read_client_state : ClientM ClientState :=
  db <-- st_get ;; st_lift (ok_or (client_state db) (Sqlite "Query returned no rows")).
Definition update_client_state (f : ClientState → ClientState) : ClientM unit :=
  st_modify (λ db, set_client_state (f <$> client_state db) db).
Definition set_applying_remote (b : bool) : ClientM unit :=
  update_client_state (λ st, {| cs_device_id := cs_device_id st; cs_lamport := cs_lamport st;
                                cs_applying_remote := b |}).
Definition set_lamport (clock : Z) (b : bool) (st : ClientState) : ClientState :=
  {| cs_device_id := cs_device_id st; cs_lamport := clock; cs_applying_remote := b |}.

Section client.
Context `{!StrDebug, !SqlText_externals}.
Variable t : TableDef.

(** ** The change-capture triggers *)

(** [capture_statement]: the upsert of one captured column. *)
Definition capture_cell (st : ClientState) (id : string) (row : gmap string SqlValue)
    (rows : gmap (string * string) CellRow) (column : ColumnDef)
  : gmap (string * string) CellRow :=
  <[(id, cd_name column) :=
      {| cr_value := capture_value (cd_ty column)
                       (default (sql_default (cd_ty column)) (row !! cd_name column));
         cr_lamport := cs_lamport st;
         cr_device := cs_device_id st;
         cr_dirty := true |}]> rows.

(** The body of a trigger: the overflow guard, the clock, the columns. *)
Definition fire_trigger (columns : list ColumnDef) (id : string) (row : gmap string SqlValue)
  : ClientM unit :=
  db <-- st_get ;;
  match client_state db with
  | Some st =>
    if cs_applying_remote st then st_ret tt
    else if (i64_max <=? cs_lamport st)%Z then st_lift (Err (Sqlite "lamport clock overflow"))
    else
      let st' := set_lamport (cs_lamport st + 1) false st in
      st_modify (λ db, set_crdt_rows
                         (foldl (capture_cell st' id row) (crdt_rows db) columns)
                         (set_client_state (Some st') db))
  | None => st_ret tt
  end.

(** ** Statements on the application table *)
Definition default_row : gmap string SqlValue :=
  list_to_map ((λ c, (cd_name c, sql_default (cd_ty c))) <$> synchronized_columns t).

(** [INSERT INTO t(id, ...) VALUES (...)] and its trigger. *)
Definition exec_insert (id : string) (values : gmap string SqlValue) : ClientM unit :=
  db <-- st_get ;;
  match app_rows db !! id with
  | Some _ => st_lift (Err (Sqlite sqlite_constraint_text))
  | None =>
    let row := values ∪ default_row in
    st_modify (set_app_rows (<[id := row]> (app_rows db))) ;;;
    fire_trigger (synchronized_columns t) id row
  end.

(** [INSERT INTO t(id) VALUES (?1) ON CONFLICT(id) DO NOTHING] *)
Definition insert_row_if_absent (id : string) : ClientM unit :=
  db <-- st_get ;;
  match app_rows db !! id with
  | Some _ => st_ret tt
  | None => exec_insert id ∅
  end.

(** [UPDATE t SET column = v WHERE id = ?1 AND (guard)], with its trigger;
    the number of rows changed. *)
Definition exec_update (id column : string) (v : SqlValue)
    (guard : gmap string SqlValue → bool) : ClientM nat :=
  db <-- st_get ;;
  match app_rows db !! id with
  | None => st_ret 0%nat
  | Some row =>
    if negb (guard row) then st_ret 0%nat else
    let row' := <[column := v]> row in
    st_modify (set_app_rows (<[id := row']> (app_rows db))) ;;;
    (match row !! column, column_type t column with
     | Some old, Some ty =>
       if sql_is old v then st_ret tt
       else fire_trigger [ColumnDef_new column ty] id row'
     | _, _ => st_ret tt
     end) ;;;
    st_ret 1%nat
  end.
Definition is_live (row : gmap string SqlValue) : bool :=
  match row !! LIVENESS_COLUMN with Some v => sql_is v (SqlInteger 0) | None => false end.
Definition is_tombstone (row : gmap string SqlValue) : bool :=
  match row !! LIVENESS_COLUMN with Some v => sql_is v (SqlInteger 1) | None => false end.
Definition any_row (row : gmap string SqlValue) : bool := true.

(** [DELETE FROM t WHERE id = ?1]: the CRDT rows go with it
    ([ON DELETE CASCADE]). *)
Definition delete_row (id : string) (db : ClientDb) : ClientDb :=
  set_crdt_rows (filter (λ e : (string * string) * CellRow, e.1.1 ≠ id) (crdt_rows db))
    (set_app_rows (delete id (app_rows db)) db).

Definition ensure_one_row (changed : nat) (message : string) : Result unit :=
  if (changed =? 1)%nat then Ok tt else invalid message.
Definition reject_liveness_column (column : string) : Result unit :=
  if (column =? LIVENESS_COLUMN)%string
  then invalid "use delete() or restore() to change row liveness"
  else Ok tt.

(** ** The row API *)
Definition insert_column (e : string * CrdtValue) : Result unit :=
  reject_liveness_column e.1 ≫= λ _, validate_column t e.1 e.2.
Definition bind_column (e : string * CrdtValue) : Result (string * SqlValue)%type :=
  crdt_to_sqlite e.2 ≫= λ v, Ok (e.1, v).

Definition client_insert (id : string) (values : gmap string CrdtValue) : ClientM unit :=
  st_lift (validate_identifier "row_id" id) ;;;
  st_lift (for_each insert_column (bt_iter values)) ;;;
  transactional (
    bind <-- st_lift (mapR bind_column (bt_iter values)) ;;
    exec_insert id (list_to_map bind)).

Definition client_set (id column : string) (v : CrdtValue) : ClientM unit :=
  st_lift (validate_identifier "row_id" id) ;;;
  st_lift (reject_liveness_column column) ;;;
  st_lift (validate_column t column v) ;;;
  transactional (
    sql <-- st_lift (crdt_to_sqlite v) ;;
    changed <-- exec_update id column sql is_live ;;
    st_lift (ensure_one_row changed "row not found or deleted")).

Definition client_get_cell (id column : string) (db : ClientDb) : Result (option CrdtValue) :=
  validate_identifier "row_id" id ≫= λ _,
  match column_type t column with
  | None => invalid ("column is not synchronizable: " +:+ column)
  | Some _ =>
    match app_rows db !! id with
    | Some row =>
      if is_live row then
        match crdt_rows db !! (id, column) with
        | Some cell => decode_sqlite_value t column (cr_value cell) ≫= λ v, Ok (Some v)
        | None => Ok None
        end
      else Ok None
    | None => Ok None
    end
  end.

Definition client_delete (id : string) : ClientM unit :=
  st_lift (validate_identifier "row_id" id) ;;;
  transactional (
    changed <-- exec_update id LIVENESS_COLUMN (SqlInteger 1) is_live ;;
    st_lift (ensure_one_row changed "row not found or already deleted")).

Definition client_restore (id : string) : ClientM unit :=
  st_lift (validate_identifier "row_id" id) ;;;
  transactional (
    changed <-- exec_update id LIVENESS_COLUMN (SqlInteger 0) is_tombstone ;;
    st_lift (ensure_one_row changed "row not found or not deleted")).

(** ** Synchronization *)

(** The version and value of a log row. *)
Definition decode_cell (column : string) (cell : CellRow) : Result CrdtColumn :=
  v ← decode_sqlite_value t column (cr_value cell);
  clock ← clock_from_i64 (cr_lamport cell);
  Ok {| value := v; metadata := {| lamport_clock := clock; device_id := cr_device cell |} |}.

Definition read_cursor (db : ClientDb) : CursorRow :=
  default {| cu_cursor := 0; cu_token := None; cu_epoch := None |}
    (cursors db !! crdt_table t).

(** The loop over [SELECT ... WHERE dirty = 1 ORDER BY todo_id, column_name]. *)
Definition collect_dirty (rows : gmap string (gmap string CrdtColumn))
    (e : (string * string) * CellRow) : Result (gmap string (gmap string CrdtColumn)) :=
  if cr_dirty e.2
  then decode_cell e.1.2 e.2 ≫= λ column, Ok (row_insert rows e.1.1 e.1.2 column)
  else Ok rows.

Definition get_local_delta (db : ClientDb) : Result SyncPayload :=
  st ← ok_or (client_state db) (Sqlite "Query returned no rows");
  let cur := read_cursor db in
  changes_by_row ← foldM collect_dirty ∅ (bt_iter (crdt_rows db));
  lamport ← clock_from_i64 (cs_lamport st);
  let payload :=
    {| protocol_version := PROTOCOL_VERSION;
       schema_fingerprint := table_fingerprint t;
       source_device_id := cs_device_id st;
       source_lamport := lamport;
       changes := row_changes changes_by_row;
       cursor := cu_cursor cur;
       has_more := false;
       cursor_reset := false;
       cursor_token := cu_token cur;
       server_epoch := cu_epoch cur;
       rejections := [] |} in
  validate_client_request payload (source_device_id payload) t ≫= λ _, Ok payload.

(** *** Evictions *)

(** The rows of a scope relation for this table, and for one scope. *)
Definition table_rows (rel : gset scope_row) : gset string :=
  list_to_set (omap (λ '(_, crdt, row), if (crdt =? crdt_table t)%string then Some row else None)
                 (elements rel)).
Definition scope_rows (rel : gset scope_row) (scope : string) : gset string :=
  list_to_set (omap (λ '(s, crdt, row),
                       if (s =? scope)%string && (crdt =? crdt_table t)%string
                       then Some row else None) (elements rel)).
(** [ORDER BY row_id] *)
Definition sorted_rows (rows : gset string) : list string := merge_sort key_le (elements rows).

Definition drop_evictions (row_id : string) (db : ClientDb) : ClientDb :=
  set_scope_evictions
    (filter (λ e : scope_row, ¬ (e.1.2 = crdt_table t ∧ e.2 = row_id)) (scope_evictions db)) db.
Definition row_is_dirty (row_id : string) (db : ClientDb) : bool :=
  existsb (λ e : (string * string) * CellRow, (e.1.1 =? row_id)%string && cr_dirty e.2)
    (bt_iter (crdt_rows db)).

Definition cleanup_row (row_id : string) : ClientM unit :=
  db <-- st_get ;;
  if bool_decide (row_id ∈ table_rows (scope_members db))
  then st_modify (drop_evictions row_id)
  else if row_is_dirty row_id db then st_ret tt
  else
    set_applying_remote true ;;;
    st_modify (delete_row row_id) ;;;
    set_applying_remote false ;;;
    st_modify (drop_evictions row_id).
Definition cleanup_pending_evictions : ClientM unit :=
  db <-- st_get ;;
  st_for cleanup_row (sorted_rows (table_rows (scope_evictions db))).

(** *** Acknowledgement *)

(** [UPDATE ... SET dirty = 0 WHERE todo_id = ?1 AND column_name = ?2 AND
    lamport_clock = ?3 AND device_id = ?4] *)
Definition clear_dirty (key : string * string) (lamport : Z) (device : string) (db : ClientDb)
  : ClientDb :=
  match crdt_rows db !! key with
  | Some cell =>
    if (cr_lamport cell =? lamport)%Z && (cr_device cell =? device)%string
    then set_crdt_rows
           (<[key := {| cr_value := cr_value cell; cr_lamport := cr_lamport cell;
                        cr_device := cr_device cell; cr_dirty := false |}]> (crdt_rows db)) db
    else db
  | None => db
  end.
Definition ack_cell (row_id : string) (e : string * CrdtColumn) : ClientM unit :=
  clock <-- st_lift (clock_to_i64 (lamport_clock (metadata e.2))) ;;
  st_modify (clear_dirty (row_id, e.1) clock (device_id (metadata e.2))).
Definition ack_row (row : RowChange) : ClientM unit :=
  st_for (ack_cell (todo_id row)) (bt_iter (columns row)).

Definition acknowledge_local_delta (p : SyncPayload) : ClientM unit :=
  st <-- read_client_state ;;
  st_lift (validate_client_request p (cs_device_id st) t) ;;;
  st_for ack_row (changes p) ;;;
  cleanup_pending_evictions.

(** The versions a response rejected. *)
Definition rejected_versions (response : SyncPayload) : gset (string * string * N * string) :=
  list_to_set ((λ r, (sr_todo_id r, sr_column_name r, lamport_clock (sr_metadata r),
                      device_id (sr_metadata r))) <$> rejections response).
Definition ack_cell_unless (rejected : gset (string * string * N * string)) (row_id : string)
    (e : string * CrdtColumn) : ClientM unit :=
  if bool_decide ((row_id, e.1, lamport_clock (metadata e.2), device_id (metadata e.2)) ∈ rejected)
  then st_ret tt
  else ack_cell row_id e.
Definition ack_row_unless (rejected : gset (string * string * N * string)) (row : RowChange)
  : ClientM unit :=
  st_for (ack_cell_unless rejected (todo_id row)) (bt_iter (columns row)).

Definition acknowledge_local_delta_with_response (sent response : SyncPayload) : ClientM unit :=
  st_lift (validate_server_response response t) ;;;
  st <-- read_client_state ;;
  st_lift (validate_client_request sent (cs_device_id st) t) ;;;
  st_for (ack_row_unless (rejected_versions response)) (changes sent) ;;;
  cleanup_pending_evictions.

(** *** Applying a response *)
Definition read_local_crdt_column (key : string * string) (db : ClientDb)
  : Result (option CrdtColumn) :=
  match crdt_rows db !! key with
  | None => Ok None
  | Some cell => c ← decode_cell key.2 cell; Ok (Some c)
  end.

Definition typed_match (ty : ColumnType) (v : CrdtValue) : bool :=
  match ty, v with
  | TText, VText _ | TInteger, VInteger _ | TReal, VReal _ | TBoolean, VBoolean _ => true
  | _, _ => false
  end.
Definition write_todo_column (id column : string) (v : CrdtValue) : ClientM unit :=
  match column_type t column with
  | None => st_lift (invalid ("column is not synchronizable: " +:+ column))
  | Some ty =>
    if negb (typed_match ty v)
    then st_lift (invalid ("value type is incompatible with column " +:+ column))
    else sql <-- st_lift (crdt_to_sqlite v) ;;
         _ <-- exec_update id column sql any_row ;;
         st_ret tt
  end.

Definition upsert_cell (key : string * string) (raw : string) (clock : Z) (device : string)
    (db : ClientDb) : ClientDb :=
  set_crdt_rows
    (<[key := {| cr_value := raw; cr_lamport := clock; cr_device := device; cr_dirty := false |}]>
       (crdt_rows db)) db.

Definition apply_cell (row_id : string) (e : string * CrdtColumn) : ClientM unit :=
  db <-- st_get ;;
  current <-- st_lift (read_local_crdt_column (row_id, e.1) db) ;;
  apply <-- st_lift (should_apply current e.2) ;;
  if apply : bool then
    write_todo_column row_id e.1 (value e.2) ;;;
    raw <-- st_lift (encode_sqlite_value (value e.2)) ;;
    clock <-- st_lift (clock_to_i64 (lamport_clock (metadata e.2))) ;;
    st_modify (upsert_cell (row_id, e.1) raw clock (device_id (metadata e.2)))
  else st_ret tt.
Definition apply_row (row : RowChange) : ClientM unit :=
  insert_row_if_absent (todo_id row) ;;;
  st_for (apply_cell (todo_id row)) (bt_iter (columns row)).

(** The upsert of [loomabase_cursor]: a reset overwrites the cursor, any
    other response only moves it forward. *)
Definition store_cursor (p : SyncPayload) (db : ClientDb) : ClientDb :=
  let next :=
    match cursors db !! crdt_table t with
    | Some row => if cursor_reset p then cursor p else Z.max (cu_cursor row) (cursor p)
    | None => cursor p
    end in
  set_cursors
    (<[crdt_table t := {| cu_cursor := next; cu_token := cursor_token p;
                          cu_epoch := server_epoch p |}]> (cursors db)) db.

Definition apply_remote_payload (p : SyncPayload) : ClientM unit :=
  st_lift (validate_server_response p t) ;;;
  st <-- read_client_state ;;
  current_clock <-- st_lift (clock_from_i64 (cs_lamport st)) ;;
  set_applying_remote true ;;;
  st_for apply_row (changes p) ;;;
  next_clock <-- st_lift (ok_or (u64_checked_add (N.max current_clock (max_observed_clock p)) 1)
                            ClockOverflow) ;;
  clock <-- st_lift (clock_to_i64 next_clock) ;;
  update_client_state (set_lamport clock false) ;;;
  st_modify (store_cursor p).

(** ** The synchronization API *)
Definition local_delta : ClientM SyncPayload :=
  transactional (db <-- st_get ;; st_lift (get_local_delta db)).
Definition acknowledge (p : SyncPayload) : ClientM unit :=
  transactional (acknowledge_local_delta p).
Definition apply_remote (p : SyncPayload) : ClientM unit :=
  transactional (apply_remote_payload p).
Definition complete_sync (sent response : SyncPayload) : ClientM unit :=
  transactional (
    acknowledge_local_delta_with_response sent response ;;;
    apply_remote_payload response).
Definition client_reset_cursor : ClientM unit :=
  st_modify (λ db, set_cursors
    (<[crdt_table t := {| cu_cursor := 0; cu_token := None; cu_epoch := None |}]> (cursors db)) db).

(** A transport is a computation on the rest of the world. *)
Section transport.
Context {W : Type} (transport : SyncPayload → stM W SyncError SyncPayload).

Definition on_client {A} (m : ClientM A) : stM (ClientDb * W) SyncError A := λ s,
  let '(r, db) := m s.1 in (r, (db, s.2)).
Definition on_world {A} (m : stM W SyncError A) : stM (ClientDb * W) SyncError A := λ s,
  let '(r, w) := m s.2 in (r, (s.1, w)).

Definition sync_with : stM (ClientDb * W) SyncError SyncPayload :=
  outbound <-- on_client local_delta ;;
  response <-- on_world (transport outbound) ;;
  on_client (complete_sync outbound response) ;;;
  st_ret response.

Fixpoint sync_pages (pages : nat) : stM (ClientDb * W) SyncError SyncPayload :=
  match pages with
  | O => st_lift (Err SyncPageBudgetExhausted)
  | S pages =>
    response <-- sync_with ;;
    if has_more response then sync_pages pages else st_ret response
  end.
Definition sync_until_caught_up : stM (ClientDb * W) SyncError SyncPayload :=
  sync_pages MAX_SYNC_PAGES_PER_CALL.
End transport.

(** ** Partial replicas *)
Definition bump_scope (scope : string) (active : bool) : ClientM Z :=
  db <-- st_get ;;
  let current := match scope_state db !! (scope, crdt_table t) with
                 | Some (version, _) => version
                 | None => 0%Z
                 end in
  version <-- st_lift (ok_or (i64_checked_add current 1) ClockOverflow) ;;
  st_modify (λ db, set_scope_state
                     (<[(scope, crdt_table t) := (version, active)]> (scope_state db)) db) ;;;
  st_ret version.

Definition get_partial_replica_request (scope : string) (i : ReplicaInterest)
  : ClientM PartialReplicaRequest :=
  st_lift (validate_identifier "scope_id" scope) ;;;
  st_lift (interest_validate i t) ;;;
  version <-- bump_scope scope true ;;
  db <-- st_get ;;
  let known := sorted_rows (scope_rows (scope_members db) scope) in
  scope_version <-- st_lift (clock_from_i64 version) ;;
  delta <-- st_lift (get_local_delta db) ;;
  let request :=
    {| prq_scope_id := scope; prq_scope_version := scope_version; interest := i;
       known_member_ids := known; prq_sync := delta |} in
  st_lift (request_validate request t (source_device_id delta)) ;;;
  st_ret request.

Definition clear_scope_members (scope : string) (db : ClientDb) : ClientDb :=
  set_scope_members
    (filter (λ e : scope_row, ¬ (e.1.1 = scope ∧ e.1.2 = crdt_table t)) (scope_members db)) db.
Definition add_member (scope : string) (row_id : string) : ClientM unit :=
  st_modify (λ db, set_scope_evictions (scope_evictions db ∖ {[ (scope, crdt_table t, row_id) ]})
    (set_scope_members ({[ (scope, crdt_table t, row_id) ]} ∪ scope_members db) db)).
Definition add_eviction (scope : string) (row_id : string) : ClientM unit :=
  st_modify (λ db, set_scope_evictions
                     ({[ (scope, crdt_table t, row_id) ]} ∪ scope_evictions db) db).

Definition apply_partial_replica_response (sent : PartialReplicaRequest)
    (response : PartialReplicaResponse) : ClientM unit :=
  st <-- read_client_state ;;
  st_lift (request_validate sent t (cs_device_id st)) ;;;
  st_lift (response_validate response t) ;;;
  st_lift (if negb (prq_scope_id sent =? prs_scope_id response)%string
              || negb (prq_scope_version sent =? prs_scope_version response)%N
           then invalid "partial replica response does not match the request scope revision"
           else Ok tt) ;;;
  db <-- st_get ;;
  version <-- st_lift (clock_to_i64 (prq_scope_version sent)) ;;
  st_lift (if negb (bool_decide (scope_state db !! (prq_scope_id sent, crdt_table t)
                                 = Some (version, true)))
           then invalid "stale partial replica response rejected" else Ok tt) ;;;
  let expected := filter (λ id, binary_search (member_ids response) id = false)
                    (known_member_ids sent) in
  st_lift (if negb (bool_decide (expected = evicted_row_ids response))
           then invalid "partial replica response contains an inconsistent eviction set"
           else Ok tt) ;;;
  acknowledge_local_delta_with_response (prq_sync sent) (prs_sync response) ;;;
  apply_remote_payload (prs_sync response) ;;;
  st_modify (clear_scope_members (prq_scope_id sent)) ;;;
  st_for (add_member (prq_scope_id sent)) (member_ids response) ;;;
  st_for (add_eviction (prq_scope_id sent)) (evicted_row_ids response) ;;;
  cleanup_pending_evictions.

Definition remove_partial_replica_scope_body (scope : string) : ClientM unit :=
  st_lift (validate_identifier "scope_id" scope) ;;;
  _ <-- bump_scope scope false ;;
  db <-- st_get ;;
  let members := sorted_rows (scope_rows (scope_members db) scope) in
  st_modify (clear_scope_members scope) ;;;
  st_for (add_eviction scope) members ;;;
  cleanup_pending_evictions.

Definition partial_replica_request (scope : string) (i : ReplicaInterest)
  : ClientM PartialReplicaRequest := transactional (get_partial_replica_request scope i).
Definition complete_partial_replica_sync (sent : PartialReplicaRequest)
    (response : PartialReplicaResponse) : ClientM unit :=
  transactional (apply_partial_replica_response sent response).
Definition remove_partial_replica_scope (scope : string) : ClientM unit :=
  transactional (remove_partial_replica_scope_body scope).

Definition sync_partial_with {W} (transport : PartialReplicaRequest →
    stM W SyncError PartialReplicaResponse) (scope : string) (i : ReplicaInterest)
  : stM (ClientDb * W) SyncError PartialReplicaResponse :=
  outbound <-- on_client (partial_replica_request scope i) ;;
  response <-- on_world (transport outbound) ;;
  on_client (complete_partial_replica_sync outbound response) ;;;
  st_ret response.

(** ** Initialization

    The schema itself is [Contract_sqlite_schema]; this is the part that
    binds the database to its device. *)
Definition bind_device (device : string) : ClientM unit :=
  st_lift (validate_identifier "device_id" device) ;;;
  transactional (
    db <-- st_get ;;
    match client_state db with
    | None =>
      st_modify (set_client_state
        (Some {| cs_device_id := device; cs_lamport := 0; cs_applying_remote := false |}))
    | Some st =>
      st_lift (if (cs_device_id st =? device)%string then Ok tt
               else invalid "the local database belongs to a different device")
    end).
End client.

Definition empty_db : ClientDb :=
  {| client_state := None; app_rows := ∅; crdt_rows := ∅; cursors := ∅; scope_state := ∅;
     scope_members := ∅; scope_evictions := ∅ |}.

(** ** The [todos] facade *)
Section todos.
Context `{!SqlText_externals}.

Record Todo := { todo_row_id : string; todo_title : string; todo_completed : bool }.

Definition sql_bool (b : bool) : SqlValue := SqlInteger (if b then 1 else 0).

Definition create_todo (id title : string) (completed : bool) : ClientM unit :=
  st_lift (validate_identifier "todo_id" id) ;;;
  st_lift (validate_column todos_table TITLE_COLUMN (VText title)) ;;;
  transactional (
    exec_insert todos_table id
      (<[TITLE_COLUMN := SqlText title]> {[ COMPLETED_COLUMN := sql_bool completed ]})).
Definition update_title (id title : string) : ClientM unit :=
  st_lift (validate_identifier "todo_id" id) ;;;
  st_lift (validate_column todos_table TITLE_COLUMN (VText title)) ;;;
  transactional (
    changed <-- exec_update todos_table id TITLE_COLUMN (SqlText title) any_row ;;
    st_lift (ensure_one_row changed "todo not found during update_title")).
Definition update_completed (id : string) (completed : bool) : ClientM unit :=
  st_lift (validate_identifier "todo_id" id) ;;;
  transactional (
    changed <-- exec_update todos_table id COMPLETED_COLUMN (sql_bool completed) any_row ;;
    st_lift (ensure_one_row changed "todo not found during update_completed")).
Definition delete_todo (id : string) : ClientM unit := client_delete todos_table id.
Definition restore_todo (id : string) : ClientM unit := client_restore todos_table id.

Definition get_todo (id : string) (db : ClientDb) : Result (option Todo) :=
  validate_identifier "todo_id" id ≫= λ _,
  Ok (row ← app_rows db !! id;
      if is_live row then
        match row !! TITLE_COLUMN, row !! COMPLETED_COLUMN with
        | Some (SqlText title), Some (SqlInteger completed) =>
          Some {| todo_row_id := id; todo_title := title;
                  todo_completed := negb (completed =? 0)%Z |}
        | _, _ => None
        end
      else None).
Definition read_todo (id : string) (db : ClientDb) : Result (option (string * bool)) :=
  Ok (row ← app_rows db !! id;
      if is_live row then
        match row !! TITLE_COLUMN, row !! COMPLETED_COLUMN with
        | Some (SqlText title), Some (SqlInteger completed) =>
          Some (title, negb (completed =? 0)%Z)
        | _, _ => None
        end
      else None).
End todos.
