(* ===== verification/ClientFacts.v ===== *)
(** * What the edge client's statements do (src/client.rs)

    The cells a database holds, what applying a response does to them, and
    what acknowledging and capturing do. *)
From S2P Require Import Prelude RustStd Error Schema Crdt Lww Payload Replica State Sqlite Client.

(** ** Typed values

    Rust's [i64] bounds the integers of a [CrdtValue]; the model's do not,
    so the statements that print them say so. *)
Definition value_typed (v : CrdtValue) : Prop :=
  match v with VInteger i => (i64_min ≤ i ≤ i64_max)%Z | _ => True end.
Definition payload_typed (p : SyncPayload) : Prop :=
  ∀ k c, (k, c) ∈ payload_writes p → value_typed (value c).

Section client.
Context `{!StrDebug, !SqlText_externals}.
Variable t : TableDef.

(** Rust prints a finite [f64] so that parsing gives it back. *)
Definition f64_text_exact : Prop :=
  ∀ r, f64_is_finite r = true → f64_from_str (f64_to_string r) = Some r.

(** ** The cells of a database *)
Definition client_cells (db : ClientDb) : cell_map :=
  map_imap (λ k cell, match decode_cell t k.2 cell with Ok c => Some c | Err _ => None end)
    (crdt_rows db).

Lemma client_cells_lookup db k c :
  client_cells db !! k = Some c ↔
  ∃ cell, crdt_rows db !! k = Some cell ∧ decode_cell t k.2 cell = Ok c.
Proof.
  unfold client_cells. rewrite map_lookup_imap. split.
  - intros (cell & Hc & Hd)%bind_Some. exists cell. split; [done|].
    by destruct (decode_cell t k.2 cell); simplify_eq.
  - intros (cell & -> & Hd). simpl. by rewrite Hd.
Qed.

Lemma client_cells_ext db db' :
  crdt_rows db = crdt_rows db' → client_cells db = client_cells db'.
Proof. unfold client_cells. by intros ->. Qed.

(** ** Text round trips *)
Lemma clock_i64_roundtrip c z : clock_to_i64 c = Ok z → clock_from_i64 z = Ok c ∧ z = Z.of_N c.
Proof.
  unfold clock_to_i64, clock_from_i64, i64_try_from_u64, u64_try_from_i64.
  destruct (N.leb_spec c I64_MAX); [|done]. simpl. intros [= <-].
  destruct (Z.leb_spec 0 (Z.of_N c)); [|lia]. by rewrite N2Z.id.
Qed.

Lemma decode_encode name v raw :
  f64_text_exact → column_accepts t name v → value_typed v →
  encode_sqlite_value v = Ok raw → decode_sqlite_value t name raw = Ok v.
Proof.
  intros Hfloat (ty & Hty & Hv) Htyped Henc. unfold decode_sqlite_value. rewrite Hty.
  destruct ty, v; simpl in *; try done; injection Henc as <-.
  - done.
  - by rewrite i64_from_pretty.
  - by rewrite Hfloat.
  - by destruct b.
Qed.

Lemma decode_cell_clock name cell c :
  decode_cell t name cell = Ok c → cr_lamport cell = Z.of_N (lamport_clock (metadata c)).
Proof.
  unfold decode_cell. intros (v & _ & (clock & Hclock & [= <-])%bind_ok)%bind_ok.
  unfold clock_from_i64, u64_try_from_i64 in Hclock.
  destruct (Z.leb_spec 0 (cr_lamport cell)); [|done]. injection Hclock as <-. simpl. lia.
Qed.
Lemma decode_cell_device name cell c :
  decode_cell t name cell = Ok c → cr_device cell = device_id (metadata c).
Proof. unfold decode_cell. by intros (v & _ & (clock & _ & [= <-])%bind_ok)%bind_ok. Qed.

Lemma parse_typed s i : i64_from_str s = Some i → (i64_min ≤ i ≤ i64_max)%Z.
Proof.
  assert (∀ z, in_i64 z = Some i → (i64_min ≤ i ≤ i64_max)%Z) as Hin.
  { intros z. unfold in_i64. destruct (_ && _) eqn:Hb; [|done]. intros [= <-].
    apply andb_true_iff in Hb as [?%Z.leb_le ?%Z.leb_le]. done. }
  unfold i64_from_str. destruct s as [|c s]; [done|].
  destruct (Ascii.eqb c "-"); [by intros (z & _ & Hz)%bind_Some; apply (Hin (- z)%Z)|].
  destruct (Ascii.eqb c "+"); by intros (z & _ & Hz)%bind_Some; apply (Hin z).
Qed.
Lemma decode_typed name raw v : decode_sqlite_value t name raw = Ok v → value_typed v.
Proof.
  unfold decode_sqlite_value. destruct (column_type t name) as [[]|]; [..|done].
  - by intros [= <-].
  - destruct (i64_from_str raw) eqn:Hi; [|done]. intros [= <-]. simpl. by eapply parse_typed.
  - by destruct (f64_from_str raw); [intros [= <-]|].
  - destruct (raw =? "0")%string; [by intros [= <-]|]. by destruct (raw =? "1")%string; [intros [= <-]|].
Qed.

(** ** Statements while a response is applied *)
Definition applying (db : ClientDb) : Prop :=
  ∃ st, client_state db = Some st ∧ cs_applying_remote st = true.

Lemma fire_trigger_applying columns id row db :
  applying db → fire_trigger columns id row db = (Ok tt, db).
Proof.
  intros (st & Hst & Happ). unfold fire_trigger, st_bind, st_get. rewrite Hst. by rewrite Happ.
Qed.

Lemma applying_set_app_rows rows db : applying db → applying (set_app_rows rows db).
Proof. done. Qed.

(** The row [INSERT OR NOTHING] leaves. *)
Definition with_row (id : string) (rows : gmap string (gmap string SqlValue))
  : gmap string (gmap string SqlValue) :=
  match rows !! id with Some _ => rows | None => <[id := default_row t]> rows end.

Lemma with_row_is_Some id rows : is_Some (with_row id rows !! id).
Proof.
  unfold with_row. destruct (rows !! id) eqn:Hrow; [by rewrite Hrow|].
  rewrite lookup_insert_eq. by eexists.
Qed.
Lemma with_row_dom id rows i : is_Some (rows !! i) → is_Some (with_row id rows !! i).
Proof.
  unfold with_row. destruct (rows !! id); [done|]. intros Hi. apply lookup_insert_is_Some'. by right.
Qed.

Lemma insert_row_applying id db db' u :
  applying db → insert_row_if_absent t id db = (Ok u, db') →
  db' = set_app_rows (with_row id (app_rows db)) db.
Proof.
  intros Happ. unfold insert_row_if_absent, exec_insert, with_row, st_bind at 1, st_get at 1.
  destruct (app_rows db !! id) as [row|] eqn:Hrow.
  - intros [= _ <-]. by destruct db.
  - unfold st_bind at 1, st_get at 1. rewrite Hrow. unfold st_bind, st_modify.
    rewrite fire_trigger_applying by done. rewrite (left_id_L ∅ (∪)). by intros [= _ <-].
Qed.

(** The rows an [UPDATE] leaves. *)
Definition update_rows (id column : string) (v : SqlValue)
    (guard : gmap string SqlValue → bool) (rows : gmap string (gmap string SqlValue))
  : gmap string (gmap string SqlValue) :=
  alter (λ row, if guard row then <[column := v]> row else row) id rows.

Lemma update_rows_dom id column v guard rows i :
  is_Some (update_rows id column v guard rows !! i) ↔ is_Some (rows !! i).
Proof. unfold update_rows. by rewrite lookup_alter_is_Some. Qed.

Lemma update_rows_some id column v guard rows row :
  rows !! id = Some row → guard row = true →
  <[id := <[column := v]> row]> rows = update_rows id column v guard rows.
Proof.
  intros Hrow Hg. apply map_eq. intros i. unfold update_rows.
  destruct (decide (id = i)) as [<-|Hne].
  - by rewrite lookup_insert_eq, lookup_alter_eq, Hrow; simpl; rewrite Hg.
  - by rewrite lookup_insert_ne, lookup_alter_ne.
Qed.
Lemma update_rows_none id column v guard rows :
  (∀ row, rows !! id = Some row → guard row = false) →
  update_rows id column v guard rows = rows.
Proof.
  intros Hg. apply map_eq. intros i. unfold update_rows.
  destruct (decide (id = i)) as [<-|Hne]; [|by rewrite lookup_alter_ne].
  rewrite lookup_alter_eq. destruct (rows !! id) as [row|]; [|done]. simpl. by rewrite Hg.
Qed.

Lemma exec_update_applying id column v guard db db' n :
  applying db → exec_update t id column v guard db = (Ok n, db') →
  db' = set_app_rows (update_rows id column v guard (app_rows db)) db.
Proof.
  intros Happ. unfold exec_update, st_bind at 1, st_get at 1.
  destruct (app_rows db !! id) as [row|] eqn:Hrow.
  2:{ intros [= _ <-]. rewrite update_rows_none by by intros ?; rewrite Hrow. by destruct db. }
  destruct (guard row) eqn:Hg; cbn [negb].
  2:{ intros [= _ <-]. rewrite update_rows_none; [by destruct db|]. intros ?. rewrite Hrow. by intros [= <-]. }
  unfold st_bind, st_modify, st_ret. intros Hrun.
  rewrite <-(update_rows_some _ _ _ _ _ row) by done.
  destruct (row !! column); [|by injection Hrun].
  destruct (column_type t column); [|by injection Hrun].
  destruct (sql_is _ _); [by injection Hrun|].
  rewrite fire_trigger_applying in Hrun by done. by injection Hrun.
Qed.

(** What one cell of a response does. *)
Inductive cell_step (key : string * string) (c : CrdtColumn) (db : ClientDb) : ClientDb → Prop :=
| step_skip c0 :
    client_cells db !! key = Some c0 → lww_le c c0 → cell_step key c db db
| step_write raw v :
    encode_sqlite_value (value c) = Ok raw → crdt_to_sqlite (value c) = Ok v →
    clock_to_i64 (lamport_clock (metadata c)) = Ok (Z.of_N (lamport_clock (metadata c))) →
    (crdt_rows db !! key = None ∨
     ∃ c0, client_cells db !! key = Some c0 ∧ version_lt (metadata c0) (metadata c)) →
    cell_step key c db
      (upsert_cell key raw (Z.of_N (lamport_clock (metadata c))) (device_id (metadata c))
        (set_app_rows (update_rows key.1 key.2 v any_row (app_rows db)) db)).

Lemma write_todo_column_applying id column v db db' u :
  applying db → write_todo_column t id column v db = (Ok u, db') →
  ∃ sql, crdt_to_sqlite v = Ok sql ∧
    db' = set_app_rows (update_rows id column sql any_row (app_rows db)) db.
Proof.
  intros Happ. unfold write_todo_column. destruct (column_type t column); [|done].
  destruct (typed_match _ _); cbn [negb]; [|done].
  intros (sql & ? & [Hsql ->]%st_lift_ok & (n & ? & Hup & [_ <-]%st_ret_ok)%st_bind_ok)%st_bind_ok.
  exists sql. split; [done|]. by eapply exec_update_applying.
Qed.

Lemma apply_cell_step row_id name c db db' :
  applying db → apply_cell t row_id (name, c) db = (Ok tt, db') →
  cell_step (row_id, name) c db db'.
Proof.
  intros Happ. unfold apply_cell. cbn [fst snd].
  intros (? & ? & [-> ->]%st_get_ok & (cur & ? & [Hcur ->]%st_lift_ok & Hrun)%st_bind_ok)%st_bind_ok.
  apply st_bind_ok in Hrun as (b & ? & [Hb ->]%st_lift_ok & Hrun).
  unfold read_local_crdt_column in Hcur. cbn [snd] in Hcur.
  destruct b.
  - apply st_bind_ok in Hrun as ([] & db1 & Hwrite & Hrun).
    apply st_bind_ok in Hrun as (raw & ? & [Hraw ->]%st_lift_ok & Hrun).
    apply st_bind_ok in Hrun as (clock & ? & [Hclock ->]%st_lift_ok & ->%st_modify_ok).
    destruct (write_todo_column_applying _ _ _ _ _ _ Happ Hwrite) as (v & Hv & ->).
    destruct (clock_i64_roundtrip _ _ Hclock) as [_ ->].
    apply (step_write (row_id, name)); try done.
    destruct (crdt_rows db !! (row_id, name)) as [cell|] eqn:Hcell; [right|by left].
    apply bind_ok in Hcur as (c0 & Hd & [= <-]). exists c0.
    split; [apply client_cells_lookup; eauto|]. by apply (should_apply_true _ _ Hb).
  - apply st_ret_ok in Hrun as [_ ->].
    apply should_apply_false in Hb as (c0 & -> & Hle).
    destruct (crdt_rows db !! (row_id, name)) as [cell|] eqn:Hcell; [|done].
    apply bind_ok in Hcur as (c1 & Hd & [= ->]). apply (step_skip _ _ _ c0); [|done].
    apply client_cells_lookup; eauto.
Qed.

(** ** Applying the rows of a response *)
Definition same_meta (db db' : ClientDb) : Prop :=
  client_state db' = client_state db ∧ cursors db' = cursors db ∧
  scope_state db' = scope_state db ∧ scope_members db' = scope_members db ∧
  scope_evictions db' = scope_evictions db.

(** [applied l db db']: [db'] comes from [db] by taking in the writes [l]:
    a log row is the old one, or the clean row of a newer write. *)
Record applied (l : list cell_write) (db db' : ClientDb) : Prop := {
  ap_meta : same_meta db db';
  ap_cells : absorbs (client_cells db) l (client_cells db');
  ap_rows k : crdt_rows db' !! k = crdt_rows db !! k ∨
    ∃ c cell, (k, c) ∈ l ∧ crdt_rows db' !! k = Some cell ∧ cr_dirty cell = false ∧
      decode_cell t k.2 cell = Ok c ∧
      ∀ c0, client_cells db !! k = Some c0 → version_lt (metadata c0) (metadata c);
  ap_app i : is_Some (app_rows db !! i) → is_Some (app_rows db' !! i);
}.

Lemma same_rows_cells db db' k :
  crdt_rows db' !! k = crdt_rows db !! k → client_cells db' !! k = client_cells db !! k.
Proof. unfold client_cells. rewrite !map_lookup_imap. by intros ->. Qed.

Lemma applied_nil db : applied [] db db.
Proof. split; [done|apply absorbs_nil|by left|done]. Qed.

Lemma applied_app l1 l2 db1 db2 db3 :
  applied l1 db1 db2 → applied l2 db2 db3 → applied (l1 ++ l2) db1 db3.
Proof.
  intros [Hm1 Hc1 Hr1 Ha1] [Hm2 Hc2 Hr2 Ha2]. split; [| | |by auto].
  - unfold same_meta in *. naive_solver congruence.
  - by eapply absorbs_app.
  - intros k. setoid_rewrite elem_of_app.
    destruct (Hr2 k) as [H2|(c2 & cell2 & Hin2 & Hk2 & Hd2 & Hdec2 & Hlt2)].
    + destruct (Hr1 k) as [H1|(c1 & cell1 & Hin1 & Hk1 & Hd1 & Hdec1 & Hlt1)];
        [left; congruence|right].
      exists c1, cell1. split_and!; try done; [by left|congruence].
    + right. exists c2, cell2. split_and!; try done; [by right|]. intros c0 Hc0.
      destruct (Hr1 k) as [H1|(c1 & cell1 & Hin1 & Hk1 & Hd1 & Hdec1 & Hlt1)].
      * apply Hlt2. by rewrite (same_rows_cells db1 db2).
      * transitivity (metadata c1); [by apply Hlt1|]. apply Hlt2, client_cells_lookup. eauto.
Qed.

Section rows.
Hypothesis (Hfloat : f64_text_exact).

(** The log row a written cell leaves decodes to that cell. *)
Lemma written_cell_decodes name c raw :
  column_accepts t name (value c) → value_typed (value c) →
  encode_sqlite_value (value c) = Ok raw →
  clock_to_i64 (lamport_clock (metadata c)) = Ok (Z.of_N (lamport_clock (metadata c))) →
  decode_cell t name
    {| cr_value := raw; cr_lamport := Z.of_N (lamport_clock (metadata c));
       cr_device := device_id (metadata c); cr_dirty := false |} = Ok c.
Proof.
  intros Hacc Htyped Hraw Hclock. unfold decode_cell; simpl.
  rewrite (decode_encode _ _ _ Hfloat Hacc Htyped Hraw). simpl.
  destruct (clock_i64_roundtrip _ _ Hclock) as [-> _]. simpl. by destruct c as [v []].
Qed.

Lemma cell_step_applied key c db db' :
  column_accepts t key.2 (value c) → value_typed (value c) →
  cell_step key c db db' → applied [(key, c)] db db'.
Proof.
  intros Hacc Htyped [c0 Hc0 Hle|raw v Hraw Hv Hclock Hold].
  { split; [done| |by left|done]. by eapply absorbs_skip. }
  pose proof (written_cell_decodes _ _ _ Hacc Htyped Hraw Hclock) as Hdec.
  assert (∀ c1, client_cells db !! key = Some c1 → version_lt (metadata c1) (metadata c)) as Hnew.
  { intros c1 Hc1. destruct Hold as [Hnone|(c0 & Hc0 & Hlt)]; [|by simplify_eq].
    apply client_cells_lookup in Hc1 as (cell & Hcell & _). congruence. }
  split; [done| | |].
  - match goal with |- absorbs _ _ (client_cells ?d) => set (db2 := d) end. assert (client_cells db2 = <[key := c]> (client_cells db)) as ->.
    { apply map_eq. intros k. destruct (decide (key = k)) as [<-|Hne].
      - rewrite lookup_insert_eq. apply client_cells_lookup. eexists.
        split; [apply lookup_insert_eq|done].
      - rewrite lookup_insert_ne by done. apply same_rows_cells. simpl. by rewrite lookup_insert_ne. }
    by apply absorbs_write.
  - intros k. destruct (decide (key = k)) as [<-|Hne]; [right|left; by apply lookup_insert_ne].
    exists c. eexists. split_and!; [by left|apply lookup_insert_eq|done|done|done].
  - intros i Hi. by apply update_rows_dom.
Qed.

Lemma applied_applying l db db' : applied l db db' → applying db → applying db'.
Proof. intros [(Hst & _) _ _ _] (st & ? & ?). exists st. by rewrite Hst. Qed.

Lemma apply_row_applied row db db' :
  (∀ name c, columns row !! name = Some c → column_accepts t name (value c) ∧ value_typed (value c)) →
  applying db → apply_row t row db = (Ok tt, db') →
  applied ((λ e : string * CrdtColumn, ((todo_id row, e.1), e.2)) <$> bt_iter (columns row)) db db'
  ∧ is_Some (app_rows db' !! todo_id row).
Proof.
  intros Hcols Happ. unfold apply_row.
  intros ([] & db1 & Hins & Hloop)%st_bind_ok.
  pose proof (insert_row_applying _ _ _ _ Happ Hins) as ->.
  assert (applied [] db (set_app_rows (with_row (todo_id row) (app_rows db)) db)) as Hins'.
  { split; [done|apply (absorbs_nil (client_cells db))|by left|]. intros i. apply with_row_dom. }
  pose proof (st_for_inv _ (λ done db2,
    applied ((λ e : string * CrdtColumn, ((todo_id row, e.1), e.2)) <$> done) db db2 ∧
    is_Some (app_rows db2 !! todo_id row)) _ _ _ Hloop) as Hinv.
  apply Hinv; clear Hinv; [split; [exact Hins'|apply with_row_is_Some]|].
  intros done [name c] db2 db3 Hin [Hdone Hrow2] Hstep.
  rewrite fmap_app. assert (columns row !! name = Some c) as Hc by by apply elem_of_bt_iter in Hin.
  destruct (Hcols _ _ Hc) as [Hacc Htyped].
  apply apply_cell_step in Hstep; [|by eapply applied_applying].
  pose proof (cell_step_applied (todo_id row, name) c db2 db3 Hacc Htyped Hstep) as Happlied.
  split; [by eapply applied_app|]. by apply (ap_app _ _ _ Happlied).
Qed.

Lemma apply_rows_applied rows db db' :
  (∀ row name c, row ∈ rows → columns row !! name = Some c →
    column_accepts t name (value c) ∧ value_typed (value c)) →
  applying db → st_for (apply_row t) rows db = (Ok tt, db') →
  applied (rows ≫= λ row, (λ e : string * CrdtColumn, ((todo_id row, e.1), e.2))
                            <$> bt_iter (columns row)) db db' ∧
  ∀ row, row ∈ rows → is_Some (app_rows db' !! todo_id row).
Proof.
  intros Hcols Happ Hloop.
  pose proof (st_for_inv _ (λ done db2,
    applied (done ≫= λ row, (λ e : string * CrdtColumn, ((todo_id row, e.1), e.2))
                            <$> bt_iter (columns row)) db db2 ∧
    ∀ row, row ∈ done → is_Some (app_rows db2 !! todo_id row)) _ _ _ Hloop) as Hinv.
  apply Hinv; clear Hinv; [split; [apply applied_nil|by intros ? ?%not_elem_of_nil]|].
  intros done row db2 db3 Hin [Hdone Hrows] Hstep.
  apply apply_row_applied in Hstep as [Hstep Hrow]; [|by eauto|by eapply applied_applying].
  rewrite bind_app. cbn [mbind list_bind]. rewrite app_nil_r.
  split; [by eapply applied_app|].
  intros row' [Hr| ->%list_elem_of_singleton]%elem_of_app; [|done].
  apply (ap_app _ _ _ Hstep). by apply Hrows.
Qed.

(** ** Applying a response *)

(** The state the rows of a response are applied in, and what is left when
    they are in. *)
Definition begin_apply (db : ClientDb) : ClientDb :=
  set_client_state ((λ st, {| cs_device_id := cs_device_id st; cs_lamport := cs_lamport st;
                              cs_applying_remote := true |}) <$> client_state db) db.
Definition end_apply (clock : N) (p : SyncPayload) (db : ClientDb) : ClientDb :=
  store_cursor t p
    (set_client_state (set_lamport (Z.of_N clock) false <$> client_state db) db).

Record apply_run (p : SyncPayload) (db : ClientDb) (st : ClientState) (db1 db' : ClientDb)
  : Prop := {
  ar_state : client_state db = Some st;
  ar_response : server_response_wf p t;
  ar_clock : (0 ≤ cs_lamport st)%Z;
  ar_next : (N.max (Z.to_N (cs_lamport st)) (max_observed_clock p) + 1 ≤ I64_MAX)%N;
  ar_rows : applied (payload_writes p) (begin_apply db) db1;
  ar_present row : row ∈ changes p → is_Some (app_rows db1 !! todo_id row);
  ar_loop : st_for (apply_row t) (changes p) (begin_apply db) = (Ok tt, db1);
  ar_end : db' = end_apply (N.max (Z.to_N (cs_lamport st)) (max_observed_clock p) + 1) p db1;
}.

Lemma apply_remote_run p db db' :
  payload_typed p → apply_remote_payload t p db = (Ok tt, db') →
  ∃ st db1, apply_run p db st db1 db'.
Proof.
  intros Htyped. unfold apply_remote_payload.
  intros ([] & ? & [Hval ->]%st_lift_ok & Hrun)%st_bind_ok.
  apply validate_server_response_ok in Hval.
  apply st_bind_ok in Hrun as (st & ? & Hst & Hrun).
  unfold read_client_state in Hst.
  apply st_bind_ok in Hst as (? & ? & [-> ->]%st_get_ok & [Hst%ok_or_ok ->]%st_lift_ok).
  apply st_bind_ok in Hrun as (clock & ? & [Hclock ->]%st_lift_ok & Hrun).
  apply st_bind_ok in Hrun as ([] & ? & ->%st_modify_ok & Hrun).
  apply st_bind_ok in Hrun as ([] & db1 & Hloop & Hrun).
  apply st_bind_ok in Hrun as (next & ? & [Hnext%ok_or_ok ->]%st_lift_ok & Hrun).
  apply st_bind_ok in Hrun as (z & ? & [Hz ->]%st_lift_ok & Hrun).
  apply st_bind_ok in Hrun as ([] & ? & ->%st_modify_ok & ->%st_modify_ok).
  change (st_for (apply_row t) (changes p) (begin_apply db) = (Ok tt, db1)) in Hloop.
  unfold clock_from_i64, u64_try_from_i64 in Hclock.
  destruct (Z.leb_spec 0 (cs_lamport st)); [|done]. injection Hclock as <-.
  unfold u64_checked_add in Hnext. case_match; [|done]. injection Hnext as <-.
  unfold clock_to_i64, i64_try_from_u64 in Hz.
  destruct (N.leb_spec (N.max (Z.to_N (cs_lamport st)) (max_observed_clock p) + 1) I64_MAX);
    [|done]. injection Hz as <-.
  exists st, db1. destruct (apply_rows_applied (changes p) (begin_apply db) db1) as [Happ Hpres];
    [| |done|by split].
  - intros row name c Hrow Hc. split.
    + pose proof (wf_rows _ _ (sv_payload _ _ Hval)) as Hrows. rewrite list.Forall_forall in Hrows.
      destruct (Hrows _ Hrow) as (_ & _ & Hcell). by apply Hcell.
    + apply (Htyped (todo_id row, name)), elem_of_payload_writes. eauto.
  - eexists. unfold begin_apply; simpl. by rewrite Hst.
Qed.
End rows.
End client.
