(* ===== verification/ClientInv.v ===== *)
(** * The invariant of an edge database (src/client.rs)

    What a client database looks like between two operations: the
    application table is typed, every row of the CRDT log decodes to a cell
    the contract accepts, is below the device clock, belongs to an
    application row and holds the text of the value that row shows; dirty
    rows are the device's own. Every operation of the client keeps it. *)
From S2P Require Import Prelude RustStd Error Schema SchemaFacts Crdt Lww Payload Replica State.
From S2P Require Import Sqlite Client ClientFacts.

Section inv.
Context `{!StrDebug, !SqlText_externals}.
Variable t : TableDef.

(** ** Typed rows *)
Definition sql_typed (ty : ColumnType) (v : SqlValue) : Prop :=
  match ty, v with
  | TText, SqlText s => (str_len s ≤ MAX_TEXT_BYTES)%N
  | TInteger, SqlInteger i => (i64_min ≤ i ≤ i64_max)%Z
  | TReal, SqlReal r => f64_is_finite r = true
  | TBoolean, SqlInteger i => i = 0%Z ∨ i = 1%Z
  | _, _ => False
  end.

(** [raw] is the text of [v], written by SQLite or by Rust, up to the sign
    of a zero. *)
Definition text_of (v : SqlValue) (raw : string) : Prop :=
  ∃ v', sql_is v' v = true ∧
    (raw = sql_to_text v' ∨ ∃ r, v' = SqlReal r ∧ raw = f64_to_string r).

(** The text SQLite gives a real reads back as a finite real. *)
Definition capturable (v : SqlValue) : Prop :=
  match v with
  | SqlReal r => ∃ r', f64_from_str (sqlite_real_text r) = Some r' ∧ f64_is_finite r' = true
  | _ => True
  end.

Definition cell_ok (device : string) (bound : Z)
    (rows : gmap string (gmap string SqlValue)) (k : string * string) (cell : CellRow) : Prop :=
  (∃ c, decode_cell t k.2 cell = Ok c ∧ column_accepts t k.2 (value c)) ∧
  (0 ≤ cr_lamport cell ≤ bound)%Z ∧ identifier_ok (cr_device cell) ∧
  (cr_dirty cell = true → cr_device cell = device) ∧
  ∃ row v, rows !! k.1 = Some row ∧ row !! k.2 = Some v ∧ text_of v (cr_value cell).

Definition row_ok (row : gmap string SqlValue) : Prop :=
  ∀ name ty, column_type t name = Some ty → ∃ v, row !! name = Some v ∧ sql_typed ty v.

(** The tables, for a device and a bound on the clocks. *)
Record tables_wf (device : string) (bound : Z) (db : ClientDb) : Prop := {
  tb_rows id row : app_rows db !! id = Some row → identifier_ok id ∧ row_ok row;
  tb_cells k cell : crdt_rows db !! k = Some cell → cell_ok device bound (app_rows db) k cell;
}.
(** The cursor and the scope revisions. *)
Definition meta_wf (db : ClientDb) : Prop :=
  (∀ row, cursors db !! crdt_table t = Some row →
    (0 ≤ cu_cursor row)%Z ∧ (∀ v, cu_token row = Some v → identifier_ok v) ∧
    (∀ v, cu_epoch row = Some v → identifier_ok v)) ∧
  (∀ scope version active, scope_state db !! (scope, crdt_table t) = Some (version, active) →
    (1 ≤ version ≤ i64_max)%Z).
Record client_wf (db : ClientDb) : Prop := {
  cw_state : ∃ st, client_state db = Some st ∧ cs_applying_remote st = false ∧
    (0 ≤ cs_lamport st ≤ i64_max)%Z ∧ identifier_ok (cs_device_id st) ∧
    tables_wf (cs_device_id st) (cs_lamport st) db;
  cw_meta : meta_wf db;
}.

(** ** Values *)
Lemma sql_is_refl ty v : sql_typed ty v → sql_is v v = true.
Proof.
  destruct ty, v; simpl; try done; intros Hv.
  - apply String.eqb_refl.
  - apply Z.eqb_refl.
  - by apply f64_eqb_finite.
  - apply Z.eqb_refl.
Qed.

Lemma sql_is_trans a b c : sql_is a b = true → sql_is b c = true → sql_is a c = true.
Proof.
  destruct a, b, c; simpl; try done.
  - rewrite !String.eqb_eq. congruence.
  - rewrite !Z.eqb_eq. congruence.
  - intros H1 H2. destruct (f64_is_finite r) eqn:Hr.
    + apply f64_eqb_finite; [done|]. transitivity r0; by apply f64_eqb_sim.
    + destruct r as [| [] | |], r0 as [| [] | |]; simpl in *; try done;
        by destruct r1 as [| [] | |].
Qed.

Lemma text_of_self ty v : sql_typed ty v → text_of v (sql_to_text v).
Proof. intros Hv. exists v. split; [by eapply sql_is_refl|by left]. Qed.

Lemma text_of_is v v' raw : text_of v raw → sql_is v v' = true → text_of v' raw.
Proof.
  intros (v0 & Hv0 & Hraw) His. exists v0. split; [by eapply sql_is_trans|done].
Qed.

Lemma default_typed ty : sql_typed ty (sql_default ty).
Proof. destruct ty; simpl; try done; [by left]. Qed.

Lemma crdt_to_sqlite_typed name v sv ty :
  column_accepts t name v → value_typed v → crdt_to_sqlite v = Ok sv →
  column_type t name = Some ty → sql_typed ty sv.
Proof.
  intros (ty' & Hty' & Hv) Htyped Hsv Hty. rewrite Hty in Hty'. injection Hty' as <-.
  destruct ty, v; simpl in *; try done; injection Hsv as <-; try done.
  destruct b; [by right|by left].
Qed.

Lemma crdt_to_sqlite_total name v : column_accepts t name v → ∃ sv, crdt_to_sqlite v = Ok sv.
Proof. intros (ty & _ & Hv). destruct ty, v; simpl in *; try done; by eexists. Qed.

Lemma encode_text_of name v raw sv :
  column_accepts t name v → encode_sqlite_value v = Ok raw → crdt_to_sqlite v = Ok sv →
  text_of sv raw.
Proof.
  intros (ty & _ & Hv) Hraw Hsv. exists sv.
  destruct ty, v; simpl in *; try done; injection Hraw as <-; injection Hsv as <-; simpl.
  - split; [apply String.eqb_refl|by left].
  - split; [apply Z.eqb_refl|by left].
  - split; [by apply f64_eqb_finite|right; by eexists].
  - split; [apply Z.eqb_refl|left]. by destruct b.
Qed.

(** Captured text decodes to a value the column accepts. *)
Lemma capture_decodes name ty v :
  column_type t name = Some ty → sql_typed ty v → capturable v →
  ∃ c, decode_sqlite_value t name (sql_to_text v) = Ok c ∧ column_accepts t name c.
Proof.
  intros Hty Hv Hcap. unfold decode_sqlite_value, column_accepts. rewrite Hty.
  destruct ty, v; simpl in *; try done.
  - eexists. split; [done|]. by eexists.
  - rewrite i64_from_pretty by done. eexists. split; [done|]. by eexists.
  - destruct Hcap as (r' & -> & Hr'). eexists. split; [done|]. by eexists.
  - destruct Hv as [->| ->]; (eexists; split; [done|]; by eexists).
Qed.
(** ** Keeping the tables *)

(** The value a kept log row describes is still there. *)
Definition value_kept (rows rows' : gmap string (gmap string SqlValue)) (k : string * string)
  : Prop :=
  ∀ row v, rows !! k.1 = Some row → row !! k.2 = Some v →
    ∃ row' v', rows' !! k.1 = Some row' ∧ row' !! k.2 = Some v' ∧ (v' = v ∨ sql_is v v' = true).

Lemma cell_ok_kept device bound bound' rows rows' k cell :
  cell_ok device bound rows k cell → (bound ≤ bound')%Z → value_kept rows rows' k →
  cell_ok device bound' rows' k cell.
Proof.
  intros (Hdec & Hclock & Hdev & Hdirty & row & v & Hrow & Hv & Htext) Hb Hkept.
  split; [done|]. split; [lia|]. split; [done|]. split; [done|].
  destruct (Hkept _ _ Hrow Hv) as (row' & v' & Hrow' & Hv' & [->|His]); exists row';
    eexists; (split; [done|]); (split; [done|]); [done|by eapply text_of_is].
Qed.

Lemma tables_step device bound bound' db db' :
  tables_wf device bound db → (bound ≤ bound')%Z →
  (∀ id row, app_rows db' !! id = Some row → identifier_ok id ∧ row_ok row) →
  (∀ k cell, crdt_rows db' !! k = Some cell →
    cell_ok device bound' (app_rows db') k cell ∨
    (crdt_rows db !! k = Some cell ∧ value_kept (app_rows db) (app_rows db') k)) →
  tables_wf device bound' db'.
Proof.
  intros [_ Hcells] Hb Hrows Hcase. split; [done|]. intros k cell Hk.
  destruct (Hcase _ _ Hk) as [|[Hold Hkept]]; [done|]. eapply cell_ok_kept; eauto.
Qed.

Lemma value_kept_refl rows k : value_kept rows rows k.
Proof. intros row v Hrow Hv. exists row, v. auto. Qed.

(** A list of pairs made from the columns is found by name. *)
Lemma lookup_columns {A} (f : ColumnDef → A) name ty :
  table_wf t → column_type t name = Some ty →
  (list_to_map ((λ c, (cd_name c, f c)) <$> synchronized_columns t) : gmap string A) !! name
  = Some (f {| cd_name := name; cd_ty := ty |}).
Proof.
  intros Hwf Hty%(column_type_iff _ _ _ Hwf). apply elem_of_list_to_map_1.
  - rewrite <-list_fmap_compose. by apply synchronized_names_distinct.
  - apply list_elem_of_fmap. by exists {| cd_name := name; cd_ty := ty |}.
Qed.

Lemma default_row_ok : table_wf t → row_ok (default_row t).
Proof.
  intros Hwf name ty Hty. exists (sql_default ty). split; [|apply default_typed].
  by apply (lookup_columns (λ c, sql_default (cd_ty c))).
Qed.

(** ** Applying a response keeps the tables *)
Lemma with_row_wf device bound db id :
  table_wf t → identifier_ok id → tables_wf device bound db →
  tables_wf device bound (set_app_rows (with_row t id (app_rows db)) db).
Proof.
  intros Ht Hid Hwf. apply (tables_step _ bound _ db); [done|lia| |]; simpl.
  - intros i row. unfold with_row. destruct (app_rows db !! id) eqn:Hrow; [by apply (tb_rows _ _ _ Hwf)|].
    destruct (decide (id = i)) as [<-|Hne].
    + rewrite lookup_insert_eq. intros [= <-]. split; [done|by apply default_row_ok].
    + rewrite lookup_insert_ne by done. by apply (tb_rows _ _ _ Hwf).
  - intros k cell Hk. right. split; [done|]. intros row v Hrow Hv. exists row, v.
    split; [|auto]. unfold with_row. destruct (app_rows db !! id) eqn:Hid'; [done|].
    destruct (decide (id = k.1)) as [Heq|Hne]; [rewrite <-Heq in Hrow; congruence|].
    by rewrite lookup_insert_ne.
Qed.

(** Updating a column together with its log row. *)
Lemma update_column_wf device bound bound' db id column ty v guard cell crdt :
  tables_wf device bound db → (bound ≤ bound')%Z →
  column_type t column = Some ty → sql_typed ty v →
  (∀ row, app_rows db !! id = Some row → guard row = true) →
  (∀ rows, (∃ row, rows !! id = Some row ∧ row !! column = Some v) →
    cell_ok device bound' rows (id, column) cell) →
  crdt = <[(id, column) := cell]> (crdt_rows db) →
  is_Some (app_rows db !! id) →
  tables_wf device bound'
    (set_crdt_rows crdt (set_app_rows (update_rows id column v guard (app_rows db)) db)).
Proof.
  intros Hwf Hb Hty Hv Hg Hcell -> [row0 Hrow0]. apply (tables_step _ bound _ db); [done..| |]; simpl.
  - intros i row. unfold update_rows. destruct (decide (id = i)) as [<-|Hne].
    + rewrite lookup_alter_eq, Hrow0. simpl. rewrite (Hg _ Hrow0). intros [= <-].
      destruct (tb_rows _ _ _ Hwf _ _ Hrow0) as [Hid Hok]. split; [done|].
      intros name ty' Hty'. destruct (decide (column = name)) as [<-|Hne].
      * exists v. rewrite lookup_insert_eq. split; [done|]. congruence.
      * rewrite lookup_insert_ne by done. by apply Hok.
    + rewrite lookup_alter_ne by done. by apply (tb_rows _ _ _ Hwf).
  - intros k cell' Hk. destruct (decide (k = (id, column))) as [->|Hne].
    + rewrite lookup_insert_eq in Hk. injection Hk as <-. left. apply Hcell.
      exists (<[column := v]> row0). unfold update_rows.
      rewrite lookup_alter_eq, Hrow0. simpl. rewrite (Hg _ Hrow0), lookup_insert_eq. done.
    + rewrite lookup_insert_ne in Hk by done. right. split; [done|].
      intros row v' Hrow Hv'. unfold update_rows. destruct (decide (id = k.1)) as [Heq|Hne'].
      * exists (<[column := v]> row), v'. rewrite <-Heq in *.
        rewrite lookup_alter_eq, Hrow. simpl. rewrite Hg by done. split; [done|].
        rewrite lookup_insert_ne by (intros ->; apply Hne; by destruct k; simplify_eq/=). auto.
      * exists row, v'. by rewrite lookup_alter_ne; auto.
Qed.

Section apply.
Hypotheses (Hfloat : f64_text_exact) (Ht : table_wf t).
Variables (device : string) (bound : Z).

(** A cell a response may carry. *)
Definition incoming_ok (name : string) (c : CrdtColumn) : Prop :=
  cell_wf t name c ∧ value_typed (value c) ∧ (Z.of_N (lamport_clock (metadata c)) ≤ bound)%Z.

Lemma cell_step_wf key c db db' :
  incoming_ok key.2 c → is_Some (app_rows db !! key.1) →
  tables_wf device bound db → cell_step t key c db db' → tables_wf device bound db'.
Proof.
  intros ((Hacc & Hdev & Hmax) & Htyped & Hb) Hrow Hwf [c0 _ _|raw v Hraw Hv Hclock _]; [done|].
  destruct Hacc as (ty & Hty & Haccty) eqn:Hacc'. clear Hacc'. destruct key as [id column].
  cbn [fst snd] in *.
  apply (update_column_wf device bound bound db id column ty v any_row
    {| cr_value := raw; cr_lamport := Z.of_N (lamport_clock (metadata c));
       cr_device := device_id (metadata c); cr_dirty := false |}); [done|lia|done| |done| |done|done].
  - eapply crdt_to_sqlite_typed; [by exists ty|done..].
  - intros rows (row & Hr & Hc). split; [|split; [|split; [done|split; [done|]]]]; simpl.
    + exists c. split; [|by exists ty].
      apply (written_cell_decodes t Hfloat); [by exists ty|done..].
    + lia.
    + exists row, v. split_and!; [done..|]. eapply encode_text_of; [by exists ty|done..].
Qed.

Lemma cell_step_present key c db db' i :
  cell_step t key c db db' → is_Some (app_rows db !! i) → is_Some (app_rows db' !! i).
Proof. intros [c0 _ _|raw v _ _ _ _]; [done|]. by intros ?; apply update_rows_dom. Qed.

Lemma apply_row_wf row db db' :
  identifier_ok (todo_id row) →
  (∀ name c, columns row !! name = Some c → incoming_ok name c) →
  applying db → tables_wf device bound db → apply_row t row db = (Ok tt, db') →
  tables_wf device bound db'.
Proof.
  intros Hid Hcols Happ Hwf. unfold apply_row.
  intros ([] & db1 & Hins%(insert_row_applying t _ _ _ _ Happ) & Hloop)%st_bind_ok. subst db1.
  pose proof (st_for_inv _ (λ done db2, applying db2 ∧ tables_wf device bound db2 ∧
    is_Some (app_rows db2 !! todo_id row)) _ _ _ Hloop) as Hinv.
  apply Hinv; clear Hinv.
  - split; [done|]. split; [by apply with_row_wf|apply with_row_is_Some].
  - intros done [name c] db2 db3 Hin%elem_of_bt_iter (Happ2 & Hwf2 & Hrow2) Hstep.
    pose proof (apply_cell_step t _ _ _ _ _ Happ2 Hstep) as Hcell.
    split; [|split].
    + destruct (Hcols _ _ Hin) as ((Hacc & _) & Htyped & _).
      apply (applied_applying t [((todo_id row, name), c)] db2); [|done].
      by apply cell_step_applied.
    + apply (cell_step_wf (todo_id row, name) c db2); [by apply Hcols|done..].
    + by eapply cell_step_present.
Qed.

Lemma apply_rows_wf rows db db' :
  (∀ row, row ∈ rows → identifier_ok (todo_id row) ∧
    ∀ name c, columns row !! name = Some c → incoming_ok name c) →
  applying db → tables_wf device bound db → st_for (apply_row t) rows db = (Ok tt, db') →
  tables_wf device bound db'.
Proof.
  intros Hrows Happ Hwf Hloop.
  pose proof (st_for_inv _ (λ done db2, applying db2 ∧ tables_wf device bound db2) _ _ _ Hloop)
    as Hinv.
  apply Hinv; clear Hinv; [done|].
  intros done row db2 db3 Hin [Happ2 Hwf2] Hstep. destruct (Hrows _ Hin) as [Hid Hcols].
  split; [|by eapply apply_row_wf].
  apply apply_row_applied in Hstep as [Hstep _]; [|done| |done].
  - by eapply (applied_applying t).
  - intros name c Hc. by destruct (Hcols _ _ Hc) as ((? & _) & ? & _).
Qed.
End apply.

Lemma tables_wf_frame device bound db db' :
  app_rows db' = app_rows db → crdt_rows db' = crdt_rows db →
  tables_wf device bound db → tables_wf device bound db'.
Proof.
  intros Ha Hc [Hrows Hcells]. split; [by rewrite Ha|]. rewrite Ha, Hc. done.
Qed.
Lemma tables_wf_mono device bound bound' db :
  (bound ≤ bound')%Z → tables_wf device bound db → tables_wf device bound' db.
Proof.
  intros Hb [Hrows Hcells]. split; [done|]. intros k cell Hk.
  eapply cell_ok_kept; [by apply Hcells|done|apply value_kept_refl].
Qed.

Lemma end_apply_meta l p clock db db1 :
  server_response_wf p t → applied t l (begin_apply db) db1 → meta_wf db →
  meta_wf (end_apply t clock p db1).
Proof.
  intros Hresp Happ [Hcur Hscope]. destruct (ap_meta _ _ _ _ Happ) as (_ & Hcurs & Hsc & _).
  split.
  - intros row. unfold end_apply, store_cursor; simpl. rewrite lookup_insert_eq, Hcurs.
    intros [= <-]; simpl. pose proof (sv_payload _ _ Hresp) as Hp.
    split; [|split; [apply (wf_token _ _ Hp)|apply (wf_epoch _ _ Hp)]].
    pose proof (wf_cursor _ _ Hp) as Hpos. change (cursors (begin_apply db)) with (cursors db).
    destruct (cursors db !! crdt_table t) as [row|] eqn:Hr; [|exact Hpos].
    destruct (cursor_reset p); [exact Hpos|]. destruct (Hcur _ eq_refl). lia.
  - intros scope version active. unfold end_apply; simpl. rewrite Hsc. apply Hscope.
Qed.

(** Applying a response keeps the invariant. *)
Lemma apply_remote_wf p db db' :
  f64_text_exact → table_wf t → payload_typed p → client_wf db →
  apply_remote_payload t p db = (Ok tt, db') → client_wf db'.
Proof.
  intros Hfloat Ht Htyped [(st & Hst & Hflag & Hclock & Hdev & Hwf) Hmeta].
  intros (st' & db1 & [Hst' Hresp _ Hnext Happ _ Hloop ->])%(apply_remote_run t Hfloat); [|done].
  rewrite Hst in Hst'. injection Hst' as <-.
  split; [|by eapply end_apply_meta].
  set (next := (N.max _ _ + 1)%N) in *.
  assert (client_state db1 = Some {| cs_device_id := cs_device_id st; cs_lamport := cs_lamport st;
    cs_applying_remote := true |}) as Hst1.
  { destruct (ap_meta _ _ _ _ Happ) as (-> & _). unfold begin_apply; simpl. by rewrite Hst. }
  eexists. unfold end_apply, store_cursor; simpl. rewrite Hst1. split; [done|].
  split; [done|]. assert (next ≤ I64_MAX)%N by done. unfold I64_MAX, i64_max in *.
  split; [simpl; lia|]. split; [done|]. simpl.
  eapply (tables_wf_frame _ _ db1); [done|done|].
  apply (apply_rows_wf Hfloat Ht (cs_device_id st) (Z.of_N next) (changes p) (begin_apply db));
    [| | |exact Hloop].
  - intros row Hrow. pose proof (wf_rows _ _ (sv_payload _ _ Hresp)) as Hrows.
    rewrite list.Forall_forall in Hrows. destruct (Hrows _ Hrow) as (Hid & _ & Hcells).
    split; [done|]. intros name c Hc. split; [by apply Hcells|]. split.
    + apply (Htyped (todo_id row, name)), elem_of_payload_writes. eauto.
    + pose proof (max_observed_clock_cell p row name c Hrow Hc). lia.
  - eexists. unfold begin_apply; simpl. by rewrite Hst.
  - eapply tables_wf_mono; [|by eapply tables_wf_frame; [| |exact Hwf]]. lia.
Qed.
End inv.
