(* ===== verification/ClientLocal.v ===== *)
(** * Local writes (src/client.rs, the triggers of src/schema.rs)

    What an [INSERT] or [UPDATE] of the application does to the tables, the
    change-capture trigger included, and that it keeps the invariant. *)
From S2P Require Import Prelude RustStd Error Schema SchemaFacts Crdt Lww Payload Replica State.
From S2P Require Import Sqlite Client ClientFacts ClientInv.

Section local.
Context `{!StrDebug, !SqlText_externals}.
Variable t : TableDef.

(** ** The trigger *)
Definition captured_cell (st : ClientState) (ty : ColumnType) (v : SqlValue) : CellRow :=
  {| cr_value := capture_value ty v; cr_lamport := cs_lamport st + 1;
     cr_device := cs_device_id st; cr_dirty := true |}.
Definition captured (columns : list ColumnDef) (id : string) (row : gmap string SqlValue)
    (st : ClientState) (db : ClientDb) : ClientDb :=
  let st' := set_lamport (cs_lamport st + 1) false st in
  set_crdt_rows (foldl (capture_cell st' id row) (crdt_rows db) columns)
    (set_client_state (Some st') db).

Lemma fire_trigger_run columns id row db st :
  client_state db = Some st → cs_applying_remote st = false →
  fire_trigger columns id row db =
    if (i64_max <=? cs_lamport st)%Z then (Err (Sqlite "lamport clock overflow"), db)
    else (Ok tt, captured columns id row st db).
Proof.
  intros Hst Hflag. unfold fire_trigger, st_bind, st_get. rewrite Hst, Hflag.
  by destruct (i64_max <=? cs_lamport st)%Z.
Qed.

Lemma capture_other st id row columns rows k :
  k.1 ≠ id ∨ k.2 ∉ cd_name <$> columns →
  foldl (capture_cell st id row) rows columns !! k = rows !! k.
Proof.
  intros Hk. revert rows; induction columns as [|c columns IH]; intros rows; [done|].
  rewrite fmap_cons, elem_of_cons in Hk. cbn [foldl]. rewrite IH by tauto.
  unfold capture_cell. rewrite lookup_insert_ne; [done|]. intros <-. simpl in *. naive_solver.
Qed.

Lemma capture_column st id row columns rows c v :
  NoDup (cd_name <$> columns) → c ∈ columns → row !! cd_name c = Some v →
  foldl (capture_cell (set_lamport (cs_lamport st + 1) false st) id row) rows columns
    !! (id, cd_name c) = Some (captured_cell st (cd_ty c) v).
Proof.
  intros Hnd Hc Hv. revert rows; induction columns as [|c' columns IH]; intros rows;
    [by apply not_elem_of_nil in Hc|].
  rewrite fmap_cons in Hnd. apply list.NoDup_cons in Hnd as [Hnin Hnd]. cbn [foldl].
  apply elem_of_cons in Hc as [->|Hc]; [|by apply IH].
  rewrite capture_other by by right. unfold capture_cell. rewrite lookup_insert_eq, Hv. done.
Qed.

(** ** Insertion *)

(** The row an insertion stores. *)
Definition sqlite_value (v : CrdtValue) : option SqlValue :=
  match crdt_to_sqlite v with Ok sv => Some sv | Err _ => None end.
Definition inserted_row (values : gmap string CrdtValue) : gmap string SqlValue :=
  omap sqlite_value values ∪ default_row t.

Lemma bind_columns values bind :
  mapR bind_column (bt_iter values) = Ok bind →
  list_to_map (M:=gmap string SqlValue) bind = omap sqlite_value values.
Proof.
  intros Hbind%mapR_ok.
  assert (bind.*1 = (bt_iter values).*1) as Hkeys.
  { induction Hbind as [|[k v] [k' v'] l l' (sv & Hsv & [= -> ->])%bind_ok Hl IH]; [done|].
    rewrite !fmap_cons. by rewrite IH. }
  apply map_eq. intros k. apply option_eq. intros sv.
  rewrite <-elem_of_list_to_map by (rewrite Hkeys; apply NoDup_bt_keys).
  rewrite lookup_omap, bind_Some. unfold sqlite_value. split.
  - intros Hin. destruct (proj1 (list_elem_of_lookup _ _) Hin) as [i Hi].
    destruct (Forall2_lookup_r _ _ _ _ _ Hbind Hi) as ([k' v] & Hv & (sv' & Hsv & [= <- <-])%bind_ok).
    apply list_elem_of_lookup_2, elem_of_bt_iter in Hv. exists v. split; [done|].
    simpl in Hsv. by rewrite Hsv.
  - intros (v & Hv & Hsv). apply elem_of_bt_iter in Hv.
    destruct (proj1 (list_elem_of_lookup _ _) Hv) as [i Hi].
    destruct (Forall2_lookup_l _ _ _ _ _ Hbind Hi) as ([k' sv'] & Hb & (sv'' & Hs & [= <- <-])%bind_ok).
    apply list_elem_of_lookup_2 in Hb. simpl in Hs. rewrite Hs in Hsv. by injection Hsv as ->.
Qed.

Lemma inserted_row_lookup values name v sv :
  values !! name = Some v → crdt_to_sqlite v = Ok sv → inserted_row values !! name = Some sv.
Proof.
  intros Hv Hsv. unfold inserted_row. rewrite lookup_union, lookup_omap, Hv. simpl.
  unfold sqlite_value. rewrite Hsv. by destruct (default_row t !! name).
Qed.
Lemma inserted_row_default values name :
  values !! name = None → inserted_row values !! name = default_row t !! name.
Proof.
  intros Hv. unfold inserted_row. rewrite lookup_union, lookup_omap, Hv. simpl.
  by destruct (default_row t !! name).
Qed.

(** The values an insertion accepts. *)
Definition insertable (values : gmap string CrdtValue) : Prop :=
  ∀ name v, values !! name = Some v → name ≠ LIVENESS_COLUMN ∧ column_accepts t name v.

Lemma reject_liveness_ok name : reject_liveness_column name = Ok tt ↔ name ≠ LIVENESS_COLUMN.
Proof.
  unfold reject_liveness_column. destruct (String.eqb_spec name LIVENESS_COLUMN); split; done.
Qed.

Lemma insertable_ok values :
  for_each (insert_column t) (bt_iter values) = Ok tt ↔ insertable values.
Proof.
  rewrite for_each_ok, list.Forall_forall. unfold insertable, insert_column. split.
  - intros Hall name v Hv%elem_of_bt_iter. specialize (Hall _ Hv).
    rewrite bind_unit_ok, reject_liveness_ok, validate_column_ok in Hall. done.
  - intros Hall [name v] Hv%elem_of_bt_iter.
    rewrite bind_unit_ok, reject_liveness_ok, validate_column_ok. by apply Hall.
Qed.

Lemma inserted_row_ok values :
  table_wf t → insertable values → (∀ name v, values !! name = Some v → value_typed v) →
  row_ok t (inserted_row values).
Proof.
  intros Ht Hins Htyped name ty Hty. destruct (values !! name) as [v|] eqn:Hv.
  - destruct (Hins _ _ Hv) as [_ Hacc]. destruct (crdt_to_sqlite_total _ _ _ Hacc) as [sv Hsv].
    exists sv. split; [by eapply inserted_row_lookup|]. eapply crdt_to_sqlite_typed; eauto.
  - rewrite inserted_row_default by done. by apply default_row_ok.
Qed.

Lemma bind_columns_total values :
  insertable values → ∃ bind, mapR bind_column (bt_iter values) = Ok bind.
Proof.
  intros Hins. apply mapR_total. intros [name v] Hv%elem_of_bt_iter.
  destruct (crdt_to_sqlite_total t name v) as [sv Hsv]; [by apply Hins|].
  exists (name, sv). unfold bind_column. simpl. by rewrite Hsv.
Qed.

Lemma client_insert_run id values db db' st :
  client_state db = Some st → cs_applying_remote st = false →
  client_insert t id values db = (Ok tt, db') ↔
  identifier_ok id ∧ insertable values ∧ app_rows db !! id = None ∧
  (cs_lamport st < i64_max)%Z ∧
  db' = captured (synchronized_columns t) id (inserted_row values) st
          (set_app_rows (<[id := inserted_row values]> (app_rows db)) db).
Proof.
  intros Hst Hflag. unfold client_insert.
  rewrite st_bind_ok. setoid_rewrite st_lift_ok. setoid_rewrite st_bind_ok.
  setoid_rewrite st_lift_ok. setoid_rewrite transactional_ok.
  assert (insertable values → ∀ s',
    st_bind (st_lift (mapR bind_column (bt_iter values)))
      (λ bind, exec_insert t id (list_to_map bind)) db = (Ok tt, s') ↔
    app_rows db !! id = None ∧ (cs_lamport st < i64_max)%Z ∧
    s' = captured (synchronized_columns t) id (inserted_row values) st
          (set_app_rows (<[id := inserted_row values]> (app_rows db)) db)) as Hexec.
  { intros Hins s'. destruct (bind_columns_total _ Hins) as [bind Hbind].
    unfold st_bind at 1, st_lift at 1. rewrite Hbind. unfold exec_insert, st_bind at 1, st_get at 1.
    destruct (app_rows db !! id); [unfold st_lift; naive_solver|].
    unfold st_bind, st_modify. rewrite (bind_columns _ _ Hbind).
    rewrite (fire_trigger_run _ _ _ _ st) by done.
    destruct (Z.leb_spec i64_max (cs_lamport st)); split; [done|lia| |].
    - intros [= <-]. done.
    - by intros (_ & _ & ->). }
  rewrite <-insertable_ok in Hexec. rewrite <-insertable_ok.
  rewrite <-validate_identifier_ok. split.
  - intros ([] & ? & [Hid ->] & [] & ? & [Hins ->] & Hrun).
    apply Hexec in Hrun; [|done]. naive_solver.
  - intros (Hid & Hins & Hrest). exists tt, db. split; [done|]. exists tt, db. split; [done|].
    by apply Hexec.
Qed.

Lemma client_insert_clean id values : fails_clean (client_insert t id values).
Proof. unfold client_insert. auto with clean. Qed.

(** ** Updates *)

(** What an [UPDATE] of one column does to a row it selects: a value that
    is the old one is not captured. *)
Inductive local_update (st : ClientState) (id column : string) (ty : ColumnType) (v : SqlValue)
    (row : gmap string SqlValue) (db : ClientDb) : ClientDb → Prop :=
| update_same old :
    row !! column = Some old → sql_is old v = true →
    local_update st id column ty v row db
      (set_app_rows (<[id := <[column := v]> row]> (app_rows db)) db)
| update_captured old :
    row !! column = Some old → sql_is old v = false → (cs_lamport st < i64_max)%Z →
    local_update st id column ty v row db
      (captured [ColumnDef_new column ty] id (<[column := v]> row) st
        (set_app_rows (<[id := <[column := v]> row]> (app_rows db)) db)).

Section update.
Variables (db : ClientDb) (st : ClientState) (column : string) (ty : ColumnType).
Hypotheses (Hst : client_state db = Some st) (Hflag : cs_applying_remote st = false)
  (Hty : column_type t column = Some ty)
  (Hrows : ∀ id row, app_rows db !! id = Some row → row_ok t row).

Lemma exec_update_run id v guard db' n :
  exec_update t id column v guard db = (Ok n, db') ↔
  (n = 0%nat ∧ db' = db ∧ (∀ row, app_rows db !! id = Some row → guard row = false)) ∨
  (n = 1%nat ∧ ∃ row, app_rows db !! id = Some row ∧ guard row = true ∧
    local_update st id column ty v row db db').
Proof.
  unfold exec_update, st_bind at 1, st_get at 1.
  destruct (app_rows db !! id) as [row|] eqn:Hrow.
  2:{ split; [intros [= <- <-]; by left|by intros [(-> & -> & _)|(_ & row & [=] & _)]]. }
  destruct (guard row) eqn:Hg; cbn [negb].
  2:{ split; [intros [= <- <-]; left; naive_solver|].
      intros [(-> & -> & _)|(_ & row' & [= <-] & Hg' & _)]; [done|congruence]. }
  destruct (Hrows _ _ Hrow column ty Hty) as (old & Hold & _). rewrite Hold, Hty.
  unfold st_bind, st_modify, st_ret. destruct (sql_is old v) eqn:His.
  - split.
    + intros [= <- <-]. right. split; [done|]. exists row. split_and!; [done..|].
      by eapply update_same.
    + intros [(_ & _ & Hno)|(-> & row' & [= <-] & _ & Hup)].
      { specialize (Hno row eq_refl). congruence. }
      destruct Hup; simplify_eq; first [done|congruence].
  - rewrite (fire_trigger_run _ _ _ _ st) by done.
    destruct (Z.leb_spec i64_max (cs_lamport st)).
    + split; [done|]. intros [(_ & _ & Hno)|(-> & row' & [= <-] & _ & Hup)].
      { specialize (Hno row eq_refl). congruence. }
      destruct Hup; simplify_eq; first [lia|congruence].
    + split.
      * intros [= <- <-]. right. split; [done|]. exists row. split_and!; [done..|].
        by eapply update_captured.
      * intros [(_ & _ & Hno)|(-> & row' & [= <-] & _ & Hup)].
        { specialize (Hno row eq_refl). congruence. }
        destruct Hup; simplify_eq; first [done|congruence].
Qed.

Lemma update_one_row id v guard message db' :
  st_bind (exec_update t id column v guard) (λ n, st_lift (ensure_one_row n message)) db
    = (Ok tt, db') ↔
  ∃ row, app_rows db !! id = Some row ∧ guard row = true ∧
    local_update st id column ty v row db db'.
Proof.
  rewrite st_bind_ok. setoid_rewrite st_lift_ok. setoid_rewrite exec_update_run. split.
  - intros (n & ? & [(-> & _)|(-> & Hrow)] & [He ->]); [done|done].
  - intros Hrow. exists 1%nat, db'. split; [by right|done].
Qed.
End update.

(** The operations of the row API that update. *)
Lemma client_set_run id column v db db' st :
  client_state db = Some st → cs_applying_remote st = false →
  (∀ i row, app_rows db !! i = Some row → row_ok t row) →
  client_set t id column v db = (Ok tt, db') ↔
  identifier_ok id ∧ column ≠ LIVENESS_COLUMN ∧ column_accepts t column v ∧
  ∃ ty sv row, column_type t column = Some ty ∧ crdt_to_sqlite v = Ok sv ∧
    app_rows db !! id = Some row ∧ is_live row = true ∧
    local_update st id column ty sv row db db'.
Proof.
  intros Hst Hflag Hrows. unfold client_set.
  rewrite !st_check_ok, transactional_ok, st_pure_ok.
  rewrite validate_identifier_ok, reject_liveness_ok, validate_column_ok.
  split.
  - intros (Hid & Hlive & Hacc & sv & Hsv & Hrun). pose proof Hacc as (ty & Hty & _).
    pose proof (proj1 (update_one_row db st column ty Hst Hflag Hty Hrows id sv is_live _ db') Hrun)
      as (row & Hrow & Hg & Hup).
    split_and!; [done..|]. eauto 10.
  - intros (? & ? & Hacc & ty & sv & row & Hty & Hsv & Hrow & Hlive & Hup).
    split_and!; [done..|]. exists sv. split; [done|].
    apply (update_one_row db st column ty); eauto.
Qed.

Lemma client_set_clean id column v : fails_clean (client_set t id column v).
Proof. unfold client_set. auto with clean. Qed.

(** Deletion and restoration: updates of the liveness column. *)
Lemma client_delete_run id db db' st :
  client_state db = Some st → cs_applying_remote st = false →
  (∀ i row, app_rows db !! i = Some row → row_ok t row) →
  client_delete t id db = (Ok tt, db') ↔
  identifier_ok id ∧ ∃ row, app_rows db !! id = Some row ∧ is_live row = true ∧
    local_update st id LIVENESS_COLUMN TBoolean (SqlInteger 1) row db db'.
Proof.
  intros Hst Hflag Hrows. unfold client_delete.
  rewrite st_check_ok, transactional_ok, validate_identifier_ok.
  by rewrite (update_one_row db st LIVENESS_COLUMN TBoolean).
Qed.
Lemma client_restore_run id db db' st :
  client_state db = Some st → cs_applying_remote st = false →
  (∀ i row, app_rows db !! i = Some row → row_ok t row) →
  client_restore t id db = (Ok tt, db') ↔
  identifier_ok id ∧ ∃ row, app_rows db !! id = Some row ∧ is_tombstone row = true ∧
    local_update st id LIVENESS_COLUMN TBoolean (SqlInteger 0) row db db'.
Proof.
  intros Hst Hflag Hrows. unfold client_restore.
  rewrite st_check_ok, transactional_ok, validate_identifier_ok.
  by rewrite (update_one_row db st LIVENESS_COLUMN TBoolean).
Qed.
Lemma client_delete_clean id : fails_clean (client_delete t id).
Proof. unfold client_delete. auto with clean. Qed.
Lemma client_restore_clean id : fails_clean (client_restore t id).
Proof. unfold client_restore. auto with clean. Qed.

(** ** The invariant *)
Lemma captured_cell_ok st ty v name rows id row :
  column_type t name = Some ty → sql_typed ty v → capturable v →
  (0 ≤ cs_lamport st)%Z → identifier_ok (cs_device_id st) →
  rows !! id = Some row → row !! name = Some v →
  cell_ok t (cs_device_id st) (cs_lamport st + 1) rows (id, name) (captured_cell st ty v).
Proof.
  intros Hty Hv Hcap Hclock Hdev Hrow Hname.
  split; [|split; [simpl; lia|split; [done|split; [done|]]]].
  - destruct (capture_decodes t name ty v Hty Hv Hcap) as (c & Hc & Hacc).
    eexists. unfold decode_cell; simpl. unfold capture_value. rewrite Hc. simpl.
    unfold clock_from_i64, u64_try_from_i64. destruct (Z.leb_spec 0 (cs_lamport st + 1)); [|lia].
    simpl. split; [reflexivity|done].
  - exists row, v. split_and!; [done..|]. by eapply text_of_self.
Qed.

(** Writing an equal value keeps the tables. *)
Lemma same_value_wf device bound db id column ty row old v :
  tables_wf t device bound db → column_type t column = Some ty → sql_typed ty v →
  app_rows db !! id = Some row → row !! column = Some old → sql_is old v = true →
  tables_wf t device bound (set_app_rows (<[id := <[column := v]> row]> (app_rows db)) db).
Proof.
  intros Hwf Hty Hv Hrow Hold His. apply (tables_step t _ bound _ db); [done|lia| |]; simpl.
  - intros i row'. destruct (decide (id = i)) as [<-|Hne].
    + rewrite lookup_insert_eq. intros [= <-]. destruct (tb_rows _ _ _ _ Hwf _ _ Hrow) as [Hid Hok].
      split; [done|]. intros name ty' Hty'. destruct (decide (column = name)) as [<-|Hne].
      * exists v. rewrite lookup_insert_eq. split; [done|congruence].
      * rewrite lookup_insert_ne by done. by apply Hok.
    + rewrite lookup_insert_ne by done. by apply (tb_rows _ _ _ _ Hwf).
  - intros k cell Hk. right. split; [done|]. intros row' v' Hrow' Hv'.
    destruct (decide (id = k.1)) as [Heq|Hne]; [|exists row', v'; by rewrite lookup_insert_ne; auto].
    rewrite <-Heq in *. rewrite Hrow in Hrow'. injection Hrow' as <-.
    exists (<[column := v]> row). rewrite lookup_insert_eq.
    destruct (decide (column = k.2)) as [Heq'|Hne'].
    + exists v. rewrite <-Heq' in *. rewrite lookup_insert_eq. rewrite Hold in Hv'.
      injection Hv' as <-. auto.
    + exists v'. rewrite lookup_insert_ne by done. auto.
Qed.

Lemma local_update_wf db st id column ty v row db' :
  client_wf t db → client_state db = Some st →
  column_type t column = Some ty → sql_typed ty v → capturable v →
  app_rows db !! id = Some row → local_update st id column ty v row db db' →
  client_wf t db'.
Proof.
  intros [(st' & Hst' & Hflag & Hclock & Hdev & Hwf) Hmeta] Hst Hty Hv Hcap Hrow Hup.
  rewrite Hst in Hst'. injection Hst' as <-. destruct Hup as [old Hold His|old Hold His Hlt]; (split; [|exact Hmeta]).
  - exists st. split_and!; [done..|lia|lia|done|]. by eapply same_value_wf.
  - eexists. split; [done|]. split; [done|]. split; [simpl; lia|]. split; [done|].
    eapply (tables_wf_frame t _ _ (set_crdt_rows _
      (set_app_rows (update_rows id column v any_row (app_rows db)) db)));
      [|done|apply (update_column_wf t (cs_device_id st) (cs_lamport st) (cs_lamport st + 1) db
         id column ty v any_row (captured_cell st ty v)); [done|lia|done|done|done| | |by eexists]].
    + simpl. by rewrite (update_rows_some id column v any_row (app_rows db) row).
    + intros rows (row' & Hr & Hc). eapply captured_cell_ok; [done..|lia|done|done|done].
    + simpl. unfold capture_cell. simpl. rewrite lookup_insert_eq. done.
Qed.

Lemma insert_wf db st id values :
  table_wf t → client_wf t db → client_state db = Some st →
  identifier_ok id → app_rows db !! id = None → row_ok t (inserted_row values) →
  (∀ name v, inserted_row values !! name = Some v → capturable v) →
  (cs_lamport st < i64_max)%Z →
  client_wf t (captured (synchronized_columns t) id (inserted_row values) st
    (set_app_rows (<[id := inserted_row values]> (app_rows db)) db)).
Proof.
  intros Ht [(st' & Hst' & Hflag & Hclock & Hdev & Hwf) Hmeta] Hst Hid Hnone Hok Hcap Hlt.
  rewrite Hst in Hst'. injection Hst' as <-. split; [|exact Hmeta].
  eexists. split; [done|]. split; [done|]. split; [simpl; lia|]. split; [done|].
  apply (tables_step t _ (cs_lamport st) _ db); [done|simpl; lia| |]; simpl.
  - intros i row. destruct (decide (id = i)) as [<-|Hne].
    + rewrite lookup_insert_eq. intros [= <-]. done.
    + rewrite lookup_insert_ne by done. by apply (tb_rows _ _ _ _ Hwf).
  - intros [i name] cell Hk. simpl.
    destruct (decide (i = id ∧ name ∈ cd_name <$> synchronized_columns t)) as [[-> Hin]|Hout].
    + left. apply list_elem_of_fmap in Hin as ([n ty] & -> & Hc). simpl in *.
      pose proof (proj2 (column_type_iff _ n ty Ht) Hc) as Hty.
      destruct (Hok _ _ Hty) as (v & Hv & Htyped).
      pose proof (capture_column st id (inserted_row values) (synchronized_columns t) (crdt_rows db)
        _ v (synchronized_names_distinct _ Ht) Hc Hv) as Hcell. simpl in Hcell. simpl in Hk.
      rewrite Hcell in Hk. injection Hk as <-.
      eapply captured_cell_ok; [done|done|by eapply Hcap|lia|done|apply lookup_insert_eq|done].
    + right. simpl in Hk.
      rewrite capture_other in Hk.
      2:{ simpl. destruct (decide (i = id)); [right|by left]. intros Hin. by apply Hout. }
      split; [done|]. intros row v Hrow Hv. simpl in *. exists row, v.
      rewrite lookup_insert_ne; [auto|]. intros <-. congruence.
Qed.
End local.
