(* ===== verification/ClientAck.v ===== *)
(** * Acknowledging and evicting (src/client.rs)

    The loops of the acknowledgements and of the eviction of rows that left
    every scope, in closed form. *)
From S2P Require Import Prelude RustStd Error Schema SchemaFacts Crdt Lww Payload Replica State.
From S2P Require Import Sqlite Client ClientFacts ClientInv.

Section ack.
Context `{!StrDebug, !SqlText_externals}.
Variable t : TableDef.

(** ** Acknowledgement *)
Definition clean (cell : CellRow) : CellRow :=
  {| cr_value := cr_value cell; cr_lamport := cr_lamport cell;
     cr_device := cr_device cell; cr_dirty := false |}.

(** [l] holds a write of the version the log row has. *)
Definition sent_version (l : list cell_write) (k : string * string) (cell : CellRow) : bool :=
  existsb (λ w : cell_write, bool_decide (w.1 = k) &&
    ((cr_lamport cell =? Z.of_N (lamport_clock (metadata w.2)))%Z &&
     (cr_device cell =? device_id (metadata w.2))%string)) l.
Definition acked_rows (l : list cell_write) (rows : gmap (string * string) CellRow)
  : gmap (string * string) CellRow :=
  map_imap (λ k cell, Some (if sent_version l k cell then clean cell else cell)) rows.

Lemma acked_rows_lookup l rows k :
  acked_rows l rows !! k =
  (λ cell, if sent_version l k cell then clean cell else cell) <$> rows !! k.
Proof. unfold acked_rows. rewrite map_lookup_imap. by destruct (rows !! k). Qed.

Lemma acked_rows_nil rows : acked_rows [] rows = rows.
Proof.
  apply map_eq. intros k. rewrite acked_rows_lookup. simpl. by destruct (rows !! k).
Qed.

Lemma acked_rows_app l1 l2 rows :
  acked_rows (l1 ++ l2) rows = acked_rows l2 (acked_rows l1 rows).
Proof.
  apply map_eq. intros k. rewrite !acked_rows_lookup. destruct (rows !! k) as [cell|]; [|done].
  simpl. f_equal. unfold sent_version. rewrite existsb_app.
  change (existsb _ l1) with (sent_version l1 k cell).
  destruct (sent_version l1 k cell); simpl; by destruct (existsb _ l2).
Qed.

Lemma clear_dirty_acked key clock device db c :
  Z.of_N (lamport_clock (metadata c)) = clock → device_id (metadata c) = device →
  clear_dirty key clock device db = set_crdt_rows (acked_rows [(key, c)] (crdt_rows db)) db.
Proof.
  intros <- <-. unfold clear_dirty.
  assert (∀ k, acked_rows [(key, c)] (crdt_rows db) !! k =
    (λ cell, if bool_decide (key = k) && ((cr_lamport cell =? Z.of_N (lamport_clock (metadata c)))%Z &&
       (cr_device cell =? device_id (metadata c))%string) then clean cell else cell)
      <$> crdt_rows db !! k) as Hlookup.
  { intros k. rewrite acked_rows_lookup. unfold sent_version. simpl.
    destruct (crdt_rows db !! k); [|done]. simpl. by rewrite orb_false_r. }
  assert (∀ rows, rows = acked_rows [(key, c)] (crdt_rows db) →
    set_crdt_rows rows db = set_crdt_rows (acked_rows [(key, c)] (crdt_rows db)) db) as Hset
    by by intros ? ->.
  destruct (crdt_rows db !! key) as [cell|] eqn:Hcell; [destruct (_ && _) eqn:Hm|].
  - apply Hset, map_eq. intros k. rewrite Hlookup. destruct (decide (key = k)) as [<-|Hne].
    + rewrite lookup_insert_eq, Hcell. simpl. rewrite bool_decide_true, Hm by done. done.
    + rewrite lookup_insert_ne by done. rewrite bool_decide_false by done. simpl.
      by destruct (crdt_rows db !! k).
  - rewrite <-Hset with (rows := crdt_rows db); [by destruct db|].
    apply map_eq. intros k. rewrite Hlookup. destruct (decide (key = k)) as [<-|Hne].
    + rewrite Hcell. simpl. by rewrite Hm, andb_false_r.
    + rewrite bool_decide_false by done. simpl. by destruct (crdt_rows db !! k).
  - rewrite <-Hset with (rows := crdt_rows db); [by destruct db|].
    apply map_eq. intros k. rewrite Hlookup. destruct (decide (key = k)) as [<-|Hne].
    + by rewrite Hcell.
    + rewrite bool_decide_false by done. simpl. by destruct (crdt_rows db !! k).
Qed.

(** A loop over rows and columns is a loop over the writes. *)
Lemma loop_writes {E A} (f : string → string * CrdtColumn → stM A E unit) p s :
  st_for (λ row, st_for (f (todo_id row)) (bt_iter (columns row))) (changes p) s =
  st_for (λ w : cell_write, f w.1.1 (w.1.2, w.2)) (payload_writes p) s.
Proof.
  unfold payload_writes. rewrite st_for_bind. apply st_for_ext. intros row s1 _.
  rewrite st_for_fmap. apply st_for_ext. by intros [name c] s2 _.
Qed.

Definition storable_writes (l : list cell_write) : Prop :=
  ∀ w, w ∈ l → (lamport_clock (metadata w.2) ≤ MAX_STORABLE_LAMPORT)%N.

Lemma ack_loop l db :
  storable_writes l →
  st_for (λ w : cell_write, ack_cell w.1.1 (w.1.2, w.2)) l db =
    (Ok tt, set_crdt_rows (acked_rows l (crdt_rows db)) db).
Proof.
  revert db; induction l as [|w l IH]; intros db Hl; cbn [st_for].
  { unfold st_ret. rewrite acked_rows_nil. by destruct db. }
  unfold st_bind at 1, ack_cell, st_bind at 1, st_lift. cbn [snd].
  unfold clock_to_i64, i64_try_from_u64.
  destruct (N.leb_spec (lamport_clock (metadata w.2)) I64_MAX) as [_|Hgt].
  2:{ specialize (Hl w ltac:(by left)). unfold MAX_STORABLE_LAMPORT in Hl. lia. }
  simpl. unfold st_modify. rewrite IH by (intros w' Hw'; apply Hl; by right).
  rewrite (clear_dirty_acked _ _ _ _ w.2) by done. simpl.
  change (w :: l) with ([w] ++ l). rewrite acked_rows_app. by destruct w as [[id name] c].
Qed.

(** The writes of [l] whose version a response did not reject. *)
Definition unrejected (response : SyncPayload) (l : list cell_write) : list cell_write :=
  filter (λ w : cell_write,
    (w.1.1, w.1.2, lamport_clock (metadata w.2), device_id (metadata w.2))
      ∉ rejected_versions response) l.

Lemma ack_unless_loop response l db :
  storable_writes l →
  st_for (λ w : cell_write, ack_cell_unless (rejected_versions response) w.1.1 (w.1.2, w.2)) l db =
    (Ok tt, set_crdt_rows (acked_rows (unrejected response l) (crdt_rows db)) db).
Proof.
  intros Hl. rewrite <-ack_loop.
  2:{ intros w [_ Hw]%list_elem_of_filter. by apply Hl. }
  clear Hl. revert db; induction l as [|w l IH]; intros db; [done|]. cbn [st_for].
  unfold unrejected. rewrite list.filter_cons. unfold ack_cell_unless at 1. cbn [fst snd].
  case_bool_decide as Hin; case_decide as Hout; try done; cbn [st_for]; unfold st_bind at 1.
  - unfold st_ret. apply IH.
  - unfold st_bind. destruct (ack_cell _ _ _) as [[]]; [apply IH|done].
Qed.

Lemma valid_writes p device : client_request_wf p device t → storable_writes (payload_writes p).
Proof.
  intros Hwf [k c] (row & Hrow & _ & Hc)%elem_of_payload_writes.
  pose proof (wf_rows _ _ (cr_payload _ _ _ Hwf)) as Hrows. rewrite list.Forall_forall in Hrows.
  destruct (Hrows _ Hrow) as (_ & _ & Hcells). by destruct (Hcells _ _ Hc) as (_ & _ & ?).
Qed.

(** ** Eviction *)
Definition flag_down (db : ClientDb) : Prop :=
  ∀ st, client_state db = Some st → cs_applying_remote st = false.

(** A row that waits for eviction, is in no scope and has nothing to send. *)
Definition evictable (db : ClientDb) (row_id : string) : bool :=
  bool_decide (row_id ∈ table_rows t (scope_evictions db)) &&
  (bool_decide (row_id ∉ table_rows t (scope_members db)) && negb (row_is_dirty row_id db)).
(** A mark that has been dealt with: its row is gone, or in a scope again. *)
Definition settled (db : ClientDb) (row_id : string) : bool :=
  bool_decide (row_id ∈ table_rows t (scope_members db)) || negb (row_is_dirty row_id db).

(** The database once the rows of [done] have been gone through. *)
Definition evict_rows (done : list string) (db : ClientDb) : ClientDb :=
  set_scope_evictions
    (filter (λ e : scope_row, ¬ (e.1.2 = crdt_table t ∧ e.2 ∈ done ∧ settled db e.2 = true))
      (scope_evictions db))
  (set_crdt_rows
    (filter (λ e : (string * string) * CellRow, ¬ (e.1.1 ∈ done ∧ evictable db e.1.1 = true))
      (crdt_rows db))
  (set_app_rows
    (filter (λ e : string * gmap string SqlValue, ¬ (e.1 ∈ done ∧ evictable db e.1 = true))
      (app_rows db)) db)).

Lemma row_is_dirty_true row_id db :
  row_is_dirty row_id db = true ↔
  ∃ name cell, crdt_rows db !! (row_id, name) = Some cell ∧ cr_dirty cell = true.
Proof.
  unfold row_is_dirty. rewrite existsb_exists. split.
  - intros ([[i name] cell] & Hin%list_elem_of_In%elem_of_bt_iter & [Hi%String.eqb_eq Hd]%andb_true_iff).
    simpl in *. subst i. eauto.
  - intros (name & cell & Hc & Hd). exists ((row_id, name), cell).
    rewrite <-list_elem_of_In, elem_of_bt_iter. split; [done|]. simpl. by rewrite String.eqb_refl, Hd.
Qed.

Lemma row_is_dirty_ext row_id db db' :
  (∀ name, crdt_rows db' !! (row_id, name) = crdt_rows db !! (row_id, name)) →
  row_is_dirty row_id db' = row_is_dirty row_id db.
Proof.
  intros Heq. apply eq_true_iff_eq. rewrite !row_is_dirty_true. by setoid_rewrite Heq.
Qed.

Lemma elem_of_table_rows rel row_id :
  row_id ∈ table_rows t rel ↔ ∃ scope, (scope, crdt_table t, row_id) ∈ rel.
Proof.
  unfold table_rows. rewrite elem_of_list_to_set, list_elem_of_omap. split.
  - intros ([[scope crdt] row] & Hin%elem_of_elements & Hsome).
    destruct (String.eqb_spec crdt (crdt_table t)) as [->|]; simplify_eq. eauto.
  - intros [scope Hin]. exists (scope, crdt_table t, row_id). rewrite elem_of_elements.
    split; [done|]. by rewrite String.eqb_refl.
Qed.

(** Two databases with the same members, state, cursors and scopes. *)
Lemma evict_rows_intro done db db' :
  client_state db' = client_state db → cursors db' = cursors db →
  scope_state db' = scope_state db → scope_members db' = scope_members db →
  (∀ e, e ∈ scope_evictions db' ↔ e ∈ scope_evictions db ∧
     ¬ (e.1.2 = crdt_table t ∧ e.2 ∈ done ∧ settled db e.2 = true)) →
  (∀ k cell, crdt_rows db' !! k = Some cell ↔ crdt_rows db !! k = Some cell ∧
     ¬ (k.1 ∈ done ∧ evictable db k.1 = true)) →
  (∀ i row, app_rows db' !! i = Some row ↔ app_rows db !! i = Some row ∧
     ¬ (i ∈ done ∧ evictable db i = true)) →
  db' = evict_rows done db.
Proof.
  intros Hst Hcur Hscope Hmem Hev Hcells Hrows. destruct db' as [st' rows' cells' cur' sc' mem' ev'].
  unfold evict_rows, set_scope_evictions, set_crdt_rows, set_app_rows; simpl in *. subst. f_equal.
  - apply map_eq. intros i. apply option_eq. intros row.
    rewrite Hrows, map_lookup_filter_Some. done.
  - apply map_eq. intros k. apply option_eq. intros cell.
    rewrite Hcells, map_lookup_filter_Some. done.
  - apply set_eq. intros e. rewrite Hev, elem_of_filter. tauto.
Qed.

Lemma elem_of_evict_evictions done db e :
  e ∈ scope_evictions (evict_rows done db) ↔ e ∈ scope_evictions db ∧
    ¬ (e.1.2 = crdt_table t ∧ e.2 ∈ done ∧ settled db e.2 = true).
Proof. unfold evict_rows; simpl. rewrite elem_of_filter. tauto. Qed.
Lemma evict_cells_lookup done db k cell :
  crdt_rows (evict_rows done db) !! k = Some cell ↔ crdt_rows db !! k = Some cell ∧
    ¬ (k.1 ∈ done ∧ evictable db k.1 = true).
Proof. unfold evict_rows; simpl. by rewrite map_lookup_filter_Some. Qed.
Lemma evict_app_lookup done db i row :
  app_rows (evict_rows done db) !! i = Some row ↔ app_rows db !! i = Some row ∧
    ¬ (i ∈ done ∧ evictable db i = true).
Proof. unfold evict_rows; simpl. by rewrite map_lookup_filter_Some. Qed.

Lemma evict_rows_nil db : evict_rows [] db = db.
Proof.
  symmetry. apply evict_rows_intro; [done..| | |]; intros; setoid_rewrite elem_of_nil; tauto.
Qed.

Lemma evict_row_dirty done db row_id :
  row_id ∉ done → row_is_dirty row_id (evict_rows done db) = row_is_dirty row_id db.
Proof.
  intros Hnin. apply row_is_dirty_ext. intros name. apply option_eq. intros cell.
  rewrite evict_cells_lookup. simpl. tauto.
Qed.

Lemma cleanup_row_step done db row_id :
  flag_down db → row_id ∉ done → row_id ∈ table_rows t (scope_evictions db) →
  cleanup_row t row_id (evict_rows done db) = (Ok tt, evict_rows (done ++ [row_id]) db).
Proof.
  intros Hflag Hnin Hpend. unfold cleanup_row, st_bind at 1, st_get at 1.
  change (scope_members (evict_rows done db)) with (scope_members db).
  rewrite (evict_row_dirty _ _ _ Hnin). case_bool_decide as Hmem.
  - unfold st_modify. f_equal.
    assert (evictable db row_id = false) as Hno.
    { unfold evictable. rewrite (bool_decide_false (row_id ∉ _)) by tauto. by rewrite andb_false_r. }
    assert (settled db row_id = true) as Hyes by (unfold settled; by rewrite bool_decide_true).
    apply evict_rows_intro; [done..| | |].
    + intros e. simpl. rewrite !elem_of_filter, elem_of_app, list_elem_of_singleton.
      naive_solver congruence.
    + intros k cell. simpl. rewrite map_lookup_filter_Some, elem_of_app, list_elem_of_singleton.
      simpl. naive_solver congruence.
    + intros i row. simpl. rewrite map_lookup_filter_Some, elem_of_app, list_elem_of_singleton.
      simpl. naive_solver congruence.
  - destruct (row_is_dirty row_id db) eqn:Hdirty.
    + unfold st_ret. f_equal.
      assert (evictable db row_id = false) as Hno
        by (unfold evictable; by rewrite Hdirty, !andb_false_r).
      assert (settled db row_id = false) as Hno'
        by (unfold settled; by rewrite bool_decide_false, Hdirty).
      apply evict_rows_intro; [done..| | |].
      * intros e. rewrite elem_of_evict_evictions, elem_of_app, list_elem_of_singleton.
        naive_solver congruence.
      * intros k cell. rewrite evict_cells_lookup, elem_of_app, list_elem_of_singleton.
        naive_solver congruence.
      * intros i row. rewrite evict_app_lookup, elem_of_app, list_elem_of_singleton.
        naive_solver congruence.
    + assert (evictable db row_id = true) as Hyes
        by (unfold evictable; by rewrite !bool_decide_true, Hdirty).
      assert (settled db row_id = true) as Hyes'
        by (unfold settled; by rewrite Hdirty, orb_true_r).
      unfold set_applying_remote, update_client_state, st_bind, st_modify. f_equal.
      apply evict_rows_intro; [| done..| | |].
      * simpl. destruct (client_state db) as [[device clock flag]|] eqn:Hst; [|done]. simpl.
        by rewrite <-(Hflag _ Hst).
      * intros e. simpl. rewrite !elem_of_filter, elem_of_app, list_elem_of_singleton.
        naive_solver congruence.
      * intros k cell. simpl. rewrite !map_lookup_filter_Some, elem_of_app, list_elem_of_singleton.
        simpl. naive_solver congruence.
      * intros i row. simpl. rewrite lookup_delete_Some, map_lookup_filter_Some, elem_of_app,
          list_elem_of_singleton. simpl. naive_solver congruence.
Qed.

(** The eviction pass, in closed form. *)
Definition pending_evictions (db : ClientDb) : list string :=
  sorted_rows (table_rows t (scope_evictions db)).

Lemma elem_of_sorted_rows rows row_id : row_id ∈ sorted_rows rows ↔ row_id ∈ rows.
Proof. unfold sorted_rows. by rewrite merge_sort_Permutation, elem_of_elements. Qed.

Lemma cleanup_exact db :
  flag_down db →
  cleanup_pending_evictions t db = (Ok tt, evict_rows (pending_evictions db) db).
Proof.
  intros Hflag. unfold cleanup_pending_evictions, st_bind at 1, st_get at 1.
  change (sorted_rows _) with (pending_evictions db).
  assert (∀ rest done, done ++ rest = pending_evictions db →
    st_for (cleanup_row t) rest (evict_rows done db) = (Ok tt, evict_rows (done ++ rest) db)) as Hgen.
  { assert (NoDup (pending_evictions db)) as Hnd.
    { unfold pending_evictions, sorted_rows. rewrite merge_sort_Permutation. apply NoDup_elements. }
    induction rest as [|row_id rest IH]; intros done Heq; cbn [st_for].
    - by rewrite app_nil_r.
    - rewrite <-Heq in Hnd. apply list.NoDup_app in Hnd as (_ & Hdis & _).
      unfold st_bind. rewrite cleanup_row_step; [|done| |].
      + rewrite IH by by rewrite <-app_assoc. by rewrite <-app_assoc.
      + intros Hin. apply (Hdis _ Hin). by left.
      + apply elem_of_sorted_rows. change (row_id ∈ pending_evictions db). rewrite <-Heq. set_solver. }
  specialize (Hgen (pending_evictions db) [] eq_refl). by rewrite evict_rows_nil in Hgen.
Qed.

(** ** The acknowledgements in closed form *)
Definition after_ack (l : list cell_write) (db : ClientDb) : ClientDb :=
  let db1 := set_crdt_rows (acked_rows l (crdt_rows db)) db in
  evict_rows (pending_evictions db1) db1.

Lemma read_state db st : client_state db = Some st → read_client_state db = (Ok st, db).
Proof. intros Hst. unfold read_client_state, st_bind, st_get, st_lift. by rewrite Hst. Qed.

Lemma acknowledge_run p db db' st :
  client_state db = Some st → cs_applying_remote st = false →
  acknowledge_local_delta t p db = (Ok tt, db') ↔
  client_request_wf p (cs_device_id st) t ∧ db' = after_ack (payload_writes p) db.
Proof.
  intros Hst Hflag. unfold acknowledge_local_delta, st_bind at 1.
  rewrite (read_state _ _ Hst), st_check_ok, validate_client_request_ok.
  assert (client_request_wf p (cs_device_id st) t →
    st_bind (st_for ack_row (changes p)) (λ _, cleanup_pending_evictions t) db
    = (Ok tt, after_ack (payload_writes p) db)) as Hrun.
  { intros Hwf. unfold st_bind, ack_row. rewrite (loop_writes ack_cell).
    rewrite ack_loop by by eapply valid_writes.
    rewrite cleanup_exact; [done|]. intros st' Hst'. simpl in Hst'. congruence. }
  split; [|intros [Hwf ->]; auto]. intros [Hwf He]. split; [done|].
  rewrite Hrun in He by done. by injection He.
Qed.

Lemma acknowledge_response_run sent response db db' st :
  client_state db = Some st → cs_applying_remote st = false →
  acknowledge_local_delta_with_response t sent response db = (Ok tt, db') ↔
  server_response_wf response t ∧ client_request_wf sent (cs_device_id st) t ∧
  db' = after_ack (unrejected response (payload_writes sent)) db.
Proof.
  intros Hst Hflag. unfold acknowledge_local_delta_with_response.
  rewrite st_check_ok, validate_server_response_ok. unfold st_bind at 1.
  rewrite (read_state _ _ Hst), st_check_ok, validate_client_request_ok.
  assert (client_request_wf sent (cs_device_id st) t →
    st_bind (st_for (ack_row_unless (rejected_versions response)) (changes sent))
      (λ _, cleanup_pending_evictions t) db
    = (Ok tt, after_ack (unrejected response (payload_writes sent)) db)) as Hrun.
  { intros Hwf. unfold st_bind, ack_row_unless.
    rewrite (loop_writes (ack_cell_unless (rejected_versions response))).
    rewrite ack_unless_loop by by eapply valid_writes.
    rewrite cleanup_exact; [done|]. intros st' Hst'. simpl in Hst'. congruence. }
  split; [|intros (? & Hwf & ->); auto]. intros (? & Hwf & He). split_and!; [done..|].
  rewrite Hrun in He by done. by injection He.
Qed.

(** ** The invariant *)
Lemma acked_wf device bound l db :
  tables_wf t device bound db →
  tables_wf t device bound (set_crdt_rows (acked_rows l (crdt_rows db)) db).
Proof.
  intros [Hrows Hcells]. split; [done|]. simpl. intros k cell. rewrite acked_rows_lookup.
  destruct (crdt_rows db !! k) as [cell0|] eqn:Hk; [|done]. simpl. intros [= <-].
  specialize (Hcells _ _ Hk). destruct (sent_version l k cell0); [|done].
  destruct Hcells as (Hdec & Hclock & Hdev & _ & Hvalue). by split.
Qed.
Lemma evicted_wf device bound done db :
  tables_wf t device bound db → tables_wf t device bound (evict_rows done db).
Proof.
  intros [Hrows Hcells]. split.
  - intros i row [Hrow _]%evict_app_lookup. eauto.
  - intros k cell [Hk Hkeep]%evict_cells_lookup.
    destruct (Hcells _ _ Hk) as (Hdec & Hclock & Hdev & Hdirty & row & v & Hrow & Hv & Htext).
    do 4 (split; [done|]). exists row, v. split; [|done].
    by apply evict_app_lookup.
Qed.
Lemma after_ack_wf l db : client_wf t db → client_wf t (after_ack l db).
Proof.
  intros [(st & Hst & Hflag & Hclock & Hdev & Hwf) Hmeta]. split; [|exact Hmeta]. exists st.
  do 4 (split; [done|]). by apply evicted_wf, acked_wf.
Qed.
Lemma cleanup_wf db db' :
  client_wf t db → cleanup_pending_evictions t db = (Ok tt, db') → client_wf t db'.
Proof.
  intros [(st & Hst & Hflag & Hclock & Hdev & Hwf) Hmeta].
  rewrite cleanup_exact by (intros st' Hst'; congruence). intros [= <-].
  split; [|exact Hmeta]. exists st.
  do 4 (split; [done|]). by apply evicted_wf.
Qed.

(** Acknowledging changes no cell that stays. *)
Lemma acked_cells l db :
  client_cells t (set_crdt_rows (acked_rows l (crdt_rows db)) db) = client_cells t db.
Proof.
  unfold client_cells. apply map_eq. intros k. rewrite !map_lookup_imap. simpl.
  rewrite acked_rows_lookup. destruct (crdt_rows db !! k) as [cell|]; [|done]. simpl.
  by destruct (sent_version l k cell).
Qed.
Lemma after_ack_no_evictions l db :
  table_rows t (scope_evictions db) = ∅ →
  after_ack l db = set_crdt_rows (acked_rows l (crdt_rows db)) db.
Proof.
  intros Hev. unfold after_ack. set (db1 := set_crdt_rows _ _).
  assert (pending_evictions db1 = []) as ->; [|apply evict_rows_nil].
  destruct (pending_evictions db1) as [|row_id l'] eqn:Hp; [done|].
  assert (row_id ∈ pending_evictions db1) as Hin by (rewrite Hp; by left).
  apply elem_of_sorted_rows in Hin.
  change (scope_evictions db1) with (scope_evictions db) in Hin. rewrite Hev in Hin. set_solver.
Qed.
End ack.
