(* ===== verification/ClientDelta.v ===== *)
(** * The local delta (src/client.rs, [get_local_delta])

    Which cells an outbound payload carries, and when one can be built. *)
From S2P Require Import Prelude RustStd Error Schema SchemaFacts Crdt Lww Payload Replica State.
From S2P Require Import Feed Sqlite Client ClientFacts ClientInv.

Section delta.
Context `{!StrDebug, !SqlText_externals}.
Variable t : TableDef.

(** ** The dirty cells *)
Definition dirty_write (e : (string * string) * CellRow) : option cell_write :=
  if cr_dirty e.2
  then match decode_cell t e.1.2 e.2 with Ok c => Some (e.1, c) | Err _ => None end
  else None.
Definition dirty_writes (db : ClientDb) : list cell_write :=
  omap dirty_write (bt_iter (crdt_rows db)).
Definition decodable (l : list ((string * string) * CellRow)) : Prop :=
  ∀ e, e ∈ l → cr_dirty e.2 = true → ∃ c, decode_cell t e.1.2 e.2 = Ok c.

Lemma elem_of_dirty_writes db k c :
  (k, c) ∈ dirty_writes db ↔
  ∃ cell, crdt_rows db !! k = Some cell ∧ cr_dirty cell = true ∧ decode_cell t k.2 cell = Ok c.
Proof.
  unfold dirty_writes. rewrite list_elem_of_omap. unfold dirty_write. split.
  - intros ([k' cell] & Hin%elem_of_bt_iter & Hif). simpl in *.
    destruct (cr_dirty cell) eqn:Hd; [|done]. destruct (decode_cell t k'.2 cell) eqn:Hdec; [|done].
    injection Hif as -> ->. eauto.
  - intros (cell & Hc & Hd & Hdec). exists (k, cell). rewrite elem_of_bt_iter. split; [done|].
    simpl. by rewrite Hd, Hdec.
Qed.

Lemma collect_loop l rows :
  decodable l →
  foldM (collect_dirty t) rows l =
    Ok (foldl (λ rows e, row_insert rows e.1.1 e.1.2 e.2) rows (omap dirty_write l)).
Proof.
  revert rows; induction l as [|e l IH]; intros rows Hl; cbn [foldM]; [done|].
  rewrite omap_cons_eq. unfold collect_dirty at 1, dirty_write at 1.
  assert (decodable l) as Hl' by (intros e' He'; apply Hl; by right).
  destruct (cr_dirty e.2) eqn:Hd; [|by apply IH].
  destruct (Hl e ltac:(by left) Hd) as [c Hc]. rewrite Hc. simpl. by apply IH.
Qed.

Lemma collect_decodable l rows rows' :
  foldM (collect_dirty t) rows l = Ok rows' → decodable l.
Proof.
  revert rows; induction l as [|e l IH]; intros rows; cbn [foldM].
  { by intros _ e ?%not_elem_of_nil. }
  destruct (collect_dirty t rows e) as [rows1|] eqn:Hc; [|done]. intros Hrest.
  intros e' [->|He'']%elem_of_cons Hd; [|by eapply IH].
  unfold collect_dirty in Hc. rewrite Hd in Hc. apply bind_ok in Hc as (c & Hc & _). by exists c.
Qed.

Lemma NoDup_dirty_writes db : NoDup (dirty_writes db).*1.
Proof.
  unfold dirty_writes. pose proof (NoDup_bt_keys (crdt_rows db)) as Hnd. unfold bt_keys in Hnd.
  induction (bt_iter (crdt_rows db)) as [|[k cell] l IH]; [constructor|].
  rewrite fmap_cons in Hnd. apply list.NoDup_cons in Hnd as [Hk Hnd].
  rewrite omap_cons_eq. destruct (dirty_write (k, cell)) as [w|] eqn:Hw; [|by apply IH].
  rewrite fmap_cons. constructor; [|by apply IH].
  unfold dirty_write in Hw; simpl in Hw. destruct (cr_dirty cell); [|done].
  destruct (decode_cell t k.2 cell); [|done]. injection Hw as <-. simpl.
  intros ([k' c'] & -> & ([k'' cell'] & Hin & Hw)%list_elem_of_omap)%list_elem_of_fmap.
  apply Hk. rewrite list_elem_of_fmap. exists (k'', cell'). split; [|done].
  unfold dirty_write in Hw; simpl in Hw. destruct (cr_dirty cell'); [|done].
  destruct (decode_cell t k''.2 cell'); [|done]. by injection Hw as -> ->.
Qed.

(** ** The payload *)
Definition delta_payload (db : ClientDb) (st : ClientState) : SyncPayload :=
  let cur := read_cursor t db in
  {| protocol_version := PROTOCOL_VERSION;
     schema_fingerprint := table_fingerprint t;
     source_device_id := cs_device_id st;
     source_lamport := Z.to_N (cs_lamport st);
     changes := row_changes (group_rows (dirty_writes db));
     cursor := cu_cursor cur;
     has_more := false;
     cursor_reset := false;
     cursor_token := cu_token cur;
     server_epoch := cu_epoch cur;
     rejections := [] |}.

Lemma delta_writes db st w : w ∈ payload_writes (delta_payload db st) ↔ w ∈ dirty_writes db.
Proof. destruct w as [k c]. by apply grouped_writes, NoDup_dirty_writes. Qed.

Lemma get_local_delta_run db st p :
  client_state db = Some st →
  get_local_delta t db = Ok p ↔
  decodable (bt_iter (crdt_rows db)) ∧ (0 ≤ cs_lamport st)%Z ∧ p = delta_payload db st ∧
  client_request_wf p (cs_device_id st) t.
Proof.
  intros Hst. unfold get_local_delta. rewrite Hst. cbn [ok_or mbind result_bind].
  rewrite bind_ok. setoid_rewrite bind_ok. unfold clock_from_i64, u64_try_from_i64.
  setoid_rewrite bind_unit_ok. setoid_rewrite validate_client_request_ok. split.
  - intros (rows & Hrows & clock & Hclock & Hval & Heq).
    pose proof (collect_decodable _ _ _ Hrows) as Hdec.
    rewrite collect_loop in Hrows by done. injection Hrows as <-.
    destruct (Z.leb_spec 0 (cs_lamport st)); [|done]. injection Hclock as <-.
    injection Heq as <-. done.
  - intros (Hdec & Hpos & -> & Hval). eexists. split; [by apply collect_loop|].
    exists (Z.to_N (cs_lamport st)). destruct (Z.leb_spec 0 (cs_lamport st)); [|lia]. done.
Qed.

(** On a well-formed database only the size can be in the way. *)
Lemma delta_valid db st :
  client_wf t db → client_state db = Some st → cs_device_id st ≠ SERVER_DEVICE_ID →
  client_request_wf (delta_payload db st) (cs_device_id st) t ↔
  (N.of_nat (length (changes (delta_payload db st))) ≤ MAX_PAYLOAD_ROWS)%N ∧
  (N.of_nat (length (dirty_writes db)) ≤ MAX_PAYLOAD_CELLS)%N.
Proof.
  intros [(st' & Hst' & Hflag & Hclock & Hdev & Hwf) [Hcur _]] Hst Hserver.
  rewrite Hst in Hst'. injection Hst' as <-.
  assert (total_cells (changes (delta_payload db st)) = length (dirty_writes db)) as Htotal
    by by apply (grouped_total _ (dirty_writes db)), NoDup_dirty_writes.
  assert (∀ row name c, row ∈ changes (delta_payload db st) → columns row !! name = Some c →
    ∃ cell, crdt_rows db !! (todo_id row, name) = Some cell ∧ cr_dirty cell = true ∧
      decode_cell t name cell = Ok c) as Hcells.
  { intros row name c Hrow Hc. apply (elem_of_dirty_writes db (todo_id row, name)).
    apply (delta_writes db st), elem_of_payload_writes. eauto. }
  assert (∀ row name c, row ∈ changes (delta_payload db st) → columns row !! name = Some c →
    identifier_ok (todo_id row) ∧ cell_wf t name c ∧ device_id (metadata c) = cs_device_id st ∧
    (lamport_clock (metadata c) ≤ Z.to_N (cs_lamport st))%N) as Hok.
  { intros row name c Hrow Hc. destruct (Hcells _ _ _ Hrow Hc) as (cell & Hcell & Hd & Hdec).
    destruct (tb_cells _ _ _ _ Hwf _ _ Hcell) as ((c' & Hdec' & Hacc) & Hb & Hid & Hown & arow & v & Harow & _).
    simpl in *. rewrite Hdec in Hdec'. injection Hdec' as <-.
    unfold decode_cell in Hdec. apply bind_ok in Hdec as (v' & _ & (clock & Hck & [= <-])%bind_ok).
    simpl in *. unfold clock_from_i64, u64_try_from_i64 in Hck.
    destruct (Z.leb_spec 0 (cr_lamport cell)); [|done]. injection Hck as <-.
    split; [by apply (tb_rows _ _ _ _ Hwf _ _ Harow)|]. unfold cell_wf, metadata_wf; simpl.
    unfold MAX_STORABLE_LAMPORT, I64_MAX, i64_max in *. split_and!; [done|done|lia|by apply Hown|lia]. }
  assert (∀ row, row ∈ changes (delta_payload db st) → row_wf t row) as Hrows.
  { intros row Hrow. pose proof (grouped_rows_nonempty (dirty_writes db)) as Hne.
    rewrite list.Forall_forall in Hne. specialize (Hne _ Hrow). split; [|split; [done|]].
    - apply map_choose in Hne as (name & c & Hc). by destruct (Hok _ _ _ Hrow Hc).
    - intros name c Hc. by destruct (Hok _ _ _ Hrow Hc) as (_ & ? & _). }
  assert ((0 ≤ cu_cursor (read_cursor t db))%Z ∧
    (∀ v, cu_token (read_cursor t db) = Some v → identifier_ok v) ∧
    (∀ v, cu_epoch (read_cursor t db) = Some v → identifier_ok v)) as (Hc1 & Hc2 & Hc3).
  { unfold read_cursor. destruct (cursors db !! crdt_table t) as [row|]; [by apply Hcur|].
    simpl. split; [lia|]. by split. }
  split.
  - intros Hreq. split; [apply (wf_row_count _ _ (cr_payload _ _ _ Hreq))|].
    rewrite <-Htotal. apply (wf_cell_count _ _ (cr_payload _ _ _ Hreq)).
  - intros [Hnrows Hncells]. split; [|done|done|done|done|done|].
    + split; try done.
      * simpl. unfold MAX_STORABLE_LAMPORT, I64_MAX, i64_max in *. lia.
      * simpl. rewrite row_changes_ids. apply NoDup_bt_keys.
      * by apply list.Forall_forall.
      * by rewrite Htotal.
    + intros row name c Hrow Hc. by destruct (Hok _ _ _ Hrow Hc) as (_ & _ & ? & ?).
Qed.

Lemma wf_decodable db : client_wf t db → decodable (bt_iter (crdt_rows db)).
Proof.
  intros [(st & _ & _ & _ & _ & Hwf) _] [k cell] Hin%elem_of_bt_iter _.
  destruct (tb_cells _ _ _ _ Hwf _ _ Hin) as ((c & Hc & _) & _). by exists c.
Qed.
End delta.
