(* ===== verification/ClientScopes.v ===== *)
(** * Scopes of a partial replica, client side (src/client.rs)

    What a request, the completion of a request and the removal of a scope
    do to the scope relations and to the rows. *)
From S2P Require Import Prelude RustStd Error Schema SchemaFacts Crdt Lww Payload Replica Membership.
From S2P Require Import State Sqlite Client ClientFacts ClientInv ClientAck ClientDelta.

Section scopes.
Context `{!StrDebug, !SqlText_externals}.
Variable t : TableDef.

(** ** Revisions *)
Definition scope_version (db : ClientDb) (scope : string) : Z :=
  match scope_state db !! (scope, crdt_table t) with Some (version, _) => version | None => 0%Z end.
Definition bumped (scope : string) (active : bool) (db : ClientDb) : ClientDb :=
  set_scope_state (<[(scope, crdt_table t) := ((scope_version db scope + 1)%Z, active)]>
    (scope_state db)) db.

Lemma bump_scope_run scope active db version db' :
  bump_scope t scope active db = (Ok version, db') ↔
  (i64_min ≤ scope_version db scope + 1 ≤ i64_max)%Z ∧
  version = (scope_version db scope + 1)%Z ∧ db' = bumped scope active db.
Proof.
  unfold bump_scope, st_bind at 1, st_get at 1. fold (scope_version db scope).
  rewrite st_pure_ok. setoid_rewrite ok_or_ok. unfold i64_checked_add.
  setoid_rewrite st_bind_ok. setoid_rewrite st_modify_ok. setoid_rewrite st_ret_ok.
  destruct (Z.leb_spec i64_min (scope_version db scope + 1)); simpl; [|split; naive_solver lia].
  destruct (Z.leb_spec (scope_version db scope + 1) i64_max); simpl; [|split; naive_solver lia].
  split.
  - by intros (? & [= <-] & [] & ? & -> & -> & ->).
  - intros (_ & -> & ->). eexists. split; [done|]. by exists tt, (bumped scope active db).
Qed.

Lemma bumped_version scope active db scope' :
  scope_version (bumped scope active db) scope' =
  if decide (scope' = scope) then (scope_version db scope + 1)%Z else scope_version db scope'.
Proof.
  unfold bumped, scope_version at 1; simpl. case_decide as Heq.
  - subst scope'. by rewrite lookup_insert_eq.
  - rewrite lookup_insert_ne by (intros [=]; done). done.
Qed.

Lemma scope_version_nonneg db scope : meta_wf t db → (0 ≤ scope_version db scope)%Z.
Proof.
  intros [_ Hscopes]. unfold scope_version.
  destruct (scope_state db !! _) as [[version active]|] eqn:Hs; [|done].
  specialize (Hscopes _ _ _ Hs). lia.
Qed.

Lemma bumped_wf scope active db :
  client_wf t db → (scope_version db scope + 1 ≤ i64_max)%Z → client_wf t (bumped scope active db).
Proof.
  intros [Hst Hmeta] Hmax. pose proof (scope_version_nonneg _ scope Hmeta) as Hpos.
  destruct Hmeta as [Hcur Hscopes].
  split; [|split; [exact Hcur|]].
  - destruct Hst as (st & Hst & Hflag & Hclock & Hdev & Hwf). exists st.
    do 4 (split; [done|]). by eapply tables_wf_frame; [| |exact Hwf].
  - intros scope' version active'. simpl.
    destruct (decide (scope' = scope)) as [->|Hne].
    + rewrite lookup_insert_eq. intros [= <- <-]. lia.
    + rewrite lookup_insert_ne by (intros [=]; done). apply Hscopes.
Qed.

(** ** Requests *)
Definition scope_request (scope : string) (i : ReplicaInterest) (db : ClientDb) (st : ClientState)
  : PartialReplicaRequest :=
  {| prq_scope_id := scope;
     prq_scope_version := Z.to_N (scope_version db scope + 1);
     interest := i;
     known_member_ids := sorted_rows (scope_rows t (scope_members db) scope);
     prq_sync := delta_payload t db st |}.

Lemma partial_request_run scope i db r db' st :
  client_state db = Some st →
  get_partial_replica_request t scope i db = (Ok r, db') →
  (0 ≤ scope_version db scope + 1 ≤ i64_max)%Z ∧ r = scope_request scope i db st ∧
  db' = bumped scope true db ∧ request_validate r t (cs_device_id st) = Ok tt.
Proof.
  intros Hst. unfold get_partial_replica_request. rewrite !st_check_ok. intros (_ & _ & Hrun).
  apply st_bind_ok in Hrun as (version & ? & (Hb & -> & ->)%bump_scope_run & Hrun).
  apply st_bind_ok in Hrun as (? & ? & [-> ->]%st_get_ok & Hrun).
  rewrite st_pure_ok in Hrun. destruct Hrun as (clock & Hclock & Hrun).
  rewrite st_pure_ok in Hrun. destruct Hrun as (delta & Hdelta & Hrun).
  rewrite st_check_ok in Hrun. destruct Hrun as [Hval [-> ->]%st_ret_ok].
  apply (get_local_delta_run t (bumped scope true db) st) in Hdelta as (_ & _ & -> & _); [|done].
  unfold clock_from_i64, u64_try_from_i64 in Hclock.
  destruct (Z.leb_spec 0 (scope_version db scope + 1)); [|done]. injection Hclock as <-.
  split; [lia|]. done.
Qed.

(** ** Membership *)
Definition marks (scope : string) (ids : list string) : gset scope_row :=
  list_to_set ((λ id, (scope, crdt_table t, id)) <$> ids).

Lemma elem_of_marks scope ids e :
  e ∈ marks scope ids ↔ e.1.1 = scope ∧ e.1.2 = crdt_table t ∧ e.2 ∈ ids.
Proof.
  unfold marks. rewrite elem_of_list_to_set, list_elem_of_fmap. split.
  - by intros (id & -> & Hid).
  - intros (Hs & Hc & Hid). exists e.2. split; [|done]. destruct e as [[? ?] ?]; simpl in *; congruence.
Qed.

Lemma marks_cons scope id ids : marks scope (id :: ids) = {[ (scope, crdt_table t, id) ]} ∪ marks scope ids.
Proof. done. Qed.

Lemma add_members_run scope ids db :
  st_for (add_member t scope) ids db =
    (Ok tt, set_scope_evictions (scope_evictions db ∖ marks scope ids)
              (set_scope_members (marks scope ids ∪ scope_members db) db)).
Proof.
  revert db; induction ids as [|id ids IH]; intros db; cbn [st_for].
  - unfold st_ret, marks; simpl. rewrite (left_id_L ∅ (∪)), difference_empty_L. by destruct db.
  - unfold st_bind, add_member at 1, st_modify. rewrite IH. rewrite marks_cons. f_equal.
    unfold set_scope_evictions, set_scope_members; simpl. f_equal; set_solver.
Qed.

Lemma add_evictions_run scope ids db :
  st_for (add_eviction t scope) ids db =
    (Ok tt, set_scope_evictions (marks scope ids ∪ scope_evictions db) db).
Proof.
  revert db; induction ids as [|id ids IH]; intros db; cbn [st_for].
  - unfold st_ret, marks; simpl. rewrite (left_id_L ∅ (∪)). by destruct db.
  - unfold st_bind, add_eviction at 1, st_modify. rewrite IH. rewrite marks_cons. f_equal.
    unfold set_scope_evictions; simpl. f_equal. set_solver.
Qed.

(** The scope relations once a response is in: its members replace those of
    the scope, its evictions are marked. *)
Definition scope_replaced (scope : string) (members evicted : list string) (db : ClientDb)
  : ClientDb :=
  set_scope_evictions (marks scope evicted ∪ (scope_evictions db ∖ marks scope members))
    (set_scope_members
      (marks scope members ∪
        filter (λ e : scope_row, ¬ (e.1.1 = scope ∧ e.1.2 = crdt_table t)) (scope_members db)) db).

Record partial_run (sent : PartialReplicaRequest) (response : PartialReplicaResponse)
    (db : ClientDb) (st : ClientState) (db' : ClientDb) : Prop := {
  pr_request : request_validate sent t (cs_device_id st) = Ok tt;
  pr_response : response_validate response t = Ok tt;
  pr_scope : prq_scope_id sent = prs_scope_id response ∧
    prq_scope_version sent = prs_scope_version response;
  pr_current : scope_state db !! (prq_scope_id sent, crdt_table t)
    = Some (Z.of_N (prq_scope_version sent), true);
  pr_evicted : evicted_row_ids response =
    filter (λ id, binary_search (member_ids response) id = false) (known_member_ids sent);
  pr_sent : client_request_wf (prq_sync sent) (cs_device_id st) t;
  pr_applied : ∃ db2,
    apply_remote_payload t (prs_sync response)
      (after_ack t (unrejected (prs_sync response) (payload_writes (prq_sync sent))) db)
      = (Ok tt, db2) ∧
    cleanup_pending_evictions t
      (scope_replaced (prq_scope_id sent) (member_ids response) (evicted_row_ids response) db2)
      = (Ok tt, db');
}.

Lemma apply_partial_run sent response db db' st :
  client_state db = Some st → cs_applying_remote st = false →
  apply_partial_replica_response t sent response db = (Ok tt, db') →
  partial_run sent response db st db'.
Proof.
  intros Hst Hflag. unfold apply_partial_replica_response, st_bind at 1.
  rewrite (read_state _ _ Hst), !st_check_ok. intros (Hreq & Hresp & Hmatch & Hrun).
  apply st_bind_ok in Hrun as (? & ? & [-> ->]%st_get_ok & Hrun).
  rewrite st_pure_ok in Hrun. destruct Hrun as (version & Hversion & Hrun).
  rewrite !st_check_ok in Hrun. destruct Hrun as (Hstale & Hevict & Hrun).
  destruct (clock_i64_roundtrip _ _ Hversion) as [_ ->].
  apply st_bind_ok in Hrun as ([] & db1 & Hack & Hrun).
  apply (acknowledge_response_run t _ _ _ _ st Hst Hflag) in Hack as (_ & Hsent & ->).
  apply st_bind_ok in Hrun as ([] & db2 & Happ & Hrun).
  apply st_bind_ok in Hrun as ([] & ? & ->%st_modify_ok & Hrun).
  unfold st_bind in Hrun. rewrite add_members_run, add_evictions_run in Hrun.
  split; [done|done| | | |done|].
  - destruct (String.eqb_spec (prq_scope_id sent) (prs_scope_id response)); [|done].
    destruct (N.eqb_spec (prq_scope_version sent) (prs_scope_version response)); done.
  - destruct (bool_decide _) eqn:Hb; [|done]. by apply bool_decide_eq_true in Hb.
  - destruct (bool_decide (_ = evicted_row_ids response)) eqn:Hb; [|done].
    by apply bool_decide_eq_true in Hb.
  - exists db2. split; [done|exact Hrun].
Qed.

Lemma remove_scope_run scope db db' :
  remove_partial_replica_scope_body t scope db = (Ok tt, db') →
  (scope_version db scope + 1 ≤ i64_max)%Z ∧
  cleanup_pending_evictions t
    (set_scope_evictions
      (marks scope (sorted_rows (scope_rows t (scope_members db) scope)) ∪ scope_evictions db)
      (clear_scope_members t scope (bumped scope false db))) = (Ok tt, db').
Proof.
  unfold remove_partial_replica_scope_body. rewrite st_check_ok. intros (_ & Hrun).
  apply st_bind_ok in Hrun as (version & ? & (Hb & -> & ->)%bump_scope_run & Hrun).
  apply st_bind_ok in Hrun as (? & ? & [-> ->]%st_get_ok & Hrun).
  apply st_bind_ok in Hrun as ([] & ? & ->%st_modify_ok & Hrun).
  unfold st_bind in Hrun. rewrite add_evictions_run in Hrun. split; [lia|exact Hrun].
Qed.

Lemma wf_frame db db' :
  client_state db' = client_state db → app_rows db' = app_rows db →
  crdt_rows db' = crdt_rows db → cursors db' = cursors db → scope_state db' = scope_state db →
  client_wf t db → client_wf t db'.
Proof.
  intros Hs Ha Hc Hcur Hsc [(st & Hst & Hflag & Hclock & Hdev & Hwf) [Hm1 Hm2]].
  split; [|by split; [rewrite Hcur|rewrite Hsc]].
  exists st. rewrite Hs. do 4 (split; [done|]). by eapply tables_wf_frame.
Qed.
End scopes.
