(* ===== verification/ClientOps.v ===== *)
(** * The client as a transition system (src/client.rs)

    The operations of [SqliteClient] on one database, one transaction each,
    as a step relation; every step keeps the invariant and moves the clock
    and the scope revisions forward only. *)
From S2P Require Import Prelude RustStd Error Schema SchemaFacts Crdt Lww Payload Replica State.
From S2P Require Import Sqlite Client ClientFacts ClientInv ClientLocal ClientAck ClientDelta.
From S2P Require Import ClientScopes.

Section ops.
Context `{!StrDebug, !SqlText_externals}.
Variable t : TableDef.

Inductive client_op :=
| OpInsert (id : string) (values : gmap string CrdtValue)
| OpSet (id column : string) (v : CrdtValue)
| OpDelete (id : string)
| OpRestore (id : string)
| OpLocalDelta
| OpAcknowledge (p : SyncPayload)
| OpApplyRemote (p : SyncPayload)
| OpCompleteSync (sent response : SyncPayload)
| OpResetCursor
| OpPartialRequest (scope : string) (i : ReplicaInterest)
| OpCompletePartial (sent : PartialReplicaRequest) (response : PartialReplicaResponse)
| OpRemoveScope (scope : string).

Definition discard {A} (m : ClientM A) : ClientM unit := st_bind m (λ _, st_ret tt).
Definition run_op (op : client_op) : ClientM unit :=
  match op with
  | OpInsert id values => client_insert t id values
  | OpSet id column v => client_set t id column v
  | OpDelete id => client_delete t id
  | OpRestore id => client_restore t id
  | OpLocalDelta => discard (local_delta t)
  | OpAcknowledge p => acknowledge t p
  | OpApplyRemote p => apply_remote t p
  | OpCompleteSync sent response => complete_sync t sent response
  | OpResetCursor => client_reset_cursor t
  | OpPartialRequest scope i => discard (partial_replica_request t scope i)
  | OpCompletePartial sent response => complete_partial_replica_sync t sent response
  | OpRemoveScope scope => remove_partial_replica_scope t scope
  end.

(** The arguments are Rust values, and the reals SQLite is asked to print
    read back as finite ones. *)
Definition op_typed (op : client_op) : Prop :=
  match op with
  | OpInsert _ values =>
    (∀ name v, values !! name = Some v → value_typed v) ∧
    (∀ name sv, inserted_row t values !! name = Some sv → capturable sv)
  | OpSet _ _ v => value_typed v ∧ ∀ sv, crdt_to_sqlite v = Ok sv → capturable sv
  | OpApplyRemote p => payload_typed p
  | OpCompleteSync _ response => payload_typed response
  | OpCompletePartial _ response => payload_typed (prs_sync response)
  | _ => True
  end.

(** ** The other tables of the device

    A contract of several tables keeps one [client_state] for all of them,
    and one relation of cursors, one of scopes and one of evictions, whose
    rows name the table they belong to. What the rest of the device can do to
    this table: move the clock it shares. *)
Record same_table (db db' : ClientDb) : Prop := {
  sm_cursor : cursors db' !! crdt_table t = cursors db !! crdt_table t;
  sm_scope scope : scope_state db' !! (scope, crdt_table t) = scope_state db !! (scope, crdt_table t);
  sm_member scope id :
    (scope, crdt_table t, id) ∈ scope_members db' ↔ (scope, crdt_table t, id) ∈ scope_members db;
  sm_eviction scope id :
    (scope, crdt_table t, id) ∈ scope_evictions db' ↔ (scope, crdt_table t, id) ∈ scope_evictions db;
}.
Record other_table (db db' : ClientDb) : Prop := {
  ot_app : app_rows db' = app_rows db;
  ot_log : crdt_rows db' = crdt_rows db;
  ot_same : same_table db db';
  ot_state st : client_state db = Some st → ∃ clock,
    client_state db' = Some (set_lamport clock (cs_applying_remote st) st) ∧
    (cs_lamport st ≤ clock)%Z ∧ (cs_lamport st ≤ i64_max → clock ≤ i64_max)%Z;
}.

#[export] Instance same_table_preorder : PreOrder same_table.
Proof.
  split.
  - by split.
  - intros db1 db2 db3 [C1 S1 M1 E1] [C2 S2 M2 E2]. split.
    + congruence.
    + intros scope. by rewrite S2.
    + intros scope id. by rewrite M2.
    + intros scope id. by rewrite E2.
Qed.

(** A step of the device: an operation on this table, or on another one. *)
Inductive client_step (db db' : ClientDb) : Prop :=
| step_op op res : op_typed op → run_op op db = (res, db') → client_step db db'
| step_other : other_table db db' → client_step db db'.

(** ** Progress *)
Definition advances (db db' : ClientDb) : Prop :=
  (∀ st, client_state db = Some st → ∃ st', client_state db' = Some st' ∧
    cs_device_id st' = cs_device_id st ∧ (cs_lamport st ≤ cs_lamport st')%Z) ∧
  (∀ scope, (scope_version t db scope ≤ scope_version t db' scope)%Z).

#[export] Instance advances_preorder : PreOrder advances.
Proof.
  split.
  - intros db. split; [|done]. intros st Hst. exists st. split_and!; [done..|lia].
  - intros db1 db2 db3 [H12 V12] [H23 V23]. split.
    + intros st (st2 & (st3 & ? & ? & ?)%H23 & ? & ?)%H12. exists st3.
      split_and!; [done|congruence|lia].
    + intros scope. specialize (V12 scope). specialize (V23 scope). lia.
Qed.

Lemma advances_frame db db' :
  client_state db' = client_state db → scope_state db' = scope_state db → advances db db'.
Proof.
  intros Hs Hsc. split.
  - intros st Hst. exists st. rewrite Hs. split_and!; [done..|lia].
  - intros scope. unfold scope_version. by rewrite Hsc.
Qed.

Lemma captured_advances columns id row st db :
  client_state db = Some st → advances db (captured columns id row st db).
Proof.
  intros Hst. split; [|done]. intros st'. rewrite Hst. intros [= <-]. eexists.
  split; [done|]. split; [done|]. simpl. lia.
Qed.

Lemma local_update_advances st id column ty v row db db' :
  client_state db = Some st → local_update st id column ty v row db db' → advances db db'.
Proof.
  intros Hst [old _ _|old _ _ _]; [by apply advances_frame|].
  transitivity (set_app_rows (<[id := <[column := v]> row]> (app_rows db)) db);
    [by apply advances_frame|by apply captured_advances].
Qed.

Lemma after_ack_advances l db : advances db (after_ack t l db).
Proof. by apply advances_frame. Qed.

Lemma cleanup_advances db db' :
  client_wf t db → cleanup_pending_evictions t db = (Ok tt, db') → advances db db'.
Proof.
  intros [(st & Hst & Hflag & _) _].
  rewrite cleanup_exact by (intros st' Hst'; congruence). intros [= <-]. by apply advances_frame.
Qed.

Lemma wf_rows_ok db : client_wf t db → ∀ i row, app_rows db !! i = Some row → row_ok t row.
Proof.
  intros [(st & _ & _ & _ & _ & Hwf) _] i row Hrow. by apply (tb_rows _ _ _ _ Hwf _ _ Hrow).
Qed.

Section steps.
Hypotheses (Hfloat : f64_text_exact) (Ht : table_wf t).

Lemma apply_remote_advances p db db' :
  payload_typed p → apply_remote_payload t p db = (Ok tt, db') → advances db db'.
Proof.
  intros Htyped (st & db1 & [Hst _ Hpos _ Happ _ _ ->])%(apply_remote_run t Hfloat); [|done].
  destruct (ap_meta _ _ _ _ Happ) as (Hst1 & _ & Hsc & _). split.
  - intros st'. rewrite Hst. intros [= <-]. eexists. unfold end_apply, store_cursor; simpl.
    rewrite Hst1. unfold begin_apply; simpl. rewrite Hst. split; [done|]. split; [done|].
    simpl. lia.
  - intros scope. unfold scope_version, end_apply; simpl. by rewrite Hsc.
Qed.

Lemma insert_step id values db db' :
  client_wf t db → op_typed (OpInsert id values) → client_insert t id values db = (Ok tt, db') →
  client_wf t db' ∧ advances db db'.
Proof.
  intros Hwf [Htyped Hcap] Hrun. pose proof (cw_state _ _ Hwf) as (st & Hst & Hflag & _).
  destruct (proj1 (client_insert_run t id values db db' st Hst Hflag) Hrun)
    as (Hid & Hins & Hnone & Hlt & ->). split.
  - apply insert_wf; [done..|by apply inserted_row_ok|done|done].
  - transitivity (set_app_rows (<[id := inserted_row t values]> (app_rows db)) db);
      [by apply advances_frame|by apply captured_advances].
Qed.

Lemma set_step id column v db db' :
  client_wf t db → op_typed (OpSet id column v) → client_set t id column v db = (Ok tt, db') →
  client_wf t db' ∧ advances db db'.
Proof.
  intros Hwf [Htyped Hcap] Hrun. pose proof (cw_state _ _ Hwf) as (st & Hst & Hflag & _).
  destruct (proj1 (client_set_run t id column v db db' st Hst Hflag (wf_rows_ok _ Hwf)) Hrun)
    as (Hid & Hlive & Hacc & ty & sv & row & Hty & Hsv & Hrow & _ & Hup).
  split; [|by eapply local_update_advances].
  eapply local_update_wf; [done..| | |done|done]; [by eapply crdt_to_sqlite_typed|by apply Hcap].
Qed.

Lemma liveness_step st id (b : Z) row db db' :
  client_wf t db → client_state db = Some st → b = 0%Z ∨ b = 1%Z →
  app_rows db !! id = Some row →
  local_update st id LIVENESS_COLUMN TBoolean (SqlInteger b) row db db' →
  client_wf t db' ∧ advances db db'.
Proof.
  intros Hwf Hst Hb Hrow Hup. split; [|by eapply local_update_advances].
  by apply (local_update_wf t db st id LIVENESS_COLUMN TBoolean (SqlInteger b) row db').
Qed.

Lemma complete_sync_step sent response db db' :
  client_wf t db → payload_typed response →
  st_bind (acknowledge_local_delta_with_response t sent response)
    (λ _, apply_remote_payload t response) db = (Ok tt, db') →
  client_wf t db' ∧ advances db db'.
Proof.
  intros Hwf Htyped ([] & db1 & Hack & Happ)%st_bind_ok.
  pose proof (cw_state _ _ Hwf) as (st & Hst & Hflag & _).
  destruct (proj1 (acknowledge_response_run t _ _ _ _ st Hst Hflag) Hack) as (_ & _ & ->).
  split.
  - eapply apply_remote_wf; [done..| |exact Happ]. by apply after_ack_wf.
  - etransitivity; [apply after_ack_advances|by eapply apply_remote_advances].
Qed.

Lemma reset_cursor_wf db : client_wf t db → client_wf t (client_reset_cursor t db).2.
Proof.
  intros [(st & Hst & Hflag & Hclock & Hdev & Hwf) [Hcur Hsc]]. split; [|split; [|exact Hsc]].
  - exists st. do 4 (split; [done|]). by eapply tables_wf_frame; [| |exact Hwf].
  - intros row. simpl. rewrite lookup_insert_eq. intros [= <-]. simpl. split; [lia|]. by split.
Qed.

Lemma complete_partial_step sent response db db' :
  client_wf t db → payload_typed (prs_sync response) →
  apply_partial_replica_response t sent response db = (Ok tt, db') →
  client_wf t db' ∧ advances db db'.
Proof.
  intros Hwf Htyped Hrun. pose proof (cw_state _ _ Hwf) as (st & Hst & Hflag & _).
  apply (apply_partial_run t sent response db db' st Hst Hflag) in Hrun.
  destruct (pr_applied _ _ _ _ _ _ Hrun) as (db2 & Happ & Hclean).
  set (db1 := after_ack _ _ _) in *. assert (client_wf t db1) as Hwf1 by by apply after_ack_wf.
  assert (client_wf t db2) as Hwf2 by by eapply apply_remote_wf.
  set (db3 := scope_replaced _ _ _ _ _) in *.
  assert (client_wf t db3) as Hwf3 by by apply (wf_frame t db2).
  split; [by eapply cleanup_wf|].
  transitivity db1; [apply after_ack_advances|].
  transitivity db2; [by eapply apply_remote_advances|].
  transitivity db3; [by apply advances_frame|by apply cleanup_advances].
Qed.

Lemma bumped_advances scope active db : advances db (bumped t scope active db).
Proof.
  split.
  - intros st Hst. exists st. split_and!; [done..|lia].
  - intros scope'. rewrite bumped_version. case_decide; [subst; lia|lia].
Qed.

Lemma remove_scope_step scope db db' :
  client_wf t db → remove_partial_replica_scope_body t scope db = (Ok tt, db') →
  client_wf t db' ∧ advances db db'.
Proof.
  intros Hwf [Hmax Hclean]%remove_scope_run.
  pose proof (bumped_wf t scope false db Hwf Hmax) as Hwf1.
  match type of Hclean with cleanup_pending_evictions _ ?d = _ => set (db2 := d) in * end.
  assert (client_wf t db2) as Hwf2 by by apply (wf_frame t (bumped t scope false db)).
  split; [by eapply cleanup_wf|].
  transitivity (bumped t scope false db); [apply bumped_advances|].
  transitivity db2; [by apply advances_frame|by apply cleanup_advances].
Qed.

Lemma partial_request_step scope i db r db' :
  client_wf t db → get_partial_replica_request t scope i db = (Ok r, db') →
  client_wf t db' ∧ advances db db'.
Proof.
  intros Hwf Hrun. pose proof (cw_state _ _ Hwf) as (st & Hst & _).
  destruct (partial_request_run t _ _ _ _ _ st Hst Hrun) as (Hb & _ & -> & _).
  split; [apply bumped_wf; [done|lia]|apply bumped_advances].
Qed.
End steps.

End ops.

(** ** Every step *)
Section every_step.
Context `{!StrDebug, !SqlText_externals}.
Variable t : TableDef.

Lemma discard_clean {A} (m : ClientM A) : fails_clean m → fails_clean (discard m).
Proof.
  intros Hm db e db'. unfold discard, st_bind.
  destruct (m db) as [[a|e'] db1] eqn:Hrun; [done|]. intros [= <- <-]. by eapply Hm.
Qed.

Lemma run_op_clean op : fails_clean (run_op t op).
Proof.
  destruct op; simpl;
    auto using client_insert_clean, client_set_clean, client_delete_clean, client_restore_clean,
      discard_clean, fails_clean_transactional.
  all: try (apply discard_clean); try apply fails_clean_transactional.
  done.
Qed.

Lemma run_op_step op db db' :
  f64_text_exact → table_wf t → client_wf t db → op_typed t op →
  run_op t op db = (Ok tt, db') → client_wf t db' ∧ advances t db db'.
Proof.
  intros Hfloat Ht Hwf Htyped. pose proof (cw_state _ _ Hwf) as (st & Hst & Hflag & _).
  destruct op; simpl in *; unfold discard, local_delta, acknowledge, apply_remote, complete_sync,
    partial_replica_request, complete_partial_replica_sync, remove_partial_replica_scope.
  - by apply insert_step.
  - by apply set_step.
  - intros (_ & row & Hrow & _ & Hup)%(client_delete_run t id db db' st Hst Hflag
      (wf_rows_ok t _ Hwf)).
    eapply liveness_step; [done|done| |done|done]. by right.
  - intros (_ & row & Hrow & _ & Hup)%(client_restore_run t id db db' st Hst Hflag
      (wf_rows_ok t _ Hwf)).
    eapply liveness_step; [done|done| |done|done]. by left.
  - intros (p & ? & Hrun & [_ ->]%st_ret_ok)%st_bind_ok. rewrite transactional_ok in Hrun.
    apply st_bind_ok in Hrun as (? & ? & [-> ->]%st_get_ok & [_ ->]%st_lift_ok). by split.
  - rewrite transactional_ok. intros [_ ->]%(acknowledge_run t p db db' st Hst Hflag).
    split; [by apply after_ack_wf|apply after_ack_advances].
  - rewrite transactional_ok. intros Hrun.
    split; [by eapply apply_remote_wf|by eapply apply_remote_advances].
  - rewrite transactional_ok. by apply complete_sync_step.
  - intros [= <-]. split; [by apply reset_cursor_wf|by apply advances_frame].
  - intros (r & ? & Hrun & [_ ->]%st_ret_ok)%st_bind_ok. rewrite transactional_ok in Hrun.
    by eapply partial_request_step.
  - rewrite transactional_ok. by apply complete_partial_step.
  - rewrite transactional_ok. by apply remove_scope_step.
Qed.

Lemma other_table_step db db' :
  client_wf t db → other_table t db db' → client_wf t db' ∧ advances t db db'.
Proof.
  intros [(st & Hst & Hflag & [Hpos Hmax] & Hdev & Htables) [Hcur Hscopes]] [Ha Hl [Hc Hs _ _] Hstate].
  destruct (Hstate _ Hst) as (clock & Hst' & Hle & Hbound). specialize (Hbound Hmax). split.
  - split; [|split].
    + eexists. split; [exact Hst'|]. split; [done|]. split; [simpl; lia|]. split; [done|].
      eapply tables_wf_frame; [done..|]. by eapply tables_wf_mono; [|exact Htables].
    + intros row. rewrite Hc. apply Hcur.
    + intros scope version active. rewrite Hs. apply Hscopes.
  - split.
    + intros st0. rewrite Hst. intros [= <-]. eexists. split; [exact Hst'|]. by split.
    + intros scope. unfold scope_version. by rewrite Hs.
Qed.

Lemma client_step_step db db' :
  f64_text_exact → table_wf t → client_wf t db → client_step t db db' →
  client_wf t db' ∧ advances t db db'.
Proof.
  intros Hfloat Ht Hwf [op [[]|e] Htyped Hrun|Hother];
    [by eapply run_op_step| |by apply other_table_step].
  apply run_op_clean in Hrun as ->. split; [done|reflexivity].
Qed.

Lemma client_steps db db' :
  f64_text_exact → table_wf t → client_wf t db → rtc (client_step t) db db' →
  client_wf t db' ∧ advances t db db'.
Proof.
  intros Hfloat Ht Hwf Hsteps. induction Hsteps as [db|db db1 db2 Hstep Hsteps IH].
  - split; [done|reflexivity].
  - destruct (client_step_step _ _ Hfloat Ht Hwf Hstep) as [Hwf1 Hadv].
    destruct (IH Hwf1) as [Hwf2 Hadv2]. split; [done|by transitivity db1].
Qed.

Lemma bind_device_wf device db :
  bind_device device empty_db = (Ok tt, db) → client_wf t db.
Proof.
  unfold bind_device. rewrite st_check_ok, transactional_ok, validate_identifier_ok.
  intros [Hid [= <-]]. split; [|done]. eexists. split; [done|]. split; [done|].
  split; [simpl; unfold i64_max; lia|]. split; [done|]. split; intros; by simplify_map_eq.
Qed.
End every_step.
