(* ===== verification/ClientDemo.v ===== *)
(** * A concrete run of the edge client

    A database, its edits, its deltas and the responses of the reference
    server: the input the witnesses of the client's theorems evaluate. *)
From Stdlib Require Import SpecFloat.
From stdpp Require Import countable.
From S2P Require Import Prelude RustStd Error Schema SchemaFacts Crdt Lww Payload Policy Replica.
From S2P Require Import State Feed Merge Demo Sqlite Client ClientFacts ClientInv ClientLocal.
From S2P Require Import ClientAck ClientDelta ClientScopes ClientOps.

(** ** A printer of reals that can be read back *)
Definition f64_code (r : f64) : bool + (bool * (positive * Z)) + unit + bool :=
  match r with
  | S754_zero s => inr s
  | S754_nan => inl (inr tt)
  | S754_infinity s => inl (inl (inl s))
  | S754_finite s m e => inl (inl (inr (s, (m, e))))
  end.
Definition f64_uncode (x : bool + (bool * (positive * Z)) + unit + bool) : f64 :=
  match x with
  | inr s => S754_zero s
  | inl (inr _) => S754_nan
  | inl (inl (inl s)) => S754_infinity s
  | inl (inl (inr (s, (m, e)))) => S754_finite s m e
  end.
Definition demo_real_text (r : f64) : string := pretty (Npos (encode (f64_code r))).
Definition demo_real_parse (s : string) : option f64 :=
  match parse_digits s 0 with
  | Some (Zpos p) => f64_uncode <$> decode p
  | _ => None
  end.
Definition demo_text : SqlText_externals :=
  {| f64_to_string := demo_real_text; f64_from_str := demo_real_parse;
     sqlite_real_text := demo_real_text; sqlite_constraint_text := "UNIQUE constraint failed" |}.

Lemma demo_real_roundtrip r : demo_real_parse (demo_real_text r) = Some r.
Proof.
  unfold demo_real_parse, demo_real_text. rewrite parse_pretty_N. simpl.
  rewrite countable.decode_encode. simpl. by destruct r.
Qed.
Lemma demo_text_exact : @f64_text_exact demo_text.
Proof. intros r _. apply demo_real_roundtrip. Qed.

(** Values that are neither integers nor reals: the demonstration has no
    other. *)
Definition plain_value (v : CrdtValue) : bool :=
  match v with VText _ | VBoolean _ => true | _ => false end.
Definition plain_sql (v : SqlValue) : bool := match v with SqlReal _ => false | _ => true end.

Lemma plain_typed v : plain_value v = true → value_typed v.
Proof. by destruct v. Qed.
Lemma plain_capturable `{!SqlText_externals} v : plain_sql v = true → capturable v.
Proof. by destruct v. Qed.

Definition plain_payload (p : SyncPayload) : bool :=
  forallb (λ w : cell_write, plain_value (value w.2)) (payload_writes p).
Lemma plain_payload_typed p : plain_payload p = true → payload_typed p.
Proof.
  intros Hp k c Hin. apply plain_typed. unfold plain_payload in Hp.
  rewrite forallb_forall in Hp. apply (Hp (k, c)). by apply list_elem_of_In.
Qed.

Section demo.
#[local] Existing Instance demo_json.
#[local] Existing Instance demo_debug.
#[local] Existing Instance demo_text.

Definition demo_values : gmap string CrdtValue := {[ TITLE_COLUMN := VText "milk" ]}.
Definition db_of {A} (m : ClientM A) (db : ClientDb) : ClientDb := (m db).2.

(** A device, a todo, its first delta, and the answer of a fresh server. *)
Definition db_new : ClientDb := db_of (bind_device "device-a") empty_db.
Definition op_insert : client_op := OpInsert "todo-1" demo_values.
Definition db_one : ClientDb := db_of (run_op todos_table op_insert) db_new.
Definition delta_one : SyncPayload :=
  match local_delta todos_table db_one with (Ok p, _) => p | _ => request_a end.
Definition server_one : CrdtState := (merge delta_one "device-a" state_b).2.
Definition answer_one : SyncPayload := response_of (merge delta_one "device-a" state_b).
(** While the answer is under way the todo is ticked off. *)
Definition op_check : client_op := OpSet "todo-1" COMPLETED_COLUMN (VBoolean true).
Definition db_checked : ClientDb := db_of (run_op todos_table op_check) db_one.
Definition db_synced : ClientDb := db_of (complete_sync todos_table delta_one answer_one) db_checked.

Lemma demo_bind : bind_device "device-a" empty_db = (Ok tt, db_new).
Proof. vm_compute. reflexivity. Qed.
Lemma demo_insert : run_op todos_table op_insert db_new = (Ok tt, db_one).
Proof. vm_compute. reflexivity. Qed.
Lemma demo_delta : local_delta todos_table db_one = (Ok delta_one, db_one).
Proof. vm_compute. reflexivity. Qed.
Lemma demo_answer : merge delta_one "device-a" state_b = (Ok answer_one, server_one).
Proof. vm_compute. reflexivity. Qed.
Lemma demo_check : run_op todos_table op_check db_one = (Ok tt, db_checked).
Proof. vm_compute. reflexivity. Qed.
Lemma demo_complete :
  complete_sync todos_table delta_one answer_one db_checked = (Ok tt, db_synced).
Proof. vm_compute. reflexivity. Qed.

Lemma insert_typed : op_typed todos_table op_insert.
Proof.
  split.
  - intros name v Hv. apply plain_typed. revert name v Hv.
    change (map_Forall (λ _ v, plain_value v = true) demo_values).
    apply (bool_decide_unpack _). by vm_compute.
  - intros name v Hv. apply plain_capturable. revert name v Hv.
    change (map_Forall (λ _ v, plain_sql v = true) (inserted_row todos_table demo_values)).
    apply (bool_decide_unpack _). by vm_compute.
Qed.
Lemma check_typed : op_typed todos_table op_check.
Proof. split; [done|]. by intros sv [= <-]. Qed.

Lemma db_new_wf : client_wf todos_table db_new.
Proof. exact (bind_device_wf todos_table _ _ demo_bind). Qed.
Lemma db_one_wf : client_wf todos_table db_one.
Proof.
  exact (proj1 (run_op_step todos_table op_insert _ _ demo_text_exact todos_table_wf db_new_wf
    insert_typed demo_insert)).
Qed.
Lemma db_checked_wf : client_wf todos_table db_checked.
Proof.
  exact (proj1 (run_op_step todos_table op_check _ _ demo_text_exact todos_table_wf db_one_wf
    check_typed demo_check)).
Qed.
Lemma answer_one_typed : payload_typed answer_one.
Proof. apply plain_payload_typed. by vm_compute. Qed.
End demo.
