(* ===== verification/ClientTheorems.v ===== *)
(** * Correctness of the edge client (src/client.rs)

    The database invariant over every reachable state, and what the row API
    does, on success and on failure. *)
From S2P Require Import Prelude RustStd Error Schema SchemaFacts Crdt Lww Payload Replica State.
From S2P Require Import Sqlite Client ClientFacts ClientInv ClientLocal ClientAck ClientDelta.
From S2P Require Import ClientScopes ClientOps Merge Demo ClientDemo.

Section theorems.
Context `{!StrDebug, !SqlText_externals}.
Variable t : TableDef.

(** ** Reading back *)
Definition is_real (ty : ColumnType) : bool := match ty with TReal => true | _ => false end.
Definition default_value (ty : ColumnType) : CrdtValue :=
  match ty with
  | TText => VText ""
  | TInteger => VInteger 0
  | TReal => VReal (SpecFloat.S754_zero false)
  | TBoolean => VBoolean false
  end.

(** A stored value other than a real reads back exactly. *)
Lemma decode_stored name ty v sv :
  column_type t name = Some ty → is_real ty = false → column_accepts t name v → value_typed v →
  crdt_to_sqlite v = Ok sv → decode_sqlite_value t name (sql_to_text sv) = Ok v.
Proof.
  intros Hty Hreal (ty' & Hty' & Hv) Htyped Hsv. rewrite Hty in Hty'. injection Hty' as <-.
  unfold decode_sqlite_value. rewrite Hty.
  destruct ty, v; simpl in *; try done; injection Hsv as <-; simpl.
  - done.
  - by rewrite i64_from_pretty.
  - by destruct b.
Qed.
Lemma default_value_accepts name ty :
  column_type t name = Some ty → column_accepts t name (default_value ty).
Proof. intros Hty. exists ty. by destruct ty. Qed.
Lemma default_value_sqlite ty : crdt_to_sqlite (default_value ty) = Ok (sql_default ty).
Proof. by destruct ty. Qed.
Lemma default_value_typed ty : value_typed (default_value ty).
Proof. destruct ty; simpl; unfold i64_min, i64_max; done || lia. Qed.

(** The text of a log row is the text of the value its row shows. *)
Lemma text_of_exact ty v raw :
  sql_typed ty v → is_real ty = false → text_of v raw → raw = sql_to_text v.
Proof.
  intros Hv Hreal (v' & His & Hraw).
  destruct ty, v, v'; simpl in *; try done;
    (destruct Hraw as [->|(r' & [=] & _)]); simpl.
  - by apply String.eqb_eq in His as ->.
  - by apply Z.eqb_eq in His as ->.
  - by apply Z.eqb_eq in His as ->.
Qed.

Lemma sql_is_exact ty v v' :
  sql_typed ty v → is_real ty = false → sql_is v v' = true → v' = v.
Proof.
  destruct ty, v, v'; simpl; try done; intros _ _ His.
  - by apply String.eqb_eq in His as ->.
  - by apply Z.eqb_eq in His as ->.
  - by apply Z.eqb_eq in His as ->.
Qed.

Lemma get_cell_live id name db row cell v :
  identifier_ok id → is_Some (column_type t name) →
  app_rows db !! id = Some row → is_live row = true →
  crdt_rows db !! (id, name) = Some cell → decode_sqlite_value t name (cr_value cell) = Ok v →
  client_get_cell t id name db = Ok (Some v).
Proof.
  intros Hid [ty Hty] Hrow Hlive Hcell Hdec. unfold client_get_cell.
  apply validate_identifier_ok with (field := "row_id") in Hid. rewrite Hid. simpl.
  by rewrite Hty, Hrow, Hlive, Hcell, Hdec.
Qed.

(** C29: Whatever a program does with a client - local edits, deltas,
    acknowledgements, responses, cursor resets, partial replicas, succeeding
    or failing - the database it initialized stays well formed: typed rows,
    log cells the contract accepts, clocks below the device clock, dirty
    cells its own, and every application value the one its log cell
    describes. The clock, the device and the scope revisions never go back. *)
Theorem client_reachable_wf device db db' :
  f64_text_exact → table_wf t →
  bind_device device empty_db = (Ok tt, db) →
  rtc (client_step t) db db' →
  client_wf t db' ∧ advances t db db'.
Proof.
  intros Hfloat Ht Hbind Hsteps.
  apply client_steps; [done|done|by eapply bind_device_wf|done].
Qed.

(** An operation of the client that fails leaves the database exactly as
    it was. *)
Theorem client_failure_atomic op db e db' :
  run_op t op db = (Err e, db') → db' = db.
Proof. apply run_op_clean. Qed.

(** The application and its log agree: every log cell other than a real is
    the value its application row shows. *)
Lemma cell_materialized db k c ty :
  client_wf t db → client_cells t db !! k = Some c →
  column_type t k.2 = Some ty → is_real ty = false →
  ∃ row sv, app_rows db !! k.1 = Some row ∧ row !! k.2 = Some sv ∧
    decode_sqlite_value t k.2 (sql_to_text sv) = Ok (value c).
Proof.
  intros [(st & _ & _ & _ & _ & Hwf) _] (cell & Hcell & Hdec)%client_cells_lookup Hty Hreal.
  destruct (tb_cells _ _ _ _ Hwf _ _ Hcell) as (_ & _ & _ & _ & row & sv & Hrow & Hsv & Htext).
  exists row, sv. split; [done|]. split; [done|].
  destruct (tb_rows _ _ _ _ Hwf _ _ Hrow) as [_ Hok].
  destruct (Hok _ _ Hty) as (sv' & Hsv' & Htyped). rewrite Hsv in Hsv'. injection Hsv' as <-.
  rewrite <-(text_of_exact _ _ _ Htyped Hreal Htext).
  unfold decode_cell in Hdec. by apply bind_ok in Hdec as (v & -> & (? & _ & [= <-])%bind_ok).
Qed.

(** Inserting a row succeeds exactly for a new, valid identifier, values
    the columns accept and a clock that is not at its end. Then every column
    that is not a real reads back the value given or the schema's default,
    every column has one dirty log cell with the device's next version, and
    the log of the other rows is untouched. *)
Theorem client_insert_spec id values db st :
  table_wf t → client_wf t db → client_state db = Some st →
  (∀ name v, values !! name = Some v → value_typed v) →
  match client_insert t id values db with
  | (Ok _, db') =>
    identifier_ok id ∧ insertable t values ∧ app_rows db !! id = None ∧
    (∀ name ty, column_type t name = Some ty →
      (is_real ty = false →
       client_get_cell t id name db' = Ok (Some (default (default_value ty) (values !! name)))) ∧
      ∃ cell, crdt_rows db' !! (id, name) = Some cell ∧ cr_dirty cell = true ∧
        cr_lamport cell = (cs_lamport st + 1)%Z ∧ cr_device cell = cs_device_id st) ∧
    (∀ k, k.1 ≠ id → crdt_rows db' !! k = crdt_rows db !! k) ∧
    client_state db' = Some (set_lamport (cs_lamport st + 1) false st)
  | (Err _, db') =>
    db' = db ∧ ¬ (identifier_ok id ∧ insertable t values ∧ app_rows db !! id = None ∧
                  (cs_lamport st < i64_max)%Z)
  end.
Proof.
  intros Ht Hwf Hst Htyped. pose proof (cw_state _ _ Hwf) as (st' & Hst' & Hflag & _).
  rewrite Hst in Hst'. injection Hst' as <-.
  pose proof (client_insert_run t id values db) as Hrun.
  destruct (client_insert t id values db) as [[[]|e] db'] eqn:Hm.
  - destruct (proj1 (Hrun db' st Hst Hflag) eq_refl) as (Hid & Hins & Hnone & Hlt & ->).
    split; [done|]. split; [done|]. split; [done|]. split; [|split; [|done]].
    + intros name ty Hty.
      assert (∃ v, v = default (default_value ty) (values !! name) ∧ column_accepts t name v ∧
        value_typed v ∧ ∃ sv, crdt_to_sqlite v = Ok sv ∧ inserted_row t values !! name = Some sv)
        as (v & -> & Hacc & Hv & sv & Hsv & Hrow).
      { eexists. split; [done|]. destruct (values !! name) as [v|] eqn:Hvn; simpl.
        - destruct (Hins _ _ Hvn) as [_ Hacc]. split; [done|]. split; [by eapply Htyped|].
          destruct (crdt_to_sqlite_total _ _ _ Hacc) as [sv Hsv]. exists sv. split; [done|].
          by eapply inserted_row_lookup.
        - split; [by apply default_value_accepts|]. split; [apply default_value_typed|].
          exists (sql_default ty). split; [apply default_value_sqlite|].
          rewrite inserted_row_default by done.
          by apply (lookup_columns t (λ c, sql_default (cd_ty c))). }
      pose proof (proj1 (column_type_iff _ _ _ Ht) Hty) as Hcol.
      pose proof (capture_column st id (inserted_row t values) (synchronized_columns t)
        (crdt_rows db) _ sv (synchronized_names_distinct _ Ht) Hcol Hrow) as Hcell. simpl in Hcell.
      split; [|by eexists]. intros Hreal.
      eapply get_cell_live; [done|by eexists|apply lookup_insert_eq| |exact Hcell|].
      * unfold is_live. destruct (values !! LIVENESS_COLUMN) as [v|] eqn:Hl.
        { by destruct (Hins _ _ Hl). }
        rewrite inserted_row_default by done. unfold default_row.
        by rewrite (lookup_columns t (λ c, sql_default (cd_ty c)) _ TBoolean).
      * by eapply decode_stored.
    + intros k Hk. simpl. apply capture_other. by left.
  - split; [by eapply client_insert_clean|]. intros Hok.
    assert ((Err e, db') = (Ok tt, captured (synchronized_columns t) id (inserted_row t values) st
      (set_app_rows (<[id := inserted_row t values]> (app_rows db)) db))) as [=].
    apply (Hrun _ st Hst Hflag). by destruct Hok as (? & ? & ? & ?).
Qed.
Lemma local_update_total st id column ty v row db :
  row_ok t row → column_type t column = Some ty → (cs_lamport st < i64_max)%Z →
  ∃ db', local_update st id column ty v row db db'.
Proof.
  intros Hok Hty Hlt. destruct (Hok _ _ Hty) as (old & Hold & _).
  destruct (sql_is old v) eqn:His; eexists; [by eapply update_same|by eapply update_captured].
Qed.

(** What an update leaves in the log: nothing new when the value is the old
    one, otherwise one dirty cell with the next version. *)
Lemma local_update_log st id column ty v row db db' :
  local_update st id column ty v row db db' →
  app_rows db' = <[id := <[column := v]> row]> (app_rows db) ∧
  ((crdt_rows db' = crdt_rows db ∧ client_state db' = client_state db ∧
    ∃ old, row !! column = Some old ∧ sql_is old v = true) ∨
   (crdt_rows db' = <[(id, column) := captured_cell st ty v]> (crdt_rows db) ∧
    client_state db' = Some (set_lamport (cs_lamport st + 1) false st))).
Proof.
  intros [old Hold His|old Hold His Hlt]; simpl; split; try done; [left; eauto|right].
  split; [|done]. unfold capture_cell. simpl. by rewrite lookup_insert_eq.
Qed.

(** The new value reads back, if it was captured or the log held the old
    one. *)
Lemma local_update_reads st id column ty v sv row db db' :
  client_wf t db → identifier_ok id → app_rows db !! id = Some row → is_live row = true →
  column_type t column = Some ty → column ≠ LIVENESS_COLUMN → is_real ty = false →
  column_accepts t column v → value_typed v → crdt_to_sqlite v = Ok sv →
  local_update st id column ty sv row db db' → is_Some (crdt_rows db !! (id, column)) →
  client_get_cell t id column db' = Ok (Some v).
Proof.
  intros Hwf Hid Hrow Hlive Hty Hne Hreal Hacc Htyped Hsv Hup [cell Hcell].
  destruct (local_update_log _ _ _ _ _ _ _ _ Hup) as [Happ Hlog].
  pose proof (decode_stored _ _ _ _ Hty Hreal Hacc Htyped Hsv) as Hdec.
  assert (∀ c, crdt_rows db' !! (id, column) = Some c → cr_value c = sql_to_text sv →
    client_get_cell t id column db' = Ok (Some v)) as Hget.
  { intros c Hc Htext. eapply get_cell_live; [done|by eexists|rewrite Happ; apply lookup_insert_eq| |exact Hc|].
    - unfold is_live in *. by rewrite lookup_insert_ne.
    - by rewrite Htext. }
  destruct Hlog as [(Hlog & _ & old & Hold & His)|[Hlog _]].
  - apply (Hget cell); [by rewrite Hlog|].
    destruct (cw_state _ _ Hwf) as (st' & _ & _ & _ & _ & Htables).
    destruct (tb_cells _ _ _ _ Htables _ _ Hcell) as (_ & _ & _ & _ & row' & old' & Hrow' & Hold' & Htext).
    simpl in Hrow', Hold'. rewrite Hrow in Hrow'. injection Hrow' as <-. rewrite Hold in Hold'. injection Hold' as <-.
    destruct (wf_rows_ok t _ Hwf _ _ Hrow _ _ Hty) as (old' & Hold' & Hoty).
    rewrite Hold in Hold'. injection Hold' as <-.
    rewrite (sql_is_exact ty old sv) by done. by eapply text_of_exact.
  - apply (Hget (captured_cell st ty sv)); [|done]. rewrite Hlog. apply lookup_insert_eq.
Qed.

(** Setting a column succeeds exactly on a live row, for a column other
    than the liveness one, a value it accepts and - when the value is new - a
    clock that is not at its end. It writes one dirty log cell whose version
    is above every version of the log, or nothing when the value is the old
    one; the value then reads back. *)
Theorem client_set_spec id column v db st :
  client_wf t db → client_state db = Some st → value_typed v →
  match client_set t id column v db with
  | (Ok _, db') =>
    identifier_ok id ∧ column ≠ LIVENESS_COLUMN ∧ column_accepts t column v ∧
    (∃ row, app_rows db !! id = Some row ∧ is_live row = true) ∧
    (column_type t column ≠ Some TReal → is_Some (crdt_rows db !! (id, column)) →
     client_get_cell t id column db' = Ok (Some v)) ∧
    ((crdt_rows db' = crdt_rows db ∧ client_state db' = client_state db) ∨
     (∃ cell, crdt_rows db' = <[(id, column) := cell]> (crdt_rows db) ∧ cr_dirty cell = true ∧
        cr_device cell = cs_device_id st ∧ cr_lamport cell = (cs_lamport st + 1)%Z ∧
        (∀ k cell0, crdt_rows db !! k = Some cell0 → (cr_lamport cell0 < cr_lamport cell)%Z)))
  | (Err _, db') =>
    db' = db ∧ ¬ (identifier_ok id ∧ column ≠ LIVENESS_COLUMN ∧ column_accepts t column v ∧
      (∃ row, app_rows db !! id = Some row ∧ is_live row = true) ∧ (cs_lamport st < i64_max)%Z)
  end.
Proof.
  intros Hwf Hst Htyped. pose proof (cw_state _ _ Hwf) as (st' & Hst' & Hflag & _ & _ & Htables).
  rewrite Hst in Hst'. injection Hst' as <-.
  pose proof (client_set_run t id column v db) as Hrun.
  destruct (client_set t id column v db) as [[[]|e] db'] eqn:Hm.
  - destruct (proj1 (Hrun db' st Hst Hflag (wf_rows_ok t _ Hwf)) eq_refl)
      as (Hid & Hne & Hacc & ty & sv & row & Hty & Hsv & Hrow & Hlive & Hup).
    do 3 (split; [done|]). split; [by eexists|]. split.
    + intros Hreal Hcell. eapply local_update_reads; try done.
      by destruct ty; rewrite ?Hty in Hreal.
    + destruct (local_update_log _ _ _ _ _ _ _ _ Hup) as [_ [(? & ? & _)|[Hlog _]]]; [by left|right].
      exists (captured_cell st ty sv). do 4 (split; [done|]). intros k cell0 Hk.
      destruct (tb_cells _ _ _ _ Htables _ _ Hk) as (_ & Hb & _). simpl. lia.
  - split; [by eapply client_set_clean|]. intros (Hid & Hne & Hacc & (row & Hrow & Hlive) & Hlt).
    pose proof Hacc as (ty & Hty & _).
    destruct (crdt_to_sqlite_total _ _ _ Hacc) as [sv Hsv].
    destruct (local_update_total st id column ty sv row db (wf_rows_ok t _ Hwf _ _ Hrow) Hty Hlt)
      as [db2 Hup].
    assert ((Err e, db') = (Ok tt, db2)) as [=].
    apply (Hrun _ st Hst Hflag (wf_rows_ok t _ Hwf)). eauto 15.
Qed.
Lemma live_row_value row : is_live row = true → row !! LIVENESS_COLUMN = Some (SqlInteger 0).
Proof.
  unfold is_live. destruct (row !! LIVENESS_COLUMN) as [[s|i|r]|]; try done.
  simpl. by intros ->%Z.eqb_eq.
Qed.
Lemma tombstone_row_value row :
  is_tombstone row = true → row !! LIVENESS_COLUMN = Some (SqlInteger 1).
Proof.
  unfold is_tombstone. destruct (row !! LIVENESS_COLUMN) as [[s|i|r]|]; try done.
  simpl. by intros ->%Z.eqb_eq.
Qed.

(** C39: Deleting hides, restoring brings back. After a deletion every column
    of the row reads as absent and the row can be neither deleted again nor
    set; restoring it leaves the application table as it was before the
    deletion, and every column reads as before. *)
Theorem delete_restore_roundtrip id db db1 db2 :
  client_wf t db →
  client_delete t id db = (Ok tt, db1) → client_restore t id db1 = (Ok tt, db2) →
  (∀ column, is_Some (column_type t column) → client_get_cell t id column db1 = Ok None) ∧
  (∃ e, client_delete t id db1 = (Err e, db1)) ∧
  (∀ column v, ∃ e, client_set t id column v db1 = (Err e, db1)) ∧
  app_rows db2 = app_rows db ∧
  (∀ column, column ≠ LIVENESS_COLUMN →
    client_get_cell t id column db2 = client_get_cell t id column db).
Proof.
  intros Hwf Hdel Hres. pose proof (cw_state _ _ Hwf) as (st & Hst & Hflag & _).
  destruct (proj1 (client_delete_run t id db db1 st Hst Hflag (wf_rows_ok t _ Hwf)) Hdel)
    as (Hid & row & Hrow & Hlive & Hup).
  assert (client_wf t db1) as Hwf1 by (eapply liveness_step; [done|done| |done|done]; by right).
  pose proof (cw_state _ _ Hwf1) as (st1 & Hst1 & Hflag1 & _).
  destruct (proj1 (client_restore_run t id db1 db2 st1 Hst1 Hflag1 (wf_rows_ok t _ Hwf1)) Hres)
    as (_ & row1 & Hrow1 & Htomb & Hup2).
  destruct (local_update_log _ _ _ _ _ _ _ _ Hup) as [Happ Hlog].
  destruct (local_update_log _ _ _ _ _ _ _ _ Hup2) as [Happ2 Hlog2].
  pose proof Hrow1 as Hrow1'. rewrite Happ, lookup_insert_eq in Hrow1'. injection Hrow1' as <-.
  assert (is_live (<[LIVENESS_COLUMN:=SqlInteger 1]> row) = false) as Hdead
    by (unfold is_live; by rewrite lookup_insert_eq).
  assert (app_rows db2 = app_rows db) as Hsame.
  { rewrite Happ2, Happ, insert_insert_eq, insert_insert_eq.
    rewrite (insert_id row) by by apply live_row_value. by apply insert_id. }
  split; [|split; [|split; [|split; [done|]]]].
  - intros column [ty Hty]. unfold client_get_cell.
    pose proof (proj2 (validate_identifier_ok "row_id" id) Hid) as ->. simpl.
    by rewrite Hty, Hrow1, Hdead.
  - destruct (client_delete t id db1) as [[[]|e] db3] eqn:Hd.
    + destruct (proj1 (client_delete_run t id db1 db3 st1 Hst1 Hflag1 (wf_rows_ok t _ Hwf1)) Hd)
        as (_ & row3 & Hrow3 & Hlive3 & _). congruence.
    + exists e. by apply client_delete_clean in Hd as ->.
  - intros column v. destruct (client_set t id column v db1) as [[[]|e] db3] eqn:Hd.
    + destruct (proj1 (client_set_run t id column v db1 db3 st1 Hst1 Hflag1 (wf_rows_ok t _ Hwf1)) Hd)
        as (_ & _ & _ & ty & sv & row3 & _ & _ & Hrow3 & Hlive3 & _). congruence.
    + exists e. by apply client_set_clean in Hd as ->.
  - intros column Hne. unfold client_get_cell. rewrite Hsame.
    assert (crdt_rows db2 !! (id, column) = crdt_rows db !! (id, column)) as ->; [|done].
    assert (crdt_rows db1 !! (id, column) = crdt_rows db !! (id, column)) as <-.
    { destruct Hlog as [(-> & _)|[-> _]]; [done|]. rewrite lookup_insert_ne; [done|congruence]. }
    destruct Hlog2 as [(-> & _)|[-> _]]; [done|]. rewrite lookup_insert_ne; [done|congruence].
Qed.
End theorems.

(** ** Witnesses *)
Section witnesses.
#[local] Existing Instance demo_debug.
#[local] Existing Instance demo_text.

Lemma client_reachable_wf_witness :
  client_wf todos_table db_checked ∧ advances todos_table db_new db_checked.
Proof.
  apply (client_reachable_wf todos_table "device-a" db_new db_checked);
    [exact demo_text_exact|exact todos_table_wf|exact demo_bind|].
  eapply rtc_l; [exact (step_op _ _ _ op_insert (Ok tt) insert_typed demo_insert)|].
  exact (rtc_once _ _ (step_op _ _ _ op_check (Ok tt) check_typed demo_check)).
Defined.

Definition missing_delete : client_op := OpDelete "todo-9".
Definition missing_error : SyncError :=
  match (run_op todos_table missing_delete db_one).1 with Err e => e | Ok _ => ClockOverflow end.
Lemma client_failure_atomic_witness : (run_op todos_table missing_delete db_one).2 = db_one.
Proof.
  apply (client_failure_atomic todos_table missing_delete db_one missing_error).
  vm_compute. reflexivity.
Defined.

Definition db_new_state : ClientState :=
  {| cs_device_id := "device-a"; cs_lamport := 0; cs_applying_remote := false |}.
Definition db_one_state : ClientState :=
  {| cs_device_id := "device-a"; cs_lamport := 1; cs_applying_remote := false |}.

Lemma client_insert_spec_witness :
  client_get_cell todos_table "todo-1" COMPLETED_COLUMN db_one = Ok (Some (VBoolean false)).
Proof.
  pose proof (client_insert_spec todos_table "todo-1" demo_values db_new db_new_state
    todos_table_wf db_new_wf ltac:(by vm_compute) (proj1 insert_typed)) as Hspec.
  change (client_insert todos_table "todo-1" demo_values db_new)
    with (run_op todos_table op_insert db_new) in Hspec.
  rewrite demo_insert in Hspec. destruct Hspec as (_ & _ & _ & Hcols & _).
  exact (proj1 (Hcols COMPLETED_COLUMN TBoolean eq_refl) eq_refl).
Defined.

Lemma client_set_spec_witness :
  client_get_cell todos_table "todo-1" COMPLETED_COLUMN db_checked = Ok (Some (VBoolean true)).
Proof.
  pose proof (client_set_spec todos_table "todo-1" COMPLETED_COLUMN (VBoolean true) db_one db_one_state
    db_one_wf ltac:(by vm_compute) I) as Hspec.
  change (client_set todos_table "todo-1" COMPLETED_COLUMN (VBoolean true) db_one)
    with (run_op todos_table op_check db_one) in Hspec.
  rewrite demo_check in Hspec. destruct Hspec as (_ & _ & _ & _ & Hget & _).
  apply Hget; [done|]. apply (bool_decide_unpack _). by vm_compute.
Defined.

Definition db_deleted : ClientDb := db_of (run_op todos_table (OpDelete "todo-1")) db_one.
Definition db_restored : ClientDb := db_of (run_op todos_table (OpRestore "todo-1")) db_deleted.
Lemma demo_delete : client_delete todos_table "todo-1" db_one = (Ok tt, db_deleted).
Proof. vm_compute. reflexivity. Qed.
Lemma demo_restore : client_restore todos_table "todo-1" db_deleted = (Ok tt, db_restored).
Proof. vm_compute. reflexivity. Qed.

Lemma delete_restore_roundtrip_witness :
  client_get_cell todos_table "todo-1" TITLE_COLUMN db_deleted = Ok None ∧
  app_rows db_restored = app_rows db_one.
Proof.
  destruct (delete_restore_roundtrip todos_table "todo-1" db_one db_deleted db_restored db_one_wf
    demo_delete demo_restore) as (Hgone & _ & _ & Hsame & _).
  split; [|exact Hsame]. apply Hgone. by exists TText.
Defined.
End witnesses.
