(* ===== verification/ClientReplication.v ===== *)
(** * Replication of the edge client (src/client.rs)

    Theorems on deltas, acknowledgements, responses and scopes. *)
From S2P Require Import Prelude RustStd Error Schema SchemaFacts Crdt Lww Payload Replica Membership.
From S2P Require Import State Feed Sqlite Client ClientFacts ClientInv ClientLocal ClientAck.
From S2P Require Import ClientDelta ClientScopes ClientOps Merge Demo ClientDemo ClientTheorems.

Section theorems.
Context `{!StrDebug, !SqlText_externals}.
Variable t : TableDef.

(** ** The client is a last-writer-wins replica *)
Lemma apply_remote_absorbs p db db' :
  f64_text_exact → payload_typed p → apply_remote t p db = (Ok tt, db') →
  absorbs (client_cells t db) (payload_writes p) (client_cells t db').
Proof.
  intros Hfloat Htyped. unfold apply_remote. rewrite transactional_ok.
  intros (st & db1 & [_ _ _ _ Happ _ _ ->])%(apply_remote_run t Hfloat); [|done].
  assert (client_cells t (end_apply t (N.max (Z.to_N (cs_lamport st)) (max_observed_clock p) + 1) p db1)
    = client_cells t db1) as -> by by apply client_cells_ext.
  change (client_cells t db) with (client_cells t (begin_apply db)). apply (ap_cells _ _ _ _ Happ).
Qed.

#[export] Program Instance Client_replica (Hfloat : f64_text_exact)
  : LwwReplica ClientDb SyncPayload := {|
  replica_cells := client_cells t;
  delivery_writes := payload_writes;
  delivers db p db' := payload_typed p ∧ apply_remote t p db = (Ok tt, db');
|}.
Next Obligation. intros Hfloat db p db' [Htyped Hm]. by apply apply_remote_absorbs. Qed.

Lemma st_for_deliveries (Hfloat : f64_text_exact) ps db db' :
  (∀ p, p ∈ ps → payload_typed p) → st_for (apply_remote t) ps db = (Ok tt, db') →
  @deliveries _ _ (Client_replica Hfloat) db ps db'.
Proof.
  revert db; induction ps as [|p ps IH]; intros db Htyped; cbn [st_for].
  - intros [= <-]. constructor.
  - intros ([] & db1 & Hp & Hps)%st_bind_ok. eapply deliveries_cons.
    + split; [|exact Hp]. apply Htyped. by left.
    + apply IH; [|done]. intros q Hq. apply Htyped. by right.
Qed.

(** C32: Two copies of a client database that applied the same set of
    responses, in any order and with any repetitions, hold the same cells;
    and on a well-formed database the application table shows the cells: the
    value of a column that is not a real is the one of its log cell. *)
Theorem client_converges db ps1 ps2 db1 db2 :
  f64_text_exact → (∀ p, p ∈ ps1 ↔ p ∈ ps2) → (∀ p, p ∈ ps1 → payload_typed p) →
  st_for (apply_remote t) ps1 db = (Ok tt, db1) →
  st_for (apply_remote t) ps2 db = (Ok tt, db2) →
  client_cells t db1 ≡ client_cells t db2 ∧
  (client_wf t db1 → ∀ k c ty, client_cells t db1 !! k = Some c →
    column_type t k.2 = Some ty → is_real ty = false →
    ∃ row sv, app_rows db1 !! k.1 = Some row ∧ row !! k.2 = Some sv ∧
      decode_sqlite_value t k.2 (sql_to_text sv) = Ok (value c)).
Proof.
  intros Hfloat Hset Htyped H1 H2. split.
  - apply (st_for_deliveries Hfloat) in H1; [|done].
    apply (st_for_deliveries Hfloat) in H2; [|by intros p Hp; apply Htyped, Hset].
    exact (deliveries_converge db ps1 ps2 db1 db2 Hset H1 H2).
  - intros Hwf k c ty. by apply cell_materialized.
Qed.

(** ** The delta *)
Lemma changes_rows db st :
  length (changes (delta_payload t db st)) =
  size (list_to_set ((λ w : cell_write, w.1.1) <$> dirty_writes t db) : gset string).
Proof.
  rewrite <-(length_fmap todo_id). simpl. rewrite row_changes_ids.
  rewrite <-(size_list_to_set (C:=gset string)) by apply NoDup_bt_keys.
  f_equal. apply set_eq. intros r. rewrite !elem_of_list_to_set, elem_of_bt_keys, group_rows_dom.
  rewrite list_elem_of_fmap. split.
  - intros (name & v & Hin). by exists ((r, name), v).
  - intros ([[r' name] v] & -> & Hin). by exists name, v.
Qed.

(** C34: The local delta is exactly the dirty cells of the log, stamped with
    the device and its clock, with the cursor it stored, in a payload the
    server's request validation accepts; reading it changes nothing. On a
    well-formed database it fails only when the dirty cells exceed the size
    of one payload, and then no delta can be built at all. *)
Theorem local_delta_spec db st :
  client_wf t db → client_state db = Some st → cs_device_id st ≠ SERVER_DEVICE_ID →
  let rows := size (list_to_set ((λ w : cell_write, w.1.1) <$> dirty_writes t db) : gset string) in
  let fits := (N.of_nat rows ≤ MAX_PAYLOAD_ROWS)%N ∧
              (N.of_nat (length (dirty_writes t db)) ≤ MAX_PAYLOAD_CELLS)%N in
  match local_delta t db with
  | (Ok p, db') =>
    db' = db ∧ fits ∧ validate_client_request p (cs_device_id st) t = Ok tt ∧
    (∀ k c, (k, c) ∈ payload_writes p ↔
      ∃ cell, crdt_rows db !! k = Some cell ∧ cr_dirty cell = true ∧ decode_cell t k.2 cell = Ok c) ∧
    source_device_id p = cs_device_id st ∧ source_lamport p = Z.to_N (cs_lamport st) ∧
    cursor p = cu_cursor (read_cursor t db)
  | (Err _, db') => db' = db ∧ ¬ fits
  end.
Proof.
  intros Hwf Hst Hserver rows fits.
  pose proof (delta_valid t db st Hwf Hst Hserver) as Hvalid. rewrite changes_rows in Hvalid.
  pose proof (get_local_delta_run t db st) as Hrun.
  unfold local_delta, transactional, st_bind, st_get, st_lift.
  destruct (get_local_delta t db) as [p|e] eqn:Hm.
  - destruct (proj1 (Hrun p Hst) eq_refl) as (_ & _ & -> & Hreq).
    split; [done|]. split; [by apply Hvalid|]. split; [by apply validate_client_request_ok|].
    split; [|done]. intros k c. rewrite delta_writes. apply elem_of_dirty_writes.
  - split; [done|]. intros Hfits%Hvalid.
    assert (Err e = Ok (delta_payload t db st)) as [=].
    apply Hrun; [done|]. split; [by apply wf_decodable|]. split; [|done].
    pose proof (cw_state _ _ Hwf) as (st' & Hst' & _ & Hclock & _).
    rewrite Hst in Hst'. injection Hst' as <-. lia.
Qed.

(** ** Completing a sync *)
Lemma after_ack_dirty l db k cell :
  crdt_rows db !! k = Some cell → cr_dirty cell = true → sent_version l k cell = false →
  crdt_rows (after_ack t l db) !! k = Some cell.
Proof.
  intros Hk Hd Hs. unfold after_ack. apply evict_cells_lookup. simpl.
  rewrite acked_rows_lookup, Hk. simpl. rewrite Hs. split; [done|]. intros [_ Hev].
  unfold evictable in Hev. apply andb_true_iff in Hev as [_ [_ Hnd%negb_true_iff]%andb_true_iff].
  assert (row_is_dirty k.1 (set_crdt_rows (acked_rows l (crdt_rows db)) db) = true) as Hdirty;
    [|congruence].
  apply row_is_dirty_true. exists k.2, cell. destruct k as [id name]. simpl.
  rewrite acked_rows_lookup, Hk. simpl. by rewrite Hs.
Qed.
Lemma after_ack_dirty_inv l db k cell :
  crdt_rows (after_ack t l db) !! k = Some cell → cr_dirty cell = true →
  crdt_rows db !! k = Some cell ∧ sent_version l k cell = false.
Proof.
  unfold after_ack. intros [Hk _]%evict_cells_lookup Hd. simpl in Hk.
  rewrite acked_rows_lookup in Hk. destruct (crdt_rows db !! k) as [cell0|]; [|done].
  simpl in Hk. injection Hk as Hk. destruct (sent_version l k cell0) eqn:Hs; subst; done.
Qed.
Lemma client_cells_evict done db k c :
  client_cells t (evict_rows t done db) !! k = Some c → client_cells t db !! k = Some c.
Proof.
  rewrite !client_cells_lookup. intros (cell & [Hk _]%evict_cells_lookup & Hdec). eauto.
Qed.

(** C20: Completing a sync loses no local write. A dirty cell stays as it is
    unless its very version was sent and not rejected, or the response
    carries a newer version of it; and every cell still dirty afterwards is
    one of these: a concurrent write, or a rejected one. *)
Theorem complete_sync_keeps_writes sent response db db' :
  f64_text_exact → payload_typed response → client_wf t db →
  complete_sync t sent response db = (Ok tt, db') →
  let acked := unrejected response (payload_writes sent) in
  (∀ k cell, crdt_rows db !! k = Some cell → cr_dirty cell = true →
    crdt_rows db' !! k = Some cell ∨ sent_version acked k cell = true ∨
    ∃ c c0, (k, c) ∈ payload_writes response ∧ client_cells t db !! k = Some c0 ∧
      version_lt (metadata c0) (metadata c)) ∧
  (∀ k cell, crdt_rows db' !! k = Some cell → cr_dirty cell = true →
    crdt_rows db !! k = Some cell ∧ sent_version acked k cell = false).
Proof.
  intros Hfloat Htyped Hwf Hsync acked. unfold complete_sync in Hsync.
  rewrite transactional_ok in Hsync. apply st_bind_ok in Hsync as ([] & db1 & Hack & Happ).
  pose proof (cw_state _ _ Hwf) as (st & Hst & Hflag & _).
  destruct (proj1 (acknowledge_response_run t _ _ _ _ st Hst Hflag) Hack) as (_ & _ & ->).
  destruct (apply_remote_run t Hfloat _ _ _ Htyped Happ) as (st1 & db2 & Hrun).
  assert (∀ k, crdt_rows db' !! k = crdt_rows db2 !! k) as Hend
    by by rewrite (ar_end _ _ _ _ _ _ Hrun).
  pose proof (ar_rows _ _ _ _ _ _ Hrun) as Hap. split.
  - intros k cell Hk Hd. destruct (sent_version acked k cell) eqn:Hs; [by right; left|].
    pose proof (after_ack_dirty _ _ _ _ Hk Hd Hs) as Hk1.
    destruct (ap_rows _ _ _ _ Hap k) as [Heq|(c & cell' & Hin & _ & _ & _ & Hlt)].
    { left. by rewrite Hend, Heq. }
    destruct (cw_state _ _ Hwf) as (st' & _ & _ & _ & _ & Htables).
    destruct (tb_cells _ _ _ _ Htables _ _ Hk) as ((c0 & Hdec & _) & _).
    right; right. exists c, c0. split; [done|].
    split; [apply client_cells_lookup; eauto|]. apply Hlt.
    change (client_cells t (begin_apply (after_ack t acked db)))
      with (client_cells t (after_ack t acked db)).
    apply client_cells_lookup. eauto.
  - intros k cell Hk Hd. rewrite Hend in Hk.
    destruct (ap_rows _ _ _ _ Hap k) as [Heq|(c & cell' & _ & Hk' & Hclean & _)].
    + rewrite Heq in Hk. by apply after_ack_dirty_inv.
    + rewrite Hk' in Hk. injection Hk as <-. congruence.
Qed.
(** ** Scopes *)
Lemma cleanup_frame db db' :
  flag_down db → cleanup_pending_evictions t db = (Ok tt, db') →
  scope_members db' = scope_members db ∧ scope_state db' = scope_state db ∧
  client_state db' = client_state db ∧
  (∀ k cell, crdt_rows db' !! k = Some cell → crdt_rows db !! k = Some cell).
Proof.
  intros Hflag. rewrite cleanup_exact by done. intros [= <-]. do 3 (split; [done|]).
  by intros k cell [? _]%evict_cells_lookup.
Qed.

(** A row marked for eviction that is in no scope and has nothing to send is
    gone after the pass. *)
Lemma cleanup_gone db db' id :
  flag_down db → cleanup_pending_evictions t db = (Ok tt, db') →
  id ∈ table_rows t (scope_evictions db) →
  (∀ scope, (scope, crdt_table t, id) ∉ scope_members db') →
  (∀ name cell, crdt_rows db' !! (id, name) = Some cell → cr_dirty cell = false) →
  app_rows db' !! id = None ∧ ∀ name, crdt_rows db' !! (id, name) = None.
Proof.
  intros Hflag. rewrite cleanup_exact by done. intros [= <-] Hpend Hmem Hclean.
  assert (evictable t db id = true) as Hev.
  { unfold evictable. rewrite bool_decide_true by done. rewrite bool_decide_true.
    2:{ intros [scope Hin]%elem_of_table_rows. by apply (Hmem scope). }
    destruct (row_is_dirty id db) eqn:Hd; [|done]. exfalso.
    apply row_is_dirty_true in Hd as (name & cell & Hcell & Hd).
    assert (crdt_rows (evict_rows t (pending_evictions t db) db) !! (id, name) = Some cell) as Hc.
    { apply evict_cells_lookup. split; [done|]. simpl. intros [_ Hev].
      unfold evictable in Hev. apply andb_true_iff in Hev as [_ [_ Hnd%negb_true_iff]%andb_true_iff].
      assert (row_is_dirty id db = true) by (apply row_is_dirty_true; eauto). congruence. }
    rewrite (Hclean _ _ Hc) in Hd. done. }
  assert (id ∈ pending_evictions t db) as Hin by by apply elem_of_sorted_rows.
  split.
  - destruct (app_rows (evict_rows _ _ _) !! id) eqn:Hrow; [|done].
    apply evict_app_lookup in Hrow as [_ Hno]. tauto.
  - intros name. destruct (crdt_rows (evict_rows _ _ _) !! (id, name)) eqn:Hrow; [|done].
    apply evict_cells_lookup in Hrow as [_ Hno]. simpl in Hno. tauto.
Qed.

(** A row the pass removes was in no scope and had nothing to send. *)
Lemma cleanup_lost db db' id :
  flag_down db → cleanup_pending_evictions t db = (Ok tt, db') →
  is_Some (app_rows db !! id) → app_rows db' !! id = None →
  (∀ scope, (scope, crdt_table t, id) ∉ scope_members db) ∧ row_is_dirty id db = false.
Proof.
  intros Hflag. rewrite cleanup_exact by done. intros [= <-] [row Hrow] Hnone.
  destruct (evictable t db id) eqn:Hev.
  - unfold evictable in Hev.
    apply andb_true_iff in Hev as [_ [Hmem%bool_decide_eq_true Hd%negb_true_iff]%andb_true_iff].
    split; [|done]. intros scope Hin. apply Hmem, elem_of_table_rows. by exists scope.
  - exfalso. assert (app_rows (evict_rows t (pending_evictions t db) db) !! id = Some row) as Hr;
      [|congruence]. apply evict_app_lookup. split; [done|]. intros [_ ?]. congruence.
Qed.

Lemma remove_scope_version scope db db' :
  client_wf t db → remove_partial_replica_scope_body t scope db = (Ok tt, db') →
  scope_version t db' scope = (scope_version t db scope + 1)%Z.
Proof.
  intros Hwf [_ Hclean]%remove_scope_run.
  pose proof (cw_state _ _ Hwf) as (st & Hst & Hflag & _).
  apply cleanup_frame in Hclean as (_ & Hsc & _); [|intros st' Hst'; simpl in *; congruence].
  unfold scope_version at 1. rewrite Hsc. simpl. by rewrite lookup_insert_eq.
Qed.

(** C35: A response to a superseded request is harmless. Once a scope has been
    requested again, or removed, after a request was issued, no response to
    that request is ever accepted, whatever happens in between and after:
    completing it fails and leaves the database as it was. *)
Theorem stale_response_rejected scope i db0 r db1 db2 db3 db4 response :
  f64_text_exact → table_wf t → client_wf t db0 →
  partial_replica_request t scope i db0 = (Ok r, db1) →
  rtc (client_step t) db1 db2 →
  ((∃ i' r', partial_replica_request t scope i' db2 = (Ok r', db3)) ∨
   remove_partial_replica_scope t scope db2 = (Ok tt, db3)) →
  rtc (client_step t) db3 db4 →
  ∃ e, complete_partial_replica_sync t r response db4 = (Err e, db4).
Proof.
  intros Hfloat Ht Hwf0 Hreq Hsteps Hnext Hsteps'.
  unfold partial_replica_request in Hreq, Hnext. rewrite transactional_ok in Hreq.
  pose proof (cw_state _ _ Hwf0) as (st & Hst & _).
  destruct (partial_request_run t _ _ _ _ _ st Hst Hreq) as (Hb & Hr & Hdb1 & _).
  destruct (partial_request_step t _ _ _ _ _ Hwf0 Hreq) as [Hwf1 _].
  destruct (client_steps t _ _ Hfloat Ht Hwf1 Hsteps) as [Hwf2 [_ Hadv2]].
  assert (client_wf t db3 ∧ scope_version t db3 scope = (scope_version t db2 scope + 1)%Z)
    as [Hwf3 Hv3].
  { destruct Hnext as [(i' & r' & Hreq')|Hrem].
    - rewrite transactional_ok in Hreq'. pose proof (cw_state _ _ Hwf2) as (st2 & Hst2 & _).
      split; [by eapply partial_request_step|].
      destruct (partial_request_run t _ _ _ _ _ st2 Hst2 Hreq') as (_ & _ & -> & _).
      rewrite bumped_version. by case_decide.
    - unfold remove_partial_replica_scope in Hrem. rewrite transactional_ok in Hrem.
      split; [by eapply remove_scope_step|by apply remove_scope_version]. }
  destruct (client_steps t _ _ Hfloat Ht Hwf3 Hsteps') as [Hwf4 [_ Hadv4]].
  unfold complete_partial_replica_sync.
  destruct (transactional (apply_partial_replica_response t r response) db4) as [[[]|e] db5] eqn:Hc.
  - exfalso. rewrite transactional_ok in Hc. pose proof (cw_state _ _ Hwf4) as (st4 & Hst4 & Hflag4 & _).
    apply (apply_partial_run t _ _ _ _ st4 Hst4 Hflag4) in Hc.
    pose proof (pr_current _ _ _ _ _ _ Hc) as Hcur.
    assert (scope_version t db4 scope = Z.of_N (prq_scope_version r)) as Hv4.
    { unfold scope_version. rewrite Hr in Hcur. simpl in Hcur. by rewrite Hcur, Hr. }
    rewrite Hr in Hv4. simpl in Hv4.
    assert (scope_version t db1 scope = scope_version t db0 scope + 1)%Z as Hv1
      by (rewrite Hdb1, bumped_version; by case_decide).
    specialize (Hadv2 scope). specialize (Hadv4 scope). lia.
  - exists e. by apply transactional_err in Hc as ->.
Qed.

(** Removing a scope empties it and invalidates its revision; it never
    touches a log cell other than to drop it together with its row, so it
    never creates a tombstone; the rows that go had nothing to send and are
    in no other scope, and those that qualify do go. *)
Theorem remove_scope_exact scope db db' :
  client_wf t db → remove_partial_replica_scope t scope db = (Ok tt, db') →
  (∀ s id, (s, crdt_table t, id) ∈ scope_members db' ↔
     s ≠ scope ∧ (s, crdt_table t, id) ∈ scope_members db) ∧
  scope_state db' !! (scope, crdt_table t) = Some ((scope_version t db scope + 1)%Z, false) ∧
  (∀ k cell, crdt_rows db' !! k = Some cell → crdt_rows db !! k = Some cell) ∧
  (∀ id, is_Some (app_rows db !! id) → app_rows db' !! id = None →
     (∀ s, (s, crdt_table t, id) ∉ scope_members db') ∧ row_is_dirty id db = false) ∧
  (∀ id, (scope, crdt_table t, id) ∈ scope_members db →
     (∀ s, s ≠ scope → (s, crdt_table t, id) ∉ scope_members db) → row_is_dirty id db = false →
     app_rows db' !! id = None ∧ ∀ name, crdt_rows db' !! (id, name) = None).
Proof.
  intros Hwf. unfold remove_partial_replica_scope. rewrite transactional_ok.
  intros [_ Hclean]%remove_scope_run.
  pose proof (cw_state _ _ Hwf) as (st & Hst & Hflag & _).
  match type of Hclean with cleanup_pending_evictions _ ?d = _ => set (db2 := d) in * end.
  assert (flag_down db2) as Hdown by (intros st' Hst'; simpl in *; congruence).
  destruct (cleanup_frame _ _ Hdown Hclean) as (Hmem & Hsc & _ & Hcells).
  assert (∀ s id, (s, crdt_table t, id) ∈ scope_members db' ↔
     s ≠ scope ∧ (s, crdt_table t, id) ∈ scope_members db) as Hmembers.
  { intros s id. rewrite Hmem. simpl. rewrite elem_of_filter. simpl. naive_solver. }
  split; [done|]. split; [by rewrite Hsc; simpl; rewrite lookup_insert_eq|].
  split; [done|]. split.
  - intros id Hsome Hnone. rewrite Hmem. by apply (cleanup_lost db2 db').
  - intros id Hin Hother Hdirty. apply (cleanup_gone db2 db'); [done|done| | |].
    + apply elem_of_table_rows. exists scope. simpl. apply elem_of_union_l, elem_of_marks. simpl.
      split; [done|]. split; [done|]. apply elem_of_sorted_rows. unfold scope_rows.
      rewrite elem_of_list_to_set, list_elem_of_omap. exists (scope, crdt_table t, id).
      rewrite elem_of_elements. split; [done|]. by rewrite !String.eqb_refl.
    + intros s [Hne Hs]%Hmembers. by apply (Hother s).
    + intros name cell Hc%Hcells. destruct (cr_dirty cell) eqn:Hd; [|done].
      assert (row_is_dirty id db = true) by (apply row_is_dirty_true; eauto). congruence.
Qed.
(** Taking in a response keeps a dirty log row, or puts a response cell in
    its place. *)
Lemma apply_remote_dirty p db db' k cell :
  f64_text_exact → payload_typed p → apply_remote_payload t p db = (Ok tt, db') →
  crdt_rows db !! k = Some cell →
  crdt_rows db' !! k = Some cell ∨ ∃ c, (k, c) ∈ payload_writes p.
Proof.
  intros Hfloat Htyped (st & db1 & Hrun)%(apply_remote_run t Hfloat) Hk; [|done].
  rewrite (ar_end _ _ _ _ _ _ Hrun). simpl.
  destruct (ap_rows _ _ _ _ (ar_rows _ _ _ _ _ _ Hrun) k) as [->|(c & _ & Hin & _)]; [by left|].
  right. by exists c.
Qed.

Lemma apply_remote_scopes p db db' :
  f64_text_exact → payload_typed p → apply_remote_payload t p db = (Ok tt, db') →
  scope_members db' = scope_members db ∧ scope_evictions db' = scope_evictions db ∧
  (∀ id, is_Some (app_rows db !! id) → is_Some (app_rows db' !! id)) ∧
  (∀ row, row ∈ changes p → is_Some (app_rows db' !! todo_id row)).
Proof.
  intros Hfloat Htyped (st & db1 & Hrun)%(apply_remote_run t Hfloat); [|done].
  pose proof (ar_rows _ _ _ _ _ _ Hrun) as Happ. pose proof (ar_present _ _ _ _ _ _ Hrun) as Hpres.
  rewrite (ar_end _ _ _ _ _ _ Hrun). simpl.
  destruct (ap_meta _ _ _ _ Happ) as (_ & _ & _ & -> & ->). do 2 (split; [done|]).
  split; [|done]. apply (ap_app _ _ _ _ Happ).
Qed.

(** C31: Completing a partial sync installs exactly the membership of the
    response: the scope holds the rows it names, all of them present, and
    the other scopes keep theirs. A row the scope had and lost goes, unless
    another scope holds it or it has something left to send; and no row goes
    that is in a scope, or has a dirty cell that was not acknowledged. *)
Theorem partial_sync_membership sent response db db' :
  f64_text_exact → table_wf t → payload_typed (prs_sync response) → client_wf t db →
  complete_partial_replica_sync t sent response db = (Ok tt, db') →
  let scope := prq_scope_id sent in
  let acked := unrejected (prs_sync response) (payload_writes (prq_sync sent)) in
  (∀ s id, (s, crdt_table t, id) ∈ scope_members db' ↔
     (s = scope ∧ id ∈ member_ids response) ∨
     (s ≠ scope ∧ (s, crdt_table t, id) ∈ scope_members db)) ∧
  (∀ id, id ∈ member_ids response → is_Some (app_rows db' !! id)) ∧
  (∀ id, id ∈ known_member_ids sent → id ∉ member_ids response →
     (∀ s, (s, crdt_table t, id) ∉ scope_members db') →
     (∀ name cell, crdt_rows db' !! (id, name) = Some cell → cr_dirty cell = false) →
     app_rows db' !! id = None ∧ ∀ name, crdt_rows db' !! (id, name) = None) ∧
  (∀ id, is_Some (app_rows db !! id) → app_rows db' !! id = None →
     (∀ s, (s, crdt_table t, id) ∉ scope_members db') ∧
     (∀ name cell, crdt_rows db !! (id, name) = Some cell → cr_dirty cell = true →
        sent_version acked (id, name) cell = true)).
Proof.
  intros Hfloat Ht Htyped Hwf Hsync scope acked. unfold complete_partial_replica_sync in Hsync.
  rewrite transactional_ok in Hsync.
  pose proof (cw_state _ _ Hwf) as (st & Hst & Hflag & _).
  destruct (apply_partial_run t _ _ _ _ st Hst Hflag Hsync)
    as [_ Hresp _ _ Hevicted _ (db2 & Happ & Hclean)].
  apply response_validate_ok in Hresp as (_ & _ & _ & Hmembers & _ & _ & Hids).
  fold acked in Happ. fold scope in Hclean. set (db1 := after_ack t acked db) in *.
  destruct (apply_remote_scopes _ _ _ Hfloat Htyped Happ) as (Hmem2 & _ & Hkeep2 & Hpres2).
  assert (client_wf t db2) as Hwf2
    by (eapply apply_remote_wf; [done..|by apply after_ack_wf|done]).
  pose proof (cw_state _ _ Hwf2) as (st2 & Hst2 & Hflag2 & _).
  match type of Hclean with cleanup_pending_evictions _ ?d = _ => set (db3 := d) in * end.
  assert (flag_down db3) as Hdown by (intros st' Hst'; simpl in *; congruence).
  destruct (cleanup_frame _ _ Hdown Hclean) as (Hmem & _ & _ & Hcells).
  assert (∀ s id, (s, crdt_table t, id) ∈ scope_members db' ↔
     (s = scope ∧ id ∈ member_ids response) ∨
     (s ≠ scope ∧ (s, crdt_table t, id) ∈ scope_members db)) as Hmembership.
  { intros s id. rewrite Hmem. simpl. rewrite elem_of_union, elem_of_filter, elem_of_marks. simpl.
    rewrite Hmem2. change (scope_members db1) with (scope_members db). naive_solver. }
  assert (∀ id, id ∈ member_ids response → is_Some (app_rows db' !! id)) as Hpresent.
  { intros id Hid. destruct (app_rows db' !! id) as [row|] eqn:Hrow; [by eexists|]. exfalso.
    assert (is_Some (app_rows db3 !! id)) as Hsome.
    { rewrite <-Hids in Hid. apply list_elem_of_fmap in Hid as (row & -> & Hrow'). by apply Hpres2. }
    destruct (cleanup_lost db3 db' id Hdown Hclean Hsome Hrow) as [Hno _].
    apply (Hno scope). rewrite <-Hmem. apply Hmembership. by left. }
  split; [done|]. split; [done|]. split.
  - intros id Hknown Hout Hno Hdirty. apply (cleanup_gone db3 db'); try done.
    apply elem_of_table_rows. exists scope. simpl. apply elem_of_union_l, elem_of_marks. simpl.
    split; [done|]. split; [done|]. rewrite Hevicted. apply list_elem_of_filter.
    split; [|done]. by apply binary_search_false; [apply (mw_sorted _ Hmembers)|].
  - intros id Hsome Hnone.
    assert (id ∉ member_ids response) as Hout.
    { intros [row Hrow]%Hpresent. congruence. }
    destruct (app_rows db1 !! id) as [row1|] eqn:Hrow1.
    + assert (is_Some (app_rows db3 !! id)) as Hsome3 by (apply Hkeep2; by eexists).
      destruct (cleanup_lost db3 db' id Hdown Hclean Hsome3 Hnone) as [Hno Hdirty3].
      split; [by setoid_rewrite Hmem|]. intros name cell Hcell Hd.
      destruct (sent_version acked (id, name) cell) eqn:Hs; [done|]. exfalso.
      pose proof (after_ack_dirty _ _ _ _ Hcell Hd Hs) as Hcell1.
      destruct (apply_remote_dirty _ _ _ _ _ Hfloat Htyped Happ Hcell1) as [Hcell2|(c & Hc)].
      * assert (row_is_dirty id db3 = true); [|congruence].
        apply row_is_dirty_true. exists name, cell. done.
      * apply elem_of_payload_writes in Hc as (row & Hrow & Hid & _). simpl in Hid.
        apply Hout. rewrite <-Hids, list_elem_of_fmap. by exists row.
    + assert (flag_down (set_crdt_rows (acked_rows acked (crdt_rows db)) db)) as Hdown1
        by (intros st' Hst'; simpl in Hst'; congruence).
      pose proof (cleanup_exact t _ Hdown1) as Hclean1.
      destruct (cleanup_lost _ db1 id Hdown1 Hclean1 Hsome Hrow1) as [Hno Hdirty1]. simpl in Hno. split.
      * intros s [[-> Hid]|[_ Hs]]%Hmembership; [done|]. by apply (Hno s).
      * intros name cell Hcell Hd. destruct (sent_version acked (id, name) cell) eqn:Hs; [done|].
        exfalso. apply not_true_iff_false in Hdirty1. apply Hdirty1, row_is_dirty_true. exists name, cell. simpl. rewrite acked_rows_lookup, Hcell. simpl.
        by rewrite Hs.
Qed.
End theorems.

(** ** Witnesses *)
Section witnesses.
#[local] Existing Instance demo_debug.
#[local] Existing Instance demo_text.

Definition db_c : ClientDb := db_of (bind_device "device-c") empty_db.
Definition db_c_forth : ClientDb :=
  db_of (st_for (apply_remote todos_table) [response_b; response_ab]) db_c.
Definition db_c_back : ClientDb :=
  db_of (st_for (apply_remote todos_table) [response_ab; response_b; response_b]) db_c.
Lemma demo_forth :
  st_for (apply_remote todos_table) [response_b; response_ab] db_c = (Ok tt, db_c_forth).
Proof. vm_compute. reflexivity. Qed.
Lemma demo_back :
  st_for (apply_remote todos_table) [response_ab; response_b; response_b] db_c
    = (Ok tt, db_c_back).
Proof. vm_compute. reflexivity. Qed.

Lemma same_deliveries (a b p : SyncPayload) : p ∈ [a; b] ↔ p ∈ [b; a; a].
Proof. rewrite !elem_of_cons, elem_of_nil. tauto. Qed.
Lemma client_converges_witness :
  client_cells todos_table db_c_forth ≡ client_cells todos_table db_c_back.
Proof.
  refine (proj1 (client_converges todos_table db_c [response_b; response_ab]
    [response_ab; response_b; response_b] db_c_forth db_c_back demo_text_exact _ _
    demo_forth demo_back)).
  - exact (same_deliveries response_b response_ab).
  - intros p Hp. apply plain_payload_typed. revert p Hp. apply list.Forall_forall.
    repeat constructor; by vm_compute.
Defined.

Lemma local_delta_spec_witness :
  validate_client_request delta_one "device-a" todos_table = Ok tt ∧
  source_lamport delta_one = 1%N.
Proof.
  pose proof (local_delta_spec todos_table db_one db_one_state db_one_wf ltac:(by vm_compute)
    ltac:(by vm_compute)) as Hspec.
  rewrite demo_delta in Hspec. destruct Hspec as (_ & _ & Hvalid & _ & _ & Hclock & _).
  split; [exact Hvalid|exact Hclock].
Defined.

(** The todo was ticked off while its first delta was being acknowledged. *)
Definition checked_cell : CellRow :=
  {| cr_value := "1"; cr_lamport := 2; cr_device := "device-a"; cr_dirty := true |}.
Lemma complete_sync_keeps_writes_witness :
  crdt_rows db_checked !! ("todo-1", COMPLETED_COLUMN) = Some checked_cell.
Proof.
  destruct (complete_sync_keeps_writes todos_table delta_one answer_one db_checked db_synced
    demo_text_exact answer_one_typed db_checked_wf demo_complete) as [_ Hstill].
  apply (Hstill ("todo-1", COMPLETED_COLUMN) checked_cell); [by vm_compute|done].
Defined.

(** A scope, its request, its response, and its removal. *)
Definition demo_interest : ReplicaInterest :=
  {| predicates := [IdPrefix "todo-"]; limit := 10 |}.
Definition db_asked : ClientDb :=
  db_of (partial_replica_request todos_table "mine" demo_interest) db_one.
Definition scope_asked : PartialReplicaRequest :=
  match partial_replica_request todos_table "mine" demo_interest db_one with
  | (Ok r, _) => r
  | _ => {| prq_scope_id := ""; prq_scope_version := 0; interest := demo_interest;
            known_member_ids := []; prq_sync := request_a |}
  end.
Definition scope_answer : PartialReplicaResponse :=
  match merge_partial (H:=demo_json) scope_asked "device-a" state_b with
  | (Ok r, _) => r
  | _ => {| prs_scope_id := ""; prs_scope_version := 0; member_ids := [];
            evicted_row_ids := []; prs_sync := request_a |}
  end.
Definition db_partial : ClientDb :=
  db_of (complete_partial_replica_sync todos_table scope_asked scope_answer) db_asked.
Definition db_unsubscribed : ClientDb :=
  db_of (remove_partial_replica_scope todos_table "mine") db_partial.

Lemma demo_ask :
  partial_replica_request todos_table "mine" demo_interest db_one = (Ok scope_asked, db_asked).
Proof. vm_compute. reflexivity. Qed.
Lemma demo_partial_complete :
  complete_partial_replica_sync todos_table scope_asked scope_answer db_asked
    = (Ok tt, db_partial).
Proof. vm_compute. reflexivity. Qed.
Lemma demo_unsubscribe :
  remove_partial_replica_scope todos_table "mine" db_partial = (Ok tt, db_unsubscribed).
Proof. vm_compute. reflexivity. Qed.

Lemma scope_answer_typed : payload_typed (prs_sync scope_answer).
Proof. apply plain_payload_typed. by vm_compute. Qed.
Lemma db_asked_wf : client_wf todos_table db_asked.
Proof.
  pose proof demo_ask as Hask. unfold partial_replica_request in Hask.
  rewrite transactional_ok in Hask.
  exact (proj1 (partial_request_step todos_table _ _ _ _ _ db_one_wf Hask)).
Qed.
Lemma db_partial_wf : client_wf todos_table db_partial.
Proof.
  pose proof demo_partial_complete as Hrun. unfold complete_partial_replica_sync in Hrun.
  rewrite transactional_ok in Hrun.
  exact (proj1 (complete_partial_step todos_table demo_text_exact todos_table_wf _ _ _ _
    db_asked_wf scope_answer_typed Hrun)).
Qed.

Lemma partial_sync_membership_witness :
  ("mine", crdt_table todos_table, "todo-1") ∈ scope_members db_partial.
Proof.
  destruct (partial_sync_membership todos_table scope_asked scope_answer db_asked db_partial
    demo_text_exact todos_table_wf scope_answer_typed db_asked_wf demo_partial_complete)
    as [Hmembers _].
  apply Hmembers. left. split; [by vm_compute|]. apply (bool_decide_unpack _). by vm_compute.
Defined.

Lemma remove_scope_exact_witness :
  scope_state db_unsubscribed !! ("mine", crdt_table todos_table) = Some (2%Z, false).
Proof.
  destruct (remove_scope_exact todos_table "mine" db_partial db_unsubscribed db_partial_wf
    demo_unsubscribe) as (_ & Hstate & _).
  rewrite Hstate. by vm_compute.
Defined.

(** The scope is removed while its first request is on its way. *)
Definition db_withdrawn : ClientDb :=
  db_of (remove_partial_replica_scope todos_table "mine") db_asked.
Lemma demo_withdraw :
  remove_partial_replica_scope todos_table "mine" db_asked = (Ok tt, db_withdrawn).
Proof. vm_compute. reflexivity. Qed.
Lemma stale_response_rejected_witness :
  ∃ e, complete_partial_replica_sync todos_table scope_asked scope_answer db_withdrawn
       = (Err e, db_withdrawn).
Proof.
  exact (stale_response_rejected todos_table "mine" demo_interest db_one scope_asked db_asked
    db_asked db_withdrawn db_withdrawn scope_answer demo_text_exact todos_table_wf db_one_wf
    demo_ask (rtc_refl _ _) (or_intror demo_withdraw) (rtc_refl _ _)).
Defined.
End witnesses.
