(* ===== verification/SyncServer.v ===== *)
(** * What a syncing client relies on

    The interface between the edge client (src/src/client.rs) and whatever
    answers its syncs: the cells the server holds, one exchange, everything
    else that can happen to the server, and the laws that make a session
    complete. The reference server (src/src/crdt.rs) is its first instance;
    the theorems of ClientSync are proved against the interface. *)
From S2P Require Import Prelude RustStd Error Schema Crdt Lww Payload Policy State Feed Merge.
From S2P Require Import MergeTheorems FeedTheorems Client ClientFacts.

(** ** Where a device stands

    The cursor, token and epoch it stored, which a payload carries. *)
Definition start_position : CursorRow := {| cu_cursor := 0; cu_token := None; cu_epoch := None |}.
Definition payload_position (p : SyncPayload) : CursorRow :=
  {| cu_cursor := cursor p; cu_token := cursor_token p; cu_epoch := server_epoch p |}.
Definition cells_typed (m : cell_map) : Prop := ∀ k c, m !! k = Some c → value_typed (value c).

(** ** Operations *)
Class SyncServer (t : TableDef) (W : Type) := {
  srv_cells : W → cell_map;
  srv_step : W → W → Prop;
  srv_send : string → SyncPayload → stM W SyncError SyncPayload;
  srv_room : W → SyncPayload → Prop;
  srv_pages : nat → W → Prop;
  srv_ready : W → Prop;
}.

(** ** Laws

    [srv_session w z m] is abstract to the client: a device that holds [m]
    and stands at [z] continues a session with the server [w]. *)
Section answered.
Context {t : TableDef} {W : Type} `{!SyncServer t W} (session : W → CursorRow → cell_map → Prop).

(** A successful exchange: the server took the writes in and rejected none,
    its page holds cells of the server, the cursor moves forward unless it is
    reset, and a device that takes the page in stands at the new position -
    after a last page with everything the server holds. *)
Record sync_answered (m : cell_map) (w : W) (p r : SyncPayload) (w' : W) : Prop := {
  sa_absorbs : absorbs (srv_cells w) (payload_writes p) (srv_cells w');
  sa_page k c : (k, c) ∈ payload_writes r → srv_cells w' !! k = Some c;
  sa_rejections : rejections r = [];
  sa_cursor : cursor_reset r = false → (cursor p ≤ cursor r)%Z;
  sa_session m' : absorbs m (payload_writes r) m' → session w' (payload_position r) m';
  sa_last m' : has_more r = false → absorbs m (payload_writes r) m' → cells_le (srv_cells w') m';
}.
End answered.

Class SyncServerLaws (t : TableDef) (W : Type) `{!SyncServer t W} := {
  srv_session : W → CursorRow → cell_map → Prop;
  srv_start w m : srv_ready w → srv_session w start_position m;
  srv_typed w z m : srv_session w z m → cells_typed (srv_cells w);
  srv_other w w' z m :
    srv_session w z m → srv_step w w' →
    srv_session w' z m ∧ cells_le (srv_cells w) (srv_cells w');
  srv_local w z m m' : srv_session w z m → cells_le m m' → srv_session w z m';
  srv_answers w z m device p r w' :
    srv_session w z m → payload_typed p → protocol_version p = PROTOCOL_VERSION →
    payload_position p = z → srv_room w p → srv_send device p w = (Ok r, w') →
    sync_answered srv_session m w p r w';
  srv_lost w z m device p res w' :
    srv_session w z m → payload_typed p → (is_ok res = true → srv_room w p) →
    srv_send device p w = (res, w') → rtc srv_step w w';
  srv_budget w n device p r w' :
    srv_pages (S n) w → srv_send device p w = (Ok r, w') → srv_room w p ∧ srv_pages n w';
}.

(** ** Consequences *)
Section laws.
Context {t : TableDef} {W : Type} `{!SyncServer t W, !SyncServerLaws t W}.

Lemma srv_others (w w' : W) z m :
  rtc srv_step w w' → srv_session w z m →
  srv_session w' z m ∧ cells_le (srv_cells w) (srv_cells w').
Proof.
  induction 1 as [w|w w1 w2 Hstep _ IH]; intros Hs; [done|].
  destruct (srv_other _ _ _ _ Hs Hstep) as [Hs1 Hle1]. destruct (IH Hs1) as [Hs2 Hle2].
  split; [done|]. by etransitivity.
Qed.

(** What the server held before an exchange, and what it was sent, it still
    holds afterwards, or something newer. *)
Lemma answered_le (session : W → CursorRow → cell_map → Prop) m w p r w' :
  sync_answered session m w p r w' → cells_le (srv_cells w) (srv_cells w').
Proof. intros [Habs _ _ _ _ _]. by eapply absorbs_cells_le. Qed.
Lemma answered_sent (session : W → CursorRow → cell_map → Prop) m w p r w' k c :
  sync_answered session m w p r w' → (k, c) ∈ payload_writes p →
  ∃ c', srv_cells w' !! k = Some c' ∧ lww_le c c'.
Proof. intros [Habs _ _ _ _ _] Hin. apply (absorbs_above _ _ _ Habs). by right. Qed.
End laws.

(** ** The reference server *)
Section reference.
Context `{!SerdeJson}.

(** A merge of any device, under any policy. *)
Definition server_step (s s' : CrdtState) : Prop :=
  ∃ p device security r, payload_typed p ∧ has_room s p ∧
    merge_with_security p device security s = (Ok r, s').

Lemma outcome_write_newer security context current w w' :
  cell_outcome security context current w = Ok (OWrite w') →
  ∀ c, current = Some c → version_lt (metadata c) (metadata w.2).
Proof.
  unfold cell_outcome, reject_outcome. intros Hout.
  apply bind_ok in Hout as (d1 & _ & Hout). destruct d1; [|by apply bind_ok in Hout as (? & _ & ?)].
  apply bind_ok in Hout as (d2 & _ & Hout). destruct d2; [|by apply bind_ok in Hout as (? & _ & ?)].
  apply bind_ok in Hout as ([|] & Hs & [=]). by apply should_apply_true.
Qed.

Lemma merge_cells_le p device security s r s' :
  merge_with_security p device security s = (Ok r, s') → cells_le (cells s) (cells s').
Proof.
  intros (outs & pg & Hrun)%run_of_merge k c Hc.
  destruct (cells s' !! k) as [c'|] eqn:Hc'.
  - exists c'. split; [done|]. apply (run_lookup Hrun) in Hc' as [[_ Hout]|[Hold _]].
    + left. by eapply (outcome_write_newer _ _ _ (k, c')).
    + rewrite Hc in Hold. by injection Hold as ->.
  - exfalso. rewrite (run_cells Hrun) in Hc'.
    destruct (decide (k ∈ (omap outcome_write outs).*1)) as [Hin|Hnin].
    + apply list_elem_of_fmap in Hin as ([k' c1] & Hk & Hin). simpl in Hk. subst k'.
      assert (cells_after (cells s) (omap outcome_write outs) !! k = Some c1); [|congruence].
      apply cells_after_lookup; [apply (run_accepted_distinct Hrun)|by left].
    + assert (cells_after (cells s) (omap outcome_write outs) !! k = Some c); [|congruence].
      apply cells_after_lookup; [apply (run_accepted_distinct Hrun)|by right].
Qed.

Lemma merge_typed p device security s r s' :
  payload_typed p → cells_typed (cells s) →
  merge_with_security p device security s = (Ok r, s') → cells_typed (cells s').
Proof.
  intros Hp Hs (outs & pg & Hrun)%run_of_merge k c [[Hin _]|[Hc _]]%(run_lookup Hrun);
    [by eapply Hp|by eapply Hs].
Qed.

(** Under the open policy nothing is rejected. *)
Lemma merge_no_rejections p device s r s' :
  merge p device s = (Ok r, s') → rejections r = [].
Proof.
  intros (outs & pg & Hrun)%run_of_merge. destruct (rejections r) as [|x l] eqn:Hr; [done|]. exfalso.
  assert (x ∈ rejections r) as Hin by (rewrite Hr; by left).
  apply (run_rejected Hrun) in Hin as (w & _ & Hout). rewrite open_outcome in Hout.
  by destruct (should_apply _ _) as [[|]|].
Qed.

(** What a response says about the cursor it answers. *)
Lemma merge_response_cursor p device s r s' :
  state_wf s → has_room s p → merge p device s = (Ok r, s') →
  cursor_reset r = false → (cursor p ≤ cursor r)%Z.
Proof.
  intros Hwf Hroom (outs & pg & Hrun)%run_of_merge Hreset.
  destruct (run_next_bounds Hrun Hwf Hroom) as ([Hle _] & _).
  rewrite (mr_response _ _ _ _ _ _ _ _ Hrun) in Hreset. simpl in Hreset.
  unfold effective_cursor in Hle. destruct (cursor_is_valid _ device (cursor p)); [done|].
  rewrite andb_true_r in Hreset. apply negb_false_iff, Z.eqb_eq in Hreset. lia.
Qed.

Lemma merge_response_page p device s r s' k c :
  state_wf s → has_room s p → merge p device s = (Ok r, s') →
  (k, c) ∈ payload_writes r → cells s' !! k = Some c.
Proof.
  intros Hwf Hroom (outs & pg & Hrun)%run_of_merge Hin.
  by apply (response_page Hrun Hwf Hroom) in Hin as [? _].
Qed.

(** After a last page, a session has everything. *)
Lemma session_last s z m p device r s' m' :
  session s z m → has_room s p → cursor p = z → merge p device s = (Ok r, s') →
  has_more r = false → absorbs m (payload_writes r) m' → cells_le (cells s') m'.
Proof.
  intros Hs Hroom Hcur Hm Hlast Habs k c Hc.
  destruct (session_invariant _ _ _ Hs) as (Hwf & _).
  pose proof (session_sync _ _ _ _ _ _ _ _ _ Hs Hroom Hcur Hm Habs) as Hs'.
  destruct (session_invariant _ _ _ Hs') as (Hwf' & _ & Hcov'). apply Hcov'; [done|].
  destruct (run_of_merge _ _ _ _ _ _ Hm) as (outs & pg & Hrun).
  destruct (run_next_bounds Hrun Hwf Hroom) as (_ & _ & Hnext). rewrite Hnext by done.
  destruct (cell_sequence_range _ _ _ Hwf' Hc). rewrite seq_cursor_small; lia.
Qed.

Lemma merge_table p device security s r s' :
  merge_with_security p device security s = (Ok r, s') → table s' = table s.
Proof. intros (outs & pg & Hrun)%run_of_merge. apply (run_table Hrun). Qed.

Lemma merge_seq_bound p device s r s1 :
  has_room s p → merge p device s = (Ok r, s1) →
  (seq s1 ≤ seq s + MAX_PAYLOAD_CELLS)%N.
Proof.
  intros Hroom (outs & pg & Hrun)%run_of_merge.
  rewrite (mr_state _ _ _ _ _ _ _ _ Hrun). simpl.
  rewrite write_all_seq by by apply run_room with (Hrun := Hrun).
  pose proof (run_accepted_length Hrun).
  pose proof (wf_cell_count _ _ (cr_payload _ _ _ (mr_request _ _ _ _ _ _ _ _ Hrun))). lia.
Qed.

Lemma delta_room p device s r s1 :
  merge p device s = (Ok r, s1) → (seq s + MAX_PAYLOAD_CELLS ≤ I64_MAX)%N → has_room s p.
Proof.
  intros (outs & pg & Hrun)%run_of_merge Hmax. unfold has_room.
  pose proof (wf_cell_count _ _ (cr_payload _ _ _ (mr_request _ _ _ _ _ _ _ _ Hrun))). lia.
Qed.

Lemma merge_error_state p device s e s' : merge p device s = (Err e, s') → s' = s.
Proof.
  unfold merge, merge_with_security, transactional.
  by destruct (merge_inner _ _ _ _) as [[r|e'] s1]; intros [= _ <-].
Qed.

Section instance.
Variable (t : TableDef).

#[export] Instance reference_server : SyncServer t CrdtState := {
  srv_cells := cells;
  srv_step := server_step;
  srv_send device p := merge p device;
  srv_room := has_room;
  srv_pages n s := (seq s + N.of_nat n * MAX_PAYLOAD_CELLS ≤ I64_MAX)%N;
  srv_ready s := state_wf s ∧ table s = t ∧ cells_typed (cells s);
}.

Definition reference_session (s : CrdtState) (z : CursorRow) (m : cell_map) : Prop :=
  session s (cu_cursor z) m ∧ table s = t ∧ cells_typed (cells s).

#[export, refine] Instance reference_server_laws : SyncServerLaws t CrdtState :=
  { srv_session := reference_session }.
Proof.
  - intros s m (Hwf & Ht & Hty). split; [by apply session_start|done].
  - by intros s z m (_ & _ & ?).
  - intros s s' z m (Hs & Ht & Hty) (p & device & security & r & Hp & Hroom & Hm).
    split; [|by eapply merge_cells_le]. split; [by eapply session_other|].
    split; [|by eapply merge_typed]. rewrite <-Ht. by eapply merge_table.
  - intros s z m m' (Hs & Ht & Hty) Hle. split; [by eapply session_local|done].
  - intros s z m device p r s' (Hs & Ht & Hty) Hp _ <- Hroom Hm.
    change (merge p device s = (Ok r, s')) in Hm.
    destruct (session_invariant _ _ _ Hs) as (Hwf & _). split.
    + by eapply merge_absorbs.
    + intros k c. by apply (merge_response_page p device s r s').
    + by eapply merge_no_rejections.
    + by eapply merge_response_cursor.
    + intros m' Habs. split; [by eapply session_sync|].
      split; [rewrite <-Ht; by eapply merge_table|by eapply merge_typed].
    + intros m' Hlast Habs. by eapply session_last.
  - intros s z m device p [r|e] s' _ Hp Hroom Hm.
    + apply rtc_once. exists p, device, open_security, r. split_and!; [done|by apply Hroom|exact Hm].
    + by apply merge_error_state in Hm as ->.
  - intros s n device p r s' Hn Hm. cbn [srv_pages reference_server] in *.
    assert (has_room s p) as Hroom by (eapply delta_room; [exact Hm|lia]).
    split; [done|]. pose proof (merge_seq_bound _ _ _ _ _ Hroom Hm). lia.
Defined.
End instance.
End reference.
