(* ===== verification/ClientSync.v ===== *)
(** * The edge client and a server together

    Executions of a [SqliteClient] (src/client.rs) against any [SyncServer]:
    the application edits, other devices merge, and the client syncs, page
    by page. *)
From S2P Require Import Prelude RustStd Error Schema SchemaFacts Crdt Lww Payload Policy Replica.
From S2P Require Import State Feed Merge MergeTheorems FeedTheorems.
From S2P Require Import Sqlite Client ClientFacts ClientInv ClientLocal ClientAck ClientDelta.
From S2P Require Import ClientScopes ClientOps Demo ClientDemo ClientTheorems ClientReplication.
From S2P Require Import SyncServer.

(** ** Local edits *)
Section client.
Context `{!StrDebug, !SqlText_externals, !SerdeJson}.
Variable t : TableDef.

Definition is_edit (op : client_op) : bool :=
  match op with OpInsert _ _ | OpSet _ _ _ | OpDelete _ | OpRestore _ => true | _ => false end.
(** The application edits its database, successfully or not, or works on
    another table of it. *)
Inductive edit_step (db db' : ClientDb) : Prop :=
| edit_op op res :
    is_edit op = true → op_typed t op → run_op t op db = (res, db') → edit_step db db'
| edit_other : other_table t db db' → edit_step db db'.

(** What edits can do to the log: a row is the old one, or a dirty one of
    the device with a clock above the one the edits started from. *)
Record edited (clock : Z) (device : string) (db db' : ClientDb) : Prop := {
  ed_cursors : cursors db' !! crdt_table t = cursors db !! crdt_table t;
  ed_evictions : table_rows t (scope_evictions db') = table_rows t (scope_evictions db);
  ed_rows k : crdt_rows db' !! k = crdt_rows db !! k ∨
    ∃ cell, crdt_rows db' !! k = Some cell ∧ cr_dirty cell = true ∧ (clock < cr_lamport cell)%Z;
}.

Lemma captured_edited columns id row st db db1 clock device :
  (clock ≤ cs_lamport st)%Z → crdt_rows db1 = crdt_rows db → cursors db1 = cursors db →
  scope_evictions db1 = scope_evictions db →
  (∀ c, c ∈ columns → is_Some (row !! cd_name c)) → NoDup (cd_name <$> columns) →
  edited clock device db (captured columns id row st db1).
Proof.
  intros Hclock Hrows Hcur Hev Hcols Hnd. split; simpl; [by rewrite Hcur|by rewrite Hev|].
  intros k. rewrite Hrows.
  destruct (decide (k.1 = id ∧ k.2 ∈ cd_name <$> columns)) as [[Hid Hin]|Hout].
  - right. apply list_elem_of_fmap in Hin as (c & Hk & Hc).
    destruct (Hcols _ Hc) as [v Hv]. destruct k as [i name]; simpl in *; subst i name.
    rewrite (capture_column st id row columns _ c v Hnd Hc Hv).
    eexists. split; [done|]. split; [done|]. simpl. lia.
  - left. apply capture_other. destruct (decide (k.1 = id)); [right|by left]. intros ?. by apply Hout.
Qed.

Lemma local_update_edited st id column ty v row db db' clock device :
  (clock ≤ cs_lamport st)%Z → local_update st id column ty v row db db' →
  edited clock device db db'.
Proof.
  intros Hclock [old _ _|old _ _ _].
  - split; [done|done|by left].
  - apply captured_edited; [done..| |apply NoDup_singleton].
    intros c ->%list_elem_of_singleton. simpl. rewrite lookup_insert_eq. by eexists.
Qed.

Lemma edit_step_edited db db' st clock device :
  table_wf t → client_wf t db → client_state db = Some st → (clock ≤ cs_lamport st)%Z →
  edit_step db db' → edited clock device db db'.
Proof.
  intros Ht Hwf Hst Hclock [op [[]|e] Hedit Htyped Hrun|[_ Hlog [Hcur _ _ Hev] _]].
  2:{ apply run_op_clean in Hrun as ->. split; [done|done|by left]. }
  2:{ split; [done| |intros k; left; by rewrite Hlog]. apply set_eq. intros id.
      rewrite !elem_of_table_rows. by setoid_rewrite Hev. }
  pose proof (cw_state _ _ Hwf) as (st' & Hst' & Hflag & _). rewrite Hst in Hst'. injection Hst' as <-.
  destruct op; try done; simpl in Hrun.
  - destruct (proj1 (client_insert_run t _ _ _ _ st Hst Hflag) Hrun) as (_ & Hins & _ & _ & ->).
    apply captured_edited; [done..| |by apply synchronized_names_distinct].
    intros c Hc. destruct Htyped as [Htyped _].
    destruct (inserted_row_ok t values Ht Hins Htyped (cd_name c) (cd_ty c)) as (v & Hv & _).
    + apply (column_type_iff _ _ _ Ht). by destruct c.
    + by exists v.
  - destruct (proj1 (client_set_run t _ _ _ _ _ st Hst Hflag (wf_rows_ok t _ Hwf)) Hrun)
      as (_ & _ & _ & ty & sv & row & _ & _ & _ & _ & Hup). by eapply local_update_edited.
  - destruct (proj1 (client_delete_run t _ _ _ st Hst Hflag (wf_rows_ok t _ Hwf)) Hrun)
      as (_ & row & _ & _ & Hup). by eapply local_update_edited.
  - destruct (proj1 (client_restore_run t _ _ _ st Hst Hflag (wf_rows_ok t _ Hwf)) Hrun)
      as (_ & row & _ & _ & Hup). by eapply local_update_edited.
Qed.

Lemma edited_trans clock device db1 db2 db3 :
  edited clock device db1 db2 → edited clock device db2 db3 → edited clock device db1 db3.
Proof.
  intros [Hc1 He1 Hr1] [Hc2 He2 Hr2]. split; [congruence..|]. intros k.
  destruct (Hr2 k) as [Heq|Hnew]; [|by right]. destruct (Hr1 k) as [Heq'|Hnew']; [left; congruence|].
  right. destruct Hnew' as (cell & Hk & ? & ?). exists cell. by rewrite Heq.
Qed.

Lemma edit_steps db db' st :
  f64_text_exact → table_wf t → client_wf t db → client_state db = Some st →
  rtc edit_step db db' →
  client_wf t db' ∧ edited (cs_lamport st) (cs_device_id st) db db' ∧
  ∃ st', client_state db' = Some st' ∧ cs_device_id st' = cs_device_id st ∧
    (cs_lamport st ≤ cs_lamport st')%Z.
Proof.
  intros Hfloat Ht Hwf Hst Hsteps.
  assert (∀ db1 st1 clock device, client_wf t db1 → client_state db1 = Some st1 →
    (clock ≤ cs_lamport st1)%Z → rtc edit_step db1 db' →
    client_wf t db' ∧ edited clock device db1 db' ∧
    ∃ st', client_state db' = Some st' ∧ cs_device_id st' = cs_device_id st1 ∧
      (cs_lamport st1 ≤ cs_lamport st')%Z) as Hgen.
  { clear Hsteps Hwf Hst. intros db1 st1 clock device Hwf Hst Hclock Hsteps.
    revert st1 Hst Hclock. induction Hsteps as [db1|db1 db2 db3 Hstep Hsteps IH]; intros st1 Hst Hclock.
    - split; [done|]. split; [split; [done|done|by left]|]. exists st1. split_and!; [done..|lia].
    - pose proof (edit_step_edited _ _ _ clock device Ht Hwf Hst Hclock Hstep) as Hed.
      destruct (client_step_step t db1 db2 Hfloat Ht Hwf) as [Hwf2 [Hadv _]].
      { destruct Hstep; [by eapply step_op|by apply step_other]. }
      destruct (Hadv _ Hst) as (st2 & Hst2 & Hdev & Hlt).
      destruct (IH Hwf2 st2 Hst2 ltac:(lia)) as (Hwf3 & Hed3 & st3 & ? & ? & ?).
      split; [done|]. split; [by eapply edited_trans|]. exists st3. split_and!; [done|congruence|lia]. }
  apply Hgen; [done..|lia|done].
Qed.

(** Edits move cells up. *)
Lemma edited_cells_le db db' st clock device :
  client_wf t db → client_wf t db' → client_state db = Some st → (cs_lamport st ≤ clock)%Z →
  edited clock device db db' → cells_le (client_cells t db) (client_cells t db').
Proof.
  intros Hwf Hwf' Hst Hclock Hed k c (cell & Hk & Hdec)%client_cells_lookup.
  destruct (ed_rows _ _ _ _ Hed k) as [Heq|(cell' & Hk' & _ & Hlt)].
  - exists c. split; [|done]. apply client_cells_lookup. exists cell. by rewrite Heq.
  - destruct (cw_state _ _ Hwf') as (st' & _ & _ & _ & _ & Htables').
    destruct (tb_cells _ _ _ _ Htables' _ _ Hk') as ((c' & Hdec' & _) & Hb' & _).
    exists c'. split; [apply client_cells_lookup; eauto|]. left. left.
    destruct (cw_state _ _ Hwf) as (st0 & Hst0 & _ & _ & _ & Htables).
    rewrite Hst in Hst0. injection Hst0 as <-.
    destruct (tb_cells _ _ _ _ Htables _ _ Hk) as (_ & Hb & _).
    pose proof (decode_cell_clock _ _ _ _ Hdec). pose proof (decode_cell_clock _ _ _ _ Hdec'). lia.
Qed.

(** ** The link between a client and a server *)
Section server.
Context {W : Type} `{!SyncServer t W, !SyncServerLaws t W}.

Record linked (db : ClientDb) (w : W) : Prop := {
  lk_wf : client_wf t db;
  lk_evictions : table_rows t (scope_evictions db) = ∅;
  lk_session : srv_session w (read_cursor t db) (client_cells t db);
  lk_pushed k cell c : crdt_rows db !! k = Some cell → cr_dirty cell = false →
    decode_cell t k.2 cell = Ok c → ∃ c', srv_cells w !! k = Some c' ∧ lww_le c c';
}.

Lemma linked_server db w w' : linked db w → rtc srv_step w w' → linked db w'.
Proof.
  intros [Hwf Hev Hses Hpush] Hsteps.
  destruct (srv_others _ _ _ _ Hsteps Hses) as (Hses' & Hle).
  split; [done|done|done|].
  intros k cell c Hk Hd Hdec. destruct (Hpush _ _ _ Hk Hd Hdec) as (c1 & Hc1 & Hle1).
  destruct (Hle _ _ Hc1) as (c2 & Hc2 & Hle2). exists c2. split; [done|]. by transitivity c1.
Qed.

Lemma linked_edits db db' w :
  f64_text_exact → table_wf t → linked db w → rtc edit_step db db' → linked db' w.
Proof.
  intros Hfloat Ht [Hwf Hev Hses Hpush] Hsteps.
  pose proof (cw_state _ _ Hwf) as (st & Hst & _).
  destruct (edit_steps _ _ _ Hfloat Ht Hwf Hst Hsteps) as (Hwf' & Hed & _).
  split; [done|by rewrite (ed_evictions _ _ _ _ Hed)| |].
  - unfold read_cursor. rewrite (ed_cursors _ _ _ _ Hed).
    eapply srv_local; [exact Hses|]. by eapply edited_cells_le.
  - intros k cell c Hk Hd Hdec. destruct (ed_rows _ _ _ _ Hed k) as [Heq|(cell' & Hk' & Hd' & _)].
    + rewrite Heq in Hk. by eapply Hpush.
    + rewrite Hk in Hk'. injection Hk' as <-. congruence.
Qed.

(** The writes of the delta the device sent. *)
Lemma delta_typed db st : payload_typed (delta_payload t db st).
Proof.
  intros k c (cell & _ & _ & Hdec)%delta_writes%elem_of_dirty_writes.
  unfold decode_cell in Hdec. apply bind_ok in Hdec as (v & Hv & (? & _ & [= <-])%bind_ok).
  simpl. by eapply decode_typed.
Qed.

Lemma sent_version_self l k c cell :
  (k, c) ∈ l → decode_cell t k.2 cell = Ok c → sent_version l k cell = true.
Proof.
  intros Hin Hdec. unfold sent_version. apply existsb_exists. exists (k, c).
  rewrite <-list_elem_of_In. split; [done|]. simpl. rewrite bool_decide_true by done.
  rewrite (decode_cell_clock _ _ _ _ Hdec), (decode_cell_device _ _ _ _ Hdec).
  by rewrite Z.eqb_refl, String.eqb_refl.
Qed.
Lemma sent_version_inv l k cell :
  sent_version l k cell = true →
  ∃ c, (k, c) ∈ l ∧ cr_lamport cell = Z.of_N (lamport_clock (metadata c)).
Proof.
  intros ([k' c] & Hin%list_elem_of_In & Hm)%existsb_exists. simpl in Hm.
  apply andb_true_iff in Hm as [->%bool_decide_eq_true [Hl%Z.eqb_eq _]%andb_true_iff]. eauto.
Qed.

Lemma unrejected_all response l : rejections response = [] → unrejected response l = l.
Proof.
  intros Hr. unfold unrejected, rejected_versions. rewrite Hr. simpl.
  induction l as [|w l IH]; [done|]. rewrite list.filter_cons. case_decide as Hw.
  - by rewrite IH.
  - by apply not_elem_of_empty in Hw.
Qed.

(** What a delta is. *)
Lemma linked_delta db w p db0 :
  linked db w → local_delta t db = (Ok p, db0) →
  ∃ st, client_state db = Some st ∧ p = delta_payload t db st.
Proof.
  intros Hlinked Hdelta. unfold local_delta in Hdelta. rewrite transactional_ok in Hdelta.
  apply st_bind_ok in Hdelta as (? & ? & [-> ->]%st_get_ok & [Hp _]%st_lift_ok).
  pose proof (cw_state _ _ (lk_wf _ _ Hlinked)) as (st & Hst & _). exists st. split; [done|].
  by destruct (proj1 (get_local_delta_run t db st p Hst) Hp) as (_ & _ & -> & _).
Qed.

(** A server answers with values it holds. *)
Lemma answer_typed db w p db0 r w1 device :
  linked db w → local_delta t db = (Ok p, db0) → srv_room w p → srv_send device p w = (Ok r, w1) →
  payload_typed r.
Proof.
  intros Hlinked Hdelta Hroom Hsend.
  destruct (linked_delta db w p db0 Hlinked Hdelta) as (st & Hst & ->).
  pose proof (lk_session _ _ Hlinked) as Hses.
  assert (payload_position (delta_payload t db st) = read_cursor t db) as Hpos
    by (unfold payload_position; simpl; by destruct (read_cursor t db)).
  pose proof (srv_answers _ _ _ _ _ _ _ Hses (delta_typed db st) eq_refl Hpos Hroom Hsend) as Hans.
  eapply srv_others in Hses as [Hses _].
  2:{ eapply (srv_lost _ _ _ _ _ (Ok r)); [exact Hses|apply delta_typed|done|exact Hsend]. }
  intros k c Hin. by apply (srv_typed _ _ _ Hses k), (sa_page _ _ _ _ _ _ Hans).
Qed.

(** ** One page *)
Section page.
Hypotheses (Hfloat : f64_text_exact) (Ht : table_wf t).
Variables (db : ClientDb) (w : W) (p r : SyncPayload) (device : string).
Variables (db0 : ClientDb) (w1 : W) (db1 db2 : ClientDb).
Hypotheses (Hlinked : linked db w) (Hdelta : local_delta t db = (Ok p, db0))
  (Hroom : srv_room w p) (Hsend : srv_send device p w = (Ok r, w1))
  (Hedits : rtc edit_step db db1) (Hsync : complete_sync t p r db1 = (Ok tt, db2)).

(** The pieces of the step. *)
Record page_run (st : ClientState) (db3 : ClientDb) : Prop := {
  pg_state : client_state db = Some st;
  pg_delta : p = delta_payload t db st;
  pg_wf : client_wf t db1;
  pg_edited : edited (cs_lamport st) (cs_device_id st) db db1;
  pg_answered : sync_answered srv_session (client_cells t db1) w p r w1;
  pg_acked : after_ack t (payload_writes p) db1 =
    set_crdt_rows (acked_rows (payload_writes p) (crdt_rows db1)) db1;
  pg_typed : payload_typed r;
  pg_remote : ∃ st1, apply_run t r (after_ack t (payload_writes p) db1) st1 db3 db2;
}.

Lemma page_runs : ∃ st db3, page_run st db3.
Proof.
  destruct (linked_delta db w p db0 Hlinked Hdelta) as (st & Hst & Hp).
  destruct (edit_steps _ _ st Hfloat Ht (lk_wf _ _ Hlinked) Hst Hedits) as (Hwf1 & Hed & _).
  assert (sync_answered srv_session (client_cells t db1) w p r w1) as Hans.
  { eapply srv_answers; [|rewrite Hp; apply delta_typed|by rewrite Hp| |exact Hroom|exact Hsend].
    - eapply srv_local; [apply (lk_session _ _ Hlinked)|].
      by eapply (edited_cells_le db db1 st); [apply (lk_wf _ _ Hlinked)|..].
    - rewrite Hp. unfold payload_position. simpl. by destruct (read_cursor t db). }
  pose proof (answer_typed _ _ _ _ _ _ _ Hlinked Hdelta Hroom Hsend) as Htyped.
  pose proof (cw_state _ _ Hwf1) as (st1 & Hst1 & Hflag1 & _).
  pose proof Hsync as Hsync'. unfold complete_sync in Hsync'. rewrite transactional_ok in Hsync'.
  apply st_bind_ok in Hsync' as ([] & db1' & Hack & Happ).
  destruct (proj1 (acknowledge_response_run t _ _ _ _ st1 Hst1 Hflag1) Hack) as (_ & _ & ->).
  rewrite (unrejected_all r) in Happ by apply Hans.
  destruct (apply_remote_run t Hfloat _ _ _ Htyped Happ) as (st2 & db3 & Hrun).
  exists st, db3. split; [done..| |done|by exists st2].
  apply after_ack_no_evictions. rewrite (ed_evictions _ _ _ _ Hed). apply (lk_evictions _ _ Hlinked).
Qed.

Lemma page_absorbs st db3 :
  page_run st db3 → absorbs (client_cells t db1) (payload_writes r) (client_cells t db2).
Proof.
  intros [_ _ _ _ _ Hack _ (st1 & Hrun)].
  rewrite (ar_end _ _ _ _ _ _ Hrun).
  pose proof (ap_cells _ _ _ _ (ar_rows _ _ _ _ _ _ Hrun)) as Habs. rewrite Hack in Habs.
  change (client_cells t (begin_apply (set_crdt_rows (acked_rows (payload_writes p) (crdt_rows db1)) db1)))
    with (client_cells t (set_crdt_rows (acked_rows (payload_writes p) (crdt_rows db1)) db1)) in Habs.
  rewrite acked_cells in Habs. exact Habs.
Qed.

(** The position stored is the one of the response. *)
Lemma page_cursor st db3 : page_run st db3 → read_cursor t db2 = payload_position r.
Proof.
  intros [Hst Hp _ Hed Hans Hack _ (st1 & Hrun)].
  rewrite (ar_end _ _ _ _ _ _ Hrun). unfold read_cursor, end_apply, store_cursor. simpl.
  rewrite lookup_insert_eq. unfold payload_position. cbn [default]. f_equal.
  destruct (ap_meta _ _ _ _ (ar_rows _ _ _ _ _ _ Hrun)) as (_ & -> & _).
  rewrite Hack. simpl. rewrite (ed_cursors _ _ _ _ Hed).
  destruct (cursors db !! crdt_table t) as [row|] eqn:Hrow; [|done].
  destruct (cursor_reset r) eqn:Hreset; [done|].
  pose proof (sa_cursor _ _ _ _ _ _ Hans Hreset) as Hle.
  rewrite Hp in Hle. simpl in Hle. unfold read_cursor in Hle. rewrite Hrow in Hle. simpl in Hle. f_equal. lia.
Qed.

Lemma page_session st db3 :
  page_run st db3 → srv_session w1 (payload_position r) (client_cells t db2) ∧
  (has_more r = false → cells_le (srv_cells w1) (client_cells t db2)).
Proof.
  intros Hpage. pose proof (page_absorbs _ _ Hpage) as Habs.
  pose proof (pg_answered _ _ Hpage) as Hans. split.
  - by apply (sa_session _ _ _ _ _ _ Hans).
  - intros Hlast. by apply (sa_last _ _ _ _ _ _ Hans).
Qed.

(** A clean log row is one the server dominates. *)
Lemma page_pushed st db3 k cell c :
  page_run st db3 → crdt_rows db2 !! k = Some cell → cr_dirty cell = false →
  decode_cell t k.2 cell = Ok c → ∃ c', srv_cells w1 !! k = Some c' ∧ lww_le c c'.
Proof.
  intros [Hst Hp Hwf1 Hed Hans Hack _ (st1 & Hrun)] Hk Hd Hdec.
  pose proof (answered_le _ _ _ _ _ _ Hans) as Hle.
  pose proof (λ c0, answered_sent _ _ _ _ _ _ k c0 Hans) as Hsent.
  rewrite (ar_end _ _ _ _ _ _ Hrun) in Hk. simpl in Hk.
  destruct (ap_rows _ _ _ _ (ar_rows _ _ _ _ _ _ Hrun) k) as [Heq|(c1 & cell1 & Hin & Hk1 & _ & Hdec1 & _)].
  2:{ rewrite Hk1 in Hk. injection Hk as ->. rewrite Hdec1 in Hdec. injection Hdec as ->.
      exists c. split; [by apply (sa_page _ _ _ _ _ _ Hans)|done]. }
  rewrite Heq, Hack in Hk. simpl in Hk. rewrite acked_rows_lookup in Hk.
  destruct (crdt_rows db1 !! k) as [cell0|] eqn:Hk0; [|done]. simpl in Hk. injection Hk as Hk.
  assert (decode_cell t k.2 cell0 = Ok c) as Hdec0
    by (rewrite <-Hdec, <-Hk; by destruct (sent_version (payload_writes p) k cell0)).
  destruct (ed_rows _ _ _ _ Hed k) as [Hold|(cell' & Hnew & Hd' & Hlt)].
  - rewrite Hk0 in Hold. symmetry in Hold. destruct (cr_dirty cell0) eqn:Hd0.
    + apply Hsent. rewrite Hp. apply delta_writes, elem_of_dirty_writes. by exists cell0.
    + destruct (lk_pushed _ _ Hlinked _ _ _ Hold Hd0 Hdec0) as (c1 & Hc1 & Hle1).
      destruct (Hle _ _ Hc1) as (c2 & Hc2 & Hle2). exists c2. split; [done|]. by transitivity c1.
  - rewrite Hk0 in Hnew. injection Hnew as ->.
    destruct (sent_version (payload_writes p) k cell') eqn:Hs; [|congruence]. exfalso.
    apply sent_version_inv in Hs as (c0 & Hin & Hclock).
    rewrite Hp in Hin. apply delta_writes, elem_of_dirty_writes in Hin as (cell1 & Hk1 & _ & Hdec1).
    destruct (cw_state _ _ (lk_wf _ _ Hlinked)) as (st' & Hst' & _ & _ & _ & Htables).
    rewrite Hst in Hst'. injection Hst' as <-.
    destruct (tb_cells _ _ _ _ Htables _ _ Hk1) as (_ & Hb & _).
    pose proof (decode_cell_clock _ _ _ _ Hdec1). lia.
Qed.

Lemma page_linked : linked db2 w1.
Proof.
  destruct page_runs as (st & db3 & Hpage).
  pose proof Hpage as [_ _ Hwf1 Hed Hans Hack Htyped (st1 & Hrun)]. split.
  - pose proof Hsync as Hsync'. unfold complete_sync in Hsync'. rewrite transactional_ok in Hsync'.
    by apply (complete_sync_step t Hfloat Ht p r db1 db2).
  - rewrite (ar_end _ _ _ _ _ _ Hrun). simpl.
    destruct (ap_meta _ _ _ _ (ar_rows _ _ _ _ _ _ Hrun)) as (_ & _ & _ & _ & ->).
    rewrite Hack. simpl. rewrite (ed_evictions _ _ _ _ Hed). apply (lk_evictions _ _ Hlinked).
  - rewrite (page_cursor _ _ Hpage). apply (page_session _ _ Hpage).
  - intros k cell c. by apply (page_pushed st db3).
Qed.

(** With no edits in between, nothing is left to send. *)
Lemma page_clean k cell : db1 = db → crdt_rows db2 !! k = Some cell → cr_dirty cell = false.
Proof.
  intros Heq Hk. destruct page_runs as (st & db3 & [Hst Hp _ _ _ Hack _ (st1 & Hrun)]).
  destruct (cr_dirty cell) eqn:Hd; [|done]. exfalso.
  rewrite (ar_end _ _ _ _ _ _ Hrun) in Hk. simpl in Hk.
  destruct (ap_rows _ _ _ _ (ar_rows _ _ _ _ _ _ Hrun) k) as [Hold|(c1 & cell1 & _ & Hk1 & Hclean & _)];
    [|congruence].
  rewrite Hold in Hk. destruct (after_ack_dirty_inv t _ _ _ _ Hk Hd) as [Hk0 Hs].
  rewrite Heq in Hk0. destruct (wf_decodable t db (lk_wf _ _ Hlinked) (k, cell)) as [c Hc];
    [by apply elem_of_bt_iter|done|]. simpl in Hc.
  rewrite (sent_version_self _ k c cell) in Hs; [done| |done].
  rewrite Hp. apply delta_writes, elem_of_dirty_writes. by exists cell.
Qed.

(** The last page, undisturbed, leaves the two with the same cells. *)
Lemma page_converged : db1 = db → has_more r = false → client_cells t db2 ≡ srv_cells w1.
Proof.
  intros Heq Hlast. destruct page_runs as (st & db3 & Hpage).
  destruct (page_session _ _ Hpage) as [_ Hle]. apply cells_le_antisym; [|by apply Hle].
  intros k c (cell & Hk & Hdec)%client_cells_lookup.
  by apply (page_pushed st db3 k cell c Hpage Hk); [apply (page_clean k)|].
Qed.
End page.

(** ** Executions *)

(** One client and the server, from an initialized database: the application
    edits, other requests reach the server - also requests of this client
    whose response is lost - and the client completes syncs, possibly after
    edits and merges that happened while the response was under way. *)
Inductive execution : ClientDb → W → Prop :=
| ex_start device db w :
    bind_device device empty_db = (Ok tt, db) → srv_ready w → execution db w
| ex_edit db db' w : execution db w → edit_step db db' → execution db' w
| ex_server db w w' : execution db w → srv_step w w' → execution db w'
| ex_sync db db0 w p device r w1 db1 w2 db2 :
    execution db w → local_delta t db = (Ok p, db0) → srv_room w p →
    srv_send device p w = (Ok r, w1) → rtc edit_step db db1 → rtc srv_step w1 w2 →
    complete_sync t p r db1 = (Ok tt, db2) → execution db2 w2.

Lemma execution_linked db w :
  f64_text_exact → table_wf t → execution db w → linked db w.
Proof.
  intros Hfloat Ht. induction 1 as [device db w Hbind Hready|db db' w _ IH Hedit
    |db w w' _ IH Hstep|db db0 w p device r w1 db1 w2 db2 _ IH Hdelta Hroom Hsend Hedits Hsteps Hsync].
  - pose proof (bind_device_wf t _ _ Hbind) as Hdb. unfold bind_device in Hbind.
    rewrite st_check_ok, transactional_ok in Hbind. destruct Hbind as [_ Hbind].
    injection Hbind as <-. split; [done|done| |].
    + by apply srv_start.
    + intros k cell c Hk. by simplify_map_eq.
  - eapply linked_edits; [done..|]. by apply rtc_once.
  - eapply linked_server; [done|]. by apply rtc_once.
  - eapply linked_server; [|done].
    by apply (page_linked Hfloat Ht db w p r device db0 w1 db1 db2).
Qed.

Lemma execution_server db w w' : execution db w → rtc srv_step w w' → execution db w'.
Proof. intros Hex Hsteps. revert Hex. induction Hsteps; [done|]. intros. by eauto using ex_server. Qed.

Lemma local_delta_state db res db0 : local_delta t db = (res, db0) → db0 = db.
Proof.
  unfold local_delta, transactional, st_bind, st_get, st_lift.
  by destruct (get_local_delta t db) as [p|e]; intros [= _ <-].
Qed.

(** One exchange over a transport, whatever comes of it. *)
Lemma sync_with_cases (transport : SyncPayload → stM W SyncError SyncPayload) db w res db' w' :
  sync_with t transport (db, w) = (res, (db', w')) →
  (∃ e, res = Err e ∧ db' = db ∧ w' = w) ∨
  ∃ p answer, local_delta t db = (Ok p, db) ∧ transport p w = (answer, w') ∧
    match answer, res with
    | Ok r, Ok r' => r' = r ∧ complete_sync t p r db = (Ok tt, db')
    | _, Err _ => db' = db
    | _, _ => False
    end.
Proof.
  unfold sync_with, st_bind, on_client, on_world. simpl.
  destruct (local_delta t db) as [[p|e] db0] eqn:Hd; pose proof (local_delta_state _ _ _ Hd) as ->.
  2:{ simpl. intros [= <- <- <-]. left. by exists e. }
  simpl. destruct (transport p w) as [[r|e] w1] eqn:Hm; simpl.
  2:{ intros [= <- <- <-]. right. by exists p, (Err e). }
  destruct (complete_sync t p r db) as [[[]|e] db1] eqn:Hc; simpl.
  - unfold st_ret. intros [= <- <- <-]. right. by exists p, (Ok r).
  - intros [= <- <- <-]. right. exists p, (Ok r). split_and!; [done..|].
    unfold complete_sync, transactional in Hc.
    destruct (st_bind _ _ db) as [[[]|e'] db2]; [done|]. by injection Hc.
Qed.

Lemma sync_with_run (transport : SyncPayload → stM W SyncError SyncPayload) db w r db' w' :
  sync_with t transport (db, w) = (Ok r, (db', w')) →
  ∃ p, local_delta t db = (Ok p, db) ∧ transport p w = (Ok r, w') ∧
    complete_sync t p r db = (Ok tt, db').
Proof.
  intros [(e & [=] & _)|(p & [r'|e] & Hd & Hm & Hrest)]%sync_with_cases; [|done].
  destruct Hrest as [-> Hc]. by exists p.
Qed.

(** An attempt to sync keeps the two consistent, whether it succeeds, is
    refused, or loses its answer. *)
Lemma sync_with_execution pages device db w res db' w' :
  f64_text_exact → table_wf t → execution db w → srv_pages (S pages) w →
  sync_with t (srv_send device) (db, w) = (res, (db', w')) →
  execution db' w' ∧ (is_ok res = true → srv_pages pages w').
Proof.
  intros Hfloat Ht Hex Hpages
    [(e & -> & -> & ->)|(p & answer & Hd & Hm & Hrest)]%sync_with_cases; [done|].
  assert (is_ok answer = true → srv_room w p ∧ srv_pages pages w') as Hroom
    by (destruct answer; [intros _; by eapply srv_budget|done]).
  destruct answer as [r|e], res as [r'|e']; try done.
  - destruct Hrest as [-> Hc]. destruct Hroom as [Hroom Hpages']; [done|]. split; [|done].
    eapply (ex_sync db db w p device r w' db w' db'); [done..|apply rtc_refl|apply rtc_refl|done].
  - subst db'. split; [|done]. eapply execution_server; [done|].
    pose proof (execution_linked _ _ Hfloat Ht Hex) as Hlinked.
    destruct (linked_delta db w p db Hlinked Hd) as (st & _ & Hp).
    eapply (srv_lost _ _ _ _ p (Ok r)); 
      [apply (lk_session _ _ Hlinked)|rewrite Hp; apply delta_typed| |exact Hm]. intros _. by apply Hroom.
  - subst db'. split; [|done]. eapply execution_server; [done|].
    pose proof (execution_linked _ _ Hfloat Ht Hex) as Hlinked.
    destruct (linked_delta db w p db Hlinked Hd) as (st & _ & Hp).
    eapply (srv_lost _ _ _ _ p (Err e));
      [apply (lk_session _ _ Hlinked)|rewrite Hp; apply delta_typed|done|exact Hm].
Qed.

Lemma sync_pages_converge pages device db w r db' w' :
  f64_text_exact → table_wf t → execution db w → srv_pages pages w →
  sync_pages t (srv_send device) pages (db, w) = (Ok r, (db', w')) →
  execution db' w' ∧ has_more r = false ∧ client_cells t db' ≡ srv_cells w' ∧
  (∀ k cell, crdt_rows db' !! k = Some cell → cr_dirty cell = false).
Proof.
  intros Hfloat Ht. revert db w. induction pages as [|pages IH]; intros db w Hex Hroom; [done|].
  cbn [sync_pages]. intros (r1 & [db1 w1] & Hpage & Hrest)%st_bind_ok.
  destruct (sync_with_execution _ _ _ _ _ _ _ Hfloat Ht Hex Hroom Hpage) as [Hex1 Hpages1].
  destruct (sync_with_run _ _ _ _ _ _ Hpage) as (p & Hd & Hm & Hc).
  destruct (srv_budget _ _ _ _ _ _ Hroom Hm) as [Hp _].
  pose proof (execution_linked _ _ Hfloat Ht Hex) as Hlinked.
  destruct (has_more r1) eqn:Hmore.
  - by apply (IH db1 w1); [|apply Hpages1|].
  - apply st_ret_ok in Hrest as [-> [= -> ->]]. split; [done|]. split; [done|]. split.
    + by eapply (page_converged Hfloat Ht db w p r1 device db w1 db db1).
    + intros k cell Hk.
      by eapply (page_clean Hfloat Ht db w p r1 device db w1 db db1).
Qed.

(** C3: Syncing until caught up makes the two equal, against any server that
    meets the interface: whatever happened before - offline edits, merges of
    other devices, lost responses, failed syncs, earlier partial rounds - when
    [sync_until_caught_up] returns, the client holds exactly the cells of the
    server, has nothing left to send, and the response says there is no
    more. *)
Theorem sync_until_caught_up_converges device db w r db' w' :
  f64_text_exact → table_wf t → execution db w → srv_pages MAX_SYNC_PAGES_PER_CALL w →
  sync_until_caught_up t (srv_send device) (db, w) = (Ok r, (db', w')) →
  execution db' w' ∧ has_more r = false ∧ client_cells t db' ≡ srv_cells w' ∧
  (∀ k cell, crdt_rows db' !! k = Some cell → cr_dirty cell = false).
Proof. intros Hfloat Ht. by apply sync_pages_converge. Qed.
End server.
End client.

(** ** Against the reference server *)
Section reference.
Context `{!StrDebug, !SqlText_externals, !SerdeJson}.
Variable t : TableDef.

(** C10: In every execution the client and the reference server stay
    consistent: the client database is well formed, the server holds every
    cell the client no longer marks dirty or a newer one, and the client
    holds every cell of the server up to the cursor it stored, or a newer
    one. *)
Theorem execution_consistent db (s : CrdtState) :
  f64_text_exact → table_wf t → execution t db s →
  client_wf t db ∧
  (∀ k cell c, crdt_rows db !! k = Some cell → cr_dirty cell = false →
     decode_cell t k.2 cell = Ok c → ∃ c', cells s !! k = Some c' ∧ lww_le c c') ∧
  (∀ k c, cells s !! k = Some c →
     (Z.of_N (cell_sequence s k) ≤ cu_cursor (read_cursor t db))%Z →
     ∃ c', client_cells t db !! k = Some c' ∧ lww_le c c').
Proof.
  intros Hfloat Ht Hex. destruct (execution_linked t _ _ Hfloat Ht Hex) as [Hwf _ (Hses & _) Hpush].
  split; [done|]. split; [done|].
  by destruct (session_invariant _ _ _ Hses) as (_ & _ & Hcov).
Qed.
End reference.

(** ** Witnesses *)
Section witnesses.
#[local] Existing Instance demo_json.
#[local] Existing Instance demo_debug.
#[local] Existing Instance demo_text.

Lemma state_b_wf : state_wf state_b.
Proof.
  pose proof demo_b as Hb. unfold merge, merge_with_security in Hb.
  rewrite transactional_ok in Hb. eapply run_of_demo; [exact Hb|apply CrdtState_new_wf|].
  by vm_compute.
Qed.
Lemma state_b_typed : cells_typed (cells state_b).
Proof.
  assert (payload_typed request_b) as Hb by (apply plain_payload_typed; by vm_compute).
  eapply merge_typed; [exact Hb| |exact demo_b].
  intros k c Hc. vm_compute in Hc. by destruct k as [[|] ?].
Qed.

(** The device edits, and edits again while its first sync is under way. *)
Lemma demo_execution : execution todos_table db_synced server_one.
Proof.
  eapply (ex_sync todos_table db_one db_one state_b delta_one "device-a" answer_one server_one
    db_checked server_one db_synced).
  - apply (ex_edit _ db_new).
    + apply (ex_start _ "device-a"); [exact demo_bind|]. split; [exact state_b_wf|].
      split; [by vm_compute|exact state_b_typed].
    + apply (edit_op _ _ _ op_insert (Ok tt)); [done|exact insert_typed|exact demo_insert].
  - exact demo_delta.
  - vm_le.
  - exact demo_answer.
  - apply rtc_once, (edit_op _ _ _ op_check (Ok tt)); [done|exact check_typed|exact demo_check].
  - apply rtc_refl.
  - exact demo_complete.
Qed.

Lemma execution_consistent_witness : client_wf todos_table db_synced.
Proof.
  destruct (execution_consistent todos_table db_synced server_one demo_text_exact todos_table_wf
    demo_execution) as [Hwf _].
  exact Hwf.
Defined.

Definition caught_up : result SyncError SyncPayload * (ClientDb * CrdtState) :=
  sync_until_caught_up todos_table (λ p, merge p "device-a") (db_synced, server_one).
Definition last_answer : SyncPayload :=
  match caught_up.1 with Ok r => r | Err _ => request_a end.
Lemma demo_caught_up :
  sync_until_caught_up todos_table (λ p, merge p "device-a") (db_synced, server_one)
    = (Ok last_answer, (caught_up.2.1, caught_up.2.2)).
Proof. vm_compute. reflexivity. Qed.

Lemma sync_until_caught_up_converges_witness :
  client_cells todos_table caught_up.2.1 ≡ cells caught_up.2.2 ∧
  cells caught_up.2.2 !! ("todo-1", COMPLETED_COLUMN)
    = Some (demo_cell (VBoolean true) 2 "device-a").
Proof.
  destruct (sync_until_caught_up_converges todos_table "device-a" db_synced server_one last_answer
    caught_up.2.1 caught_up.2.2 demo_text_exact todos_table_wf demo_execution ltac:(vm_le)
    demo_caught_up) as (_ & _ & Hequal & _).
  split; [exact Hequal|by vm_compute].
Defined.
End witnesses.
