(* ===== verification/ClientTotal.v ===== *)
(** * When the client can complete a sync (src/client.rs)

    The statements that take in a response succeed on a well-formed database
    whose cells agree with the response. *)
From S2P Require Import Prelude RustStd Error Schema SchemaFacts Crdt Lww Payload Replica State.
From S2P Require Import Sqlite Client ClientFacts ClientInv ClientAck.

Section total.
Context `{!StrDebug, !SqlText_externals}.
Variable t : TableDef.

(** ** Single statements *)
Lemma exec_update_total id column v db :
  applying db → ∃ n db', exec_update t id column v any_row db = (Ok n, db').
Proof.
  intros Happ. unfold exec_update, st_bind at 1, st_get.
  destruct (app_rows db !! id) as [row|]; [|by eexists _, _].
  cbn [any_row negb]. unfold st_bind, st_modify, st_ret.
  destruct (row !! column); [|by eexists _, _].
  destruct (column_type t column); [|by eexists _, _].
  destruct (sql_is _ _); [by eexists _, _|].
  rewrite fire_trigger_applying by done. by eexists _, _.
Qed.

Lemma accepts_stored name v :
  column_accepts t name v →
  ∃ ty sql raw, column_type t name = Some ty ∧ typed_match ty v = true ∧
    crdt_to_sqlite v = Ok sql ∧ encode_sqlite_value v = Ok raw.
Proof.
  intros (ty & Hty & Hacc). exists ty.
  destruct ty, v; try done; (do 2 eexists; split_and!; [done..|reflexivity|reflexivity]).
Qed.

Lemma write_todo_column_total id name v db :
  applying db → column_accepts t name v →
  ∃ db', write_todo_column t id name v db = (Ok tt, db').
Proof.
  intros Happ (ty & sql & raw & Hty & Hm & Hsql & _)%accepts_stored.
  unfold write_todo_column. rewrite Hty, Hm. cbn [negb]. unfold st_bind, st_lift.
  rewrite Hsql. destruct (exec_update_total id name sql db Happ) as (n & db' & ->).
  by eexists.
Qed.

Lemma insert_row_total id db :
  applying db → ∃ db', insert_row_if_absent t id db = (Ok tt, db').
Proof.
  intros Happ. unfold insert_row_if_absent, exec_insert, st_bind, st_get.
  destruct (app_rows db !! id) eqn:Hrow; [by eexists|].
  rewrite Hrow. unfold st_modify. rewrite fire_trigger_applying by done. by eexists.
Qed.

(** ** Cells *)

(** A cell can be decided: the log row decodes, and is not another value of
    the same version. *)
Definition decidable_cell (db : ClientDb) (key : string * string) (c : CrdtColumn) : Prop :=
  ∀ cell, crdt_rows db !! key = Some cell →
    ∃ c0, decode_cell t key.2 cell = Ok c0 ∧ value_storable (value c0) ∧
      (metadata c0 = metadata c → value c0 ≡ value c).

Lemma should_apply_total c0 c :
  value_storable (value c0) → (metadata c0 = metadata c → value c0 ≡ value c) →
  ∃ b, should_apply (Some c0) c = Ok b.
Proof.
  intros Hs Hv. simpl. destruct (decide_lww (metadata c0) (metadata c)) eqn:Hd; [by eexists..|].
  apply decide_lww_equal in Hd. rewrite (proj2 (value_eqb_storable _ _ Hs)) by auto. by eexists.
Qed.

Lemma apply_cell_total row_id name c db :
  applying db → column_accepts t name (value c) →
  (lamport_clock (metadata c) ≤ MAX_STORABLE_LAMPORT)%N → decidable_cell db (row_id, name) c →
  ∃ db', apply_cell t row_id (name, c) db = (Ok tt, db').
Proof.
  intros Happ Hacc Hclock Hdec. unfold apply_cell. cbn [fst snd]. unfold st_bind at 1, st_get.
  assert (∃ cur b, read_local_crdt_column t (row_id, name) db = Ok cur ∧ should_apply cur c = Ok b)
    as (cur & b & Hcur & Hb).
  { unfold read_local_crdt_column. destruct (crdt_rows db !! (row_id, name)) as [cell|] eqn:Hcell;
      [|by eexists None, true].
    destruct (Hdec cell Hcell) as (c0 & -> & Hs & Hv).
    destruct (should_apply_total c0 c Hs Hv) as [b Hb]. by exists (Some c0), b. }
  unfold st_bind at 1, st_lift. rewrite Hcur. unfold st_bind at 1. rewrite Hb.
  destruct b; [|by eexists].
  destruct (write_todo_column_total row_id name (value c) db Happ Hacc) as [db1 Hw].
  destruct (accepts_stored _ _ Hacc) as (ty & sql & raw & _ & _ & _ & Hraw).
  unfold st_bind. rewrite Hw, Hraw. unfold clock_to_i64, i64_try_from_u64.
  rewrite (proj2 (N.leb_le _ _)) by (unfold MAX_STORABLE_LAMPORT, I64_MAX in *; lia).
  by eexists.
Qed.

(** ** Responses *)
Section response.
Hypothesis (Hfloat : f64_text_exact).
Variables (r : SyncPayload).
Hypotheses (Hr : server_response_wf r t) (Htyped : payload_typed r).

Definition decidable_writes (db : ClientDb) : Prop :=
  ∀ k c, (k, c) ∈ payload_writes r → decidable_cell db k c.

Lemma response_write k c :
  (k, c) ∈ payload_writes r →
  column_accepts t k.2 (value c) ∧ value_typed (value c) ∧
  (lamport_clock (metadata c) ≤ MAX_STORABLE_LAMPORT)%N.
Proof.
  intros Hin. pose proof Hin as (row & Hrow & _ & Hc)%elem_of_payload_writes.
  pose proof (wf_rows _ _ (sv_payload _ _ Hr)) as Hrows. rewrite list.Forall_forall in Hrows.
  destruct (Hrows _ Hrow) as (_ & _ & Hcells). destruct (Hcells _ _ Hc) as (Hacc & _ & Hl).
  split_and!; [done|by apply (Htyped k)|done].
Qed.

Lemma response_keys : NoDup (payload_writes r).*1.
Proof. apply NoDup_payload_writes, (wf_distinct _ _ (sv_payload _ _ Hr)). Qed.

Lemma NoDup_fst_inj (l : list cell_write) k c c' :
  NoDup l.*1 → (k, c) ∈ l → (k, c') ∈ l → c = c'.
Proof.
  intros Hnd [i Hi]%list_elem_of_lookup [j Hj]%list_elem_of_lookup.
  assert (i = j) as ->; [|by simplify_eq].
  apply (proj1 (NoDup_alt _) Hnd i j k); by rewrite list_lookup_fmap, ?Hi, ?Hj.
Qed.

Lemma cell_step_decidable key c db db' :
  (key, c) ∈ payload_writes r → cell_step t key c db db' → decidable_writes db →
  decidable_writes db'.
Proof.
  intros Hin Hstep Hdec. destruct (response_write _ _ Hin) as (Hacc & Hty & _).
  destruct Hstep as [c0 _ _|raw v Hraw _ Hclock _]; [done|].
  intros k c' Hin' cell. simpl. destruct (decide (key = k)) as [<-|Hne].
  - rewrite lookup_insert_eq. intros [= <-]. exists c.
    assert (c' = c) as -> by (eapply NoDup_fst_inj; [apply response_keys|done..]).
    split_and!; [by apply written_cell_decodes|by eapply column_accepts_storable|done].
  - rewrite lookup_insert_ne by done. by apply (Hdec k c').
Qed.

Lemma apply_row_total row db :
  row ∈ changes r → applying db → decidable_writes db →
  ∃ db', apply_row t row db = (Ok tt, db') ∧ applying db' ∧ decidable_writes db'.
Proof.
  intros Hrow Happ Hdec. unfold apply_row, st_bind.
  destruct (insert_row_total (todo_id row) db Happ) as [db1 Hins]. rewrite Hins.
  apply insert_row_applying in Hins as ->; [|done].
  apply (st_for_total _ (λ db2, applying db2 ∧ decidable_writes db2)); [by split|].
  intros [name c] db2 Hin [Happ2 Hdec2].
  assert (((todo_id row, name), c) ∈ payload_writes r) as Hw
    by (apply elem_of_payload_writes; exists row; split_and!; [done..|by apply elem_of_bt_iter in Hin]).
  destruct (response_write _ _ Hw) as (Hacc & Hty & Hl).
  destruct (apply_cell_total (todo_id row) name c db2 Happ2 Hacc Hl (Hdec2 _ _ Hw)) as [db3 Hstep].
  exists db3. split; [done|]. apply apply_cell_step in Hstep; [|done].
  split; [|by eapply cell_step_decidable].
  by apply (applied_applying t [((todo_id row, name), c)] db2), Happ2; apply cell_step_applied.
Qed.

Lemma apply_rows_total db :
  applying db → decidable_writes db →
  ∃ db', st_for (apply_row t) (changes r) db = (Ok tt, db').
Proof.
  intros Happ Hdec.
  destruct (st_for_total (apply_row t) (λ db2, applying db2 ∧ decidable_writes db2)
    (changes r) db) as (db' & Hrun & _); [done| |by exists db'].
  intros row db2 Hrow [Happ2 Hdec2]. by apply apply_row_total.
Qed.

Lemma apply_remote_total db st :
  client_state db = Some st → (0 ≤ cs_lamport st)%Z →
  (N.max (Z.to_N (cs_lamport st)) (max_observed_clock r) + 1 ≤ I64_MAX)%N →
  decidable_writes db →
  ∃ db', apply_remote_payload t r db = (Ok tt, db').
Proof.
  intros Hst Hpos Hclock Hdec. unfold apply_remote_payload.
  unfold st_bind at 1, st_lift at 1. rewrite (proj2 (validate_server_response_ok r t)) by done.
  unfold st_bind at 1. rewrite (read_state _ _ Hst). unfold st_bind at 1, st_lift at 1.
  unfold clock_from_i64 at 1, u64_try_from_i64. rewrite (proj2 (Z.leb_le _ _)) by done.
  cbn [ok_or]. unfold set_applying_remote, update_client_state. unfold st_bind at 1, st_modify at 1.
  change (set_client_state _ db) with (begin_apply db) at 1.
  destruct (apply_rows_total (begin_apply db)) as [db1 Hrun].
  { unfold applying, begin_apply. simpl. rewrite Hst. by eexists. }
  { exact Hdec. }
  unfold st_bind at 1. rewrite Hrun. unfold st_bind, st_lift, u64_checked_add.
  rewrite (proj2 (N.leb_le _ U64_MAX)) by (unfold U64_MAX, I64_MAX in *; lia). cbn [ok_or].
  unfold clock_to_i64, i64_try_from_u64. rewrite (proj2 (N.leb_le _ _)) by done. by eexists.
Qed.
End response.
End total.
