(* ===== verification/ClientProgress.v ===== *)
(** * How far one page brings a client (src/crdt.rs, src/client.rs)

    A page that promises more holds at least a given number of cells, so the
    cells a client still has to exchange become fewer with every page. *)
From S2P Require Import Prelude RustStd Error Schema SchemaFacts Crdt Lww Payload Policy Replica.
From S2P Require Import State Feed Merge MergeTheorems FeedTheorems.

Section progress.
Context `{!SerdeJson}.

(** The bytes a cell takes in a page ([fill_page]). *)
Definition cell_bytes_le (bound : N) (k : string * string) (c : CrdtColumn) : Prop :=
  ∀ json, column_json_len c = Ok json → (json + str_len k.1 + str_len k.2 ≤ bound)%N.
Definition small_cells (bound : N) (m : cell_map) : Prop :=
  ∀ k c, m !! k = Some c → cell_bytes_le bound k c.

(** A page that could not take every candidate is full. *)
Lemma fill_page_full bound quota l p pg :
  (quota ≤ MAX_RESPONSE_CELLS)%N → (quota * bound ≤ MAX_RESPONSE_BYTES)%N →
  (∀ e, e ∈ l → cell_bytes_le bound e.1.2 e.2) →
  (page_bytes p ≤ page_included p * bound)%N → (1 ≤ bound)%N →
  fill_page l p = Ok pg →
  (page_included pg < page_included p + N.of_nat (length l))%N →
  (quota ≤ page_included pg)%N.
Proof.
  intros Hq Hqb. revert p. induction l as [|[[n [row column]] c] l IH]; intros p Hl Hp Hb.
  { intros [= ->]. cbn [length]. lia. }
  cbn [fill_page]. intros (json & Hjson & Hif)%bind_ok Hlt.
  pose proof (Hl (n, (row, column), c) ltac:(by left) json Hjson) as Hc. simpl in Hc.
  destruct (_ || _) eqn:Hguard.
  - injection Hif as <-. apply orb_true_iff in Hguard as [Hg%N.leb_le|Hg]; [lia|].
    apply andb_true_iff in Hg as [_ Hg%N.ltb_lt]. nia.
  - eapply IH; [| |done|exact Hif|].
    + intros e He. apply Hl. by right.
    + simpl. nia.
    + simpl. cbn [length] in Hlt. lia.
Qed.

(** ** What a device has not been told *)
Definition untold (s : CrdtState) (device : string) (z : Z) : nat :=
  length (candidates s (effective_cursor s device z)).

Lemma NoDup_keys_candidates s z : NoDup ((λ e : Candidate, e.1.2) <$> candidates s z).
Proof.
  pose proof (NoDup_candidate_keys s z) as Hnd. by rewrite <-list_fmap_compose in Hnd.
Qed.

(** Fewer keys, fewer candidates. *)
Lemma candidates_bound s z (keys : list (string * string)) :
  (∀ n k c, (n, k, c) ∈ candidates s z → k ∈ keys) → (length (candidates s z) ≤ length keys)%nat.
Proof.
  intros Hin. rewrite <-(length_fmap (λ e : Candidate, e.1.2)).
  apply submseteq_length, NoDup_submseteq; [apply NoDup_keys_candidates|].
  intros k ([[n k'] c] & -> & He)%list_elem_of_fmap. by eapply Hin.
Qed.

Section page.
Variables (bound quota : N) (p r : SyncPayload) (device : string) (s s' : CrdtState).
Hypotheses (Hwf : state_wf s) (Hroom : has_room s p) (Hmerge : merge p device s = (Ok r, s')).

(** The server itself has at most the request's writes more to tell. *)
Lemma merge_untold m outs pg :
  merge_run open_security p device s outs pg r s' →
  m = merged_state s p (omap outcome_write outs) →
  (length (candidates m (effective_cursor m device (cursor p)))
   ≤ untold s device (cursor p) + total_cells (changes p))%nat.
Proof.
  intros Hrun Hm.
  rewrite <-length_payload_writes, <-(length_fmap fst (payload_writes p)). unfold untold.
  rewrite <-(length_fmap (λ e : Candidate, e.1.2) (candidates s _)), <-length_app.
  assert (effective_cursor m device (cursor p) = effective_cursor s device (cursor p)) as Heff.
  { destruct (write_all_frame s (omap outcome_write outs)) as (_ & _ & Hi).
    pose proof (run_room Hrun Hroom) as Hr.
    pose proof (write_all_seq s _ Hr) as Hseq. pose proof (sw_seq _ Hwf) as Hmax.
    unfold effective_cursor, cursor_is_valid. subst m. simpl. rewrite Hi, Hseq.
    rewrite !seq_cursor_small by lia.
    destruct (cursor p =? 0)%Z eqn:H0; [done|]. cbn [orb].
    destruct (issued_cursors s !! device) as [z|] eqn:Hz; simpl.
    - apply (sw_issued _ Hwf) in Hz. rewrite seq_cursor_small in Hz by done.
      destruct (Z.leb_spec (cursor p) z); [|by rewrite !andb_false_r].
      by rewrite !(proj2 (Z.leb_le _ _)) by lia.
    - pose proof (wf_cursor _ _ (cr_payload _ _ _ (mr_request _ _ _ _ _ _ _ _ Hrun))).
      apply Z.eqb_neq in H0. by rewrite (proj2 (Z.leb_gt _ 0)), !andb_false_r by lia. }
  rewrite Heff. apply candidates_bound. intros n k c (Hc & -> & Hlt)%elem_of_candidates.
  apply elem_of_app.
  assert (cells m = cells s' ∧ cell_sequence m k = cell_sequence s' k) as [Hcells Hseqk]
    by (subst m; by rewrite (mr_state _ _ _ _ _ _ _ _ Hrun)).
  rewrite Hcells in Hc. rewrite Hseqk in Hlt.
  apply (run_lookup Hrun) in Hc as Hc'. destruct Hc' as [[Hin _]|[Hold Hnone]].
  - right. apply list_elem_of_fmap. by exists (k, c).
  - destruct (run_sequence Hrun Hroom k) as [[_ Hsame]|Hnew].
    + left. apply list_elem_of_fmap. exists (cell_sequence s k, k, c). split; [done|].
      apply elem_of_candidates. by rewrite <-Hsame.
    + right. apply list_elem_of_fmap.
      rewrite (mr_state _ _ _ _ _ _ _ _ Hrun) in Hnew. unfold cell_sequence in Hnew. simpl in Hnew.
      destruct (decide (k ∈ (omap outcome_write outs).*1)) as [Hk|Hk].
      * apply list_elem_of_fmap in Hk as (w & -> & [Hw _]%(run_accepted Hrun)). by exists w.
      * rewrite write_all_cell_seq_old in Hnew by done.
        destruct (cell_sequence_range _ _ _ Hwf Hold) as [? _]. unfold cell_sequence in *. lia.
Qed.

(** A page that promises more leaves [quota] cells fewer to tell. *)
Lemma merge_progress :
  (quota ≤ MAX_RESPONSE_CELLS)%N → (quota * bound ≤ MAX_RESPONSE_BYTES)%N → (1 ≤ bound)%N →
  small_cells bound (cells s') → has_more r = true →
  (untold s' device (cursor r) + N.to_nat quota
   ≤ untold s device (cursor p) + total_cells (changes p))%nat.
Proof.
  intros Hq Hqb Hb Hsmall Hmore. destruct (run_of_merge _ _ _ _ _ _ Hmerge) as (outs & pg & Hrun).
  pose proof (merge_untold _ outs pg Hrun eq_refl) as Hle.
  pose proof (run_wf Hrun Hwf Hroom) as Hwf'. pose proof (merged_wf Hrun Hwf Hroom) as Hmwf.
  pose proof (run_next_bounds Hrun Hwf Hroom) as (Hb1 & _ & _). cbv zeta in Hb1.
  set (m := merged_state s p (omap outcome_write outs)) in *.
  set (z := effective_cursor m device (cursor p)) in *.
  pose proof (mr_page _ _ _ _ _ _ _ _ Hrun) as Hpg. cbv zeta in Hpg. fold m z in Hpg.
  pose proof (mr_response _ _ _ _ _ _ _ _ Hrun) as Hr. cbv zeta in Hr. fold m z in Hr.
  pose proof (mr_state _ _ _ _ _ _ _ _ Hrun) as Hs'. cbv zeta in Hs'. fold m z in Hs'.
  assert (page_more m z pg = true) as Hpm by by rewrite Hr in Hmore.
  assert (cursor r = page_cursor pg) as Hcur by (rewrite Hr; simpl; unfold page_next; by rewrite Hpm).
  destruct (page_split m z pg Hmwf Hpg)
    as (taken & rest & Hsplit & _ & Hinc & _ & _ & Htaken & _ & _).
  assert (quota ≤ N.of_nat (length taken))%N as Hfull.
  { rewrite <-Hinc. apply (fill_page_full bound quota (candidates m z) (start_page z) pg Hq Hqb); [|simpl; lia|done|exact Hpg|].
    - intros [[n k] c] (Hc & _)%elem_of_candidates. apply Hsmall. by rewrite Hs'.
    - unfold page_more in Hpm. apply N.ltb_lt in Hpm. simpl. lia. }
  assert (effective_cursor s' device (cursor r) = cursor r) as Heff.
  { unfold effective_cursor. assert (cursor_is_valid s' device (cursor r) = true) as ->; [|done].
    unfold cursor_is_valid. apply orb_true_iff. right. apply andb_true_iff.
    split; [apply Z.leb_le; lia|]. apply Z.leb_le.
    assert (issued_cursors s' = issue_cursor device (cursor r) (issued_cursors m)) as ->
      by (rewrite Hs', Hr; done).
    unfold issue_cursor.
    destruct (issued_cursors m !! device); rewrite lookup_insert_eq; cbn [default]; simpl; lia. }
  unfold untold at 1. rewrite Heff.
  assert (length (candidates s' (cursor r)) ≤ length rest)%nat as Hrest.
  { rewrite <-(length_fmap (λ e : Candidate, e.1.2) rest). apply candidates_bound.
    intros n k c (Hc & -> & Hlt)%elem_of_candidates.
    assert ((cell_sequence m k, k, c) ∈ candidates m z) as Hin.
    { apply elem_of_candidates. rewrite Hs' in Hc, Hlt. simpl in Hc. split_and!; [done|done|].
      change (cell_sequence (set_issued_cursors _ m) k) with (cell_sequence m k) in Hlt. lia. }
    rewrite Hsplit in Hin. apply elem_of_app in Hin as [Hin|Hin].
    - specialize (Htaken _ Hin). simpl in Htaken. rewrite Hs' in Hlt.
      change (cell_sequence (set_issued_cursors _ m) k) with (cell_sequence m k) in Hlt. lia.
    - apply list_elem_of_fmap. by exists (cell_sequence m k, k, c). }
  rewrite Hsplit, length_app in Hle. lia.
Qed.
End page.
End progress.
