(* ===== verification/LiveServer.v ===== *)
(** * A server that answers

    What a client relies on to come to an end of its syncs: within the limits
    of the server every well-formed request is answered, the answer is valid,
    and a page that promises more leaves a quota of cells fewer to tell. The
    reference server (src/src/crdt.rs) is its first instance. *)
From S2P Require Import Prelude RustStd Error Schema Crdt Lww Payload Policy State Feed Merge.
From S2P Require Import MergeTheorems FeedTheorems Client ClientFacts ClientTotal ClientProgress.
From S2P Require Import SyncServer.

(** Where two replicas hold the same version of a cell, it has the same
    value: nobody reused a clock. *)
Definition versions_agree (m m' : cell_map) : Prop :=
  ∀ k c c', m !! k = Some c → m' !! k = Some c' → metadata c = metadata c' → value c ≡ value c'.

(** ** Operations *)
Class LiveServer (t : TableDef) (W : Type) := {
  srv_clock : W → N;
  srv_untold : W → string → CursorRow → nat;
  srv_takes : CrdtColumn → Prop;
  srv_cell_le : N → cell_key → CrdtColumn → Prop;
  srv_live : nat → string → W → Prop;
}.

(** ** Laws *)
Section served.
Context {t : TableDef} {W : Type} `{!SyncServer t W, !LiveServer t W}.

(** A request the server can take. *)
Record servable (w : W) (device : string) (p : SyncPayload) : Prop := {
  se_request : client_request_wf p device t;
  se_typed : payload_typed p;
  se_version : protocol_version p = PROTOCOL_VERSION;
  se_advance : (source_lamport p ≤ srv_clock w + MAX_CLOCK_ADVANCE_PER_SYNC)%N;
  se_clock : (N.max (srv_clock w) (source_lamport p) + 1 ≤ MAX_STORABLE_LAMPORT)%N;
  se_takes k c : (k, c) ∈ payload_writes p → srv_takes c;
  se_agree k c c' : (k, c) ∈ payload_writes p → srv_cells w !! k = Some c' →
    metadata c' = metadata c → value c' ≡ value c;
}.

(** What it answers. *)
Record served_page (n : nat) (device : string) (w : W) (p r : SyncPayload) (w' : W) : Prop := {
  sg_valid : server_response_wf r t;
  sg_source : source_lamport r = srv_clock w';
  sg_clock : srv_clock w' = (N.max (srv_clock w) (source_lamport p) + 1)%N;
  sg_room : srv_room w p;
  sg_live : srv_live n device w';
  sg_progress bound quota :
    (quota ≤ MAX_RESPONSE_CELLS)%N → (quota * bound ≤ MAX_RESPONSE_BYTES)%N → (1 ≤ bound)%N →
    (∀ k c, srv_cells w' !! k = Some c → srv_cell_le bound k c) → has_more r = true →
    (srv_untold w' device (payload_position r) + N.to_nat quota
     ≤ srv_untold w device (payload_position p) + total_cells (changes p))%nat;
}.
End served.

Class LiveServerLaws (t : TableDef) (W : Type)
    `{!SyncServer t W, !SyncServerLaws t W, !LiveServer t W} := {
  srv_serves w z m n device p :
    srv_session w z m → srv_live (S n) device w → payload_position p = z → servable w device p →
    ∃ r w', srv_send device p w = (Ok r, w') ∧ served_page n device w p r w';
}.

(** A request whose versions the server does not know otherwise is decided
    cell by cell. *)
Lemma agreeing_outcome (current : option CrdtColumn) c :
  (∀ c', current = Some c' → value_storable (value c') ∧
     (metadata c' = metadata c → value c' ≡ value c)) →
  ∃ b, should_apply current c = Ok b.
Proof.
  intros Hc. destruct current as [c'|]; [|by eexists]. destruct (Hc c' eq_refl).
  by apply should_apply_total.
Qed.

(** ** The reference server *)
Section reference.
Context `{!SerdeJson}.
Variable (t : TableDef).

#[export] Instance reference_live : LiveServer t CrdtState := {
  srv_clock := global_lamport;
  srv_untold s device z := untold s device (cu_cursor z);
  srv_takes _ := True;
  srv_cell_le := cell_bytes_le;
  srv_live n _ s := (seq s + N.of_nat n * MAX_PAYLOAD_CELLS ≤ I64_MAX)%N;
}.

Lemma reference_live_laws : serde_total → LiveServerLaws t CrdtState.
Proof.
  intros Hserde. split. intros s z m n device p (Hs & Ht & Hty) Hlive _ Hp.
  cbn [srv_live reference_live] in Hlive.
  destruct (session_invariant _ _ _ Hs) as (Hwf & _). pose proof (se_request _ _ _ Hp) as Hreq.
  assert (has_room s p) as Hroom.
  { unfold has_room. pose proof (wf_cell_count _ _ (cr_payload _ _ _ Hreq)). lia. }
  assert (∃ r s', merge p device s = (Ok r, s')) as (r & s' & Hm).
  { apply merge_inner_success; [done..|]. rewrite Ht. split_and!; [done|apply Hp| |].
    - pose proof (se_clock _ _ _ Hp) as Hc. cbn in Hc. unfold MAX_STORABLE_LAMPORT, I64_MAX, U64_MAX in *. lia.
    - intros [k c] Hin. rewrite open_outcome.
      destruct (agreeing_outcome (cells s !! k) c) as [b Hb]; [|cbn [fst snd]; rewrite Hb; by eexists].
      intros c' Hc'. split; [|by apply (se_agree _ _ _ Hp k)].
      destruct (sw_cells _ Hwf _ _ Hc') as (_ & Hacc & _). by eapply column_accepts_storable. }
  exists r, s'. split; [exact Hm|].
  destruct (run_of_merge _ _ _ _ _ _ Hm) as (outs & pg & Hrun).
  assert (source_lamport r = global_lamport s') as Hsrc
    by (rewrite (run_clock Hrun); by rewrite (mr_response _ _ _ _ _ _ _ _ Hrun)).
  split; [|done|apply (run_clock Hrun)|done| |].
  - rewrite <-Ht. apply (response_wf Hrun Hwf Hroom). rewrite (run_clock Hrun). apply Hp.
  - pose proof (merge_seq_bound _ _ _ _ _ Hroom Hm). cbn [srv_live reference_live]. lia.
  - intros bound quota Hq Hqb Hb Hsmall Hmore.
    by apply (merge_progress bound quota p r device s s' Hwf Hroom Hm).
Qed.
End reference.
