(* ===== verification/SharedServer.v ===== *)
(** * One server behind several tables

    A server holds the tables of a contract side by side: a sync of one
    table reads and writes its own relations, and what it does to the ones
    the tables share - clocks, sequences, leases - is to the other tables a
    step they do not notice. The interface, the view of one table, and the
    reference servers (src/src/crdt.rs), which share nothing. *)
From S2P Require Import Prelude RustStd Error Schema Crdt Lww Payload Policy State Feed Merge.
From S2P Require Import MergeTheorems FeedTheorems Client ClientFacts SyncServer.
From S2P Require Import ClientTotal ClientProgress LiveServer.

(** ** What the tables of one server owe each other *)
Class SharedServer (tables : list TableDef) (W : Type) `{srv : !∀ t, SyncServer t W} := {
  shared_send t u device p w res w' :
    t ∈ tables → u ∈ tables → td_name u ≠ td_name t → payload_typed p →
    srv_send (t:=u) device p w = (res, w') →
    rtc (srv_step (t:=t)) w w' ∧ srv_cells (t:=t) w' = srv_cells (t:=t) w ∧
    ∀ n, srv_pages (t:=t) n w → srv_pages (t:=t) n w';
}.

(** What they owe each other for every sync to come to an end: one exchange
    of another table uses up at most one of the exchanges a table has left,
    tells the device nothing, and moves the clock no further than that
    table's own. *)
Class SharedLive (tables : list TableDef) (W : Type)
    `{srv : !∀ t, SyncServer t W, live : !∀ t, LiveServer t W} := {
  shared_fewer t n device w : t ∈ tables → srv_live (t:=t) (S n) device w → srv_live (t:=t) n device w;
  shared_live t u n device p w r w' :
    t ∈ tables → u ∈ tables → td_name u ≠ td_name t → client_request_wf p device u →
    srv_live (t:=t) (S n) device w → srv_send (t:=u) device p w = (Ok r, w') →
    srv_live (t:=t) n device w' ∧
    (∀ z, srv_untold (t:=t) w' device z = srv_untold (t:=t) w device z) ∧
    (srv_clock (t:=t) w ≤ srv_clock (t:=t) w' ≤ N.max (srv_clock (t:=t) w) (srv_clock (t:=u) w'))%N;
}.

(** ** Tables seen through a view

    [view_ok] is what the names of a table need for its relations to be
    relations of their own. *)
Class TableView (S V : Type) := {
  view : TableDef → S → V;
  put : TableDef → V → S → S;
  view_ok : TableDef → Prop;
  view_put t v s : view_ok t → view t (put t v s) = v;
}.

Section view.
Context {S V : Type} `{!TableView S V}.
Variable (t : TableDef).
Hypothesis (Hok : view_ok t).

Definition through {A} (m : stM V SyncError A) : stM S SyncError A := λ s,
  let '(r, v) := m (view t s) in (r, put t v s).

Lemma through_run {A} (m : stM V SyncError A) s r s' :
  through m s = (r, s') → m (view t s) = (r, view t s') ∧ s' = put t (view t s') s.
Proof.
  unfold through. destruct (m (view t s)) as [r1 v]. intros [= <- <-]. by rewrite view_put.
Qed.

Section server.
Context `{srv : !SyncServer t V}.

Definition viewed_server : SyncServer t S := {|
  srv_cells s := srv_cells (view t s);
  srv_step s s' := view t s' = view t s ∨ srv_step (view t s) (view t s');
  srv_send device p := through (srv_send device p);
  srv_room s := srv_room (view t s);
  srv_pages n s := srv_pages n (view t s);
  srv_ready s := srv_ready (view t s);
|}.

(** A step of the table, and one that leaves it alone, are steps of the
    whole as this table sees it. *)
Lemma viewed_same s s' :
  view t s' = view t s → rtc (srv_step (SyncServer := viewed_server)) s s'.
Proof. intros Heq. apply rtc_once. by left. Qed.
Lemma viewed_steps s s' :
  rtc (srv_step (SyncServer := srv)) (view t s) (view t s') →
  rtc (srv_step (SyncServer := viewed_server)) s s'.
Proof.
  remember (view t s) as v eqn:Hv. remember (view t s') as v' eqn:Hv'. intros Hsteps.
  revert s Hv. induction Hsteps as [v|v v1 v2 Hstep Hsteps IH]; intros s Hv.
  - apply viewed_same. congruence.
  - apply rtc_l with (put t v1 s); [right; by rewrite view_put, <-Hv|].
    apply IH; [done|by rewrite view_put].
Qed.
Lemma viewed_env (R : V → V → Prop) s s' :
  (∀ v v', R v v' → srv_step (SyncServer := srv) v v') →
  view t s' = view t s ∨ R (view t s) (view t s') →
  srv_step (SyncServer := viewed_server) s s'.
Proof. intros Hsub [?|?%Hsub]; [by left|by right]. Qed.

Definition viewed_session `{laws : !SyncServerLaws t V} (s : S) : CursorRow → cell_map → Prop :=
  srv_session (view t s).

#[refine] Definition viewed_server_laws `{laws : !SyncServerLaws t V} :
    SyncServerLaws (SyncServer0 := viewed_server) t S := {| srv_session := viewed_session |}.
Proof.
  - intros s m Hs. by apply (srv_start (view t s)).
  - intros s z m Hs. by apply (srv_typed (view t s) z m).
  - intros s s' z m Hs [Heq|Hstep]; [|by apply (srv_other (view t s) (view t s') z m Hs)].
    unfold viewed_session. cbn [srv_cells viewed_server]. by rewrite Heq.
  - intros s z m m' Hs. by apply (srv_local (view t s) z m).
  - intros s z m device p r s' Hs Hp Hv Hz Hroom [Hm ->]%through_run.
    destruct (srv_answers _ _ _ _ _ _ _ Hs Hp Hv Hz Hroom Hm) as [H1' H2' H3' H4' H5' H6'].
    split; cbn [srv_cells viewed_server]; rewrite ?view_put by exact Hok; try done.
    unfold viewed_session. by rewrite view_put.
  - intros s z m device p res s' Hs Hp Hroom [Hm _]%through_run.
    apply viewed_steps. by eapply srv_lost.
  - intros s n device p r s' Hn [Hm ->]%through_run.
    cbn [srv_pages srv_room viewed_server] in *. rewrite view_put by exact Hok. by eapply srv_budget.
Defined.

(** ** Its liveness *)
Section live.
Context `{laws : !SyncServerLaws t V, live : !LiveServer t V}.

Definition viewed_live : LiveServer t S := {|
  srv_clock s := srv_clock (view t s);
  srv_untold s := srv_untold (view t s);
  srv_takes := srv_takes (LiveServer := live);
  srv_cell_le := srv_cell_le (LiveServer := live);
  srv_live n device s := srv_live n device (view t s);
|}.

Lemma viewed_live_laws :
  LiveServerLaws t V →
  LiveServerLaws (SyncServer0 := viewed_server) (SyncServerLaws0 := viewed_server_laws)
    (LiveServer0 := viewed_live) t S.
Proof.
  intros Hlive. split. intros s z m n device p Hs Hn Hz [Hq1 Hq2 Hq3 Hq4 Hq5 Hq6 Hq7].
  destruct (srv_serves (view t s) z m n device p Hs Hn Hz) as (r & v & Hm & [R1 R2 R3 R4 R5 R6]);
    [by split|].
  exists r, (put t v s). split.
  - cbn [srv_send viewed_server]. unfold through. by rewrite Hm.
  - split; cbn [srv_clock srv_cells srv_live srv_untold srv_room srv_cell_le viewed_live viewed_server];
      rewrite ?view_put by exact Hok; done.
Qed.
End live.
End server.
End view.

(** ** The reference servers, one for each table *)
Section reference.
Context `{!SerdeJson}.

#[export, refine] Instance states_view : TableView (gmap string CrdtState) CrdtState := {|
  view t states := default (CrdtState_new t) (states !! td_name t);
  put t s states := <[td_name t := s]> states;
  view_ok _ := True;
|}.
Proof. intros t s states _. by rewrite lookup_insert_eq. Defined.

Lemma states_ok t : view_ok (S:=gmap string CrdtState) (V:=CrdtState) t.
Proof. exact I. Defined.
#[export] Instance states_server t : SyncServer t (gmap string CrdtState) :=
  viewed_server t (V := CrdtState).
#[export] Instance states_server_laws t : SyncServerLaws t (gmap string CrdtState) :=
  viewed_server_laws t (states_ok t).
#[export] Instance states_live t : LiveServer t (gmap string CrdtState) :=
  viewed_live t (V := CrdtState).
Lemma states_live_laws : serde_total → ∀ t, LiveServerLaws t (gmap string CrdtState).
Proof. intros Hserde t. by apply (viewed_live_laws t (states_ok t)), reference_live_laws. Qed.

Lemma states_other t u device p states res states' :
  td_name u ≠ td_name t → srv_send (t:=u) device p states = (res, states') →
  view t states' = view t states.
Proof.
  intros Hne [_ ->]%(through_run u (states_ok u)). cbn [view put states_view]. by rewrite lookup_insert_ne.
Qed.

#[export] Instance states_shared tables : SharedServer tables (gmap string CrdtState).
Proof.
  split. intros t u device p states res states' _ _ Hne _ Hsend%(states_other t); [|done].
  split; [by apply viewed_same|].
  cbn [srv_cells srv_pages states_server viewed_server]. by rewrite Hsend.
Qed.
Lemma states_shared_live tables : SharedLive tables (gmap string CrdtState).
Proof.
  split.
  { intros t n device states _. cbn [srv_live states_live viewed_live reference_live]. lia. }
  intros t u n device p states r states' _ _ Hne _ Hlive Hsend%(states_other t); [|done].
  cbn [srv_live srv_untold srv_clock states_live viewed_live] in *. rewrite Hsend.
  split; [|split; [done|lia]]. cbn [srv_live reference_live] in *. lia.
Qed.
End reference.
