(* ===== verification/ClientTermination.v ===== *)
(** * Syncing until caught up returns (src/client.rs, [sync_until_caught_up])

    Each page succeeds, leaves a quota of cells fewer to exchange when it
    promises more, and so the page budget is enough for a given amount of
    work. *)
From S2P Require Import Prelude RustStd Error Schema SchemaFacts Crdt Lww Payload Policy Replica.
From S2P Require Import State Feed Merge MergeTheorems FeedTheorems.
From S2P Require Import Sqlite Client ClientFacts ClientInv ClientLocal ClientAck ClientDelta.
From S2P Require Import ClientScopes ClientOps Demo ClientDemo ClientReplication SyncServer ClientSync.
From S2P Require Import ClientTotal ClientProgress LiveServer.

Section client.
Context `{!StrDebug, !SqlText_externals, !SerdeJson}.
Variable t : TableDef.
Context {W : Type} `{!SyncServer t W, !SyncServerLaws t W, !LiveServer t W, !LiveServerLaws t W}.

(** What a client and a server still have to exchange. *)
Definition remaining (device : string) (db : ClientDb) (w : W) : nat :=
  srv_untold w device (read_cursor t db) + length (dirty_writes t db).

(** The limits that a sync of some pages must respect. *)
Definition cells_fit (bound : N) (m : cell_map) : Prop :=
  ∀ k c, m !! k = Some c → srv_cell_le bound k c.
Record sync_ready (bound : N) (device : string) (pages : nat) (db : ClientDb) (w : W)
    (st : ClientState) : Prop := {
  sr_state : client_state db = Some st;
  sr_own : cs_device_id st = device;
  sr_device : device ≠ SERVER_DEVICE_ID;
  sr_rows : (N.of_nat (length (row_changes (group_rows (dirty_writes t db)))) ≤ MAX_PAYLOAD_ROWS)%N;
  sr_cells : (N.of_nat (length (dirty_writes t db)) ≤ MAX_PAYLOAD_CELLS)%N;
  sr_takes k c : (k, c) ∈ dirty_writes t db → srv_takes c;
  sr_agree : versions_agree (client_cells t db) (srv_cells w);
  sr_small : cells_fit bound (client_cells t db) ∧ cells_fit bound (srv_cells w);
  sr_advance : (Z.to_N (cs_lamport st) ≤ srv_clock w + MAX_CLOCK_ADVANCE_PER_SYNC)%N;
  sr_clock : (N.max (srv_clock w) (Z.to_N (cs_lamport st)) + 2 * N.of_nat pages
              ≤ MAX_STORABLE_LAMPORT)%N;
  sr_live : srv_live pages device w;
}.

Lemma absorbs_agree m m' l m1 :
  absorbs m' l m1 → versions_agree m m' → (∀ k c, (k, c) ∈ l → m !! k = Some c) →
  versions_agree m m1.
Proof.
  intros [Hor _] Hag Hl k c c' Hc [Hc'|Hin]%Hor Hm; [by eapply Hag|].
  apply Hl in Hin. rewrite Hc in Hin. by injection Hin as ->.
Qed.
Lemma absorbs_fit bound m l m' :
  absorbs m l m' → cells_fit bound m → (∀ k c, (k, c) ∈ l → srv_cell_le bound k c) →
  cells_fit bound m'.
Proof. intros [Hor _] Hm Hl k c [Hc|Hin]%Hor; [by apply Hm|by apply Hl]. Qed.

Lemma dirty_in_cells db k c : (k, c) ∈ dirty_writes t db → client_cells t db !! k = Some c.
Proof. intros (cell & Hk & _ & Hdec)%elem_of_dirty_writes. apply client_cells_lookup. eauto. Qed.

Section page.
Hypotheses (Hfloat : f64_text_exact) (Ht : table_wf t).
Variables (bound : N) (device : string) (pages : nat).
Variables (db : ClientDb) (w : W) (st : ClientState).
Hypotheses (Hlinked : linked t db w) (Hready : sync_ready bound device (S pages) db w st).
Let p : SyncPayload := delta_payload t db st.

Lemma ready_lamport : (0 ≤ cs_lamport st)%Z ∧ cs_applying_remote st = false.
Proof.
  destruct (cw_state _ _ (lk_wf _ _ _ Hlinked)) as (st' & Hst' & Hflag & Hb & _).
  rewrite (sr_state _ _ _ _ _ _ Hready) in Hst'. injection Hst' as <-. split; [lia|done].
Qed.

Lemma ready_request : client_request_wf p device t.
Proof.
  rewrite <-(sr_own _ _ _ _ _ _ Hready). apply delta_valid.
  - apply (lk_wf _ _ _ Hlinked).
  - apply (sr_state _ _ _ _ _ _ Hready).
  - rewrite (sr_own _ _ _ _ _ _ Hready). apply (sr_device _ _ _ _ _ _ Hready).
  - split; [apply (sr_rows _ _ _ _ _ _ Hready)|apply (sr_cells _ _ _ _ _ _ Hready)].
Qed.

Lemma ready_delta : local_delta t db = (Ok p, db).
Proof.
  unfold local_delta. rewrite transactional_ok. unfold st_bind, st_get, st_lift. f_equal.
  apply (get_local_delta_run t db st p (sr_state _ _ _ _ _ _ Hready)).
  split_and!; [apply wf_decodable, (lk_wf _ _ _ Hlinked)|apply ready_lamport|done|].
  rewrite (sr_own _ _ _ _ _ _ Hready). apply ready_request.
Qed.

Lemma ready_cells : total_cells (changes p) = length (dirty_writes t db).
Proof. by apply (grouped_total _ (dirty_writes t db)), NoDup_dirty_writes. Qed.

(** What the device sends, the server holds as it is, or does not hold. *)
Lemma delta_cell k c : (k, c) ∈ payload_writes p → client_cells t db !! k = Some c.
Proof. intros Hin. by apply dirty_in_cells, (delta_writes t db st). Qed.

Lemma ready_servable : servable w device p.
Proof.
  pose proof (sr_clock _ _ _ _ _ _ Hready) as Hclock. split.
  - apply ready_request.
  - apply delta_typed.
  - done.
  - apply (sr_advance _ _ _ _ _ _ Hready).
  - cbn [source_lamport p delta_payload]. lia.
  - intros k c Hin. by apply (sr_takes _ _ _ _ _ _ Hready k), (delta_writes t db st).
  - intros k c c' Hin%delta_cell Hc' Hm. symmetry.
    by apply (sr_agree _ _ _ _ _ _ Hready k c c' Hin Hc').
Qed.

Lemma ready_served :
  ∃ r w', srv_send device p w = (Ok r, w') ∧ served_page pages device w p r w'.
Proof.
  apply (srv_serves w (read_cursor t db) (client_cells t db)).
  - apply (lk_session _ _ _ Hlinked).
  - apply (sr_live _ _ _ _ _ _ Hready).
  - unfold payload_position. cbn. by destruct (read_cursor t db).
  - exact ready_servable.
Qed.

Section answered.
Variables (r : SyncPayload) (w' : W).
Hypotheses (Hsend : srv_send device p w = (Ok r, w'))
  (Hserved : served_page pages device w p r w').

Lemma answered_exchange : sync_answered srv_session (client_cells t db) w p r w'.
Proof.
  apply (srv_answers w (read_cursor t db) _ device).
  - apply (lk_session _ _ _ Hlinked).
  - apply delta_typed.
  - done.
  - unfold payload_position. cbn. by destruct (read_cursor t db).
  - apply (sg_room _ _ _ _ _ _ Hserved).
  - exact Hsend.
Qed.

Lemma answered_clock : srv_clock w' = (N.max (srv_clock w) (Z.to_N (cs_lamport st)) + 1)%N.
Proof. apply (sg_clock _ _ _ _ _ _ Hserved). Qed.

Lemma answered_observed : max_observed_clock r = srv_clock w'.
Proof.
  pose proof (sg_valid _ _ _ _ _ _ Hserved) as Hvalid.
  rewrite <-(sg_source _ _ _ _ _ _ Hserved). apply N.le_antisymm; [|apply max_observed_clock_source].
  apply max_observed_clock_le; [done|]. apply (sv_clocks _ _ Hvalid).
Qed.

Lemma answered_agree : versions_agree (client_cells t db) (srv_cells w').
Proof.
  eapply absorbs_agree; [apply (sa_absorbs _ _ _ _ _ _ answered_exchange)
    |apply (sr_agree _ _ _ _ _ _ Hready)|exact delta_cell].
Qed.
Lemma answered_small : cells_fit bound (srv_cells w').
Proof.
  destruct (sr_small _ _ _ _ _ _ Hready) as [Hc Hs].
  eapply absorbs_fit; [apply (sa_absorbs _ _ _ _ _ _ answered_exchange)|done|].
  intros k c Hin. by apply Hc, delta_cell.
Qed.
Lemma answered_writes k c : (k, c) ∈ payload_writes r → srv_cells w' !! k = Some c.
Proof. apply (sa_page _ _ _ _ _ _ answered_exchange). Qed.

Lemma answered_typed : payload_typed r.
Proof.
  pose proof (lk_session _ _ _ Hlinked) as Hses. eapply srv_others in Hses as [Hses _].
  2:{ eapply (srv_lost _ _ _ device p (Ok r)); [exact Hses|apply delta_typed| |exact Hsend].
      intros _. apply (sg_room _ _ _ _ _ _ Hserved). }
  intros k c Hin%answered_writes. by apply (srv_typed _ _ _ Hses k).
Qed.

Lemma ready_complete : ∃ db', complete_sync t p r db = (Ok tt, db').
Proof.
  destruct ready_lamport as [Hpos Hflag]. pose proof (sr_state _ _ _ _ _ _ Hready) as Hst.
  pose proof (sg_valid _ _ _ _ _ _ Hserved) as Hvalid.
  set (db1 := set_crdt_rows (acked_rows (payload_writes p) (crdt_rows db)) db).
  assert (acknowledge_local_delta_with_response t p r db = (Ok tt, db1)) as Hack.
  { apply (acknowledge_response_run t _ _ _ _ st Hst Hflag). split_and!.
    - exact Hvalid.
    - rewrite (sr_own _ _ _ _ _ _ Hready). apply ready_request.
    - rewrite unrejected_all by apply answered_exchange.
      symmetry. apply after_ack_no_evictions, (lk_evictions _ _ _ Hlinked). }
  destruct (apply_remote_total t Hfloat r Hvalid answered_typed db1 st) as [db' Happ].
  - done.
  - done.
  - rewrite answered_observed, answered_clock.
    pose proof (sr_clock _ _ _ _ _ _ Hready). unfold MAX_STORABLE_LAMPORT, I64_MAX in *. lia.
  - intros k c Hin cell Hk.
    assert (client_wf t db1) as Hwf1.
    { unfold db1.
      rewrite <-(after_ack_no_evictions t (payload_writes p) db (lk_evictions _ _ _ Hlinked)).
      by apply after_ack_wf, (lk_wf _ _ _ Hlinked). }
    destruct (cw_state _ _ Hwf1) as (st1 & _ & _ & _ & _ & Htables).
    destruct (tb_cells _ _ _ _ Htables _ _ Hk) as ((c0 & Hc0 & Hacc) & _).
    exists c0. split_and!; [done|by eapply column_accepts_storable|].
    intros Hm. apply (answered_agree k); [|by apply answered_writes|done].
    rewrite <-(acked_cells t (payload_writes p)). apply client_cells_lookup. by exists cell.
  - exists db'. unfold complete_sync. rewrite transactional_ok. unfold st_bind. by rewrite Hack.
Qed.

(** ** The page, complete *)
Section completed.
Variable (db' : ClientDb).
Hypothesis (Hsync : complete_sync t p r db = (Ok tt, db')).

Lemma completed_run : ∃ db3, page_run t db w p r w' db db' st db3.
Proof.
  destruct (page_runs t Hfloat Ht db w p r device db w' db db' Hlinked ready_delta
    (sg_room _ _ _ _ _ _ Hserved) Hsend (rtc_refl _ _) Hsync) as (st' & db3 & Hpage).
  exists db3. pose proof (pg_state _ _ _ _ _ _ _ _ _ _ Hpage) as Hst'.
  rewrite (sr_state _ _ _ _ _ _ Hready) in Hst'. by injection Hst' as <-.
Qed.

Lemma completed_linked : linked t db' w'.
Proof.
  apply (page_linked t Hfloat Ht db w p r device db w' db db' Hlinked ready_delta
    (sg_room _ _ _ _ _ _ Hserved) Hsend); [apply rtc_refl|done].
Qed.

Lemma completed_clean : dirty_writes t db' = [].
Proof.
  destruct (dirty_writes t db') as [|[k c] l] eqn:Hd; [done|].
  assert ((k, c) ∈ dirty_writes t db') as Hin by (rewrite Hd; by left).
  apply elem_of_dirty_writes in Hin as (cell & Hk & Hdirty & _).
  assert (cr_dirty cell = false); [|congruence].
  by apply (page_clean t Hfloat Ht db w p r device db w' db db' Hlinked ready_delta
    (sg_room _ _ _ _ _ _ Hserved) Hsend (rtc_refl _ _) Hsync k).
Qed.

Lemma completed_absorbs : absorbs (client_cells t db) (payload_writes r) (client_cells t db').
Proof. destruct completed_run as [db3 Hpage]. by eapply page_absorbs. Qed.

Lemma completed_state :
  client_state db' = Some (set_lamport (Z.of_N (srv_clock w' + 1)) false st).
Proof.
  destruct completed_run as [db3 Hpage].
  pose proof Hpage as [Hst Hp Hwf1 Hed Hans Hack Htyped (st1 & Hrun)].
  rewrite (ar_end _ _ _ _ _ _ Hrun). unfold end_apply, store_cursor. simpl.
  pose proof (ar_state _ _ _ _ _ _ Hrun) as Hst1. rewrite Hack in Hst1. simpl in Hst1.
  rewrite Hst in Hst1. injection Hst1 as <-.
  destruct (ap_meta _ _ _ _ (ar_rows _ _ _ _ _ _ Hrun)) as (Hmeta & _).
  rewrite Hmeta, Hack. simpl. rewrite Hst. simpl. rewrite answered_observed.
  pose proof answered_clock as Hclock.
  replace (N.max (Z.to_N (cs_lamport st)) (srv_clock w')) with (srv_clock w') by lia.
  done.
Qed.

(** The clock both sides have reached, at most. *)
Definition next_clock : N := (N.max (srv_clock w) (Z.to_N (cs_lamport st)) + 2)%N.

(** The limits hold for the pages that are left. *)
Lemma completed_ready :
  ∃ st', sync_ready bound device pages db' w' st' ∧
    (N.max (srv_clock w') (Z.to_N (cs_lamport st')) = next_clock)%N.
Proof.
  exists (set_lamport (Z.of_N (srv_clock w' + 1)) false st).
  split; [|cbn [cs_lamport set_lamport]; rewrite N2Z.id, answered_clock; unfold next_clock; lia].
  pose proof (sr_clock _ _ _ _ _ _ Hready) as Hclock. pose proof answered_clock as Hgl.
  destruct (sr_small _ _ _ _ _ _ Hready) as [Hsmall _].
  split; [exact completed_state|..]; rewrite ?completed_clean; cbn [cs_lamport set_lamport].
  - apply (sr_own _ _ _ _ _ _ Hready).
  - apply (sr_device _ _ _ _ _ _ Hready).
  - done.
  - done.
  - by intros k c ?%not_elem_of_nil.
  - intros k c c' Hc Hc' Hm. apply (absorbs_origin _ _ _ completed_absorbs) in Hc as [Hc|Hin].
    + by apply (answered_agree k).
    + apply answered_writes in Hin. rewrite Hc' in Hin. by injection Hin as ->.
  - split; [|apply answered_small]. eapply absorbs_fit; [apply completed_absorbs|done|].
    intros k c Hin%answered_writes. by apply answered_small.
  - rewrite N2Z.id. unfold MAX_CLOCK_ADVANCE_PER_SYNC. lia.
  - rewrite N2Z.id. lia.
  - apply (sg_live _ _ _ _ _ _ Hserved).
Qed.

(** A page that promises more leaves a quota of cells fewer. *)
Lemma completed_progress quota :
  (quota ≤ MAX_RESPONSE_CELLS)%N → (quota * bound ≤ MAX_RESPONSE_BYTES)%N → (1 ≤ bound)%N →
  has_more r = true → (remaining device db' w' + N.to_nat quota ≤ remaining device db w)%nat.
Proof.
  intros Hq Hqb Hb Hmore. unfold remaining. rewrite completed_clean. cbn [length].
  destruct completed_run as [db3 Hpage].
  rewrite (page_cursor t db w p r w' db db' st db3 Hpage).
  pose proof (sg_progress _ _ _ _ _ _ Hserved bound quota Hq Hqb Hb answered_small Hmore) as Hle.
  rewrite ready_cells in Hle.
  assert (payload_position p = read_cursor t db) as Hpos
    by (unfold payload_position; cbn; by destruct (read_cursor t db)).
  rewrite Hpos in Hle. lia.
Qed.
End completed.
End answered.

(** One page succeeds. *)
Lemma page_returns quota :
  (quota ≤ MAX_RESPONSE_CELLS)%N → (quota * bound ≤ MAX_RESPONSE_BYTES)%N → (1 ≤ bound)%N →
  ∃ r db' w', sync_with t (srv_send device) (db, w) = (Ok r, (db', w')) ∧
    linked t db' w' ∧
    (∃ st', sync_ready bound device pages db' w' st' ∧
      (N.max (srv_clock w') (Z.to_N (cs_lamport st')) = next_clock)%N) ∧
    (has_more r = true → (remaining device db' w' + N.to_nat quota ≤ remaining device db w)%nat).
Proof.
  intros Hq Hqb Hb. destruct ready_served as (r & w' & Hm & Hserved).
  destruct (ready_complete r w' Hm Hserved) as [db' Hc]. exists r, db', w'. split_and!.
  - unfold sync_with, st_bind, on_client, on_world. cbn [fst snd]. rewrite ready_delta.
    cbn [fst snd]. rewrite Hm. cbn [fst snd]. by rewrite Hc.
  - by eapply completed_linked.
  - by eapply completed_ready.
  - intros Hmore. by eapply completed_progress.
Qed.
End page.

(** The loop returns within its budget. *)
Lemma sync_pages_returns bound quota device pages db w st :
  f64_text_exact → table_wf t → linked t db w →
  (quota ≤ MAX_RESPONSE_CELLS)%N → (quota * bound ≤ MAX_RESPONSE_BYTES)%N → (1 ≤ bound)%N →
  sync_ready bound device pages db w st →
  (remaining device db w < pages * N.to_nat quota)%nat →
  ∃ r db' w', sync_pages t (srv_send device) pages (db, w) = (Ok r, (db', w')) ∧
    ∃ st', client_state db' = Some st' ∧ cs_device_id st' = device ∧
      (Z.to_N (cs_lamport st') ≤ N.max (srv_clock w) (Z.to_N (cs_lamport st)) + 2 * N.of_nat pages)%N.
Proof.
  intros Hfloat Ht Hlinked Hq Hqb Hb. revert db w st Hlinked.
  induction pages as [|pages IH]; intros db w st Hlinked Hready Hrem; [lia|].
  destruct (page_returns Hfloat Ht bound device pages db w st Hlinked Hready quota Hq Hqb Hb)
    as (r & db1 & w1 & Hpage & Hlinked1 & (st1 & Hready1 & Hnext) & Hprog).
  cbn [sync_pages]. unfold st_bind. rewrite Hpage. unfold next_clock in Hnext.
  destruct (has_more r).
  - specialize (Hprog eq_refl).
    destruct (IH db1 w1 st1) as (r' & db' & w' & Hrun & st' & ? & ? & ?); [done..|lia|].
    exists r', db', w'. split; [done|]. exists st'. split_and!; [done..|lia].
  - exists r, db1, w1. split; [done|]. exists st1.
    split_and!; [apply (sr_state _ _ _ _ _ _ Hready1)|apply (sr_own _ _ _ _ _ _ Hready1)|lia].
Qed.

(** Nothing is dirty: there is nothing to send. *)
Lemma clean_dirty db :
  (∀ k cell, crdt_rows db !! k = Some cell → cr_dirty cell = false) → dirty_writes t db = [].
Proof.
  intros Hclean. destruct (dirty_writes t db) as [|[k c] l] eqn:Hd; [done|].
  assert ((k, c) ∈ dirty_writes t db) as Hin by (rewrite Hd; by left).
  apply elem_of_dirty_writes in Hin as (cell & Hk & Hdirty & _).
  rewrite (Hclean _ _ Hk) in Hdirty. done.
Qed.

Lemma sync_pages_total bound quota device pages db w st :
  f64_text_exact → table_wf t → execution t db w → srv_pages pages w →
  (quota ≤ MAX_RESPONSE_CELLS)%N → (quota * bound ≤ MAX_RESPONSE_BYTES)%N → (1 ≤ bound)%N →
  sync_ready bound device pages db w st →
  (remaining device db w < pages * N.to_nat quota)%nat →
  ∃ r db' w',
    sync_pages t (srv_send device) pages (db, w) = (Ok r, (db', w')) ∧
    (execution t db' w' ∧ has_more r = false ∧ client_cells t db' ≡ srv_cells w' ∧
    dirty_writes t db' = []) ∧
    ∃ st', client_state db' = Some st' ∧ cs_device_id st' = device ∧
      (Z.to_N (cs_lamport st') ≤ N.max (srv_clock w) (Z.to_N (cs_lamport st)) + 2 * N.of_nat pages)%N.
Proof.
  intros Hfloat Ht Hex Hpages Hq Hqb Hb Hready Hrem.
  destruct (sync_pages_returns bound quota device pages db w st)
    as (r & db' & w' & Hrun & Hst); try done; [by apply execution_linked|].
  exists r, db', w'. split; [done|]. split; [|done].
  destruct (sync_pages_converge t pages device db w r db' w')
    as (Hex' & Hmore & Heq & Hclean); [done..|].
  split_and!; [done..|by apply clean_dirty].
Qed.

(** C4: Syncing until caught up terminates successfully, against any server
    that answers: when the clocks have room for the budgeted pages, nobody
    reused a clock, the offline edits fit one payload and each page can carry
    [quota] cells, a client with fewer than a hundred quotas of cells to
    exchange always reaches the end of the feed - no page fails, the loop
    does not exhaust its budget - and then holds exactly the cells of the
    server, with nothing left to send. *)
Theorem sync_until_caught_up_returns bound quota device db w st :
  f64_text_exact → table_wf t → execution t db w → srv_pages MAX_SYNC_PAGES_PER_CALL w →
  (quota ≤ MAX_RESPONSE_CELLS)%N → (quota * bound ≤ MAX_RESPONSE_BYTES)%N → (1 ≤ bound)%N →
  sync_ready bound device MAX_SYNC_PAGES_PER_CALL db w st →
  (remaining device db w < MAX_SYNC_PAGES_PER_CALL * N.to_nat quota)%nat →
  ∃ r db' w',
    sync_until_caught_up t (srv_send device) (db, w) = (Ok r, (db', w')) ∧
    execution t db' w' ∧ has_more r = false ∧ client_cells t db' ≡ srv_cells w' ∧
    dirty_writes t db' = [].
Proof.
  intros Hfloat Ht Hex Hpages Hq Hqb Hb Hready Hrem.
  destruct (sync_pages_total bound quota device MAX_SYNC_PAGES_PER_CALL db w st Hfloat Ht Hex Hpages
    Hq Hqb Hb Hready Hrem) as (r & db' & w' & Hrun & Hdone & _). by exists r, db', w'.
Qed.
End client.

(** ** Witness *)
Section witnesses.
#[local] Existing Instance demo_json.
#[local] Existing Instance demo_debug.
#[local] Existing Instance demo_text.

Lemma demo_small (t : TableDef) (m : cell_map) :
  map_Forall (λ k _, (str_len k.1 + str_len k.2 ≤ 64)%N) m → cells_fit t 128 m.
Proof. intros Hm k c Hc json [= <-]. specialize (Hm k c Hc). simpl in Hm. lia. Qed.

Definition agreeing (m' : cell_map) (k : cell_key) (c : CrdtColumn) : bool :=
  match m' !! k with
  | Some c' => negb (bool_decide (metadata c = metadata c')) || value_eqb (value c) (value c')
  | None => true
  end.
Lemma demo_agree (m m' : cell_map) :
  map_Forall (λ k c, agreeing m' k c = true) m → versions_agree m m'.
Proof.
  intros Hm k c c' Hc Hc' Heq. specialize (Hm k c Hc). cbv beta in Hm.
  unfold agreeing in Hm. rewrite Hc' in Hm.
  rewrite bool_decide_true in Hm by done. by apply value_eqb_equiv.
Qed.

Definition demo_client_state : ClientState :=
  default {| cs_device_id := ""; cs_lamport := 0; cs_applying_remote := false |}
    (client_state db_synced).

Lemma demo_ready :
  sync_ready todos_table 128 "device-a" MAX_SYNC_PAGES_PER_CALL db_synced server_one
    demo_client_state.
Proof.
  split; [by vm_compute|by vm_compute|done|vm_le|vm_le|done| |split|vm_le|vm_le|vm_le].
  - apply demo_agree. apply (bool_decide_unpack _). vm_compute. exact I.
  - apply demo_small. apply (bool_decide_unpack _). vm_compute. exact I.
  - apply demo_small. apply (bool_decide_unpack _). vm_compute. exact I.
Qed.

Lemma demo_json_total : serde_total.
Proof. intros c _. by eexists. Qed.

(** The device still has the edit it made during its first sync to send. *)
Lemma demo_remaining : remaining todos_table "device-a" db_synced server_one = 1%nat.
Proof. by vm_compute. Qed.

Definition demo_live_laws : LiveServerLaws todos_table CrdtState :=
  reference_live_laws todos_table demo_json_total.

Lemma sync_until_caught_up_returns_witness :
  ∃ r db' s', sync_until_caught_up todos_table (λ p, merge p "device-a") (db_synced, server_one)
      = (Ok r, (db', s')) ∧
    execution todos_table db' s' ∧
    has_more r = false ∧ client_cells todos_table db' ≡ cells s' ∧
    dirty_writes todos_table db' = [].
Proof.
  apply (sync_until_caught_up_returns (LiveServerLaws0 := demo_live_laws) todos_table 128 1000
    "device-a" db_synced server_one demo_client_state demo_text_exact todos_table_wf demo_execution);
    [vm_le|vm_le|vm_le|vm_le|exact demo_ready|].
  rewrite demo_remaining. apply Nat.ltb_lt. by vm_compute.
Defined.
End witnesses.
