(* ===== verification/ClientInit.v ===== *)
(** * Opening an edge database (src/client.rs, [initialize_client_with_contract])

    The catalog of the SQLite file - the columns of each table as
    [PRAGMA table_info] lists them, and the columns each trigger captures -
    and the statements that bring it up to a contract. Every function returns
    the batches it executed. *)
From S2P Require Import Prelude RustStd Error Schema SchemaFacts Crdt Payload State.
From S2P Require Import Sqlite Client.

Local Open Scope loom_scope.

Record EdgeCatalog := {
  ec_tables : gmap string (gmap string string);
  ec_triggers : gmap string (gset string);
  ec_client : option ClientState;
}.
Definition set_tables (m : gmap string (gmap string string)) (c : EdgeCatalog) : EdgeCatalog :=
  {| ec_tables := m; ec_triggers := ec_triggers c; ec_client := ec_client c |}.
Definition set_triggers (m : gmap string (gset string)) (c : EdgeCatalog) : EdgeCatalog :=
  {| ec_tables := ec_tables c; ec_triggers := m; ec_client := ec_client c |}.
Definition set_client (st : ClientState) (c : EdgeCatalog) : EdgeCatalog :=
  {| ec_tables := ec_tables c; ec_triggers := ec_triggers c; ec_client := Some st |}.

Definition InitM (A : Type) : Type := stM EdgeCatalog SyncError A.

(** ** What the generated statements define *)
Definition column_types (columns : list ColumnDef) : gmap string string :=
  list_to_map ((λ c, (cd_name c, sqlite_type (cd_ty c))) <$> columns).
Definition app_columns (t : TableDef) : gmap string string :=
  <[PRIMARY_KEY_COLUMN := "TEXT"]> (column_types (synchronized_columns t)).
Definition crdt_columns : gmap string string :=
  list_to_map [("todo_id", "TEXT"); ("column_name", "TEXT"); ("value", "TEXT");
               ("lamport_clock", "BIGINT"); ("device_id", "TEXT"); ("dirty", "INTEGER")].
Definition client_state_columns : gmap string string :=
  list_to_map [("singleton", "INTEGER"); ("device_id", "TEXT"); ("lamport_clock", "INTEGER");
               ("applying_remote", "INTEGER")].
Definition cursor_columns : gmap string string :=
  list_to_map [("crdt_table", "TEXT"); ("cursor", "INTEGER"); ("cursor_token", "TEXT");
               ("server_epoch", "TEXT")].
Definition scope_state_columns : gmap string string :=
  list_to_map [("scope_id", "TEXT"); ("crdt_table", "TEXT"); ("version", "INTEGER");
               ("active", "INTEGER")].
Definition scope_row_columns : gmap string string :=
  list_to_map [("scope_id", "TEXT"); ("crdt_table", "TEXT"); ("row_id", "TEXT")].

Definition insert_trigger_name (t : TableDef) : string := crdt_table t +:+ "_after_insert".
Definition update_trigger_name (t : TableDef) (column : string) : string :=
  crdt_table t +:+ "_after_" +:+ column +:+ "_update".

Definition table_ddl (t : TableDef) : list (string * gmap string string) :=
  [("client_state", client_state_columns); ("loomabase_cursor", cursor_columns);
   (td_name t, app_columns t); (crdt_table t, crdt_columns)].
Definition trigger_ddl (t : TableDef) : list (string * gset string) :=
  (insert_trigger_name t, list_to_set (synchronized_column_names t)) ::
  ((λ name, (update_trigger_name t name, {[ name ]})) <$> synchronized_column_names t).

(** [CREATE .. IF NOT EXISTS], one after the other: what exists stays, and
    of two definitions the first counts. *)
Definition create_if_absent {A} (definitions : list (string * A)) (m : gmap string A) : gmap string A :=
  m ∪ list_to_map definitions.
Definition exec_sqlite_schema (contract : Contract) (c : EdgeCatalog) : EdgeCatalog :=
  set_triggers (create_if_absent (ct_tables contract ≫= trigger_ddl) (ec_triggers c))
    (set_tables (create_if_absent (ct_tables contract ≫= table_ddl) (ec_tables c)) c).

(** [ALTER TABLE .. ADD COLUMN] *)
Definition add_column (table column ty : string) (c : EdgeCatalog) : EdgeCatalog :=
  set_tables (<[table := <[column := ty]> (default ∅ (ec_tables c !! table))]> (ec_tables c)) c.

(** ** The source *)
Definition sqlite_existing_columns (table_name : string) (c : EdgeCatalog) : gmap string string :=
  default ∅ (ec_tables c !! table_name).

(** The statements [sqlite_migration_sql] returns: a column for each one that
    is missing, and when there was one, [DROP TRIGGER] for the insert
    trigger. *)
Definition exec_migration (t : TableDef) (existing : gmap string string) (c : EdgeCatalog)
  : EdgeCatalog :=
  let added := missing existing (synchronized_columns t) in
  let c := foldl (λ c column, add_column (td_name t) (cd_name column) (sqlite_type (cd_ty column)) c)
             c added in
  if decide (added = []) then c
  else set_triggers (delete (td_name t +:+ "_crdt_after_insert") (ec_triggers c)) c.

Definition migrate_table (t : TableDef) : InitM (list string) :=
  c <-- st_get ;;
  let existing := sqlite_existing_columns (td_name t) c in
  if decide (existing = ∅) then st_ret []
  else
    statements <-- st_lift (sqlite_migration_sql t existing) ;;
    st_modify (exec_migration t existing) ;;;
    st_ret statements.

Fixpoint migrate_tables (tables : list TableDef) : InitM (list string) :=
  match tables with
  | [] => st_ret []
  | t :: tables =>
    statements <-- migrate_table t ;;
    rest <-- migrate_tables tables ;;
    st_ret (statements ++ rest)
  end.

Definition scope_tables_ddl : string :=
  "CREATE TABLE IF NOT EXISTS loomabase_scope_state (
            scope_id TEXT NOT NULL,
            crdt_table TEXT NOT NULL,
            version INTEGER NOT NULL CHECK (version > 0),
            active INTEGER NOT NULL DEFAULT 1 CHECK (active IN (0, 1)),
            PRIMARY KEY (scope_id, crdt_table)
         );
         CREATE TABLE IF NOT EXISTS loomabase_scope_members (
            scope_id TEXT NOT NULL,
            crdt_table TEXT NOT NULL,
            row_id TEXT NOT NULL,
            PRIMARY KEY (scope_id, crdt_table, row_id)
         );
         CREATE INDEX IF NOT EXISTS loomabase_scope_members_row_idx
            ON loomabase_scope_members(crdt_table, row_id);
         CREATE TABLE IF NOT EXISTS loomabase_scope_evictions (
            scope_id TEXT NOT NULL,
            crdt_table TEXT NOT NULL,
            row_id TEXT NOT NULL,
            PRIMARY KEY (scope_id, crdt_table, row_id)
         );
         CREATE INDEX IF NOT EXISTS loomabase_scope_evictions_row_idx
            ON loomabase_scope_evictions(crdt_table, row_id);".
Definition exec_scope_tables (c : EdgeCatalog) : EdgeCatalog :=
  set_tables (create_if_absent
    [("loomabase_scope_state", scope_state_columns); ("loomabase_scope_members", scope_row_columns);
     ("loomabase_scope_evictions", scope_row_columns)] (ec_tables c)) c.

(** [if !columns.contains_key(column) { tx.execute_batch(statement)? }] *)
Definition ensure_column (columns : gmap string string) (table column ty statement : string)
  : InitM (list string) :=
  match columns !! column with
  | Some _ => st_ret []
  | None => st_modify (add_column table column ty) ;;; st_ret [statement]
  end.

Definition migrate_client_metadata : InitM (list string) :=
  c <-- st_get ;;
  let columns := sqlite_existing_columns "loomabase_cursor" c in
  altered <-- (if decide (columns = ∅) then st_ret []
               else
                 token <-- ensure_column columns "loomabase_cursor" "cursor_token" "TEXT"
                   "ALTER TABLE loomabase_cursor ADD COLUMN cursor_token TEXT" ;;
                 epoch <-- ensure_column columns "loomabase_cursor" "server_epoch" "TEXT"
                   "ALTER TABLE loomabase_cursor ADD COLUMN server_epoch TEXT" ;;
                 st_ret (token ++ epoch)) ;;
  st_modify exec_scope_tables ;;;
  c <-- st_get ;;
  active <-- ensure_column (sqlite_existing_columns "loomabase_scope_state" c)
    "loomabase_scope_state" "active" "INTEGER"
    "ALTER TABLE loomabase_scope_state
             ADD COLUMN active INTEGER NOT NULL DEFAULT 1 CHECK (active IN (0, 1))" ;;
  st_ret (altered ++ [scope_tables_ddl] ++ active).

Definition bind_catalog (device : string) : InitM unit :=
  c <-- st_get ;;
  match ec_client c with
  | None => st_modify (set_client {| cs_device_id := device; cs_lamport := 0; cs_applying_remote := false |})
  | Some st =>
    if (cs_device_id st =? device)%string then st_ret tt
    else st_lift (invalid "the local database belongs to a different device")
  end.

Definition initialize_body (device : string) (contract : Contract) : InitM (list string) :=
  migrations <-- migrate_tables (ct_tables contract) ;;
  st_modify (exec_sqlite_schema contract) ;;;
  metadata <-- migrate_client_metadata ;;
  bind_catalog device ;;;
  st_ret (migrations ++ [Contract_sqlite_schema contract] ++ metadata).

Definition initialize_client_with_contract (device : string) (contract : Contract)
  : InitM (list string) :=
  st_lift (validate_identifier "device_id" device) ;;;
  statements <-- transactional (initialize_body device contract) ;;
  st_ret ("PRAGMA foreign_keys = ON; PRAGMA journal_mode = WAL; PRAGMA synchronous = FULL;"
          :: statements).
Definition initialize_client_with (device : string) (t : TableDef) : InitM (list string) :=
  contract <-- st_lift (Contract_new [t]) ;;
  initialize_client_with_contract device contract.
Definition initialize_client (device : string) : InitM (list string) :=
  initialize_client_with device todos_table.
