(* ===== verification/ClientInitTheorems.v ===== *)
(** * What opening an edge database guarantees (src/client.rs)

    From any catalog an earlier contract left behind, initialization reaches
    the tables and triggers of the contract, and loses nothing. *)
From S2P Require Import Prelude RustStd Error Schema SchemaFacts Crdt Payload State.
From S2P Require Import Sqlite Client ClientInit.

Local Open Scope loom_scope.

(** ** Maps built by statements *)
Lemma create_if_absent_present {A} (l : list (string * A)) (m : gmap string A) k v :
  m !! k = Some v → create_if_absent l m !! k = Some v.
Proof. intros Hk. unfold create_if_absent. by apply lookup_union_Some_l. Qed.
Lemma create_if_absent_new {A} (l : list (string * A)) (m : gmap string A) k v :
  m !! k = None → (k, v) ∈ l → (∀ v', (k, v') ∈ l → v = v') →
  create_if_absent l m !! k = Some v.
Proof.
  intros Hk Hin Hall. unfold create_if_absent. rewrite lookup_union_r by done.
  by apply elem_of_list_to_map_1'.
Qed.
Lemma create_if_absent_None {A} (l : list (string * A)) (m : gmap string A) k :
  k ∉ l.*1 → create_if_absent l m !! k = m !! k.
Proof.
  intros Hk. unfold create_if_absent. rewrite lookup_union_l; [done|].
  by apply not_elem_of_list_to_map_1.
Qed.
Lemma create_if_absent_again {A} (l : list (string * A)) (m : gmap string A) :
  (∀ k, k ∈ l.*1 → is_Some (m !! k)) → create_if_absent l m = m.
Proof.
  intros Hl. apply map_eq. intros k. destruct (decide (k ∈ l.*1)) as [Hin|Hnin].
  - destruct (Hl k Hin) as [v Hv]. rewrite Hv. by apply create_if_absent_present.
  - by apply create_if_absent_None.
Qed.

(** ** One migration *)
Definition typed_columns (l : list ColumnDef) : list (string * string) :=
  (λ c, (cd_name c, sqlite_type (cd_ty c))) <$> l.

Lemma add_columns_eq t (l : list ColumnDef) c cols :
  ec_tables c !! td_name t = Some cols → NoDup (cd_name <$> l) →
  foldl (λ c column, add_column (td_name t) (cd_name column) (sqlite_type (cd_ty column)) c) c l
  = set_tables (<[td_name t := list_to_map (typed_columns l) ∪ cols]> (ec_tables c)) c.
Proof.
  revert c cols. induction l as [|x l IH]; intros c cols Hc Hnd; cbn [foldl].
  { unfold typed_columns. rewrite fmap_nil. cbn [list_to_map foldr].
    rewrite (left_id_L ∅ (∪)), insert_id by done. by destruct c. }
  rewrite fmap_cons in Hnd. apply list.NoDup_cons in Hnd as [Hx Hnd].
  rewrite (IH _ (<[cd_name x := sqlite_type (cd_ty x)]> cols));
    [|unfold add_column; simpl; by rewrite lookup_insert_eq, Hc|done].
  unfold add_column, set_tables. cbn [ec_tables ec_triggers ec_client]. f_equal.
  rewrite Hc. cbn [default]. rewrite insert_insert_eq. f_equal.
  change (typed_columns (x :: l)) with ((cd_name x, sqlite_type (cd_ty x)) :: typed_columns l).
  rewrite list_to_map_cons, <-insert_union_l, insert_union_r; [done|].
  apply not_elem_of_list_to_map_1. unfold typed_columns. by rewrite <-list_fmap_compose.
Qed.

Lemma missing_distinct t existing :
  table_wf t → NoDup (cd_name <$> missing existing (synchronized_columns t)).
Proof.
  intros Ht. eapply sublist_NoDup; [by apply synchronized_names_distinct|].
  apply fmap_sublist, sublist_filter.
Qed.

Lemma added_columns t existing :
  table_wf t →
  list_to_map (typed_columns (missing existing (synchronized_columns t))) ∪ existing
  = migrated sqlite_type t existing.
Proof.
  intros Ht. pose proof (synchronized_names_distinct t Ht) as Hnd.
  assert (∀ l : list ColumnDef, (typed_columns l).*1 = cd_name <$> l) as Hkeys
    by (intros l; unfold typed_columns; by rewrite <-list_fmap_compose).
  assert (NoDup (cd_name <$> missing existing (synchronized_columns t))) as Hndm.
  { by apply missing_distinct. }
  unfold migrated. fold (typed_columns (synchronized_columns t)). apply map_eq. intros k.
  destruct (existing !! k) as [d|] eqn:Hk.
  - transitivity (Some d); [|symmetry; by apply lookup_union_Some_l].
    rewrite lookup_union_r; [done|].
    apply not_elem_of_list_to_map_1. rewrite Hkeys.
    intros (c & -> & [Hnone _]%list_elem_of_filter)%list_elem_of_fmap. congruence.
  - rewrite (lookup_union_r existing) by done. rewrite lookup_union_l by done.
    apply option_eq. intros d.
    rewrite <-!elem_of_list_to_map by by rewrite Hkeys.
    unfold typed_columns. rewrite !list_elem_of_fmap. split.
    + intros (c & Heq & [_ Hc]%list_elem_of_filter). eauto.
    + intros (c & Heq & Hc). exists c. split; [done|]. apply list_elem_of_filter.
      injection Heq as -> ->. done.
Qed.

(** The migration drops the trigger the schema creates. *)
Lemma insert_trigger_eq t : td_name t +:+ "_crdt_after_insert" = insert_trigger_name t.
Proof.
  unfold insert_trigger_name, crdt_table.
  change "_crdt_after_insert" with ("_crdt" +:+ "_after_insert"). apply str_app_assoc.
Qed.

(** What a migration of [t] makes of the catalog. *)
Record table_migrated (t : TableDef) (c c' : EdgeCatalog) : Prop := {
  tm_ok : sqlite_existing_columns (td_name t) c = ∅ ∨
    is_ok (sqlite_migration_sql t (sqlite_existing_columns (td_name t) c)) = true;
  tm_table : ec_tables c' !! td_name t =
    if decide (sqlite_existing_columns (td_name t) c = ∅) then ec_tables c !! td_name t
    else Some (migrated sqlite_type t (sqlite_existing_columns (td_name t) c));
  tm_trigger : ec_triggers c' !! insert_trigger_name t =
    if decide (sqlite_existing_columns (td_name t) c = ∅ ∨
        missing (sqlite_existing_columns (td_name t) c) (synchronized_columns t) = [])
    then ec_triggers c !! insert_trigger_name t else None;
}.
Record other_tables (tables triggers : list string) (c c' : EdgeCatalog) : Prop := {
  ot_tables n : n ∉ tables → ec_tables c' !! n = ec_tables c !! n;
  ot_triggers n : n ∉ triggers → ec_triggers c' !! n = ec_triggers c !! n;
  ot_client : ec_client c' = ec_client c;
}.

Lemma migrate_table_run t c sql c' :
  table_wf t → migrate_table t c = (Ok sql, c') →
  table_migrated t c c' ∧ other_tables [td_name t] [insert_trigger_name t] c c'.
Proof.
  intros Ht. unfold migrate_table, st_bind at 1, st_get.
  set (ex := sqlite_existing_columns (td_name t) c).
  destruct (decide (ex = ∅)) as [He|Hne].
  { intros [= <- <-]. split; [|by split]. split; fold ex; rewrite ?decide_True by auto; auto. }
  unfold st_bind, st_lift. destruct (sqlite_migration_sql t ex) as [stmts|e] eqn:Hm; [|done].
  unfold st_modify, st_ret. intros [= <- <-].
  assert (ec_tables c !! td_name t = Some ex) as Hc.
  { unfold ex, sqlite_existing_columns in *. destruct (ec_tables c !! td_name t); [done|].
    by destruct Hne. }
  unfold exec_migration. rewrite (add_columns_eq t _ c ex) by
    first [done|by apply missing_distinct].
  rewrite added_columns by done. split.
  - split; fold ex.
    + right. by rewrite Hm.
    + rewrite (decide_False (P := ex = ∅)) by exact Hne.
      destruct (decide (missing ex (synchronized_columns t) = [])); cbn [ec_tables set_tables set_triggers];
        by rewrite lookup_insert_eq.
    + destruct (decide (missing ex (synchronized_columns t) = [])) as [Hn|Hn].
      * rewrite decide_True by by right. done.
      * rewrite decide_False by tauto. cbn [ec_triggers set_triggers]. rewrite insert_trigger_eq.
        apply lookup_delete_eq.
  - split.
    + intros n Hn. apply not_elem_of_cons in Hn as [Hn _].
      destruct (decide _); cbn [ec_tables set_tables set_triggers]; by rewrite lookup_insert_ne.
    + intros n Hn. apply not_elem_of_cons in Hn as [Hn _]. destruct (decide _); cbn [ec_triggers set_triggers]; [done|].
      rewrite lookup_delete_ne; [done|].
      rewrite insert_trigger_eq. congruence.
    + by destruct (decide _).
Qed.

(** ** The loop over the tables *)
Lemma str_length_app (a b : string) :
  String.length (a +:+ b) = (String.length a + String.length b)%nat.
Proof.
  induction a as [|x a IH]; [done|].
  change (S (String.length (a +:+ b)) = S (String.length a + String.length b)). by rewrite IH.
Qed.
Lemma str_app_cancel_r (a b s : string) : a +:+ s = b +:+ s → a = b.
Proof.
  revert b. induction a as [|x a IH]; intros [|y b] Heq; [done|..].
  - apply (f_equal String.length) in Heq. rewrite !str_length_app in Heq. simpl in Heq. lia.
  - apply (f_equal String.length) in Heq. rewrite !str_length_app in Heq. simpl in Heq. lia.
  - change (String x (a +:+ s) = String y (b +:+ s)) in Heq. injection Heq as -> Heq.
    by rewrite (IH b).
Qed.

Lemma insert_trigger_name_eq t t' : insert_trigger_name t = insert_trigger_name t' → td_name t = td_name t'.
Proof. intros Heq%str_app_cancel_r. by apply str_app_cancel_r in Heq. Qed.

Lemma existing_same n tables triggers c c' :
  other_tables tables triggers c c' → n ∉ tables →
  sqlite_existing_columns n c' = sqlite_existing_columns n c.
Proof. intros Ho Hn. unfold sqlite_existing_columns. by rewrite (ot_tables _ _ _ _ Ho). Qed.

Lemma migrate_tables_run tables c sql c' :
  Forall table_wf tables → NoDup (td_name <$> tables) →
  migrate_tables tables c = (Ok sql, c') →
  (∀ t, t ∈ tables → table_migrated t c c') ∧
  other_tables (td_name <$> tables) (insert_trigger_name <$> tables) c c'.
Proof.
  revert c sql. induction tables as [|t tables IH]; intros c sql Hwf Hnd.
  { intros [= _ <-]. split; [by intros t Ht%not_elem_of_nil|by split]. }
  apply Forall_cons_1 in Hwf as [Ht Hwf]. rewrite fmap_cons in Hnd.
  apply list.NoDup_cons in Hnd as [Hnin Hnd]. cbn [migrate_tables].
  intros (s1 & c1 & Hhead & (s2 & c2 & Htail & Hret)%st_bind_ok)%st_bind_ok.
  apply st_ret_ok in Hret as [_ ->].
  apply migrate_table_run in Hhead as [Hm Ho]; [|done].
  destruct (IH c1 s2 Hwf Hnd Htail) as [Hms Hos].
  assert (insert_trigger_name t ∉ insert_trigger_name <$> tables) as Htrig.
  { intros (t' & Heq%insert_trigger_name_eq & Hin)%list_elem_of_fmap.
    apply Hnin. rewrite Heq. by apply list_elem_of_fmap_2. }
  split.
  - intros t' [->|Hin]%elem_of_cons.
    + destruct Hm as [Hok Htab Htr]. split; [done|..].
      * by rewrite (ot_tables _ _ _ _ Hos).
      * by rewrite (ot_triggers _ _ _ _ Hos).
    + assert (td_name t' ∉ [td_name t]) as Hn1.
      { intros Heq%list_elem_of_singleton. apply Hnin. rewrite <-Heq. by apply list_elem_of_fmap_2. }
      assert (insert_trigger_name t' ∉ [insert_trigger_name t]) as Hn2.
      { intros Heq%list_elem_of_singleton. apply Htrig. rewrite <-Heq.
        by apply list_elem_of_fmap_2. }
      destruct (Hms t' Hin) as [Hok Htab Htr]. rewrite (existing_same _ _ _ _ _ Ho Hn1) in Hok, Htab, Htr.
      rewrite (ot_tables _ _ _ _ Ho) in Htab by done.
      rewrite (ot_triggers _ _ _ _ Ho) in Htr by done. by split.
  - split.
    + intros n Hn. rewrite fmap_cons in Hn. apply not_elem_of_cons in Hn as [Hne Hn].
      rewrite (ot_tables _ _ _ _ Hos) by done. apply (ot_tables _ _ _ _ Ho).
      by rewrite list_elem_of_singleton.
    + intros n Hn. rewrite fmap_cons in Hn. apply not_elem_of_cons in Hn as [Hne Hn].
      rewrite (ot_triggers _ _ _ _ Hos) by done. apply (ot_triggers _ _ _ _ Ho).
      by rewrite list_elem_of_singleton.
    + by rewrite (ot_client _ _ _ _ Hos), (ot_client _ _ _ _ Ho).
Qed.

(** ** The tables of the library itself *)
Definition metadata_tables : list string :=
  ["client_state"; "loomabase_cursor"; "loomabase_scope_state"; "loomabase_scope_members";
   "loomabase_scope_evictions"].

(** [c'] is [c] with more columns in one table. *)
Record table_grown (table : string) (c c' : EdgeCatalog) : Prop := {
  tg_other : other_tables [table] [] c c';
  tg_columns : sqlite_existing_columns table c ⊆ sqlite_existing_columns table c';
  tg_present : ∀ cols, ec_tables c' !! table = Some cols → cols ≠ ∅ ∨ ec_tables c !! table = Some cols;
}.

Lemma ensure_column_run columns table column ty statement c sql c' :
  columns !! column = sqlite_existing_columns table c !! column →
  ensure_column columns table column ty statement c = (Ok sql, c') →
  table_grown table c c' ∧ is_Some (sqlite_existing_columns table c' !! column) ∧
  (is_Some (columns !! column) → c' = c).
Proof.
  intros Hcol. unfold ensure_column. rewrite Hcol.
  destruct (sqlite_existing_columns table c !! column) as [d|] eqn:Hd.
  - intros [= _ <-]. split; [|split; [by rewrite Hd; eexists|done]]. split; [by split|done|by right].
  - unfold st_bind, st_modify, st_ret. intros [= _ <-].
    assert (sqlite_existing_columns table (add_column table column ty c)
      = <[column := ty]> (sqlite_existing_columns table c)) as Hnew.
    { unfold sqlite_existing_columns, add_column. simpl. by rewrite lookup_insert_eq. }
    split; [split|split].
    + split; [|done|done]. intros n Hn. unfold add_column. simpl. rewrite lookup_insert_ne; [done|].
      rewrite list_elem_of_singleton in Hn. done.
    + rewrite Hnew. by apply insert_subseteq.
    + unfold add_column. simpl. rewrite lookup_insert_eq. intros cols [= <-]. left.
      apply insert_non_empty.
    + rewrite Hnew, lookup_insert_eq. by eexists.
    + intros [? [=]].
Qed.

Lemma grown_mono table c c' n :
  table_grown table c c' → sqlite_existing_columns n c ⊆ sqlite_existing_columns n c'.
Proof.
  intros [Ho Hsub _]. destruct (decide (n = table)) as [->|Hne]; [done|].
  rewrite (existing_same _ _ _ _ _ Ho); [done|]. by rewrite list_elem_of_singleton.
Qed.

Lemma scope_tables_mono c n :
  sqlite_existing_columns n c ⊆ sqlite_existing_columns n (exec_scope_tables c).
Proof.
  unfold sqlite_existing_columns, exec_scope_tables. simpl.
  destruct (ec_tables c !! n) as [cols|] eqn:Hn; simpl; [|apply map_empty_subseteq].
  by rewrite (create_if_absent_present _ _ _ _ Hn).
Qed.

Record metadata_done (c c' : EdgeCatalog) : Prop := {
  md_other : other_tables metadata_tables [] c c';
  md_columns n : sqlite_existing_columns n c ⊆ sqlite_existing_columns n c';
  md_cursor : sqlite_existing_columns "loomabase_cursor" c ≠ ∅ →
    is_Some (sqlite_existing_columns "loomabase_cursor" c' !! "cursor_token") ∧
    is_Some (sqlite_existing_columns "loomabase_cursor" c' !! "server_epoch");
  md_scope : is_Some (sqlite_existing_columns "loomabase_scope_state" c' !! "active");
  md_scopes n : n ∈ metadata_tables → n ≠ "client_state" → n ≠ "loomabase_cursor" →
    is_Some (ec_tables c' !! n);
}.

Lemma other_weaken tables tables' triggers c c' :
  (∀ n, n ∈ tables → n ∈ tables') → other_tables tables triggers c c' →
  other_tables tables' triggers c c'.
Proof. intros Hsub [Ht Htr Hc]. split; [|done|done]. intros n Hn. apply Ht. auto. Qed.
Lemma other_trans tables triggers c c1 c2 :
  other_tables tables triggers c c1 → other_tables tables triggers c1 c2 →
  other_tables tables triggers c c2.
Proof.
  intros [Ht1 Htr1 Hc1] [Ht2 Htr2 Hc2]. split.
  - intros n Hn. by rewrite Ht2, Ht1.
  - intros n Hn. by rewrite Htr2, Htr1.
  - congruence.
Qed.
Lemma grown_other table c c' :
  table ∈ metadata_tables → table_grown table c c' → other_tables metadata_tables [] c c'.
Proof.
  intros Hin [Ho _ _]. eapply other_weaken, Ho. by intros n ->%list_elem_of_singleton.
Qed.
Lemma scope_tables_other c : other_tables metadata_tables [] c (exec_scope_tables c).
Proof.
  split; [|done|done]. intros n Hn. unfold exec_scope_tables. simpl.
  apply create_if_absent_None. cbn. unfold metadata_tables in Hn. set_solver.
Qed.

(** The two columns added to an old cursor table. *)
Lemma cursor_columns_run columns c sql c1 :
  columns = sqlite_existing_columns "loomabase_cursor" c →
  (if decide (columns = ∅) then st_ret []
   else
     token <-- ensure_column columns "loomabase_cursor" "cursor_token" "TEXT"
       "ALTER TABLE loomabase_cursor ADD COLUMN cursor_token TEXT" ;;
     epoch <-- ensure_column columns "loomabase_cursor" "server_epoch" "TEXT"
       "ALTER TABLE loomabase_cursor ADD COLUMN server_epoch TEXT" ;;
     st_ret (token ++ epoch)) c = (Ok sql, c1) →
  other_tables metadata_tables [] c c1 ∧
  (∀ n, sqlite_existing_columns n c ⊆ sqlite_existing_columns n c1) ∧
  (columns ≠ ∅ → is_Some (sqlite_existing_columns "loomabase_cursor" c1 !! "cursor_token") ∧
     is_Some (sqlite_existing_columns "loomabase_cursor" c1 !! "server_epoch")) ∧
  (is_Some (columns !! "cursor_token") → is_Some (columns !! "server_epoch") → c1 = c).
Proof.
  intros Hcols. destruct (decide (columns = ∅)) as [He|Hne].
  { intros [= _ <-]. split_and!; [by split|done|done|done]. }
  intros (s1 & c2 & H1' & (s2 & c3 & H2' & [_ ->]%st_ret_ok)%st_bind_ok)%st_bind_ok.
  destruct (ensure_column_run _ _ _ _ _ _ _ _ (f_equal (.!! "cursor_token") Hcols) H1')
    as (Hg1 & Htok & Hsame1).
  assert (columns !! "server_epoch" = sqlite_existing_columns "loomabase_cursor" c2 !! "server_epoch")
    as Hcols2.
  { unfold ensure_column in H1'. rewrite Hcols. destruct (columns !! "cursor_token").
    - by injection H1' as _ ->.
    - unfold st_bind, st_modify, st_ret in H1'. injection H1' as _ <-.
      unfold sqlite_existing_columns, add_column. simpl. rewrite lookup_insert_eq. simpl.
      by rewrite lookup_insert_ne. }
  destruct (ensure_column_run _ _ _ _ _ _ _ _ Hcols2 H2') as (Hg2 & Hep & Hsame2).
  assert ("loomabase_cursor" ∈ metadata_tables) as Hin by (unfold metadata_tables; set_solver).
  split_and!.
  - eapply other_trans; [by eapply grown_other|by eapply grown_other].
  - intros n. etransitivity; by eapply grown_mono.
  - intros _. split; [|done]. destruct Htok as [d Hd]. exists d.
    eapply lookup_weaken; [exact Hd|]. by eapply grown_mono.
  - intros Ht He. by rewrite Hsame2, Hsame1.
Qed.

Lemma metadata_run c sql c' :
  migrate_client_metadata c = (Ok sql, c') → metadata_done c c'.
Proof.
  unfold migrate_client_metadata. unfold st_bind at 1, st_get at 1.
  intros (s1 & c1 & Hcur & Hrest)%st_bind_ok.
  destruct (cursor_columns_run _ _ _ _ eq_refl Hcur) as (Ho1 & Hsub1 & Hc1 & _).
  unfold st_bind at 1, st_modify at 1, st_bind at 1, st_get at 1 in Hrest.
  apply st_bind_ok in Hrest as (s3 & c3 & Hact & [_ ->]%st_ret_ok).
  destruct (ensure_column_run _ _ _ _ _ _ _ _ eq_refl Hact) as (Hg3 & Hactive & _).
  assert ("loomabase_scope_state" ∈ metadata_tables) as Hin by (unfold metadata_tables; set_solver).
  assert (∀ n, sqlite_existing_columns n c1 ⊆ sqlite_existing_columns n c3) as Hsub3.
  { intros n. etransitivity; [apply scope_tables_mono|by eapply grown_mono]. }
  split.
  - eapply other_trans; [exact Ho1|]. eapply other_trans; [apply scope_tables_other|].
    by eapply grown_other.
  - intros n. etransitivity; [apply Hsub1|apply Hsub3].
  - intros Hne. destruct (Hc1 Hne) as [[d Hd] [e He]].
    split; eexists; (eapply lookup_weaken; [done|apply Hsub3]).
  - done.
  - intros n Hn Hn1 Hn2. destruct (decide (n = "loomabase_scope_state")) as [->|Hne].
    + unfold sqlite_existing_columns in Hactive.
      destruct (ec_tables c3 !! "loomabase_scope_state"); [by eexists|].
      simpl in Hactive. rewrite lookup_empty in Hactive. by destruct Hactive.
    + rewrite (ot_tables _ _ _ _ (tg_other _ _ _ Hg3)) by by rewrite list_elem_of_singleton.
      unfold exec_scope_tables. simpl.
      destruct (ec_tables c1 !! n) eqn:Hc; [by eexists; apply create_if_absent_present|].
      unfold create_if_absent. rewrite lookup_union_r by done.
      unfold metadata_tables in Hn.
      repeat (apply elem_of_cons in Hn as [->|Hn]; [first [done|by eexists]|]).
      by apply not_elem_of_nil in Hn.
Qed.

(** ** The catalogs initialization starts from and reaches *)

(** No two statements of the contract define the same table or trigger. *)
Record names_distinct (ct : Contract) : Prop := {
  nd_nonempty : ct_tables ct ≠ [];
  nd_tables : NoDup (td_name <$> ct_tables ct);
  nd_logs t t' : t ∈ ct_tables ct → t' ∈ ct_tables ct → td_name t ≠ crdt_table t';
  nd_metadata t : t ∈ ct_tables ct → td_name t ∉ metadata_tables ∧ crdt_table t ∉ metadata_tables;
  nd_triggers t t' n a b : t ∈ ct_tables ct → t' ∈ ct_tables ct →
    (n, a) ∈ trigger_ddl t → (n, b) ∈ trigger_ddl t' → t = t' ∧ a = b;
}.

(** A catalog left by an earlier version of the contract: the tables have
    their key, and the triggers capture the columns the table has. *)
Record catalog_ok (ct : Contract) (c : EdgeCatalog) : Prop := {
  co_columns n cols : ec_tables c !! n = Some cols → cols ≠ ∅;
  co_key t cols : t ∈ ct_tables ct → ec_tables c !! td_name t = Some cols →
    is_Some (cols !! PRIMARY_KEY_COLUMN);
  co_insert t captured : t ∈ ct_tables ct → ec_triggers c !! insert_trigger_name t = Some captured →
    is_Some (ec_tables c !! td_name t) ∧
    captured = dom (sqlite_existing_columns (td_name t) c) ∖ {[ PRIMARY_KEY_COLUMN ]};
  co_update t name captured : t ∈ ct_tables ct → name ∈ synchronized_column_names t →
    ec_triggers c !! update_trigger_name t name = Some captured → captured = {[ name ]};
}.

Definition sync_names (t : TableDef) : gset string := list_to_set (synchronized_column_names t).
Record up_to_date (ct : Contract) (device : string) (c : EdgeCatalog) : Prop := {
  ud_columns t : t ∈ ct_tables ct →
    dom (sqlite_existing_columns (td_name t) c) = {[ PRIMARY_KEY_COLUMN ]} ∪ sync_names t;
  ud_types t : t ∈ ct_tables ct → Forall
    (compatible sqlite_type (sqlite_existing_columns (td_name t) c)) (synchronized_columns t);
  ud_log t : t ∈ ct_tables ct → is_Some (ec_tables c !! crdt_table t);
  ud_insert t : t ∈ ct_tables ct → ec_triggers c !! insert_trigger_name t = Some (sync_names t);
  ud_update t name : t ∈ ct_tables ct → name ∈ synchronized_column_names t →
    ec_triggers c !! update_trigger_name t name = Some {[ name ]};
  ud_metadata n : n ∈ metadata_tables → is_Some (ec_tables c !! n);
  ud_cursor : is_Some (sqlite_existing_columns "loomabase_cursor" c !! "cursor_token") ∧
    is_Some (sqlite_existing_columns "loomabase_cursor" c !! "server_epoch");
  ud_scope : is_Some (sqlite_existing_columns "loomabase_scope_state" c !! "active");
  ud_client : ∃ st, ec_client c = Some st ∧ cs_device_id st = device;
}.

Lemma app_columns_dom t : dom (app_columns t) = {[ PRIMARY_KEY_COLUMN ]} ∪ sync_names t.
Proof.
  unfold app_columns, column_types, sync_names, synchronized_column_names.
  rewrite dom_insert_L, dom_list_to_map_L. by rewrite <-list_fmap_compose.
Qed.
Lemma key_not_synchronized t : table_wf t → PRIMARY_KEY_COLUMN ∉ synchronized_column_names t.
Proof.
  intros Ht. unfold synchronized_column_names, synchronized_columns. rewrite fmap_app.
  intros [(c & Hc & Hin)%list_elem_of_fmap|Hin%list_elem_of_singleton]%elem_of_app; [|done].
  pose proof (tw_names _ Ht) as Hall. rewrite list.Forall_forall in Hall.
  destruct (Hall c Hin) as [Hne _]. congruence.
Qed.
Lemma app_columns_compatible t :
  table_wf t → Forall (compatible sqlite_type (app_columns t)) (synchronized_columns t).
Proof.
  intros Ht. pose proof (compatible_migrated sqlite_type t ∅ Ht) as Hcomp.
  assert (Forall (compatible sqlite_type ∅) (synchronized_columns t)) as H0'.
  { apply list.Forall_forall. intros c _ d Hd. by rewrite lookup_empty in Hd. }
  specialize (Hcomp H0'). rewrite list.Forall_forall in Hcomp |- *.
  intros c Hc d Hd. apply (Hcomp c Hc d). unfold migrated. rewrite (left_id_L ∅ (∪)).
  unfold app_columns in Hd. rewrite lookup_insert_ne in Hd; [exact Hd|].
  intros Heq. apply (key_not_synchronized t Ht). rewrite Heq.
  unfold synchronized_column_names. by apply list_elem_of_fmap_2.
Qed.

(** ** One initialization *)
Section init.
Variables (device : string) (ct : Contract) (c : EdgeCatalog).
Hypotheses (Hwf : Forall table_wf (ct_tables ct)) (Hnd : names_distinct ct) (Hok : catalog_ok ct c).

Lemma table_wf_in t : t ∈ ct_tables ct → table_wf t.
Proof. rewrite list.Forall_forall in Hwf. apply Hwf. Qed.

Lemma no_columns_no_table t :
  sqlite_existing_columns (td_name t) c = ∅ → ec_tables c !! td_name t = None.
Proof.
  unfold sqlite_existing_columns. destruct (ec_tables c !! td_name t) eqn:Hc; [|done].
  simpl. intros ->. by destruct (co_columns _ _ Hok _ _ Hc).
Qed.

Lemma same_table t t' :
  t ∈ ct_tables ct → t' ∈ ct_tables ct → td_name t = td_name t' → t = t'.
Proof.
  intros [i Hi]%list_elem_of_lookup [j Hj]%list_elem_of_lookup Heq.
  assert (i = j) as ->; [|by simplify_eq].
  apply (proj1 (NoDup_alt _) (nd_tables _ Hnd) i j (td_name t));
    rewrite list_lookup_fmap; [by rewrite Hi|by rewrite Hj, Heq].
Qed.

(** The definitions of the schema are the only ones of their names. *)
Lemma elem_of_table_ddl k v :
  (k, v) ∈ ct_tables ct ≫= table_ddl →
  (k = "client_state" ∧ v = client_state_columns) ∨ (k = "loomabase_cursor" ∧ v = cursor_columns) ∨
  (∃ t, t ∈ ct_tables ct ∧ k = td_name t ∧ v = app_columns t) ∨
  (∃ t, t ∈ ct_tables ct ∧ k = crdt_table t ∧ v = crdt_columns).
Proof.
  intros (t & Hin & Ht)%list_elem_of_bind. unfold table_ddl in Hin.
  repeat (apply elem_of_cons in Hin as [Hin|Hin]; [injection Hin as -> ->; eauto 10|]).
  by apply not_elem_of_nil in Hin.
Qed.
Lemma app_definition t v :
  t ∈ ct_tables ct → (td_name t, v) ∈ ct_tables ct ≫= table_ddl → app_columns t = v.
Proof.
  intros Ht. destruct (nd_metadata _ Hnd t Ht) as [Hm _]. unfold metadata_tables in Hm.
  intros [[Hn _]|[[Hn _]|[(t' & Ht' & Hn & ->)|(t' & Ht' & Hn & _)]]]%elem_of_table_ddl.
  - set_solver.
  - set_solver.
  - by rewrite (same_table t t').
  - by destruct (nd_logs _ Hnd t t' Ht Ht').
Qed.
Lemma ddl_in t k v : t ∈ ct_tables ct → (k, v) ∈ table_ddl t → (k, v) ∈ ct_tables ct ≫= table_ddl.
Proof. intros Ht Hin. apply list_elem_of_bind. eauto. Qed.
Lemma trigger_definition t k v :
  t ∈ ct_tables ct → (k, v) ∈ trigger_ddl t →
  (k, v) ∈ ct_tables ct ≫= trigger_ddl ∧
  ∀ v', (k, v') ∈ ct_tables ct ≫= trigger_ddl → v = v'.
Proof.
  intros Ht Hin. split; [apply list_elem_of_bind; eauto|].
  intros v' (t' & Hin' & Ht')%list_elem_of_bind. by eapply (nd_triggers _ Hnd t t').
Qed.
Lemma insert_in t : (insert_trigger_name t, sync_names t) ∈ trigger_ddl t.
Proof. unfold trigger_ddl, sync_names. by left. Qed.
Lemma update_in t name :
  name ∈ synchronized_column_names t → (update_trigger_name t name, {[ name ]}) ∈ trigger_ddl t.
Proof. intros Hn. right. apply list_elem_of_fmap. by exists name. Qed.
(** The update triggers are not touched by a migration. *)
Lemma update_not_insert t t' name :
  t ∈ ct_tables ct → t' ∈ ct_tables ct → name ∈ synchronized_column_names t →
  update_trigger_name t name ≠ insert_trigger_name t'.
Proof.
  intros Ht Ht' Hn Heq. pose proof (update_in t name Hn) as Hup. rewrite Heq in Hup.
  destruct (nd_triggers _ Hnd t t' _ _ _ Ht Ht' Hup (insert_in t')) as [<- _].
  unfold update_trigger_name, insert_trigger_name in Heq.
  apply (f_equal String.length) in Heq. rewrite !str_length_app in Heq. simpl in Heq. lia.
Qed.

(** The schema statements, after the migrations. *)
Section schema.
Variable c1 : EdgeCatalog.
Hypotheses (Hmig : ∀ t, t ∈ ct_tables ct → table_migrated t c c1)
  (Hother : other_tables (td_name <$> ct_tables ct) (insert_trigger_name <$> ct_tables ct) c c1).
Let c2 : EdgeCatalog := exec_sqlite_schema ct c1.

Lemma schema_columns t :
  t ∈ ct_tables ct → sqlite_existing_columns (td_name t) c2 =
    if decide (sqlite_existing_columns (td_name t) c = ∅) then app_columns t
    else migrated sqlite_type t (sqlite_existing_columns (td_name t) c).
Proof.
  intros Ht. pose proof (tm_table _ _ _ (Hmig t Ht)) as Hc1.
  unfold sqlite_existing_columns at 1, c2, exec_sqlite_schema. simpl.
  destruct (decide (sqlite_existing_columns (td_name t) c = ∅)) as [He|Hne].
  - rewrite (create_if_absent_new _ _ _ (app_columns t)); [done|..].
    + by rewrite Hc1, no_columns_no_table.
    + apply (ddl_in t); [done|]. unfold table_ddl. set_solver.
    + intros v. by apply app_definition.
  - by rewrite (create_if_absent_present _ _ _ _ Hc1).
Qed.

Lemma migration_keys t :
  t ∈ ct_tables ct → sqlite_existing_columns (td_name t) c ≠ ∅ →
  dom (migrated sqlite_type t (sqlite_existing_columns (td_name t) c))
    = {[ PRIMARY_KEY_COLUMN ]} ∪ sync_names t ∧
  Forall (compatible sqlite_type (migrated sqlite_type t (sqlite_existing_columns (td_name t) c)))
    (synchronized_columns t).
Proof.
  intros Ht Hne. set (ex := sqlite_existing_columns (td_name t) c) in *.
  destruct (tm_ok _ _ _ (Hmig t Ht)) as [He|Hmok]; [done|]. fold ex in Hmok.
  destruct (sqlite_migration_sql t ex) as [sql|e] eqn:Hm; [|done].
  apply sqlite_migration_ok in Hm as (Hkeys & Hcomp & _). split.
  2:{ by apply compatible_migrated; [apply table_wf_in|]. }
  assert (PRIMARY_KEY_COLUMN ∈ dom ex) as Hid.
  { apply elem_of_dom. unfold ex, sqlite_existing_columns in *.
    destruct (ec_tables c !! td_name t) as [cols|] eqn:Hc; [|by destruct Hne].
    by apply (co_key _ _ Hok t cols). }
  unfold migrated. rewrite dom_union_L, dom_list_to_map_L, <-list_fmap_compose.
  change (list_to_set (compose fst (λ c0, (cd_name c0, sqlite_type (cd_ty c0))) <$> synchronized_columns t))
    with (sync_names t).
  apply set_eq. intros k. rewrite !elem_of_union, elem_of_singleton. split.
  - intros [Hk%elem_of_dom|Hk]; [|by right]. destruct (Hkeys k Hk) as [|Hs]; [by left|right].
    unfold sync_names. by apply elem_of_list_to_set.
  - intros [->|Hk]; [by left|by right].
Qed.

Lemma schema_dom t :
  t ∈ ct_tables ct →
  dom (sqlite_existing_columns (td_name t) c2) = {[ PRIMARY_KEY_COLUMN ]} ∪ sync_names t ∧
  Forall (compatible sqlite_type (sqlite_existing_columns (td_name t) c2)) (synchronized_columns t).
Proof.
  intros Ht. rewrite (schema_columns t Ht).
  destruct (decide (sqlite_existing_columns (td_name t) c = ∅)) as [He|Hne].
  - split; [apply app_columns_dom|]. by apply app_columns_compatible, table_wf_in.
  - by apply migration_keys.
Qed.

Lemma schema_insert t :
  t ∈ ct_tables ct → ec_triggers c2 !! insert_trigger_name t = Some (sync_names t).
Proof.
  intros Ht. destruct (trigger_definition t _ _ Ht (insert_in t)) as [Hin Huniq].
  unfold c2, exec_sqlite_schema. simpl.
  destruct (ec_triggers c1 !! insert_trigger_name t) as [captured|] eqn:Hc1;
    [|by apply create_if_absent_new].
  rewrite (create_if_absent_present _ _ _ _ Hc1). f_equal.
  rewrite (tm_trigger _ _ _ (Hmig t Ht)) in Hc1.
  destruct (decide _) as [Hcase|] in Hc1; [|done].
  destruct (co_insert _ _ Hok t captured Ht Hc1) as [[cols Hcols] ->].
  assert (sqlite_existing_columns (td_name t) c ≠ ∅) as Hne.
  { unfold sqlite_existing_columns. rewrite Hcols. simpl. by apply (co_columns _ _ Hok (td_name t)). }
  destruct Hcase as [|Hmiss]; [done|].
  assert (migrated sqlite_type t (sqlite_existing_columns (td_name t) c)
    = sqlite_existing_columns (td_name t) c) as Hsame.
  { rewrite <-added_columns, Hmiss by by apply table_wf_in. apply (left_id_L ∅ (∪)). }
  destruct (migration_keys t Ht Hne) as [Hdom _]. rewrite Hsame in Hdom. rewrite Hdom.
  assert (PRIMARY_KEY_COLUMN ∉ sync_names t) as Hkey.
  { unfold sync_names. rewrite elem_of_list_to_set. by apply key_not_synchronized, table_wf_in. }
  set_solver.
Qed.

Lemma schema_update t name :
  t ∈ ct_tables ct → name ∈ synchronized_column_names t →
  ec_triggers c2 !! update_trigger_name t name = Some {[ name ]}.
Proof.
  intros Ht Hn. destruct (trigger_definition t _ _ Ht (update_in t name Hn)) as [Hin Huniq].
  assert (ec_triggers c1 !! update_trigger_name t name = ec_triggers c !! update_trigger_name t name)
    as Hc1.
  { apply (ot_triggers _ _ _ _ Hother). intros (t' & Heq & Ht')%list_elem_of_fmap.
    by apply (update_not_insert t t' name) in Heq. }
  unfold c2, exec_sqlite_schema. simpl.
  destruct (ec_triggers c !! update_trigger_name t name) as [captured|] eqn:Hc;
    [|by apply create_if_absent_new].
  rewrite (create_if_absent_present _ _ _ _ Hc1). f_equal. by apply (co_update _ _ Hok t name).
Qed.

(** A definition of the schema exists afterwards. *)
Lemma schema_present k v : (k, v) ∈ ct_tables ct ≫= table_ddl → is_Some (ec_tables c2 !! k).
Proof.
  intros Hin. unfold c2, exec_sqlite_schema. simpl.
  destruct (ec_tables c1 !! k) eqn:Hk; [by eexists; apply create_if_absent_present|].
  unfold create_if_absent. rewrite lookup_union_r by done.
  destruct (list_to_map (ct_tables ct ≫= table_ddl) !! k) eqn:Hl; [by eexists|].
  apply not_elem_of_list_to_map_2 in Hl. destruct Hl. apply list_elem_of_fmap. by exists (k, v).
Qed.

(** Nothing is lost. *)
Lemma schema_mono n : sqlite_existing_columns n c ⊆ sqlite_existing_columns n c2.
Proof.
  assert (sqlite_existing_columns n c ⊆ sqlite_existing_columns n c1) as Hsub.
  { destruct (decide (n ∈ td_name <$> ct_tables ct)) as [Hin|Hnin].
    - apply list_elem_of_fmap in Hin as (t & -> & Ht).
      pose proof (tm_table _ _ _ (Hmig t Ht)) as Hc1.
      destruct (decide (sqlite_existing_columns (td_name t) c = ∅)) as [He|Hne].
      + rewrite He. apply map_empty_subseteq.
      + unfold sqlite_existing_columns at 2. rewrite Hc1. apply map_union_subseteq_l.
    - by rewrite (existing_same _ _ _ _ _ Hother Hnin). }
  etransitivity; [exact Hsub|]. unfold sqlite_existing_columns, c2, exec_sqlite_schema. simpl.
  destruct (ec_tables c1 !! n) as [cols|] eqn:Hn; simpl; [|apply map_empty_subseteq].
  by rewrite (create_if_absent_present _ _ _ _ Hn).
Qed.
End schema.

Lemma bind_run c3 c' :
  bind_catalog device c3 = (Ok tt, c') ↔
  (∀ st, ec_client c3 = Some st → cs_device_id st = device) ∧
  c' = match ec_client c3 with
       | Some _ => c3
       | None => set_client {| cs_device_id := device; cs_lamport := 0; cs_applying_remote := false |} c3
       end.
Proof.
  unfold bind_catalog, st_bind, st_get. destruct (ec_client c3) as [st|]; simpl.
  - destruct (String.eqb_spec (cs_device_id st) device) as [Heq|Hne]; simpl.
    + unfold st_ret. split; [intros [= <-]; split; [by intros ? [= <-]|done]|by intros [_ ->]].
    + split; [done|]. intros [Hst _]. by destruct Hne; apply Hst.
  - unfold st_modify. split; [intros [= <-]; done|by intros [_ ->]].
Qed.

(** The stages of a successful initialization. *)
Lemma body_run sql c' :
  initialize_body device ct c = (Ok sql, c') →
  ∃ c1 c3, (∀ t, t ∈ ct_tables ct → table_migrated t c c1) ∧
    other_tables (td_name <$> ct_tables ct) (insert_trigger_name <$> ct_tables ct) c c1 ∧
    metadata_done (exec_sqlite_schema ct c1) c3 ∧ bind_catalog device c3 = (Ok tt, c').
Proof.
  unfold initialize_body.
  intros (s1 & c1 & Hmig & Hrest)%st_bind_ok.
  apply migrate_tables_run in Hmig as [Hms Ho]; [|done|apply (nd_tables _ Hnd)].
  unfold st_bind at 1, st_modify in Hrest.
  apply st_bind_ok in Hrest as (s3 & c3 & Hmeta%metadata_run & Hrest).
  apply st_bind_ok in Hrest as ([] & c4 & Hbind & [_ ->]%st_ret_ok). eauto 10.
Qed.

Lemma contract_has_table : ∃ t, t ∈ ct_tables ct.
Proof.
  pose proof (nd_nonempty _ Hnd) as Hne. destruct (ct_tables ct) as [|t l]; [done|].
  exists t. by left.
Qed.

(** A table of the library that the schema defines has its columns. *)
Lemma fixed_table_exists c1 n :
  other_tables (td_name <$> ct_tables ct) (insert_trigger_name <$> ct_tables ct) c c1 →
  n = "client_state" ∨ n = "loomabase_cursor" →
  sqlite_existing_columns n (exec_sqlite_schema ct c1) ≠ ∅.
Proof.
  intros Ho Hn. assert (n ∈ metadata_tables) as Hm by (unfold metadata_tables; set_solver).
  assert (n ∉ td_name <$> ct_tables ct) as Hnin.
  { intros (t & -> & Ht)%list_elem_of_fmap. by destruct (nd_metadata _ Hnd t Ht). }
  unfold sqlite_existing_columns, exec_sqlite_schema. simpl.
  destruct (ec_tables c1 !! n) as [cols|] eqn:Hc.
  - rewrite (create_if_absent_present _ _ _ _ Hc). simpl.
    rewrite (ot_tables _ _ _ _ Ho) in Hc by done. by apply (co_columns _ _ Hok _ _ Hc).
  - destruct contract_has_table as [t Ht].
    set (v := if decide (n = "client_state") then client_state_columns else cursor_columns).
    rewrite (create_if_absent_new _ _ _ v); [unfold v; by case_decide|done|..].
    + apply (ddl_in t); [done|]. unfold v, table_ddl. destruct Hn as [->| ->]; simpl; set_solver.
    + intros v' [[-> ->]|[[-> ->]|[(t' & Ht' & -> & _)|(t' & Ht' & -> & _)]]]%elem_of_table_ddl;
        [done|done|..]; by destruct (nd_metadata _ Hnd t' Ht').
Qed.

Lemma nonempty_present n c0 : sqlite_existing_columns n c0 ≠ ∅ → is_Some (ec_tables c0 !! n).
Proof. unfold sqlite_existing_columns. destruct (ec_tables c0 !! n); [by eexists|done]. Qed.
Lemma grown_nonempty (m m' : gmap string string) : m ⊆ m' → m ≠ ∅ → m' ≠ ∅.
Proof. intros Hsub Hne ->. apply Hne, map_empty. intros k. by eapply lookup_weaken_None, Hsub. Qed.

Lemma other_bound c3 c' : bind_catalog device c3 = (Ok tt, c') →
  ec_tables c' = ec_tables c3 ∧ ec_triggers c' = ec_triggers c3 ∧
  ∃ st, ec_client c' = Some st ∧ cs_device_id st = device ∧
    (∀ st0, ec_client c3 = Some st0 → st = st0).
Proof.
  intros [Hst ->]%bind_run. destruct (ec_client c3) as [st|] eqn:Hc.
  - split_and!; [done..|]. exists st. split_and!; [done|by apply Hst|by intros ? [= <-]].
  - split_and!; [done..|]. by eexists.
Qed.

Lemma init_done sql c' :
  initialize_body device ct c = (Ok sql, c') →
  up_to_date ct device c' ∧
  (∀ n, sqlite_existing_columns n c ⊆ sqlite_existing_columns n c') ∧
  (∀ st, ec_client c = Some st → ec_client c' = Some st).
Proof.
  intros (c1 & c3 & Hmig & Ho & Hmeta & Hbind)%body_run.
  destruct (other_bound _ _ Hbind) as (Htab & Htrig & st & Hst & Hdev & Hkeep).
  assert (∀ n, sqlite_existing_columns n c' = sqlite_existing_columns n c3) as Hcols
    by (intros n; unfold sqlite_existing_columns; by rewrite Htab).
  pose proof (md_other _ _ Hmeta) as Hmo.
  assert (∀ t, t ∈ ct_tables ct → sqlite_existing_columns (td_name t) c'
    = sqlite_existing_columns (td_name t) (exec_sqlite_schema ct c1)) as Happ.
  { intros t Ht. rewrite Hcols. apply (existing_same _ _ _ _ _ Hmo).
    by apply (nd_metadata _ Hnd). }
  assert (∀ n, ec_triggers c' !! n = ec_triggers (exec_sqlite_schema ct c1) !! n) as Htr.
  { intros n. rewrite Htrig. apply (ot_triggers _ _ _ _ Hmo). set_solver. }
  split; [|split].
  - split.
    + intros t Ht. rewrite Happ by done. by apply schema_dom.
    + intros t Ht. rewrite Happ by done. by apply schema_dom.
    + intros t Ht. rewrite Htab, (ot_tables _ _ _ _ Hmo) by by apply (nd_metadata _ Hnd).
      apply (schema_present c1 (crdt_table t) crdt_columns), (ddl_in t); [done|].
      unfold table_ddl. set_solver.
    + intros t Ht. rewrite Htr. by apply schema_insert.
    + intros t name Ht Hn. rewrite Htr. by apply schema_update.
    + intros n Hn. rewrite Htab.
      destruct (decide (n = "client_state" ∨ n = "loomabase_cursor")) as [Hfix|Hne].
      * eapply nonempty_present, grown_nonempty; [apply (md_columns _ _ Hmeta)|].
        by apply fixed_table_exists.
      * apply (md_scopes _ _ Hmeta); tauto.
    + rewrite Hcols. apply (md_cursor _ _ Hmeta). apply fixed_table_exists; auto.
    + rewrite Hcols. apply (md_scope _ _ Hmeta).
    + by exists st.
  - intros n. rewrite Hcols. etransitivity; [by apply (schema_mono c1)|apply (md_columns _ _ Hmeta)].
  - intros st0 Hst0. rewrite Hst. f_equal. apply Hkeep.
    rewrite (ot_client _ _ _ _ Hmo). unfold exec_sqlite_schema. simpl.
    by rewrite (ot_client _ _ _ _ Ho).
Qed.
End init.

(** ** When it succeeds *)
Lemma migrate_tables_total tables c :
  Forall table_wf tables → NoDup (td_name <$> tables) →
  (∀ t, t ∈ tables → sqlite_existing_columns (td_name t) c = ∅ ∨
    is_ok (sqlite_migration_sql t (sqlite_existing_columns (td_name t) c)) = true) →
  ∃ sql c', migrate_tables tables c = (Ok sql, c').
Proof.
  revert c. induction tables as [|t tables IH]; intros c Hwf Hnd Hall; [by eexists _, _|].
  apply Forall_cons_1 in Hwf as [Ht Hwf]. rewrite fmap_cons in Hnd.
  apply list.NoDup_cons in Hnd as [Hnin Hnd].
  assert (∃ sql c1, migrate_table t c = (Ok sql, c1)) as (s1 & c1 & Hhead).
  { unfold migrate_table, st_bind, st_get, st_lift. destruct (decide _) as [|Hne]; [by eexists _, _|].
    destruct (Hall t ltac:(by left)) as [|Hm]; [done|].
    destruct (sqlite_migration_sql _ _); [by eexists _, _|done]. }
  destruct (migrate_table_run _ _ _ _ Ht Hhead) as [_ Ho].
  destruct (IH c1 Hwf Hnd) as (s2 & c2 & Htail).
  { intros t' Ht'. rewrite (existing_same _ _ _ _ _ Ho).
    - apply Hall. by right.
    - intros Heq%list_elem_of_singleton. apply Hnin. rewrite <-Heq. by apply list_elem_of_fmap_2. }
  cbn [migrate_tables]. unfold st_bind. rewrite Hhead, Htail. by eexists _, _.
Qed.

Definition never_fails {A} (m : InitM A) : Prop := ∀ c, ∃ a c', m c = (Ok a, c').
Lemma never_fails_ret {A} (a : A) : never_fails (st_ret a).
Proof. intros c. by eexists _, _. Qed.
Lemma never_fails_bind {A B} (m : InitM A) (k : A → InitM B) :
  never_fails m → (∀ a, never_fails (k a)) → never_fails (st_bind m k).
Proof.
  intros Hm Hk c. destruct (Hm c) as (a & c1 & Heq). destruct (Hk a c1) as (b & c2 & Heq2).
  exists b, c2. unfold st_bind. by rewrite Heq.
Qed.
Lemma never_fails_ensure columns table column ty statement :
  never_fails (ensure_column columns table column ty statement).
Proof. intros c. unfold ensure_column. destruct (columns !! column); by eexists _, _. Qed.

Lemma metadata_total : never_fails migrate_client_metadata.
Proof.
  unfold migrate_client_metadata.
  repeat first [apply never_fails_bind; [|intros ?] | apply never_fails_ret
    | apply never_fails_ensure | case_decide | by intros c; eexists _, _].
Qed.

(** ** Once more *)
Section again.
Variables (device : string) (ct : Contract) (c : EdgeCatalog).
Hypotheses (Hwf : Forall table_wf (ct_tables ct)) (Hnd : names_distinct ct)
  (Hup : up_to_date ct device c).

Lemma migrate_again tables :
  (∀ t, t ∈ tables → t ∈ ct_tables ct) → migrate_tables tables c = (Ok [], c).
Proof.
  induction tables as [|t tables IH]; intros Hsub; [done|].
  assert (t ∈ ct_tables ct) as Ht by (apply Hsub; by left).
  pose proof (ud_columns _ _ _ Hup t Ht) as Hdom.
  set (ex := sqlite_existing_columns (td_name t) c) in *.
  assert (missing ex (synchronized_columns t) = []) as Hmiss.
  { destruct (missing ex (synchronized_columns t)) as [|col l] eqn:Hm; [done|]. exfalso.
    assert (col ∈ missing ex (synchronized_columns t)) as [Hnone Hin]%list_elem_of_filter
      by (rewrite Hm; by left).
    assert (cd_name col ∈ dom ex) as [d Hd]%elem_of_dom; [|congruence].
    rewrite Hdom. apply elem_of_union_r. unfold sync_names. apply elem_of_list_to_set.
    unfold synchronized_column_names. by apply list_elem_of_fmap_2. }
  assert (sqlite_migration_sql t ex = Ok []) as Hmig.
  { apply sqlite_migration_ok. rewrite Hmiss, decide_True by done.
    split; [|split; [apply (ud_types _ _ _ Hup t Ht)|done]].
    intros k Hk%elem_of_dom. rewrite Hdom in Hk. apply elem_of_union in Hk as [Hk|Hk].
    - left. by apply elem_of_singleton in Hk.
    - right. unfold sync_names in Hk. by apply elem_of_list_to_set in Hk. }
  assert (migrate_table t c = (Ok [], c)) as Hhead.
  { unfold migrate_table, st_bind, st_get, st_lift, st_modify, st_ret. fold ex.
    destruct (decide (ex = ∅)); [done|]. rewrite Hmig. unfold exec_migration.
    by rewrite Hmiss, decide_True. }
  cbn [migrate_tables]. unfold st_bind. rewrite Hhead, IH; [done|].
  intros t' Ht'. apply Hsub. by right.
Qed.

Lemma schema_again : exec_sqlite_schema ct c = c.
Proof.
  unfold exec_sqlite_schema. rewrite !create_if_absent_again; [by destruct c|..].
  - intros k ([k' v] & -> & Hin)%list_elem_of_fmap. simpl.
    apply elem_of_table_ddl in Hin as [[-> _]|[[-> _]|[(t & Ht & -> & _)|(t & Ht & -> & _)]]].
    + apply (ud_metadata _ _ _ Hup). unfold metadata_tables. set_solver.
    + apply (ud_metadata _ _ _ Hup). unfold metadata_tables. set_solver.
    + apply nonempty_present. intros He. pose proof (ud_columns _ _ _ Hup t Ht) as Hdom.
      rewrite He, dom_empty_L in Hdom. set_solver.
    + by apply (ud_log _ _ _ Hup).
  - intros k ([k' v] & -> & (t & Hin & Ht)%list_elem_of_bind)%list_elem_of_fmap. simpl.
    unfold trigger_ddl in Hin. apply elem_of_cons in Hin as [[= -> _]|Hin].
    + eexists. by apply (ud_insert _ _ _ Hup).
    + apply list_elem_of_fmap in Hin as (name & [= -> _] & Hn). eexists.
      by apply (ud_update _ _ _ Hup).
Qed.

Lemma ensure_again columns table column ty statement :
  is_Some (columns !! column) → ensure_column columns table column ty statement c = (Ok [], c).
Proof. intros [d Hd]. unfold ensure_column. by rewrite Hd. Qed.

Lemma metadata_again : ∃ sql, migrate_client_metadata c = (Ok sql, c).
Proof.
  destruct (ud_cursor _ _ _ Hup) as [Htok Hep].
  assert (exec_scope_tables c = c) as Hscope.
  { unfold exec_scope_tables. rewrite create_if_absent_again; [by destruct c|].
    intros k Hk. apply (ud_metadata _ _ _ Hup). cbn in Hk. unfold metadata_tables. set_solver. }
  unfold migrate_client_metadata, st_bind, st_get, st_modify.
  rewrite decide_False.
  2:{ intros He. rewrite He in Htok. destruct Htok as [? Htok]. by rewrite lookup_empty in Htok. }
  rewrite !ensure_again by done. unfold st_ret at 1. rewrite Hscope.
  rewrite ensure_again by apply (ud_scope _ _ _ Hup). by eexists.
Qed.

Lemma initialize_again : ∃ sql, initialize_body device ct c = (Ok sql, c).
Proof.
  destruct metadata_again as [s2 Hmeta]. destruct (ud_client _ _ _ Hup) as (st & Hst & Hdev).
  unfold initialize_body, st_bind. rewrite migrate_again by done. unfold st_modify.
  rewrite schema_again, Hmeta. unfold bind_catalog, st_bind, st_get. rewrite Hst.
  rewrite (proj2 (String.eqb_eq _ _) Hdev). by eexists.
Qed.
End again.

(** C17: Opening a database migrates it and loses nothing, for a contract whose
    tables, logs and triggers have distinct names ([names_distinct], which
    [Contract::new] does not ensure). From any catalog
    an earlier version of the contract left - or an empty file - opening
    succeeds exactly when the device identifier is valid, every existing
    table can be migrated and the file belongs to this device. Then every
    table has exactly the columns of the contract, the insert trigger
    captures all of them and each update trigger its own, the library's
    tables have the columns of this version, no column and no clock of before
    is gone, and opening again changes nothing. A failure leaves the catalog
    as it was. *)
Theorem client_init_migrates device ct c :
  Forall table_wf (ct_tables ct) → names_distinct ct → catalog_ok ct c →
  match initialize_client_with_contract device ct c with
  | (Ok _, c') =>
    up_to_date ct device c' ∧
    (∀ n, sqlite_existing_columns n c ⊆ sqlite_existing_columns n c') ∧
    (∀ st, ec_client c = Some st → ec_client c' = Some st) ∧
    ∃ sql, initialize_client_with_contract device ct c' = (Ok sql, c')
  | (Err _, c') =>
    c' = c ∧
    ¬ (validate_identifier "device_id" device = Ok tt ∧
       (∀ t, t ∈ ct_tables ct → sqlite_existing_columns (td_name t) c = ∅ ∨
          is_ok (sqlite_migration_sql t (sqlite_existing_columns (td_name t) c)) = true) ∧
       (∀ st, ec_client c = Some st → cs_device_id st = device))
  end.
Proof.
  intros Hwf Hnd Hok. unfold initialize_client_with_contract.
  unfold st_bind at 1 3, st_lift. destruct (validate_identifier "device_id" device) as [[]|e] eqn:Hdev;
    [|by split; [|intros [[=] _]]].
  unfold st_bind, transactional. destruct (initialize_body device ct c) as [[sql|e] c'] eqn:Hrun.
  - destruct (init_done device ct c Hwf Hnd Hok sql c' Hrun) as (Hup & Hsub & Hst).
    unfold st_ret at 1. split_and!; [done..|].
    destruct (initialize_again device ct c' Hwf Hnd Hup) as [sql' ->]. by eexists.
  - split; [done|]. intros (_ & Hmig & Hclient).
    destruct (migrate_tables_total (ct_tables ct) c Hwf (nd_tables _ Hnd) Hmig) as (s1 & c1 & Hms).
    destruct (metadata_total (exec_sqlite_schema ct c1)) as (s2 & c3 & Hmeta).
    assert (ec_client c3 = ec_client c) as Hc3.
    { rewrite (ot_client _ _ _ _ (md_other _ _ (metadata_run _ _ _ Hmeta))).
      unfold exec_sqlite_schema. simpl.
      apply (ot_client _ _ _ _ (proj2 (migrate_tables_run _ _ _ _ Hwf (nd_tables _ Hnd) Hms))). }
    assert (∃ c4, bind_catalog device c3 = (Ok tt, c4)) as [c4 Hbind].
    { eexists. apply bind_run. split; [|done]. intros st Hst. apply Hclient. by rewrite <-Hc3. }
    unfold initialize_body, st_bind, st_modify in Hrun. rewrite Hms, Hmeta, Hbind in Hrun. done.
Qed.

(** ** Witness *)
Definition two_tables : Contract := {| ct_tables := [todos_table; notes_table] |}.
(** A file of an older version: no [completed] column, no notes, cursors
    without tokens. *)
Definition old_catalog : EdgeCatalog := {|
  ec_tables := {[ "todos" := old_todos; "todos_crdt" := crdt_columns;
                  "client_state" := client_state_columns;
                  "loomabase_cursor" := {[ "crdt_table" := "TEXT"; "cursor" := "INTEGER" ]} ]};
  ec_triggers := {[ "todos_crdt_after_insert" := {[ "title"; "deleted" ]};
                    "todos_crdt_after_title_update" := {[ "title" ]};
                    "todos_crdt_after_deleted_update" := {[ "deleted" ]} ]};
  ec_client := Some {| cs_device_id := "device-a"; cs_lamport := 7; cs_applying_remote := false |};
|}.
Definition opened : Result (list string) * EdgeCatalog :=
  initialize_client_with_contract "device-a" two_tables old_catalog.

Lemma notes_table_wf : table_wf notes_table.
Proof.
  apply (TableDef_new_ok (H:=plain_debug) "notes" [ColumnDef_new "body" TText]). reflexivity.
Qed.
Lemma two_tables_wf : Forall table_wf (ct_tables two_tables).
Proof.
  apply Forall_cons_2; [exact todos_table_wf|]. apply Forall_cons_2; [exact notes_table_wf|].
  apply Forall_nil_2.
Qed.
Lemma two_tables_distinct : names_distinct two_tables.
Proof.
  assert (Forall (λ t, Forall (λ t', Forall (λ e : string * gset string, Forall
    (λ e' : string * gset string, e.1 = e'.1 → t = t' ∧ e.2 = e'.2) (trigger_ddl t'))
    (trigger_ddl t)) (ct_tables two_tables)) (ct_tables two_tables)) as Htr
    by (apply (bool_decide_unpack _); vm_compute; exact I).
  split.
  - done.
  - apply (bool_decide_unpack _). vm_compute. exact I.
  - assert (Forall (λ t, Forall (λ t', td_name t ≠ crdt_table t') (ct_tables two_tables))
      (ct_tables two_tables)) as Hall by (apply (bool_decide_unpack _); vm_compute; exact I).
    intros t t' Ht Ht'. rewrite list.Forall_forall in Hall. specialize (Hall t Ht).
    rewrite list.Forall_forall in Hall. by apply Hall.
  - assert (Forall (λ t, td_name t ∉ metadata_tables ∧ crdt_table t ∉ metadata_tables)
      (ct_tables two_tables)) as Hall by (apply (bool_decide_unpack _); vm_compute; exact I).
    intros t Ht. rewrite list.Forall_forall in Hall. by apply Hall.
  - intros t t' n a b Ht Ht' Ha Hb. rewrite list.Forall_forall in Htr. specialize (Htr t Ht).
    rewrite list.Forall_forall in Htr. specialize (Htr t' Ht').
    rewrite list.Forall_forall in Htr. specialize (Htr _ Ha).
    rewrite list.Forall_forall in Htr. by apply (Htr _ Hb).
Qed.
Lemma old_catalog_ok : catalog_ok two_tables old_catalog.
Proof.
  assert (map_Forall (λ _ m, m ≠ ∅) (ec_tables old_catalog)) as Hcols
    by (apply (bool_decide_unpack _); vm_compute; exact I).
  assert (Forall (λ t, ec_tables old_catalog !! td_name t = None ∨
    is_Some (sqlite_existing_columns (td_name t) old_catalog !! PRIMARY_KEY_COLUMN))
    (ct_tables two_tables)) as Hkey by (apply (bool_decide_unpack _); vm_compute; exact I).
  assert (Forall (λ t, ec_triggers old_catalog !! insert_trigger_name t = None ∨
    is_Some (ec_tables old_catalog !! td_name t) ∧
    ec_triggers old_catalog !! insert_trigger_name t
      = Some (dom (sqlite_existing_columns (td_name t) old_catalog) ∖ {[ PRIMARY_KEY_COLUMN ]}))
    (ct_tables two_tables)) as Hins by (apply (bool_decide_unpack _); vm_compute; exact I).
  assert (Forall (λ t, Forall (λ name,
    ec_triggers old_catalog !! update_trigger_name t name = None ∨
    ec_triggers old_catalog !! update_trigger_name t name = Some {[ name ]})
    (synchronized_column_names t)) (ct_tables two_tables)) as Hupd
    by (apply (bool_decide_unpack _); vm_compute; exact I).
  rewrite list.Forall_forall in Hkey, Hins, Hupd. split.
  - intros n cols Hn. by apply (Hcols n).
  - intros t cols Ht Hn. unfold sqlite_existing_columns in Hkey.
    destruct (Hkey t Ht) as [Hnone|His]; rewrite Hn in *; [done|exact His].
  - intros t captured Ht Hc. destruct (Hins t Ht) as [Hnone|[His Heq]]; [congruence|].
    split; [exact His|]. rewrite Heq in Hc. by injection Hc as <-.
  - intros t name captured Ht Hname Hc. specialize (Hupd t Ht).
    rewrite list.Forall_forall in Hupd. destruct (Hupd name Hname) as [Hnone|Heq]; congruence.
Qed.
Lemma demo_opened : initialize_client_with_contract "device-a" two_tables old_catalog
  = (Ok (default [] (match opened.1 with Ok l => Some l | Err _ => None end)), opened.2).
Proof. vm_compute. reflexivity. Qed.

Lemma client_init_migrates_witness :
  up_to_date two_tables "device-a" opened.2 ∧
  ec_client opened.2 = Some {| cs_device_id := "device-a"; cs_lamport := 7; cs_applying_remote := false |}.
Proof.
  pose proof (client_init_migrates "device-a" two_tables old_catalog two_tables_wf
    two_tables_distinct old_catalog_ok) as Hinit.
  rewrite demo_opened in Hinit. destruct Hinit as (Hup & _ & Hst & _).
  split; [exact Hup|]. apply Hst. reflexivity.
Defined.
