(* ===== verification/MultiTable.v ===== *)
(** * Several tables in one edge database (src/client.rs, src/schema.rs)

    A [Contract] may hold several tables. They live in one database: one
    [client_state], hence one Lamport clock and one [applying_remote] flag,
    one [loomabase_cursor] and one relation of scopes, whose rows name the
    log table they belong to; every table has its own application and log
    table and syncs through its own [SqliteClient] against its own server
    state. This file runs the operations of [Client], which know one table,
    on such a database, interleaves the syncs of its tables, and shows that
    each table still sees an execution of its own - provided the names of the
    tables, logs, indexes and triggers are distinct ([tables_apart]). *)
From S2P Require Import ClientInit ClientInitTheorems.
From S2P Require Import Prelude RustStd Error Schema SchemaFacts Crdt Lww Payload Policy Replica.
From S2P Require Import State Feed Merge MergeTheorems FeedTheorems.
From S2P Require Import Sqlite Client ClientFacts ClientInv ClientLocal ClientAck ClientDelta.
From S2P Require Import ClientScopes ClientOps Demo ClientDemo ClientReplication SyncServer ClientSync.
From S2P Require Import SharedServer.

(** ** The database

    Application and log tables are tables of one file: a contract whose table
    has the name of another's log makes the two one table. *)
Inductive EdgeTable :=
| AppTable (rows : gmap string (gmap string SqlValue))
| LogTable (cells : gmap (string * string) CellRow).
Record EdgeDb := {
  eg_state : option ClientState;
  eg_tables : gmap string EdgeTable;
  eg_cursors : gmap string CursorRow;
  eg_scopes : gmap (string * string) (Z * bool);
  eg_members : gset scope_row;
  eg_evictions : gset scope_row;
}.

(** What the statements of one table can name. *)
Definition edge_app (name : string) (e : EdgeDb) : gmap string (gmap string SqlValue) :=
  match eg_tables e !! name with Some (AppTable rows) => rows | _ => ∅ end.
Definition edge_log (name : string) (e : EdgeDb) : gmap (string * string) CellRow :=
  match eg_tables e !! name with Some (LogTable cells) => cells | _ => ∅ end.
Definition edge_view (t : TableDef) (e : EdgeDb) : ClientDb :=
  {| client_state := eg_state e; app_rows := edge_app (td_name t) e;
     crdt_rows := edge_log (crdt_table t) e; cursors := eg_cursors e;
     scope_state := eg_scopes e; scope_members := eg_members e;
     scope_evictions := eg_evictions e |}.
Definition edge_put (t : TableDef) (db : ClientDb) (e : EdgeDb) : EdgeDb :=
  {| eg_state := client_state db;
     eg_tables := <[td_name t := AppTable (app_rows db)]>
                    (<[crdt_table t := LogTable (crdt_rows db)]> (eg_tables e));
     eg_cursors := cursors db;
     eg_scopes := scope_state db; eg_members := scope_members db;
     eg_evictions := scope_evictions db |}.
Definition EdgeM (A : Type) : Type := stM EdgeDb SyncError A.

(** An operation of the [SqliteClient] of one table. *)
Definition on_table {A} (t : TableDef) (m : ClientM A) : EdgeM A := λ e,
  let '(r, db) := m (edge_view t e) in (r, edge_put t db e).
(** The same, next to the rest of the world. *)
Definition on_table_with {W A} (t : TableDef) (m : stM (ClientDb * W) SyncError A)
  : stM (EdgeDb * W) SyncError A := λ s,
  let '(r, (db, w)) := m (edge_view t s.1, s.2) in (r, (edge_put t db s.1, w)).

(** A database that [initialize_client_with_contract] has just created: the
    tables are empty, the device is bound. *)
Definition edge_empty : EdgeDb :=
  {| eg_state := None; eg_tables := ∅; eg_cursors := ∅; eg_scopes := ∅;
     eg_members := ∅; eg_evictions := ∅ |}.
Definition edge_bind (device : string) : EdgeM unit := λ e,
  let '(r, db) := bind_device device (edge_view todos_table e) in
  (r, {| eg_state := client_state db; eg_tables := eg_tables e;
         eg_cursors := eg_cursors e; eg_scopes := eg_scopes e; eg_members := eg_members e;
         eg_evictions := eg_evictions e |}).

(** Distinct names have distinct log tables. *)
Lemma str_app_length a b : String.length (a +:+ b) = (String.length a + String.length b)%nat.
Proof. induction a as [|c a IH]; simpl; [done|]. by rewrite IH. Qed.
Lemma str_app_cancel a b c : a +:+ c = b +:+ c → a = b.
Proof.
  revert b. induction a as [|x a IH]; intros [|y b] Heq; [done|..].
  1-2: apply (f_equal String.length) in Heq; rewrite !str_app_length in Heq; simpl in Heq; lia.
  - injection Heq as -> Heq. f_equal. by apply IH.
Qed.
Lemma crdt_table_inj t t' : crdt_table t = crdt_table t' → td_name t = td_name t'.
Proof. apply str_app_cancel. Qed.

Lemma own_log t : td_name t ≠ crdt_table t.
Proof.
  intros Heq%(f_equal String.length). unfold crdt_table in Heq. rewrite str_app_length in Heq.
  simpl in Heq. lia.
Qed.
Lemma edge_view_put t db e : edge_view t (edge_put t db e) = db.
Proof.
  destruct db. unfold edge_view, edge_put, edge_app, edge_log. cbn.
  by rewrite (lookup_insert_ne _ (td_name t) (crdt_table t)) by apply own_log;
    rewrite !lookup_insert_eq.
Qed.

(** The tables of a contract are tables apart: no two statements of its schema
    create a table, an index or a trigger of the same name. [Contract::new]
    checks the first condition only, and that some of the library's own tables
    are not used: it accepts [x] next to [x_crdt], which is the log of [x]. *)
Record tables_apart (tables : list TableDef) : Prop := {
  ta_names : NoDup (td_name <$> tables);
  ta_logs t t' : t ∈ tables → t' ∈ tables → td_name t ≠ crdt_table t';
  ta_indexes t t' : t ∈ tables → t' ∈ tables →
    crdt_table t' +:+ "_dirty_idx" ∉ [td_name t; crdt_table t];
  ta_triggers t t' n a b : t ∈ tables → t' ∈ tables →
    (n, a) ∈ trigger_ddl t → (n, b) ∈ trigger_ddl t' → t = t' ∧ a = b;
  ta_metadata t : t ∈ tables → td_name t ∉ metadata_tables ∧ crdt_table t ∉ metadata_tables;
}.
Definition apart (u t : TableDef) : Prop :=
  td_name u ≠ td_name t ∧ td_name u ≠ crdt_table t ∧ crdt_table u ≠ td_name t.
Lemma apart_of tables u t :
  tables_apart tables → u ∈ tables → t ∈ tables → td_name u ≠ td_name t → apart u t.
Proof. intros Hapart Hu Ht Hne. split; [done|]. split; [|apply not_eq_sym]; by eapply ta_logs. Qed.

(** ** Operations of another table *)
Section frame.
Context `{!StrDebug, !SqlText_externals}.
Variables t u : TableDef.
Hypothesis Hne : td_name u ≠ td_name t.

Lemma other_log : crdt_table u ≠ crdt_table t.
Proof. by intros ?%crdt_table_inj. Qed.

(** Updates that touch rows of [u] only. *)
Lemma same_frame db db' :
  cursors db' = cursors db → scope_state db' = scope_state db →
  scope_members db' = scope_members db → scope_evictions db' = scope_evictions db →
  same_table t db db'.
Proof. intros Hc Hs Hm He. split; intros; by rewrite ?Hc, ?Hs, ?Hm, ?He. Qed.

Lemma keeps_frame f :
  (∀ db, cursors (f db) = cursors db ∧ scope_state (f db) = scope_state db ∧
    scope_members (f db) = scope_members db ∧ scope_evictions (f db) = scope_evictions db) →
  st_keeps (E:=SyncError) (same_table t) (st_modify f).
Proof. intros Hf. apply st_keeps_modify. intros db. by apply same_frame; apply Hf. Qed.

(** Decompose a computation down to its updates, and close those that touch
    no relation the tables share. *)
Ltac frames :=
  repeat first
    [ progress intros
    | match goal with H : _ |- st_keeps _ _ => apply H end
    | apply st_keeps_bind; [apply _| |]
    | apply st_keeps_transactional; [apply _|]
    | apply st_keeps_ret; apply _
    | apply st_keeps_lift; apply _
    | apply st_keeps_get; apply _
    | apply st_keeps_for; [apply _|]
    | apply keeps_frame; intros; by repeat case_match
    | solve [eauto with keeps]
    | case_match ].

Lemma fire_trigger_frame columns id row : st_keeps (same_table t) (fire_trigger columns id row).
Proof. unfold fire_trigger. frames. Qed.
Lemma exec_insert_frame id values : st_keeps (same_table t) (exec_insert u id values).
Proof. pose proof fire_trigger_frame. unfold exec_insert. frames. Qed.
Lemma exec_update_frame id column v guard :
  st_keeps (same_table t) (exec_update u id column v guard).
Proof. pose proof fire_trigger_frame. unfold exec_update. frames. Qed.
Lemma set_flag_frame b : st_keeps (same_table t) (set_applying_remote b).
Proof. unfold set_applying_remote, update_client_state. frames. Qed.

Lemma drop_evictions_frame id db : same_table t db (drop_evictions u id db).
Proof.
  split; [done..|]. intros scope id'. simpl. rewrite elem_of_filter. simpl.
  pose proof other_log. naive_solver.
Qed.
Lemma evictions_frame : st_keeps (same_table t) (cleanup_pending_evictions u).
Proof.
  pose proof set_flag_frame. unfold cleanup_pending_evictions, cleanup_row.
  frames; apply st_keeps_modify, drop_evictions_frame.
Qed.
Lemma ack_cell_frame id e : st_keeps (same_table t) (ack_cell id e).
Proof. unfold ack_cell, clear_dirty. frames. Qed.
Lemma acknowledge_frame p : st_keeps (same_table t) (acknowledge_local_delta u p).
Proof.
  pose proof ack_cell_frame. pose proof evictions_frame.
  unfold acknowledge_local_delta, read_client_state, ack_row. frames.
Qed.
Lemma acknowledge_response_frame sent response :
  st_keeps (same_table t) (acknowledge_local_delta_with_response u sent response).
Proof.
  pose proof ack_cell_frame. pose proof evictions_frame.
  unfold acknowledge_local_delta_with_response, read_client_state, ack_row_unless, ack_cell_unless.
  frames.
Qed.

Lemma insert_absent_frame id : st_keeps (same_table t) (insert_row_if_absent u id).
Proof. pose proof exec_insert_frame. unfold insert_row_if_absent. frames. Qed.
Lemma app_column_frame id column v : st_keeps (same_table t) (write_todo_column u id column v).
Proof. pose proof exec_update_frame. unfold write_todo_column. frames. Qed.
Lemma apply_row_frame row : st_keeps (same_table t) (apply_row u row).
Proof.
  pose proof insert_absent_frame. pose proof app_column_frame.
  unfold apply_row, apply_cell, upsert_cell. frames.
Qed.
Lemma store_cursor_frame p db : same_table t db (store_cursor u p db).
Proof. split; [|done..]. simpl. by rewrite lookup_insert_ne by apply other_log. Qed.
Lemma apply_remote_frame p : st_keeps (same_table t) (apply_remote_payload u p).
Proof.
  pose proof set_flag_frame. pose proof apply_row_frame.
  unfold apply_remote_payload, read_client_state, update_client_state. frames.
  apply st_keeps_modify, store_cursor_frame.
Qed.

Lemma bump_scope_frame scope active : st_keeps (same_table t) (bump_scope u scope active).
Proof.
  unfold bump_scope. frames. apply st_keeps_modify. intros db. split; [done| |done..].
  intros scope'. simpl. rewrite lookup_insert_ne; [done|].
  intros [=]. by apply other_log.
Qed.
Lemma clear_members_frame scope db : same_table t db (clear_scope_members u scope db).
Proof.
  split; [done..| |done]. intros scope' id. simpl. rewrite elem_of_filter. simpl.
  pose proof other_log. naive_solver.
Qed.
Lemma add_member_frame scope id : st_keeps (same_table t) (add_member u scope id).
Proof.
  pose proof other_log. apply st_keeps_modify. intros db. split; [done..| |]; simpl; set_solver.
Qed.
Lemma add_eviction_frame scope id : st_keeps (same_table t) (add_eviction u scope id).
Proof.
  pose proof other_log. apply st_keeps_modify. intros db. split; [done..|]; simpl; set_solver.
Qed.

(** No operation of one table's client touches the rows of another. *)
Lemma run_op_frame op : st_keeps (same_table t) (run_op u op).
Proof.
  pose proof exec_insert_frame. pose proof exec_update_frame. pose proof acknowledge_frame.
  pose proof acknowledge_response_frame. pose proof apply_remote_frame. pose proof evictions_frame.
  pose proof bump_scope_frame. pose proof add_member_frame. pose proof add_eviction_frame.
  destruct op; simpl; unfold discard, client_insert, client_set, client_delete, client_restore,
    local_delta, acknowledge, apply_remote, complete_sync, client_reset_cursor,
    partial_replica_request, get_partial_replica_request, complete_partial_replica_sync,
    apply_partial_replica_response, remove_partial_replica_scope,
    remove_partial_replica_scope_body, read_client_state; frames.
  all: apply st_keeps_modify; try apply clear_members_frame.
  intros db. split; [|done..]. simpl. by rewrite lookup_insert_ne by apply other_log.
Qed.
End frame.

(** ** One table seen from another *)
Section other.
Context `{!StrDebug, !SqlText_externals}.
Variables t u : TableDef.
Hypothesis Hapart : apart u t.

Lemma view_put_other db e :
  app_rows (edge_view t (edge_put u db e)) = app_rows (edge_view t e) ∧
  crdt_rows (edge_view t (edge_put u db e)) = crdt_rows (edge_view t e).
Proof.
  destruct Hapart as (Hne & Happ & Hlog). unfold edge_view, edge_put, edge_app, edge_log. cbn.
  rewrite !lookup_insert_ne; [done|by apply other_log|done..].
Qed.

(** What an operation on [u] that keeps [u]'s invariant does to [t]. *)
Lemma put_other_table db e :
  same_table t (edge_view u e) db → advances u (edge_view u e) db → client_wf u db →
  client_wf u (edge_view u e) →
  other_table t (edge_view t e) (edge_view t (edge_put u db e)).
Proof.
  intros [Hc Hs Hm He] [Hadv _] [(st' & Hst' & Hflag' & Hb' & _) _] [(st & Hst & Hflag & _) _].
  destruct (view_put_other db e) as [Ha Hl]. split; [done|done| |].
  - split; simpl; [exact Hc|exact Hs|exact Hm|exact He].
  - intros st0 Hst0. change (client_state (edge_view u e) = Some st0) in Hst0.
    rewrite Hst in Hst0. injection Hst0 as <-.
    destruct (Hadv _ Hst) as (st1 & Hst1 & Hdev & Hle). rewrite Hst' in Hst1. injection Hst1 as <-.
    exists (cs_lamport st'). split; [|split; [done|lia]].
    change (client_state db = Some (set_lamport (cs_lamport st') (cs_applying_remote st) st)).
    rewrite Hst', Hflag, <-Hflag'. f_equal. destruct st'; simpl in *. unfold set_lamport. simpl.
    by rewrite Hdev.
Qed.

Lemma on_table_other {A} (m : ClientM A) e r e' :
  st_keeps (same_table t) m →
  (∀ res db, m (edge_view u e) = (res, db) → client_wf u db ∧ advances u (edge_view u e) db) →
  client_wf u (edge_view u e) → on_table u m e = (r, e') →
  other_table t (edge_view t e) (edge_view t e').
Proof.
  intros Hkeeps Hwf Hwf0. unfold on_table. destruct (m (edge_view u e)) as [res db] eqn:Hm.
  intros [= <- <-]. destruct (Hwf _ _ eq_refl) as [Hwf1 Hadv]. by apply put_other_table; [eapply Hkeeps|..].
Qed.
End other.

(** ** The device and its servers *)
Section device.
Context `{!StrDebug, !SqlText_externals, !SerdeJson}.
Context {W : Type} `{srv : !∀ t, SyncServer t W}.
(** The tables of the contract the device syncs in full, and those of which
    it may hold partial replicas. *)
Variables (full partial : list TableDef) (device : string).

(** A sync under way: the delta has been read; the server has answered. *)
Inductive flight :=
| Outbound (p : SyncPayload)
| Answered (p r : SyncPayload).

Record DeviceSys := {
  ds_edge : EdgeDb;
  ds_server : W;
  ds_flight : gmap string flight;
}.
Definition set_edge (e : EdgeDb) (s : DeviceSys) : DeviceSys :=
  {| ds_edge := e; ds_server := ds_server s; ds_flight := ds_flight s |}.
Definition set_server (w : W) (s : DeviceSys) : DeviceSys :=
  {| ds_edge := ds_edge s; ds_server := w; ds_flight := ds_flight s |}.
Definition set_flight (t : TableDef) (f : option flight) (s : DeviceSys) : DeviceSys :=
  {| ds_edge := ds_edge s; ds_server := ds_server s;
     ds_flight := partial_alter (λ _, f) (td_name t) (ds_flight s) |}.

(** The operations of the tables interleave: an edit of any table may come
    between the delta of a sync and its answer, or between the answer and
    the transaction that completes it, and so may the sync of another table.
    The tables share one server; [ds_env] is whatever else happens to it. *)
Inductive device_step (s : DeviceSys) : DeviceSys → Prop :=
| ds_edit t op res e' :
    t ∈ full → is_edit op = true → op_typed t op →
    on_table t (run_op t op) (ds_edge s) = (res, e') → device_step s (set_edge e' s)
| ds_partial t op res e' :
    t ∈ partial → op_typed t op →
    on_table t (run_op t op) (ds_edge s) = (res, e') → device_step s (set_edge e' s)
| ds_env w' :
    (∀ t, t ∈ full → rtc (srv_step (t:=t)) (ds_server s) w') → device_step s (set_server w' s)
| ds_delta t p e' :
    t ∈ full → ds_flight s !! td_name t = None →
    on_table t (local_delta t) (ds_edge s) = (Ok p, e') →
    device_step s (set_flight t (Some (Outbound p)) (set_edge e' s))
| ds_answer t p r w' :
    t ∈ full → ds_flight s !! td_name t = Some (Outbound p) → srv_room (t:=t) (ds_server s) p →
    srv_send (t:=t) device p (ds_server s) = (Ok r, w') →
    device_step s (set_flight t (Some (Answered p r)) (set_server w' s))
| ds_refused t p err w' :
    t ∈ full → ds_flight s !! td_name t = Some (Outbound p) →
    srv_send (t:=t) device p (ds_server s) = (Err err, w') →
    device_step s (set_flight t None (set_server w' s))
| ds_drop t : t ∈ full → device_step s (set_flight t None s)
| ds_complete t p r res e' :
    t ∈ full → ds_flight s !! td_name t = Some (Answered p r) →
    on_table t (complete_sync t p r) (ds_edge s) = (res, e') →
    device_step s (set_flight t None (set_edge e' s)).
End device.

(** ** Every table is in an execution of its own *)
Section inv.
Context `{!StrDebug, !SqlText_externals, !SerdeJson}.
Context {W : Type} `{srv : !∀ t, SyncServer t W}.
Variables (full partial : list TableDef) (device : string).
Context `{shared : !SharedServer full W}.
Hypothesis (laws : ∀ t, t ∈ full → SyncServerLaws t W).
Hypotheses (Hfloat : f64_text_exact)
  (Htables : ∀ t, t ∈ full ++ partial → table_wf t)
  (Hapart : tables_apart (full ++ partial)).

Lemma in_full t : t ∈ full → t ∈ full ++ partial.
Proof. set_solver. Qed.
Lemma in_partial t : t ∈ partial → t ∈ full ++ partial.
Proof. set_solver. Qed.

(** Two tables of the contract are one, or have different names. *)
Lemma same_or_other t u :
  t ∈ full ++ partial → u ∈ full ++ partial → t = u ∨ td_name t ≠ td_name u.
Proof.
  intros [i Hi]%list_elem_of_lookup [j Hj]%list_elem_of_lookup.
  destruct (decide (td_name t = td_name u)) as [Heq|]; [left|by right].
  assert (i = j) as <-; [|congruence].
  eapply (NoDup_lookup (td_name <$> full ++ partial)); [apply (ta_names _ Hapart)|..]; rewrite list_lookup_fmap.
  - by rewrite Hi.
  - rewrite Hj. simpl. by rewrite Heq.
Qed.

(** What an operation of [u] is to each table of the device. *)
Definition moves (u : TableDef) (e e' : EdgeDb) : Prop :=
  client_wf u (edge_view u e') ∧
  ∀ t, apart u t → other_table t (edge_view t e) (edge_view t e').

Lemma op_moves u op e res e' :
  table_wf u → client_wf u (edge_view u e) → op_typed u op →
  on_table u (run_op u op) e = (res, e') → moves u e e'.
Proof.
  intros Hu Hwf Htyped. unfold on_table. destruct (run_op u op (edge_view u e)) as [r db] eqn:Hrun.
  intros [= <- <-].
  destruct (client_step_step u _ _ Hfloat Hu Hwf (step_op _ _ _ _ _ Htyped Hrun)) as [Hwf' Hadv].
  split; [by rewrite edge_view_put|]. intros t Hne.
  apply put_other_table; [done|by eapply run_op_frame; [apply Hne|]|done..].
Qed.

(** What a table and the sync it has under way have gone through. *)
Definition table_run (t : TableDef) (db : ClientDb) (w : W) (f : option flight) : Prop :=
  match f with
  | None => execution t db w
  | Some (Outbound p) => ∃ db0, execution t db0 w ∧ local_delta t db0 = (Ok p, db0) ∧
      rtc (edit_step t) db0 db
  | Some (Answered p r) => ∃ db0 w0 w1, execution t db0 w0 ∧ local_delta t db0 = (Ok p, db0) ∧
      srv_room (t:=t) w0 p ∧ srv_send (t:=t) device p w0 = (Ok r, w1) ∧
      rtc (edit_step t) db0 db ∧ rtc (srv_step (t:=t)) w1 w
  end.

Lemma execution_edits t db db' (w : W) :
  execution t db w → rtc (edit_step t) db db' → execution t db' w.
Proof. intros Hex Hsteps. revert Hex. induction Hsteps; eauto using ex_edit. Qed.

Lemma run_edit t db db' w f : table_run t db w f → edit_step t db db' → table_run t db' w f.
Proof.
  intros Hrun Hstep. destruct f as [[p|p r]|]; simpl in *.
  - destruct Hrun as (db0 & ? & ? & ?). exists db0. eauto using rtc_r.
  - destruct Hrun as (db0 & w0 & w1 & ? & ? & ? & ? & ? & ?). exists db0, w0, w1.
    split_and!; eauto using rtc_r.
  - by eapply ex_edit.
Qed.
Lemma run_server t db w w' f :
  table_run t db w f → rtc (srv_step (t:=t)) w w' → table_run t db w' f.
Proof.
  intros Hrun Hsteps. destruct f as [[p|p r]|]; simpl in *.
  - destruct Hrun as (db0 & ? & ? & ?). exists db0. split_and!; eauto using execution_server.
  - destruct Hrun as (db0 & w0 & w1 & ? & ? & ? & ? & ? & ?). exists db0, w0, w1.
    split_and!; [done..|by etransitivity].
  - by eapply execution_server.
Qed.

(** A request of an execution, whatever its answer, is a step of the server
    that others see. *)
Lemma sent_steps t db w p db0 res w' :
  t ∈ full → execution t db w → local_delta t db = (Ok p, db0) →
  (is_ok res = true → srv_room (t:=t) w p) → srv_send (t:=t) device p w = (res, w') →
  rtc (srv_step (t:=t)) w w'.
Proof.
  intros Ht Hex Hdelta Hroom Hsend. pose proof (laws t Ht) as Hlaws.
  pose proof (execution_linked t _ _ Hfloat (Htables _ (in_full _ Ht)) Hex) as Hlinked.
  destruct (linked_delta t db w p db0 Hlinked Hdelta) as (st & _ & ->).
  by eapply (srv_lost (t:=t)); [apply (lk_session _ _ _ Hlinked)|apply delta_typed|..].
Qed.

Lemma run_drop t db w f : t ∈ full → table_run t db w f → execution t db w.
Proof.
  intros Ht. destruct f as [[p|p r]|]; simpl; [..|done].
  - intros (db0 & Hex & _ & Hedits). by eapply execution_edits.
  - intros (db0 & w0 & w1 & Hex & Hdelta & Hroom & Hsend & Hedits & Hsteps).
    eapply execution_edits; [|done]. eapply execution_server; [|exact Hsteps].
    eapply execution_server; [exact Hex|]. by eapply (sent_steps t db0 w0 p db0 (Ok r)).
Qed.

(** The invariant. *)
Record sys_inv (s : DeviceSys) : Prop := {
  si_run t : t ∈ full →
    table_run t (edge_view t (ds_edge s)) (ds_server s) (ds_flight s !! td_name t);
  si_wf t : t ∈ full ++ partial → client_wf t (edge_view t (ds_edge s));
}.

(** A step that touches the database through [u], and the sync of [u] only. *)
Definition flights_kept (u : TableDef) (s s' : DeviceSys (W:=W)) : Prop :=
  ∀ n, n ≠ td_name u → ds_flight s' !! n = ds_flight s !! n.

Lemma inv_moves u s s' :
  u ∈ full ++ partial → sys_inv s → moves u (ds_edge s) (ds_edge s') →
  ds_server s' = ds_server s → flights_kept u s s' →
  (u ∈ full →
    table_run u (edge_view u (ds_edge s)) (ds_server s) (ds_flight s !! td_name u) →
    table_run u (edge_view u (ds_edge s')) (ds_server s) (ds_flight s' !! td_name u)) →
  sys_inv s'.
Proof.
  intros Hu [Hrun Hwf] [Hwfu Hother] Hserver Hkept Hown. split.
  - intros t Ht. rewrite Hserver. pose proof (Hrun t Ht) as Htr.
    destruct (same_or_other u t Hu (in_full _ Ht)) as [->|Hne]; [by apply Hown|].
    rewrite Hkept by done. eapply run_edit; [done|].
    by apply edit_other, Hother, (apart_of _ _ _ Hapart Hu (in_full _ Ht)).
  - intros t Ht. destruct (same_or_other u t Hu Ht) as [->|Hne]; [done|].
    by eapply other_table_step; [apply Hwf|apply Hother, (apart_of _ _ _ Hapart Hu Ht)].
Qed.

(** A step of the server through [u], and of the sync of [u] only. *)
Lemma inv_server u s s' :
  u ∈ full → sys_inv s → ds_edge s' = ds_edge s → flights_kept u s s' →
  (∀ t, t ∈ full → td_name u ≠ td_name t → rtc (srv_step (t:=t)) (ds_server s) (ds_server s')) →
  (table_run u (edge_view u (ds_edge s)) (ds_server s) (ds_flight s !! td_name u) →
    table_run u (edge_view u (ds_edge s)) (ds_server s') (ds_flight s' !! td_name u)) →
  sys_inv s'.
Proof.
  intros Hu [Hrun Hwf] Hedge Hkept Hothers Hown. split; rewrite Hedge; [|done].
  intros t Ht. destruct (same_or_other u t (in_full _ Hu) (in_full _ Ht)) as [->|Hne].
  - by apply Hown, Hrun.
  - rewrite Hkept by done. eapply run_server; [by apply Hrun|by apply Hothers].
Qed.

Lemma set_flight_kept u f s s0 :
  ds_flight s0 = ds_flight s → flights_kept u s (set_flight u f s0).
Proof. intros Heq n Hne. simpl. by rewrite lookup_partial_alter_ne, Heq. Qed.
Lemma set_flight_eq u f (s : DeviceSys (W:=W)) : ds_flight (set_flight u f s) !! td_name u = f.
Proof. apply lookup_partial_alter_eq. Qed.

(** The answer under way is typed. *)
Lemma run_answer_typed t db w p r :
  t ∈ full → table_run t db w (Some (Answered p r)) → payload_typed r.
Proof.
  intros Ht (db0 & w0 & w1 & Hex & Hdelta & Hroom & Hsend & _). pose proof (laws t Ht) as Hlaws.
  eapply answer_typed; [|exact Hdelta|exact Hroom|exact Hsend].
  by apply (execution_linked t); [done|apply Htables, in_full|].
Qed.

Lemma delta_view t p e e' :
  on_table t (local_delta t) e = (Ok p, e') →
  local_delta t (edge_view t e) = (Ok p, edge_view t e) ∧ edge_view t e' = edge_view t e.
Proof.
  unfold on_table. destruct (local_delta t (edge_view t e)) as [r db] eqn:Hd.
  intros [= -> <-]. rewrite edge_view_put. by pose proof (local_delta_state _ _ _ _ Hd) as ->.
Qed.

Lemma delta_op t p e e' :
  on_table t (local_delta t) e = (Ok p, e') → on_table t (run_op t OpLocalDelta) e = (Ok tt, e').
Proof.
  unfold on_table. simpl. unfold discard, st_bind.
  destruct (local_delta t (edge_view t e)) as [[]]; by intros [= _ <-].
Qed.

(** What the other tables see of a request under way. *)
Lemma run_sent_typed t db w p : table_run t db w (Some (Outbound p)) → payload_typed p.
Proof.
  intros (db0 & _ & Hdelta & _). unfold local_delta in Hdelta. rewrite transactional_ok in Hdelta.
  apply st_bind_ok in Hdelta as (? & ? & [-> ->]%st_get_ok & [Hp _]%st_lift_ok).
  assert (∃ st, client_state db0 = Some st) as [st Hst].
  { unfold get_local_delta in Hp. destruct (client_state db0); [by eexists|done]. }
  destruct (proj1 (get_local_delta_run t db0 st p Hst) Hp) as (_ & _ & -> & _). apply delta_typed.
Qed.

Lemma device_step_inv s s' : sys_inv s → device_step full partial device s s' → sys_inv s'.
Proof.
  intros Hinv Hstep. pose proof Hinv as [Hrun Hwf].
  destruct Hstep as [t op res e' Ht Hedit Htyped Hop|t op res e' Ht Htyped Hop|w' Henv
    |t p e' Ht Hnone Hdelta|t p r w' Ht Hout Hroom Hsend|t p err w' Ht Hout Hsend
    |t Ht|t p r res e' Ht Hans Hop].
  - pose proof (in_full _ Ht) as Hin.
    apply (inv_moves t s); [done|done| |done|done|]; [by eapply op_moves; eauto|].
    intros _ Htr. eapply run_edit; [exact Htr|]. unfold on_table in Hop. simpl.
    destruct (run_op t op _) as [r db] eqn:Hr. injection Hop as <- <-.
    rewrite edge_view_put. by eapply edit_op.
  - pose proof (in_partial _ Ht) as Hin.
    apply (inv_moves t s); [done|done| |done|done|]; [by eapply op_moves; eauto|].
    intros Hfull. exfalso. pose proof (ta_names _ Hapart) as Hnames.
    rewrite fmap_app in Hnames. apply list.NoDup_app in Hnames as (_ & Hdis & _).
    apply (Hdis (td_name t)); apply list_elem_of_fmap; eauto.
  - split; [|done]. intros t Ht. eapply run_server; [by apply Hrun|by apply Henv].
  - pose proof (in_full _ Ht) as Hin. apply (inv_moves t s); [done|done| |done|by apply set_flight_kept|].
    + eapply (op_moves t OpLocalDelta); [by apply Htables|by apply Hwf|done|by eapply delta_op].
    + intros _. rewrite set_flight_eq, Hnone. simpl. intros Hex.
      apply delta_view in Hdelta as [Hd ->]. exists (edge_view t (ds_edge s)).
      split_and!; [done..|apply rtc_refl].
  - pose proof (Hrun t Ht) as Htr. rewrite Hout in Htr.
    apply (inv_server t s); [done|done|done|by apply set_flight_kept| |].
    + intros u Hu Hne. by eapply (shared_send u t); [..|eapply run_sent_typed|].
    + rewrite set_flight_eq, Hout. simpl. intros (db0 & Hex & Hdelta & Hedits).
      exists db0, (ds_server s), w'. split_and!; [done..|apply rtc_refl].
  - pose proof (Hrun t Ht) as Htr. rewrite Hout in Htr.
    apply (inv_server t s); [done|done|done|by apply set_flight_kept| |].
    + intros u Hu Hne. by eapply (shared_send u t); [..|eapply run_sent_typed|].
    + rewrite set_flight_eq, Hout. simpl. intros (db0 & Hex & Hdelta & Hedits).
      eapply execution_edits; [|done]. eapply execution_server; [exact Hex|].
      by eapply (sent_steps t db0 (ds_server s) p db0 (Err err)).
  - split; [|done]. intros u Hu. pose proof (Hrun u Hu) as Htr.
    destruct (same_or_other t u (in_full _ Ht) (in_full _ Hu)) as [->|Hne].
    + rewrite set_flight_eq. by eapply run_drop.
    + by rewrite (set_flight_kept t None s s eq_refl) by done.
  - pose proof (in_full _ Ht) as Hin. pose proof (Hrun t Ht) as Htr.
    rewrite Hans in Htr. pose proof (run_answer_typed _ _ _ _ _ Ht Htr) as Htyped.
    apply (inv_moves t s); [done|done| |done|by apply set_flight_kept|].
    + by eapply (op_moves t (OpCompleteSync p r)); [apply Htables|apply Hwf| |exact Hop].
    + intros _. rewrite set_flight_eq, Hans. simpl.
      intros (db0 & w0 & w1 & Hex & Hdelta & Hroom & Hsend & Hedits & Hsteps).
      unfold on_table in Hop. destruct (complete_sync t p r _) as [[[]|e] db] eqn:Hc;
        injection Hop as <- <-; rewrite edge_view_put.
      * by eapply (ex_sync t db0 db0 w0 p device r w1 (edge_view t (ds_edge s)) (ds_server s)).
      * pose proof (run_op_clean t (OpCompleteSync p r) _ _ _ Hc) as ->.
        apply (run_drop t _ _ (Some (Answered p r))); [done|]. by exists db0, w0, w1.
Qed.

(** ** Runs of the device *)

(** The database is new, its servers are ready, nothing is under way. *)
Record device_start (s : DeviceSys (W:=W)) : Prop := {
  dn_bind : edge_bind device edge_empty = (Ok tt, ds_edge s);
  dn_server t : t ∈ full → srv_ready (t:=t) (ds_server s);
  dn_flight : ds_flight s = ∅;
}.

Lemma edge_bind_view t e :
  edge_bind device edge_empty = (Ok tt, e) → bind_device device empty_db = (Ok tt, edge_view t e).
Proof.
  unfold edge_bind. change (edge_view todos_table edge_empty) with empty_db.
  intros Heq. destruct (bind_device device empty_db) as [r db] eqn:Hb.
  injection Heq as -> <-. f_equal. unfold bind_device in Hb.
  rewrite st_check_ok, transactional_ok in Hb. destruct Hb as [_ Hb]. by injection Hb as <-.
Qed.

Lemma device_start_inv s : device_start s → sys_inv s.
Proof.
  intros [Hbind Hserver Hflight]. split.
  - intros t Ht. rewrite Hflight, lookup_empty. simpl.
    eapply ex_start; [by apply edge_bind_view|by apply Hserver].
  - intros t Ht. eapply bind_device_wf. by apply edge_bind_view.
Qed.

Lemma device_steps_inv s s' : sys_inv s → rtc (device_step full partial device) s s' → sys_inv s'.
Proof. intros Hinv Hsteps. revert Hinv. induction Hsteps; eauto using device_step_inv. Qed.

Lemma inv_execution s t :
  sys_inv s → t ∈ full → execution t (edge_view t (ds_edge s)) (ds_server s).
Proof. intros [Hrun _] Ht. eapply run_drop; [done|by apply Hrun]. Qed.

(** C6: The tables of a contract synchronize independently, when they are
    tables apart ([tables_apart]: no table has the name of another's log,
    index or of the library's own tables, and no two triggers share a name -
    which [Contract::new] does not check: a contract of [x] and [x_crdt] is
    accepted and is excluded here). Whatever a device does with several such
    tables in one database - edits, syncs of different tables that overlap,
    lost answers, refused requests, partial replicas of further tables - and
    whatever else happens to the server they share, each fully synchronized
    table goes through an execution of its own, to which every theorem about
    one table applies. *)
Theorem device_projects s0 s t :
  device_start s0 → rtc (device_step full partial device) s0 s → t ∈ full →
  execution t (edge_view t (ds_edge s)) (ds_server s).
Proof.
  intros Hstart Hsteps. apply inv_execution.
  exact (device_steps_inv _ _ (device_start_inv _ Hstart) Hsteps).
Qed.

(** ** Syncing every table *)
Definition device_sync (t : TableDef) : stM (DeviceSys (W:=W)) SyncError unit := λ s,
  let '(r, (e', w')) :=
    on_table_with t (sync_until_caught_up t (srv_send (t:=t) device)) (ds_edge s, ds_server s) in
  (r ≫= λ _, Ok tt, set_server w' (set_edge e' s)).
Definition device_sync_all : stM (DeviceSys (W:=W)) SyncError unit := st_for device_sync full.

(** An operation of [u]'s client. *)
Definition own_step (u : TableDef) (db db' : ClientDb) : Prop :=
  ∃ op res, op_typed u op ∧ run_op u op db = (res, db').

Lemma own_step_client u db db' : own_step u db db' → client_step u db db'.
Proof. intros (op & res & Htyped & Hrun). by eapply step_op. Qed.

Lemma own_steps_moves u e db :
  table_wf u → client_wf u (edge_view u e) → rtc (own_step u) (edge_view u e) db →
  moves u e (edge_put u db e).
Proof.
  intros Hu Hwf Hsteps.
  destruct (client_steps u (edge_view u e) db Hfloat Hu Hwf) as [Hwf' Hadv].
  { eapply rtc_subrel; [|exact Hsteps]. intros ??. apply own_step_client. }
  split; [by rewrite edge_view_put|]. intros t Hne. apply put_other_table; [done| |done..].
  destruct Hne as [Hne _]. clear Hwf Hwf' Hadv. induction Hsteps as [db|db1 db2 db3 (op & res & _ & Hrun) _ IH]; [done|].
  etransitivity; [|exact IH]. by eapply run_op_frame.
Qed.

(** What a sync of [t] is: operations of its client here, and on the server
    steps the other tables do not notice. *)
Record sync_moves (t : TableDef) (db db' : ClientDb) (w w' : W) : Prop := {
  sv_own : rtc (own_step t) db db';
  sv_others u : u ∈ full → td_name t ≠ td_name u →
    rtc (srv_step (t:=u)) w w' ∧ srv_cells (t:=u) w' = srv_cells (t:=u) w ∧
    ∀ n, srv_pages (t:=u) n w → srv_pages (t:=u) n w';
}.

Lemma sync_moves_refl t db w : sync_moves t db db w w.
Proof. split; [apply rtc_refl|]. intros. by split; [apply rtc_refl|]. Qed.
Lemma sync_moves_trans t db1 db2 db3 w1 w2 w3 :
  sync_moves t db1 db2 w1 w2 → sync_moves t db2 db3 w2 w3 → sync_moves t db1 db3 w1 w3.
Proof.
  intros [Ho1 Hs1] [Ho2 Hs2]. split; [by etransitivity|]. intros u Hu Hne.
  destruct (Hs1 u Hu Hne) as (? & ? & ?), (Hs2 u Hu Hne) as (? & ? & ?).
  split; [by etransitivity|]. split; [congruence|by eauto].
Qed.

Lemma sync_with_moves t pages db w res db' w' :
  t ∈ full → execution t db w → srv_pages (t:=t) (S pages) w →
  sync_with t (srv_send (t:=t) device) (db, w) = (res, (db', w')) → sync_moves t db db' w w'.
Proof.
  intros Ht Hex Hpages [(e & _ & -> & ->)|(p & answer & Hd & Hm & Hrest)]%sync_with_cases;
    [apply sync_moves_refl|]. pose proof (laws t Ht) as Hlaws. split.
  - destruct answer as [r|e], res as [r'|e']; try done; [|by subst db'; apply rtc_refl..].
    destruct Hrest as [-> Hc]. apply rtc_once. exists (OpCompleteSync p r), (Ok tt). split; [|done].
    eapply answer_typed; [|exact Hd| |exact Hm].
    + by apply (execution_linked t); [done|apply Htables, in_full|].
    + by eapply srv_budget.
  - intros u Hu Hne. apply (shared_send u t device p w answer w'); [done..| |done].
    apply (run_sent_typed t db w). exists db. split_and!; [done..|apply rtc_refl].
Qed.

Lemma sync_pages_moves t pages db w res db' w' :
  t ∈ full → execution t db w → srv_pages (t:=t) pages w →
  sync_pages t (srv_send (t:=t) device) pages (db, w) = (res, (db', w')) → sync_moves t db db' w w'.
Proof.
  intros Ht. pose proof (laws t Ht) as Hlaws. revert db w.
  induction pages as [|pages IH]; intros db w Hex Hpages.
  { intros [= _ <- <-]. apply sync_moves_refl. }
  cbn [sync_pages]. unfold st_bind.
  destruct (sync_with t (srv_send (t:=t) device) (db, w)) as [res1 [db1 w1]] eqn:Hpage.
  pose proof (sync_with_moves _ _ _ _ _ _ _ Ht Hex Hpages Hpage) as Hown.
  destruct (sync_with_execution t _ _ _ _ _ _ _ Hfloat (Htables _ (in_full _ Ht)) Hex Hpages Hpage)
    as [Hex1 Hpages1].
  destruct res1 as [r|e]; [|by intros [= _ <- <-]].
  destruct (has_more r); [|by intros [= _ <- <-]].
  intros Hrest. eapply sync_moves_trans; [exact Hown|].
  eapply IH; [exact Hex1|by apply Hpages1|exact Hrest].
Qed.

(** A table and its server hold the same, and nothing is left to send. *)
Record table_synced (t : TableDef) (s : DeviceSys (W:=W)) : Prop := {
  ts_cells : client_cells t (edge_view t (ds_edge s)) ≡ srv_cells (t:=t) (ds_server s);
  ts_clean k cell : crdt_rows (edge_view t (ds_edge s)) !! k = Some cell → cr_dirty cell = false;
}.
(** The pages a sync of [t] may take are within what its server can count. *)
Definition pages_left (t : TableDef) (s : DeviceSys (W:=W)) : Prop :=
  srv_pages (t:=t) MAX_SYNC_PAGES_PER_CALL (ds_server s).

(** What a completed sync of [u] leaves behind. *)
Record synced_table (u : TableDef) (s s' : DeviceSys (W:=W)) : Prop := {
  sd_inv : sys_inv s';
  sd_flight : ds_flight s' = ds_flight s;
  sd_synced : table_synced u s';
  sd_other t : t ∈ full → td_name u ≠ td_name t →
    other_table t (edge_view t (ds_edge s)) (edge_view t (ds_edge s')) ∧
    srv_cells (t:=t) (ds_server s') = srv_cells (t:=t) (ds_server s) ∧
    (pages_left t s → pages_left t s');
}.

Lemma device_sync_run u s s' :
  sys_inv s → u ∈ full → ds_flight s !! td_name u = None → pages_left u s →
  device_sync u s = (Ok tt, s') → synced_table u s s'.
Proof.
  intros Hinv Hu Hidle Hpages. pose proof (laws u Hu) as Hlaws.
  unfold device_sync, on_table_with. cbn [fst snd].
  pose proof (inv_execution _ _ Hinv Hu) as Hex.
  destruct (sync_until_caught_up u _ _) as [r [db w']] eqn:Hrun.
  destruct r as [r|e]; [|done]. intros [= <-].
  pose proof (sync_pages_moves _ _ _ _ _ _ _ Hu Hex Hpages Hrun) as [Hown Hothers].
  pose proof (own_steps_moves u _ _ (Htables _ (in_full _ Hu)) (si_wf _ Hinv u (in_full _ Hu)) Hown)
    as [Hwfu Hother].
  destruct (sync_pages_converge u _ _ _ _ _ _ _ Hfloat (Htables _ (in_full _ Hu)) Hex Hpages Hrun)
    as (Hex' & _ & Heq & Hclean).
  split; cbn [ds_edge ds_server ds_flight set_server set_edge].
  - destruct Hinv as [Hruns Hwf]. split; cbn [ds_edge ds_server ds_flight set_server set_edge].
    + intros t Ht. destruct (same_or_other u t (in_full _ Hu) (in_full _ Ht)) as [->|Hne].
      * by rewrite Hidle, edge_view_put.
      * eapply run_server; [|by apply Hothers].
        eapply run_edit; [by apply Hruns|].
        by apply edit_other, Hother, (apart_of _ _ _ Hapart (in_full _ Hu) (in_full _ Ht)).
    + intros t Ht. destruct (same_or_other u t (in_full _ Hu) Ht) as [->|Hne]; [done|].
      by eapply other_table_step; [apply Hwf|apply Hother, (apart_of _ _ _ Hapart (in_full _ Hu) Ht)].
  - done.
  - by split; cbn [ds_edge ds_server set_server set_edge]; rewrite edge_view_put.
  - intros t Ht Hne. destruct (Hothers t Ht Hne) as (_ & Hcells & Hleft).
    split; [by apply Hother, (apart_of _ _ _ Hapart (in_full _ Hu) (in_full _ Ht))|].
    split; [exact Hcells|apply Hleft].
Qed.

Lemma table_synced_kept u s s' t :
  synced_table u s s' → t ∈ full → td_name u ≠ td_name t → table_synced t s → table_synced t s'.
Proof.
  intros Hsync Ht Hne [Heq Hclean]. destruct (sd_other _ _ _ Hsync t Ht Hne) as ([_ Hlog _ _] & Hcells & _).
  split; [|by rewrite Hlog]. rewrite Hcells. unfold client_cells in *. by rewrite Hlog.
Qed.

Lemma device_sync_all_run l s s' :
  (∀ t, t ∈ l → t ∈ full ∧ ds_flight s !! td_name t = None ∧ pages_left t s) →
  NoDup (td_name <$> l) → sys_inv s → st_for device_sync l s = (Ok tt, s') →
  sys_inv s' ∧ (∀ t, t ∈ l → table_synced t s') ∧
  ∀ t, t ∈ full → td_name t ∉ td_name <$> l → table_synced t s → table_synced t s'.
Proof.
  revert s. induction l as [|u l IH]; intros s Hl Hnd Hinv.
  - intros [= <-]. split; [done|]. split; [|done]. by intros t ?%not_elem_of_nil.
  - cbn [st_for]. intros ([] & s1 & Hsync & Hrest)%st_bind_ok.
    rewrite fmap_cons in Hnd. apply list.NoDup_cons in Hnd as [Hu Hnd].
    destruct (Hl u) as (Hfull & Hidle & Hpages); [by left|].
    pose proof (device_sync_run _ _ _ Hinv Hfull Hidle Hpages Hsync) as Hdone.
    assert (∀ t, t ∈ l → td_name u ≠ td_name t) as Hne.
    { intros t Ht Heq. apply Hu. rewrite Heq. apply list_elem_of_fmap. eauto. }
    destruct (IH s1) as (Hinv' & Hall & Hkeep); [|done|apply Hdone|done|].
    { intros t Ht. destruct (Hl t) as (Htf & ? & Hp); [by right|]. rewrite (sd_flight _ _ _ Hdone).
      split_and!; [done..|]. by apply (sd_other _ _ _ Hdone t Htf (Hne _ Ht)). }
    split; [done|]. split.
    + intros t [->|Ht]%elem_of_cons; [by apply Hkeep; [| |apply Hdone]|by apply Hall].
    + intros t Ht Hnot Hs. rewrite fmap_cons, not_elem_of_cons in Hnot. destruct Hnot as [Hneu Hnot].
      apply Hkeep; [done..|]. by eapply table_synced_kept.
Qed.

(** When the device then syncs its tables one after the other and each sync
    succeeds, every table ends up with exactly the cells of its server and
    nothing left to send: the later syncs do not disturb the earlier ones. *)
Theorem device_converges s0 s s' :
  device_start s0 → rtc (device_step full partial device) s0 s →
  (∀ t, t ∈ full → ds_flight s !! td_name t = None ∧ pages_left t s) →
  device_sync_all s = (Ok tt, s') →
  (∀ t, t ∈ full → table_synced t s') ∧
  ∀ t, t ∈ full ++ partial → client_wf t (edge_view t (ds_edge s')).
Proof.
  intros Hstart Hsteps Hquiet Hsync.
  pose proof (device_steps_inv _ _ (device_start_inv _ Hstart) Hsteps) as Hinv.
  destruct (device_sync_all_run full s s') as (Hinv' & Hall & _).
  - intros t Ht. split; [done|]. by apply Hquiet.
  - pose proof (ta_names _ Hapart) as Hnames.
    rewrite fmap_app in Hnames. by apply list.NoDup_app in Hnames as (? & _).
  - done.
  - done.
  - split; [done|]. apply Hinv'.
Qed.
End inv.
