(* ===== verification/MultiTableLive.v ===== *)
(** * Syncing every table of a device returns (src/client.rs, tests/multi_table.rs)

    The tables share one Lamport clock, so the sync of one table moves the
    clock the others start from: with room for the pages of all of them under
    one common limit, syncing the tables one after the other succeeds, and
    leaves every table with the cells of its server. The servers of the
    tables may share a clock, too. *)
From S2P Require Import Prelude RustStd Error Schema SchemaFacts Crdt Lww Payload Policy Replica.
From S2P Require Import State Feed Merge MergeTheorems FeedTheorems.
From S2P Require Import Sqlite Client ClientFacts ClientInv ClientLocal ClientAck ClientDelta.
From S2P Require Import ClientScopes ClientOps Demo ClientDemo ClientReplication SyncServer ClientSync.
From S2P Require Import ClientTotal ClientProgress LiveServer ClientTermination SharedServer MultiTable.

(** The clock a sync until caught up can consume. *)
Definition SYNC_CLOCKS : N := 2 * N.of_nat MAX_SYNC_PAGES_PER_CALL.

Section live.
Context `{!StrDebug, !SqlText_externals, !SerdeJson}.
Context {W : Type} `{srv : !∀ t, SyncServer t W, live : !∀ t, LiveServer t W}.
Variables (full partial : list TableDef) (device : string).
Hypothesis (laws : ∀ t, t ∈ full → SyncServerLaws t W).
Hypothesis (live_laws : ∀ t (Ht : t ∈ full), LiveServerLaws (SyncServerLaws0 := laws t Ht) t W).
Context `{shared : !SharedServer full W, shared_lives : !SharedLive full W}.
Hypotheses (Hfloat : f64_text_exact)
  (Htables : ∀ t, t ∈ full ++ partial → table_wf t)
  (Hapart : tables_apart (full ++ partial)).
Variables (bound quota top : N).
Hypotheses (Hquota : (quota ≤ MAX_RESPONSE_CELLS)%N) (Hbytes : (quota * bound ≤ MAX_RESPONSE_BYTES)%N)
  (Hbound : (1 ≤ bound)%N) (Hdevice : device ≠ SERVER_DEVICE_ID) (Htop : (top ≤ MAX_STORABLE_LAMPORT)%N).

(** ** What one sync leaves of the limits of the others *)

(** The exchanges [k] of another table, with clocks up to [clock]. *)
Record limits_kept (t : TableDef) (k : nat) (clock : N) (w w' : W) : Prop := {
  lm_live n : srv_live (t:=t) (k + n) device w → srv_live (t:=t) n device w';
  lm_untold n z : srv_live (t:=t) (k + n) device w →
    srv_untold (t:=t) w' device z = srv_untold (t:=t) w device z;
  lm_clock n : srv_live (t:=t) (k + n) device w →
    (srv_clock (t:=t) w ≤ srv_clock (t:=t) w' ≤ N.max (srv_clock (t:=t) w) clock)%N;
}.

Lemma fewer_exchanges t k n w :
  t ∈ full → srv_live (t:=t) (k + n) device w → srv_live (t:=t) n device w.
Proof. intros Ht. induction k; [done|]. intros Hlive. by apply IHk, shared_fewer. Qed.

Lemma limits_refl t k clock w : t ∈ full → limits_kept t k clock w w.
Proof. intros Ht. split; [intros n; by apply fewer_exchanges|done|lia]. Qed.
Lemma limits_step t k clock w w1 w' :
  limits_kept t 1 clock w w1 → limits_kept t k clock w1 w' → limits_kept t (S k) clock w w'.
Proof.
  intros [L1 U1 C1] [L2 U2 C2].
  assert (∀ n, srv_live (t:=t) (S k + n) device w → srv_live (t:=t) (k + n) device w1) as Hmid
    by (intros n; apply L1).
  split.
  - intros n Hn. by apply L2, Hmid.
  - intros n z Hn. rewrite (U2 n) by by apply Hmid. by apply (U1 (k + n)%nat).
  - intros n Hn. specialize (C1 (k + n)%nat Hn). specialize (C2 n (Hmid _ Hn)). lia.
Qed.
Lemma limits_mono t k clock clock' w w' :
  (clock ≤ clock')%N → limits_kept t k clock w w' → limits_kept t k clock' w w'.
Proof. intros Hle [L U C]. split; [done|done|]. intros n Hn. specialize (C n Hn). lia. Qed.

(** The last clock of a sync of [pages] pages. *)
Definition clock_after (u : TableDef) (w : W) (st : ClientState) (pages : nat) : N :=
  N.max (srv_clock (t:=u) w) (Z.to_N (cs_lamport st)) + 2 * N.of_nat pages.

Lemma sync_pages_limits u (Hu : u ∈ full) pages db w st :
  linked (SyncServerLaws0 := laws u Hu) u db w → sync_ready u bound device pages db w st →
  (remaining u device db w < pages * N.to_nat quota)%nat →
  ∃ r db' w' st', sync_pages u (srv_send (t:=u) device) pages (db, w) = (Ok r, (db', w')) ∧
    client_state db' = Some st' ∧ cs_device_id st' = device ∧
    (Z.to_N (cs_lamport st') ≤ clock_after u w st pages)%N ∧
    ∀ t, t ∈ full → td_name u ≠ td_name t → limits_kept t pages (clock_after u w st pages) w w'.
Proof.
  pose (L := laws u Hu). pose (LL := live_laws u Hu : LiveServerLaws (SyncServerLaws0 := L) u W).
  assert (table_wf u) as Hwf by (apply Htables; set_solver).
  revert db w st. induction pages as [|pages IH]; intros db w st Hlinked Hready Hrem; [lia|].
  destruct (page_returns u Hfloat Hwf bound device pages db w st Hlinked Hready quota Hquota Hbytes
    Hbound) as (r & db1 & w1 & Hpage & Hlinked1 & (st1 & Hready1 & Hnext) & Hprog).
  assert (∀ t, t ∈ full → td_name u ≠ td_name t → limits_kept t 1 (clock_after u w st (S pages)) w w1)
    as Hone.
  { intros t Ht Hne. destruct (sync_with_run u _ _ _ _ _ _ Hpage) as (p & Hd & Hm & _).
    assert (client_request_wf p device u) as Hreq.
    { destruct (linked_delta u db w p db Hlinked Hd) as (st0 & Hst0 & ->).
      pose proof (sr_state _ _ _ _ _ _ _ Hready) as Hst. rewrite Hst in Hst0. injection Hst0 as <-.
      by eapply ready_request. }
    unfold next_clock in Hnext. unfold clock_after.
    split; intros n; [intros Hn|intros z Hn|intros Hn];
      destruct (shared_live t u n device p w r w1 Ht Hu Hne Hreq Hn Hm) as (? & ? & ?); [done|done|lia]. }
  assert (clock_after u w1 st1 pages ≤ clock_after u w st (S pages))%N as Hclock
    by (unfold clock_after; unfold next_clock in Hnext; lia).
  cbn [sync_pages]. unfold st_bind. rewrite Hpage. destruct (has_more r).
  - destruct (IH db1 w1 st1) as (r' & db' & w' & st' & Hrun & ? & ? & ? & Hkept);
      [done|done|specialize (Hprog eq_refl); lia|].
    exists r', db', w', st'. split_and!; [done..|lia|]. intros t Ht Hne.
    eapply limits_step; [by apply Hone|]. eapply limits_mono; [exact Hclock|by apply Hkept].
  - exists r, db1, w1, st1. split; [done|].
    split; [apply (sr_state _ _ _ _ _ _ _ Hready1)|].
    split; [apply (sr_own _ _ _ _ _ _ _ Hready1)|].
    split; [unfold clock_after; unfold next_clock in Hnext; lia|]. intros t Ht Hne.
    eapply limits_step; [by apply Hone|]. by apply limits_refl.
Qed.

(** ** Readiness *)

(** The limits of [sync_ready] for one of [n] tables that are still to sync:
    everything but the device clock, which the other tables move too. *)
Record table_ready (n : nat) (t : TableDef) (db : ClientDb) (w : W) : Prop := {
  tr_rows : (N.of_nat (length (row_changes (group_rows (dirty_writes t db)))) ≤ MAX_PAYLOAD_ROWS)%N;
  tr_cells : (N.of_nat (length (dirty_writes t db)) ≤ MAX_PAYLOAD_CELLS)%N;
  tr_takes k c : (k, c) ∈ dirty_writes t db → srv_takes (t:=t) c;
  tr_agree : versions_agree (client_cells t db) (srv_cells (t:=t) w);
  tr_small : cells_fit t bound (client_cells t db) ∧ cells_fit t bound (srv_cells (t:=t) w);
  tr_clock : (srv_clock (t:=t) w + N.of_nat n * SYNC_CLOCKS ≤ top)%N;
  tr_advance : (top ≤ srv_clock (t:=t) w + MAX_CLOCK_ADVANCE_PER_SYNC)%N;
  tr_live : srv_live (t:=t) (n * MAX_SYNC_PAGES_PER_CALL) device w;
  tr_pages : srv_pages (t:=t) MAX_SYNC_PAGES_PER_CALL w;
  tr_work : (remaining t device db w < MAX_SYNC_PAGES_PER_CALL * N.to_nat quota)%nat;
}.

(** The device clock leaves room for the tables that are still to sync. *)
Record clock_ready (n : nat) (e : EdgeDb) (st : ClientState) : Prop := {
  ck_state : eg_state e = Some st;
  ck_own : cs_device_id st = device;
  ck_clock : (Z.to_N (cs_lamport st) + N.of_nat n * SYNC_CLOCKS ≤ top)%N;
}.

Lemma ready_sync n t e w st :
  t ∈ full → table_ready (S n) t (edge_view t e) w → clock_ready (S n) e st →
  sync_ready t bound device MAX_SYNC_PAGES_PER_CALL (edge_view t e) w st.
Proof.
  intros Ht [] []. unfold SYNC_CLOCKS in *. split; try done; try lia.
  apply (fewer_exchanges t (n * MAX_SYNC_PAGES_PER_CALL)); [done|].
  by rewrite Nat.add_comm.
Qed.

Lemma table_ready_other n t db db' w w' clock :
  other_table t db db' → srv_cells (t:=t) w' = srv_cells (t:=t) w →
  (srv_pages (t:=t) MAX_SYNC_PAGES_PER_CALL w → srv_pages (t:=t) MAX_SYNC_PAGES_PER_CALL w') →
  limits_kept t MAX_SYNC_PAGES_PER_CALL clock w w' → (clock + N.of_nat n * SYNC_CLOCKS ≤ top)%N →
  table_ready (S n) t db w → table_ready n t db' w'.
Proof.
  intros [_ Hlog [Hcur _ _ _] _] Hcells Hpages [Hl Hu Hc] Hclock [].
  assert (dirty_writes t db' = dirty_writes t db) as Hd by (unfold dirty_writes; by rewrite Hlog).
  assert (client_cells t db' = client_cells t db) as Hcc by (unfold client_cells; by rewrite Hlog).
  assert (read_cursor t db' = read_cursor t db) as Hr by (unfold read_cursor; by rewrite Hcur).
  specialize (Hl (n * MAX_SYNC_PAGES_PER_CALL)%nat). specialize (Hu (n * MAX_SYNC_PAGES_PER_CALL)%nat).
  specialize (Hc (n * MAX_SYNC_PAGES_PER_CALL)%nat).
  specialize (Hl tr_live0). specialize (Hc tr_live0).
  split; unfold remaining; rewrite ?Hd, ?Hcc, ?Hr, ?Hcells, ?Hu by done; try done; auto; lia.
Qed.

(** ** One table after the other *)
Lemma device_sync_returns n t s st :
  sys_inv full partial device s → t ∈ full →
  table_ready (S n) t (edge_view t (ds_edge s)) (ds_server s) → clock_ready (S n) (ds_edge s) st →
  ∃ s' st' clock, device_sync device t s = (Ok tt, s') ∧ clock_ready n (ds_edge s') st' ∧
    (clock + N.of_nat n * SYNC_CLOCKS ≤ top)%N ∧
    ∀ u, u ∈ full → td_name t ≠ td_name u →
      limits_kept u MAX_SYNC_PAGES_PER_CALL clock (ds_server s) (ds_server s').
Proof.
  intros Hinv Ht Hready Hclock.
  pose proof (inv_execution full partial device laws Hfloat Htables Hapart s t Hinv Ht) as Hex.
  apply (execution_linked (SyncServerLaws0 := laws t Ht) t) in Hex as Hlinked;
    [|done|apply Htables; set_solver].
  destruct (sync_pages_limits t Ht MAX_SYNC_PAGES_PER_CALL _ _ _ Hlinked
    (ready_sync n t _ _ _ Ht Hready Hclock) (tr_work _ _ _ _ Hready))
    as (r & db' & w' & st' & Hrun & Hst' & Hown & Hle & Hkept).
  exists (set_server w' (set_edge (edge_put t db' (ds_edge s)) s)), st',
    (clock_after t (ds_server s) st MAX_SYNC_PAGES_PER_CALL).
  pose proof (tr_clock _ _ _ _ Hready). pose proof (ck_clock _ _ _ Hclock).
  unfold clock_after, SYNC_CLOCKS in *. split_and!.
  - unfold device_sync, on_table_with, sync_until_caught_up. cbn [fst snd]. by rewrite Hrun.
  - split; [done|done|unfold SYNC_CLOCKS; lia].
  - lia.
  - exact Hkept.
Qed.

Lemma device_sync_all_total l s st :
  sys_inv full partial device s → NoDup (td_name <$> l) → clock_ready (length l) (ds_edge s) st →
  (∀ t, t ∈ l → t ∈ full ∧ ds_flight s !! td_name t = None ∧
    table_ready (length l) t (edge_view t (ds_edge s)) (ds_server s)) →
  ∃ s', st_for (device_sync device) l s = (Ok tt, s').
Proof.
  revert s st. induction l as [|t l IH]; intros s st Hinv Hnd Hclock Hl; [by exists s|].
  rewrite fmap_cons in Hnd. apply list.NoDup_cons in Hnd as [Hnot Hnd].
  destruct (Hl t) as (Ht & Hidle & Hready); [by left|].
  destruct (device_sync_returns (length l) t s st) as (s1 & st1 & clock & Hsync & Hclock1 & Hle & Hkept);
    [done..|].
  pose proof (device_sync_run full partial device laws Hfloat Htables Hapart t s s1 Hinv Ht Hidle
    (tr_pages _ _ _ _ Hready) Hsync) as Hdone.
  cbn [st_for]. unfold st_bind. rewrite Hsync.
  apply (IH s1 st1); [apply Hdone|done|done|].
  intros u Hu. destruct (Hl u) as (Hufull & Huidle & Huready); [by right|].
  assert (td_name t ≠ td_name u) as Hne.
  { intros Heq. apply Hnot. rewrite Heq. apply list_elem_of_fmap. eauto. }
  destruct (sd_other _ _ _ _ _ _ Hdone u Hufull Hne) as (Hot & Hcells & Hpages).
  rewrite (sd_flight _ _ _ _ _ _ Hdone). split_and!; [done..|].
  eapply table_ready_other; [exact Hot|exact Hcells|exact Hpages|by apply Hkept|exact Hle|exact Huready].
Qed.

Lemma device_sync_all_synced s0 s st :
  device_start full device s0 → rtc (device_step full partial device) s0 s →
  (∀ t, t ∈ full → ds_flight s !! td_name t = None) →
  clock_ready (length full) (ds_edge s) st →
  (∀ t, t ∈ full → table_ready (length full) t (edge_view t (ds_edge s)) (ds_server s)) →
  ∃ s', device_sync_all full device s = (Ok tt, s') ∧ ∀ t, t ∈ full → table_synced t s'.
Proof.
  intros Hstart Hsteps Hidle Hclock Hready.
  pose proof (device_steps_inv full partial device laws Hfloat Htables Hapart _ _
    (device_start_inv full partial device _ Hstart) Hsteps) as Hinv.
  assert (NoDup (td_name <$> full)) as Hnd
    by (pose proof (ta_names _ Hapart) as Hnames; rewrite fmap_app in Hnames; by apply list.NoDup_app in Hnames as (? & _)).
  destruct (device_sync_all_total full s st) as [s' Hrun]; [done|done|done|by auto|].
  exists s'. split; [exact Hrun|].
  destruct (device_sync_all_run full partial device laws Hfloat Htables Hapart full s s')
    as (_ & Hall & _); [|done..].
  intros t Ht. split_and!; [done|by apply Hidle|]. apply (tr_pages _ _ _ _ (Hready t Ht)).
Qed.

(** Against any servers that answer, the syncs do succeed. *)
Theorem device_sync_all_returns s0 s st :
  device_start full device s0 → rtc (device_step full partial device) s0 s →
  (∀ t, t ∈ full → ds_flight s !! td_name t = None) →
  clock_ready (length full) (ds_edge s) st →
  (∀ t, t ∈ full → table_ready (length full) t (edge_view t (ds_edge s)) (ds_server s)) →
  ∃ s', device_sync_all full device s = (Ok tt, s') ∧ ∀ t, t ∈ full → table_synced t s'.
Proof. apply device_sync_all_synced. Qed.
End live.
