(* ===== verification/MultiDemo.v ===== *)
(** * A concrete run of a device with two tables

    The contract of tests/multi_table.rs: a device edits its todos and its
    notes, syncs both at the same time, and edits a todo while its sync is
    under way. The input of the witnesses of MultiTable and MultiTableLive. *)
From S2P Require Import Prelude RustStd Error Schema SchemaFacts Crdt Lww Payload Policy Replica.
From S2P Require Import State Feed Merge Demo MergeTheorems FeedTheorems.
From S2P Require Import Sqlite Client ClientFacts ClientInv ClientLocal ClientAck ClientDelta.
From S2P Require Import ClientScopes ClientOps ClientDemo ClientReplication SyncServer ClientSync.
From S2P Require Import ClientTotal ClientProgress LiveServer ClientTermination ClientInitTheorems.
From S2P Require Import SharedServer MultiTable MultiTableLive.

Section demo.
#[local] Existing Instance demo_json.
#[local] Existing Instance demo_debug.
#[local] Existing Instance demo_text.

Definition demo_full : list TableDef := [todos_table; notes_table].
Definition edge_new : EdgeDb := (edge_bind "device-a" edge_empty).2.
Definition note_values : gmap string CrdtValue := {[ "body" := VText "call home" ]}.
Definition op_note : client_op := OpInsert "note-1" note_values.

Lemma note_typed : op_typed notes_table op_note.
Proof.
  split.
  - intros name v Hv. apply plain_typed. revert name v Hv.
    change (map_Forall (λ _ v, plain_value v = true) note_values).
    apply (bool_decide_unpack _). by vm_compute.
  - intros name v Hv. apply plain_capturable. revert name v Hv.
    change (map_Forall (λ _ v, plain_sql v = true) (inserted_row notes_table note_values)).
    apply (bool_decide_unpack _). by vm_compute.
Qed.

Lemma todos_full : todos_table ∈ demo_full.
Proof. by left. Qed.
Lemma notes_full : notes_table ∈ demo_full.
Proof. by right; left. Qed.
Lemma demo_full_cases (P : TableDef → Prop) :
  P todos_table → P notes_table → ∀ t, t ∈ demo_full → P t.
Proof. intros ? ? t [->|[->|[]%not_elem_of_nil]%elem_of_cons]%elem_of_cons; done. Qed.
Lemma multi_tables t : t ∈ demo_full ++ [] → table_wf t.
Proof. revert t. apply demo_full_cases; [exact todos_table_wf|exact notes_table_wf]. Qed.
Lemma multi_apart : tables_apart (demo_full ++ []).
Proof.
  split.
  - apply (bool_decide_unpack _). by vm_compute.
  - intros t t' Ht Ht'. revert t Ht t' Ht'.
    apply (demo_full_cases (λ t, ∀ t', t' ∈ _ → _)); apply demo_full_cases; by apply (bool_decide_unpack _); vm_compute.
  - intros t t' Ht Ht'. revert t Ht t' Ht'.
    apply (demo_full_cases (λ t, ∀ t', t' ∈ _ → _)); apply demo_full_cases; by apply (bool_decide_unpack _); vm_compute.
  - exact (nd_triggers _ two_tables_distinct).
  - apply demo_full_cases; by apply (bool_decide_unpack _); vm_compute.
Qed.

(** ** The script, against any server *)
Section script.
Context {W : Type} `{srv : !∀ t, SyncServer t W}.
Abbreviation sys := (DeviceSys (W:=W)).

Definition run_edit_on (t : TableDef) (op : client_op) (s : sys) : sys :=
  set_edge (on_table t (run_op t op) (ds_edge s)).2 s.
Definition payload_or (r : Result SyncPayload) : SyncPayload :=
  match r with Ok p => p | Err _ => request_a end.
Definition start_sync (t : TableDef) (s : sys) : sys :=
  let res := on_table t (local_delta t) (ds_edge s) in
  set_flight t (Some (Outbound (payload_or res.1))) (set_edge res.2 s).
Definition sent_on (t : TableDef) (s : sys) : SyncPayload :=
  match ds_flight s !! td_name t with
  | Some (Outbound p) | Some (Answered p _) => p
  | None => request_a
  end.
Definition answer_on (t : TableDef) (s : sys) : Result SyncPayload * W :=
  srv_send (t:=t) "device-a" (sent_on t s) (ds_server s).
Definition receive_answer (t : TableDef) (s : sys) : sys :=
  set_flight t (Some (Answered (sent_on t s) (payload_or (answer_on t s).1)))
    (set_server (answer_on t s).2 s).
Definition answered_on (t : TableDef) (s : sys) : SyncPayload :=
  match ds_flight s !! td_name t with Some (Answered _ r) => r | _ => request_a end.
Definition finish_sync (t : TableDef) (s : sys) : sys :=
  set_flight t None
    (set_edge (on_table t (complete_sync t (sent_on t s) (answered_on t s)) (ds_edge s)).2 s).

(** When the steps succeed. *)
Definition can_start (t : TableDef) (s : sys) : bool :=
  is_ok (on_table t (local_delta t) (ds_edge s)).1 &&
  match ds_flight s !! td_name t with None => true | _ => false end.
Definition can_receive (t : TableDef) (s : sys) : bool :=
  is_ok (answer_on t s).1 &&
  match ds_flight s !! td_name t with Some (Outbound _) => true | _ => false end.
Definition can_finish (t : TableDef) (s : sys) : bool :=
  match ds_flight s !! td_name t with Some (Answered _ _) => true | _ => false end.

Abbreviation step := (device_step demo_full [] "device-a").

Lemma step_edit t op s :
  t ∈ demo_full → is_edit op = true → op_typed t op → step s (run_edit_on t op s).
Proof.
  intros Ht Hedit Htyped. unfold run_edit_on.
  destruct (on_table t (run_op t op) (ds_edge s)) as [res e'] eqn:Hop. by eapply ds_edit.
Qed.
Lemma step_start t s : t ∈ demo_full → can_start t s = true → step s (start_sync t s).
Proof.
  intros Ht [Hok Hnone]%andb_true_iff. unfold start_sync.
  destruct (on_table t (local_delta t) (ds_edge s)) as [[p|e] e'] eqn:Hop; [|done].
  eapply ds_delta; [done| |exact Hop]. by destruct (ds_flight s !! td_name t).
Qed.
Lemma step_receive t s :
  t ∈ demo_full → can_receive t s = true → srv_room (t:=t) (ds_server s) (sent_on t s) →
  step s (receive_answer t s).
Proof.
  intros Ht [Hok Hout]%andb_true_iff Hroom.
  assert (ds_flight s !! td_name t = Some (Outbound (sent_on t s))) as Hflight.
  { unfold sent_on. by destruct (ds_flight s !! td_name t) as [[]|]. }
  unfold receive_answer. destruct (answer_on t s) as [[r|e] w'] eqn:Hop; [|done].
  exact (ds_answer _ _ _ s t _ r w' Ht Hflight Hroom Hop).
Qed.
Lemma step_finish t s : t ∈ demo_full → can_finish t s = true → step s (finish_sync t s).
Proof.
  intros Ht Hans.
  assert (ds_flight s !! td_name t = Some (Answered (sent_on t s) (answered_on t s))) as Hflight.
  { unfold can_finish, sent_on, answered_on in *. by destruct (ds_flight s !! td_name t) as [[]|]. }
  unfold finish_sync. destruct (on_table t _ (ds_edge s)) as [res e'] eqn:Hop.
  exact (ds_complete _ _ _ s t _ _ res e' Ht Hflight Hop).
Qed.

(** A todo and a note; both syncs start; the answers come in the other
    order; the todo is ticked off before its own is processed. *)
Definition script_2 (s : sys) : sys :=
  run_edit_on notes_table op_note (run_edit_on todos_table op_insert s).
Definition script_4 (s : sys) : sys := start_sync notes_table (start_sync todos_table (script_2 s)).
Definition script_5 (s : sys) : sys := receive_answer notes_table (script_4 s).
Definition script_6 (s : sys) : sys := receive_answer todos_table (script_5 s).
Definition script_8 (s : sys) : sys :=
  run_edit_on todos_table op_check (finish_sync notes_table (script_6 s)).
Definition script (s : sys) : sys := finish_sync todos_table (script_8 s).
Definition script_ok (s : sys) : bool :=
  can_start todos_table (script_2 s) && can_start notes_table (start_sync todos_table (script_2 s)) &&
  can_receive notes_table (script_4 s) && can_receive todos_table (script_5 s) &&
  can_finish notes_table (script_6 s) && can_finish todos_table (script_8 s).

Lemma script_run s :
  script_ok s = true →
  srv_room (t:=notes_table) (ds_server (script_4 s)) (sent_on notes_table (script_4 s)) →
  srv_room (t:=todos_table) (ds_server (script_5 s)) (sent_on todos_table (script_5 s)) →
  rtc step s (script s).
Proof.
  unfold script_ok. rewrite !andb_true_iff. intros (((((C1 & C2) & C3) & C4) & C5) & C6) R1 R2.
  eapply rtc_l; [exact (step_edit todos_table op_insert s todos_full eq_refl insert_typed)|].
  eapply rtc_l; [exact (step_edit notes_table op_note _ notes_full eq_refl note_typed)|].
  eapply rtc_l; [exact (step_start todos_table _ todos_full C1)|].
  eapply rtc_l; [exact (step_start notes_table _ notes_full C2)|].
  eapply rtc_l; [exact (step_receive notes_table _ notes_full C3 R1)|].
  eapply rtc_l; [exact (step_receive todos_table _ todos_full C4 R2)|].
  eapply rtc_l; [exact (step_finish notes_table _ notes_full C5)|].
  eapply rtc_l; [exact (step_edit todos_table op_check _ todos_full eq_refl check_typed)|].
  exact (rtc_once _ _ (step_finish todos_table _ todos_full C6)).
Qed.
End script.

(** ** Against the reference servers *)
Abbreviation sys := (DeviceSys (W:=gmap string CrdtState)).
Definition multi_0 : sys :=
  {| ds_edge := edge_new;
     ds_server := <[ "todos" := state_b ]> {[ "notes" := CrdtState_new notes_table ]};
     ds_flight := ∅ |}.
Definition multi_9 : sys := script multi_0.

Lemma multi_start : device_start demo_full "device-a" multi_0.
Proof.
  split; [vm_compute; reflexivity| |done].
  apply demo_full_cases.
  - split; [exact state_b_wf|]. split; [by vm_compute|exact state_b_typed].
  - split; [apply CrdtState_new_wf|]. split; [by vm_compute|].
    intros k c Hc. exfalso. exact (lookup_empty_Some _ _ Hc).
Qed.

Lemma multi_run : rtc (device_step demo_full [] "device-a") multi_0 multi_9.
Proof.
  refine (script_run (srv := states_server) multi_0 _ _ _).
  - vm_compute. reflexivity.
  - vm_le.
  - vm_le.
Qed.

(** ** Syncing both tables *)
Definition multi_end : sys := (device_sync_all demo_full "device-a" multi_9).2.
Lemma multi_sync : device_sync_all demo_full "device-a" multi_9 = (Ok tt, multi_end).
Proof. vm_compute. reflexivity. Qed.

Lemma multi_quiet t : t ∈ demo_full → ds_flight multi_9 !! td_name t = None ∧ pages_left t multi_9.
Proof.
  revert t. apply demo_full_cases; split; by vm_compute.
Qed.

Definition demo_laws t (Ht : t ∈ demo_full) : SyncServerLaws t (gmap string CrdtState) :=
  states_server_laws t.

Lemma device_projects_witness :
  execution todos_table (edge_view todos_table (ds_edge multi_9)) (ds_server multi_9).
Proof.
  exact (device_projects demo_full [] "device-a" demo_laws demo_text_exact multi_tables multi_apart
    multi_0 multi_9 todos_table multi_start multi_run todos_full).
Defined.

Lemma device_converges_witness : table_synced notes_table multi_end.
Proof.
  destruct (device_converges demo_full [] "device-a" demo_laws demo_text_exact multi_tables multi_apart
    multi_0 multi_9 multi_end multi_start multi_run multi_quiet multi_sync) as [Hall _].
  exact (Hall notes_table notes_full).
Defined.

Definition multi_state : ClientState :=
  default {| cs_device_id := ""; cs_lamport := 0; cs_applying_remote := false |}
    (eg_state (ds_edge multi_9)).
Lemma multi_clock : clock_ready "device-a" 1000 2 (ds_edge multi_9) multi_state.
Proof. split; [by vm_compute|by vm_compute|vm_le]. Qed.

Lemma multi_table_ready t :
  t ∈ demo_full →
  table_ready "device-a" 128 1000 1000 2 t (edge_view t (ds_edge multi_9)) (ds_server multi_9).
Proof.
  revert t. apply demo_full_cases.
  all: split; [vm_le|vm_le|done| |split|vm_le|vm_le|vm_le|vm_le|apply Nat.ltb_lt; by vm_compute].
  all: first [apply demo_agree|apply demo_small]; apply (bool_decide_unpack _); vm_compute; exact I.
Qed.

Lemma device_sync_all_returns_witness :
  ∃ s', device_sync_all demo_full "device-a" multi_9 = (Ok tt, s') ∧
    ∀ t, t ∈ demo_full → table_synced t s'.
Proof.
  apply (device_sync_all_returns (shared_lives := states_shared_live demo_full)
    demo_full [] "device-a" demo_laws (λ t _, states_live_laws demo_json_total t) demo_text_exact multi_tables multi_apart 128 1000 1000
    ltac:(vm_le) ltac:(vm_le) ltac:(vm_le) ltac:(done) ltac:(vm_le)
    multi_0 multi_9 multi_state multi_start multi_run).
  - intros t Ht. by apply multi_quiet.
  - exact multi_clock.
  - exact multi_table_ready.
Defined.

(** ** The tables are coupled through the device clock

    The contract says that each table "synchronizes independently". With one
    reference server per table, another device moves the clock of the todos
    server up by a million, as one sync may; the device that syncs its todos
    takes that clock over, and the notes server, which has seen nothing,
    refuses the next sync of the notes - which would have been served before
    the todos were synced. *)
Definition request_far : SyncPayload :=
  demo_request "device-b" 1000000
    [demo_row [("title", demo_cell (VText "far") 1000000 "device-b")]] 0.
Definition far_0 : sys :=
  {| ds_edge := ds_edge multi_0;
     ds_server := <[ "todos" := (merge request_far "device-b" state_0).2 ]>
                  {[ "notes" := CrdtState_new notes_table ]};
     ds_flight := ∅ |}.
Definition far_1 : sys := run_edit_on notes_table op_note far_0.
Definition far_2 : sys := (device_sync "device-a" todos_table far_1).2.

Lemma shared_clock_refused :
  (device_sync "device-a" notes_table far_1).1 = Ok tt ∧
  (device_sync "device-a" todos_table far_1).1 = Ok tt ∧
  (device_sync "device-a" notes_table far_2).1 =
    Err (InvalidPayload "Lamport clock advances by more than the 1000000 per-sync limit").
Proof. split_and!; vm_compute; reflexivity. Qed.
End demo.
