(* ===== verification/Ffi.v ===== *)
(** * The C bindings (loomabase-ffi/src/lib.rs)

    The host process as the library sees it: the boxed states and strings it
    handed out, by address, and the last error of each thread. A call that
    breaks its safety contract - a dangling or twice freed pointer - has no
    outcome ([None]). Calls are modelled one at a time: what the lock of a
    handle does for calls that overlap, and the exclusive reference each call
    makes before it takes the lock, are not in the model. *)
From S2P Require Import Prelude RustStd Error Schema Crdt Lww Payload Policy Replica State.
From S2P Require Import Merge MergeTheorems Demo.

Local Open Scope loom_scope.

Definition LOOMABASE_ABI_VERSION : N := 1.

(** ** UTF-8 and C strings *)

(** [str::from_utf8(..).is_ok()]: the well-formed byte sequences of the
    Unicode standard. *)
Definition in_range (lo hi : N) (c : ascii) : bool := (lo <=? byte_of c)%N && (byte_of c <=? hi)%N.
Fixpoint utf8_valid (s : string) : bool :=
  match s with
  | EmptyString => true
  | String c0 s0 =>
    let b0 := byte_of c0 in
    if (b0 <=? 127)%N then utf8_valid s0
    else match s0 with
    | EmptyString => false
    | String c1 s1 =>
      if (194 <=? b0)%N && (b0 <=? 223)%N then in_range 128 191 c1 && utf8_valid s1
      else match s1 with
      | EmptyString => false
      | String c2 s2 =>
        if (224 <=? b0)%N && (b0 <=? 239)%N then
          in_range (if (b0 =? 224)%N then 160 else 128) (if (b0 =? 237)%N then 159 else 191) c1 &&
          in_range 128 191 c2 && utf8_valid s2
        else match s2 with
        | EmptyString => false
        | String c3 s3 =>
          (240 <=? b0)%N && (b0 <=? 244)%N &&
          in_range (if (b0 =? 240)%N then 144 else 128) (if (b0 =? 244)%N then 143 else 191) c1 &&
          in_range 128 191 c2 && in_range 128 191 c3 && utf8_valid s3
        end
      end
    end
  end.

(** [CStr::from_ptr(p).to_str()], on the bytes before the terminator. *)
Definition to_str (bytes : string) : option string := if utf8_valid bytes then Some bytes else None.

(** [message.replace('\0', " ")] *)
Fixpoint replace_nul (s : string) : string :=
  match s with
  | EmptyString => EmptyString
  | String c s => String (if (byte_of c =? 0)%N then " "%char else c) (replace_nul s)
  end.
(** [CString::new(s)]: refused when a byte is zero. *)
Definition cstring_new (s : string) : option string :=
  if existsb (λ b, b =? 0)%N (str_bytes s) then None else Some s.

(** ** The host process *)
Record FfiWorld := {
  ffi_states : gmap N CrdtState;
  ffi_strings : gmap N string;
  ffi_errors : gmap N string;
}.
Definition ffi_start : FfiWorld := {| ffi_states := ∅; ffi_strings := ∅; ffi_errors := ∅ |}.

(** Address 0 is the null pointer; the allocator and serde_json are not code
    of the repository. *)
Class Ffi_externals := {
  ffi_alloc : gset N → N;
  payload_from_json : string → result string SyncPayload;
  payload_to_json : SyncPayload → result string string;
}.
Definition live_addresses (w : FfiWorld) : gset N := dom (ffi_states w) ∪ dom (ffi_strings w).

Definition set_states (m : gmap N CrdtState) (w : FfiWorld) : FfiWorld :=
  {| ffi_states := m; ffi_strings := ffi_strings w; ffi_errors := ffi_errors w |}.
Definition set_strings (m : gmap N string) (w : FfiWorld) : FfiWorld :=
  {| ffi_states := ffi_states w; ffi_strings := m; ffi_errors := ffi_errors w |}.
Definition set_errors (m : gmap N string) (w : FfiWorld) : FfiWorld :=
  {| ffi_states := ffi_states w; ffi_strings := ffi_strings w; ffi_errors := m |}.

Definition set_last_error (thread : N) (message : string) (w : FfiWorld) : FfiWorld :=
  match cstring_new (replace_nul message) with
  | Some text => set_errors (<[thread := text]> (ffi_errors w)) w
  | None => set_errors (delete thread (ffi_errors w)) w
  end.
Definition clear_last_error (thread : N) (w : FfiWorld) : FfiWorld :=
  set_errors (delete thread (ffi_errors w)) w.

(** ** The functions of the library *)
Section ffi.
Context `{!SerdeJson, !StrDebug, !Ffi_externals}.

Definition alloc_fresh : Prop := ∀ live, ffi_alloc live ≠ 0%N ∧ ffi_alloc live ∉ live.

Definition loomabase_abi_version : N := LOOMABASE_ABI_VERSION.

(** The text behind the pointer, or null. *)
Definition loomabase_last_error_message (thread : N) (w : FfiWorld) : option string :=
  ffi_errors w !! thread.

Definition loomabase_state_new (thread : N) (w : FfiWorld) : N * FfiWorld :=
  let w := clear_last_error thread w in
  let ptr := ffi_alloc (live_addresses w) in
  (ptr, set_states (<[ptr := CrdtState_new todos_table]> (ffi_states w)) w).

(** A null result with its message. *)
Definition null_result (thread : N) (message : string) (w : FfiWorld) : option (N * FfiWorld) :=
  Some (0%N, set_last_error thread message w).

(** The last step: the response as a string the caller owns. *)
Definition return_json (thread : N) (response : SyncPayload) (w : FfiWorld)
  : option (N * FfiWorld) :=
  match payload_to_json response with
  | Ok json =>
    match cstring_new json with
    | Some json =>
      let ptr := ffi_alloc (live_addresses w) in
      Some (ptr, set_strings (<[ptr := json]> (ffi_strings w)) w)
    | None => null_result thread "response contains an interior NUL byte" w
    end
  | Err error => null_result thread ("could not serialize response: " +:+ error) w
  end.

(** [merge_inner]. A panic would poison the lock; nothing the modelled merge
    does panics, so the lock is always taken. *)
Definition ffi_merge_inner (thread state : N) (payload_json device_id : option string)
    (w : FfiWorld) : option (N * FfiWorld) :=
  match payload_json, device_id with
  | Some payload_json, Some device_id =>
    if (state =? 0)%N then null_result thread "state must not be null" w
    else
      inner ← ffi_states w !! state;
      match to_str payload_json with
      | None => null_result thread "payload_json must be valid UTF-8" w
      | Some payload_str =>
        match to_str device_id with
        | None => null_result thread "device_id must be valid UTF-8" w
        | Some device =>
          match payload_from_json payload_str with
          | Err error => null_result thread ("invalid payload JSON: " +:+ error) w
          | Ok p =>
            let '(res, inner) := merge p device inner in
            let w := set_states (<[state := inner]> (ffi_states w)) w in
            match res with
            | Ok response => return_json thread response w
            | Err error => null_result thread (SyncError_to_string error) w
            end
          end
        end
      end
  | _, _ => null_result thread "payload_json and device_id must not be null" w
  end.
Definition loomabase_state_merge (thread state : N) (payload_json device_id : option string)
    (w : FfiWorld) : option (N * FfiWorld) :=
  ffi_merge_inner thread state payload_json device_id (clear_last_error thread w).

(** [Box::from_raw] and [CString::from_raw] on a pointer that is not live
    have no outcome. *)
Definition loomabase_state_free (thread state : N) (w : FfiWorld) : option FfiWorld :=
  let w := clear_last_error thread w in
  if (state =? 0)%N then Some w
  else _ ← ffi_states w !! state; Some (set_states (delete state (ffi_states w)) w).
Definition loomabase_string_free (thread text : N) (w : FfiWorld) : option FfiWorld :=
  let w := clear_last_error thread w in
  if (text =? 0)%N then Some w
  else _ ← ffi_strings w !! text; Some (set_strings (delete text (ffi_strings w)) w).

(** ** The calls of the interface *)
Inductive ffi_call :=
| CallVersion
| CallLastError
| CallNew
| CallMerge (state : N) (payload_json device_id : option string)
| CallFreeState (state : N)
| CallFreeString (text : N).

Definition run_call (thread : N) (call : ffi_call) (w : FfiWorld) : option FfiWorld :=
  match call with
  | CallVersion | CallLastError => Some w
  | CallNew => Some (loomabase_state_new thread w).2
  | CallMerge state payload_json device_id =>
    snd <$> loomabase_state_merge thread state payload_json device_id w
  | CallFreeState state => loomabase_state_free thread state w
  | CallFreeString text => loomabase_string_free thread text w
  end.
(** The request with which a call reaches the handle [state]. *)
Definition request_on (state : N) (call : N * ffi_call) : option (SyncPayload * string) :=
  match call.2 with
  | CallMerge state' (Some payload_json) (Some device_id) =>
    if decide (state' = state ∧ state ≠ 0%N) then
      payload_str ← to_str payload_json;
      device ← to_str device_id;
      match payload_from_json payload_str with Ok p => Some (p, device) | Err _ => None end
    else None
  | _ => None
  end.
Definition merge_request (s : CrdtState) (request : SyncPayload * string) : CrdtState :=
  (merge request.1 request.2 s).2.

(** ** Proofs *)
Lemma replaced_no_nul s : existsb (λ b, b =? 0)%N (str_bytes (replace_nul s)) = false.
Proof.
  unfold str_bytes. induction s as [|c s IH]; [done|].
  cbn [replace_nul String.list_ascii_of_string]. rewrite fmap_cons. cbn [existsb].
  rewrite IH, orb_false_r. destruct (N.eqb_spec (byte_of c) 0) as [|Hne]; [done|].
  by apply N.eqb_neq.
Qed.

Lemma set_last_error_eq thread message w :
  set_last_error thread message w
  = set_errors (<[thread := replace_nul message]> (ffi_errors w)) w.
Proof. unfold set_last_error, cstring_new. by rewrite replaced_no_nul. Qed.

(** [w'] is [w] with other strings and another error of [thread]. *)
Definition same_but_result (thread : N) (w w' : FfiWorld) : Prop :=
  ffi_states w' = ffi_states w ∧ ∀ th, th ≠ thread → ffi_errors w' !! th = ffi_errors w !! th.

Lemma clear_same thread w : same_but_result thread w (clear_last_error thread w).
Proof. split; [done|]. intros th Hne. simpl. by rewrite lookup_delete_ne. Qed.
Lemma null_same thread message w ptr w' :
  null_result thread message w = Some (ptr, w') → same_but_result thread w w'.
Proof.
  unfold null_result. rewrite set_last_error_eq. intros [= <- <-]. split; [done|].
  intros th Hne. simpl. by rewrite lookup_insert_ne.
Qed.
Lemma return_same thread r w ptr w' :
  return_json thread r w = Some (ptr, w') → same_but_result thread w w'.
Proof.
  unfold return_json. repeat case_match; [|by apply null_same..]. by intros [= <- <-].
Qed.

(** What the lookup of a handle becomes. *)
Lemma same_states thread w w' h s o :
  same_but_result thread w w' → ffi_states w !! h = Some s → o = None →
  ffi_states w' !! h = Some (default s (merge_request s <$> o)).
Proof. intros [-> _] Hs ->. done. Qed.

Lemma merge_inner_frame thread state payload_json device_id w ptr w' :
  ffi_merge_inner thread state payload_json device_id w = Some (ptr, w') →
  (∀ th, th ≠ thread → ffi_errors w' !! th = ffi_errors w !! th) ∧
  ∀ h s, ffi_states w !! h = Some s →
    ffi_states w' !! h = Some (default s (merge_request s <$>
      request_on h (thread, CallMerge state payload_json device_id))).
Proof.
  unfold ffi_merge_inner, request_on. intros Hrun. cbn [snd].
  destruct payload_json as [pj|], device_id as [d|].
  2-4: apply null_same in Hrun; split; [apply Hrun|intros; by eapply same_states].
  destruct (N.eqb_spec state 0) as [->|Hne0].
  { apply null_same in Hrun. split; [apply Hrun|]. intros h s Hs. eapply same_states; [done..|].
    rewrite decide_False; [done|]. by intros [<- ?]. }
  apply bind_Some in Hrun as (inner & Hinner & Hrun).
  destruct (to_str pj) as [pj'|].
  2:{ apply null_same in Hrun. split; [apply Hrun|]. intros h s Hs. eapply same_states; [done..|].
      by case_decide. }
  destruct (to_str d) as [device|].
  2:{ apply null_same in Hrun. split; [apply Hrun|]. intros h s Hs. eapply same_states; [done..|].
      by case_decide. }
  simpl. destruct (payload_from_json pj') as [p|e].
  2:{ apply null_same in Hrun. split; [apply Hrun|]. intros h s Hs. eapply same_states; [done..|].
      by case_decide. }
  destruct (merge p device inner) as [res inner'] eqn:Hm.
  assert (same_but_result thread (set_states (<[state := inner']> (ffi_states w)) w) w') as [Hst Herr]
    by (destruct res; [by eapply return_same|by eapply null_same]).
  split; [exact Herr|]. intros h s Hs. rewrite Hst. simpl. case_decide as Hh.
  - destruct Hh as [<- _]. rewrite lookup_insert_eq. simpl. rewrite Hinner in Hs.
    injection Hs as <-. unfold merge_request. simpl. by rewrite Hm.
  - rewrite lookup_insert_ne; [done|]. intros ->. by apply Hh.
Qed.

(** One call, on a handle it does not free. *)
Lemma run_call_frame thread call w w' h s :
  alloc_fresh → run_call thread call w = Some w' → call ≠ CallFreeState h →
  ffi_states w !! h = Some s →
  (∀ th, th ≠ thread → ffi_errors w' !! th = ffi_errors w !! th) ∧
  ffi_states w' !! h = Some (default s (merge_request s <$> request_on h (thread, call))).
Proof.
  intros Hfresh Hrun Hfree Hs. destruct call as [| | |state pj d|state|text]; simpl in Hrun.
  - by injection Hrun as <-.
  - by injection Hrun as <-.
  - injection Hrun as <-. simpl. split; [intros th Hne; by rewrite lookup_delete_ne|].
    rewrite lookup_insert_ne; [done|]. intros Heq.
    destruct (Hfresh (live_addresses (clear_last_error thread w))) as [_ Hnin].
    apply Hnin. rewrite Heq. apply elem_of_union_l, elem_of_dom. by eexists.
  - apply fmap_Some in Hrun as ([ptr w1] & Hrun & ->).
    apply merge_inner_frame in Hrun as [Herr Hst]. split; [|by apply Hst].
    intros th Hne. rewrite Herr by done. by apply clear_same.
  - unfold loomabase_state_free in Hrun. destruct (state =? 0)%N.
    + injection Hrun as <-. split; [intros th Hne; simpl; by rewrite lookup_delete_ne|done].
    + apply bind_Some in Hrun as (s0 & _ & [= <-]). simpl.
      split; [intros th Hne; by rewrite lookup_delete_ne|]. rewrite lookup_delete_ne; [done|].
      by intros ->.
  - unfold loomabase_string_free in Hrun. destruct (text =? 0)%N.
    + injection Hrun as <-. split; [intros th Hne; simpl; by rewrite lookup_delete_ne|done].
    + apply bind_Some in Hrun as (s0 & _ & [= <-]). simpl.
      split; [intros th Hne; by rewrite lookup_delete_ne|done].
Qed.

(** ** One merge, on every branch *)
Lemma null_exact thread message w ptr w' :
  null_result thread message w = Some (ptr, w') →
  ptr = 0%N ∧ ffi_strings w' = ffi_strings w ∧
  ffi_errors w' !! thread = Some (replace_nul message).
Proof.
  unfold null_result. rewrite set_last_error_eq. intros [= <- <-]. simpl.
  by rewrite lookup_insert_eq.
Qed.

(** The response a call has, when it has one. *)
Definition answered (w : FfiWorld) (state : N) (payload_json device_id : option string)
    (r : SyncPayload) (s' : CrdtState) : Prop :=
  ∃ pj device s p, payload_json = Some pj ∧ device_id = Some device ∧ state ≠ 0%N ∧
    ffi_states w !! state = Some s ∧ utf8_valid pj = true ∧ utf8_valid device = true ∧
    payload_from_json pj = Ok p ∧ merge p device s = (Ok r, s').
(** The call is one its contract forbids. *)
Definition dangling (w : FfiWorld) (state : N) (payload_json device_id : option string) : Prop :=
  is_Some payload_json ∧ is_Some device_id ∧ state ≠ 0%N ∧ ffi_states w !! state = None.

Lemma merge_inner_cases thread state payload_json device_id w :
  (dangling w state payload_json device_id ∧
   ffi_merge_inner thread state payload_json device_id w = None) ∨
  (∃ r s', answered w state payload_json device_id r s' ∧
     ffi_merge_inner thread state payload_json device_id w
     = return_json thread r (set_states (<[state := s']> (ffi_states w)) w)) ∨
  ((¬ ∃ r s', answered w state payload_json device_id r s') ∧
   ¬ dangling w state payload_json device_id ∧
   ∃ message, ffi_merge_inner thread state payload_json device_id w
     = null_result thread message w).
Proof.
  unfold ffi_merge_inner.
  destruct payload_json as [pj|], device_id as [d|].
  2-4: right; right; split; [intros (r & s' & pj' & d' & s & p & ? & ? & _); done|];
    split; [intros ([? ?] & [? ?] & _); done|by eexists].
  destruct (N.eqb_spec state 0) as [->|Hne0].
  { right; right. split; [intros (r & s' & pj' & d' & s & p & _ & _ & ? & _); done|].
    split; [intros (_ & _ & ? & _); done|by eexists]. }
  destruct (ffi_states w !! state) as [s|] eqn:Hs; simpl.
  2:{ left. split; [|done]. unfold dangling. split_and!; [by eexists|by eexists|done|done]. }
  assert (¬ dangling w state (Some pj) (Some d)) as Hnd
    by (intros (_ & _ & _ & Hnone); rewrite Hs in Hnone; done).
  unfold to_str. destruct (utf8_valid pj) eqn:Hpj.
  2:{ right; right. split; [|split; [done|by eexists]].
      intros (r & s' & pj' & d' & s0 & p & [= <-] & _ & _ & _ & Hv & _). congruence. }
  destruct (utf8_valid d) eqn:Hd.
  2:{ right; right. split; [|split; [done|by eexists]].
      intros (r & s' & pj' & d' & s0 & p & _ & [= <-] & _ & _ & _ & Hv & _). congruence. }
  destruct (payload_from_json pj) as [p|e] eqn:Hp.
  2:{ right; right. split; [|split; [done|by eexists]].
      intros (r & s' & pj' & d' & s0 & p & [= <-] & _ & _ & _ & _ & _ & Hv & _). congruence. }
  destruct (merge p d s) as [[r|e] s'] eqn:Hm.
  - right; left. exists r, s'. split; [|done]. exists pj, d, s, p. done.
  - right; right. split; [|split; [done|]].
    + intros (r & s1 & pj' & d' & s0 & p' & [= <-] & [= <-] & _ & Hs0 & _ & _ & Hp' & Hm').
      rewrite Hs in Hs0. injection Hs0 as <-. rewrite Hp in Hp'. injection Hp' as <-. congruence.
    + assert (s' = s) as -> by by apply transactional_err in Hm.
      exists (SyncError_to_string e). rewrite insert_id by done. by destruct w.
Qed.

Lemma return_exact thread r w ptr w' :
  alloc_fresh → ffi_errors w !! thread = None → return_json thread r w = Some (ptr, w') →
  (ptr ≠ 0%N ∧ ptr ∉ live_addresses w ∧ ffi_errors w' !! thread = None ∧
   ∃ json, payload_to_json r = Ok json ∧ cstring_new json = Some json ∧
     ffi_strings w' = <[ptr := json]> (ffi_strings w)) ∨
  (ptr = 0%N ∧ ffi_strings w' = ffi_strings w ∧ is_Some (ffi_errors w' !! thread) ∧
   ∀ json, payload_to_json r = Ok json → cstring_new json = None).
Proof.
  intros Hfresh Herr. unfold return_json. destruct (payload_to_json r) as [json|e].
  - destruct (cstring_new json) as [json'|] eqn:Hc.
    + intros [= <- <-]. left. destruct (Hfresh (live_addresses w)) as [? ?].
      assert (json' = json) as -> by (unfold cstring_new in Hc; case_match; by simplify_eq).
      split_and!; [done..|]. by exists json.
    + intros (-> & -> & ->)%null_exact. right. split_and!; [done..|by eexists|].
      by intros json' [= <-].
  - intros (-> & -> & ->)%null_exact. right. by split_and!.
Qed.

Lemma live_after_merge w state s s' :
  ffi_states w !! state = Some s →
  live_addresses (set_states (<[state := s']> (ffi_states w)) w) = live_addresses w.
Proof. intros Hs. unfold live_addresses. simpl. by rewrite (dom_insert_lookup_L _ state) by by eexists. Qed.

(** C27: A merge through the C interface, on every branch: it has no outcome
    only when the caller passes a dangling handle; it returns a pointer, new
    and owned by the caller, exactly when both strings are UTF-8, the request
    parses, the reference server accepts it and the response is a C string,
    and then the pointer holds that response and the thread has no error;
    otherwise it returns null, allocates nothing and leaves a message. *)
Theorem ffi_merge_exact thread state payload_json device_id w :
  alloc_fresh →
  (loomabase_state_merge thread state payload_json device_id w = None ↔
   dangling w state payload_json device_id) ∧
  ∀ ptr w', loomabase_state_merge thread state payload_json device_id w = Some (ptr, w') →
    (ptr ≠ 0%N ∧ ptr ∉ live_addresses w ∧ ffi_errors w' !! thread = None ∧
     ∃ r s' json, answered w state payload_json device_id r s' ∧
       payload_to_json r = Ok json ∧ cstring_new json = Some json ∧
       ffi_strings w' = <[ptr := json]> (ffi_strings w) ∧
       ffi_states w' = <[state := s']> (ffi_states w)) ∨
    (ptr = 0%N ∧ ffi_strings w' = ffi_strings w ∧ is_Some (ffi_errors w' !! thread) ∧
     ∀ r s' json, answered w state payload_json device_id r s' →
       payload_to_json r = Ok json → cstring_new json = None).
Proof.
  intros Hfresh. unfold loomabase_state_merge. set (w0 := clear_last_error thread w).
  destruct (merge_inner_cases thread state payload_json device_id w0)
    as [[Hdang ->]|[(r & s' & Hans & ->)|(Hno & Hnd & message & ->)]].
  - split; [done|]. by intros ptr w'.
  - pose proof Hans as (pj & d & s & p & -> & -> & _ & Hs & _ & _ & Hp & Hm).
    split.
    { split; [|intros (_ & _ & _ & Hnone); simpl in *; congruence].
      unfold return_json. repeat case_match; done. }
    intros ptr w' Hret. pose proof Hret as Hst.
    apply return_same in Hst as [Hst _].
    apply return_exact in Hret; [|done|by apply lookup_delete_eq].
    destruct Hret as [(Hne & Hnin & Herr & json & Hj & Hc & Hstr)|(-> & Hstr & Herr & Hno)].
    + left. rewrite (live_after_merge w0 state s s' Hs) in Hnin. split_and!; [done..|].
      exists r, s', json. by split_and!.
    + right. split_and!; [done..|]. intros r1 s1 json Hans1 Hj. apply Hno.
      destruct Hans1 as (pj1 & d1 & s2 & p1 & [= <-] & [= <-] & _ & Hs1 & _ & _ & Hp1 & Hm1).
      change (ffi_states w0 !! state = Some s2) in Hs1. simplify_eq. congruence.
  - split; [split; [done|intros Hd; by destruct (Hnd Hd)]|].
    intros ptr w' (-> & Hstr & Herr)%null_exact. right. split_and!; [done..|by rewrite Herr|].
    intros r s' json Hans. destruct Hno. by exists r, s'.
Qed.

End ffi.

(** ** Witnesses *)
Section witnesses.
#[local] Existing Instance demo_json.
#[local] Existing Instance demo_debug.

#[local] Instance demo_ffi : Ffi_externals := {|
  ffi_alloc live := fresh ({[ 0%N ]} ∪ live);
  payload_from_json text :=
    if (text =? "a")%string then Ok request_a
    else if (text =? "b")%string then Ok request_b else Err "expected value";
  payload_to_json _ := Ok "response";
|}.
Lemma demo_alloc : alloc_fresh.
Proof.
  intros live. unfold ffi_alloc, demo_ffi.
  pose proof (is_fresh ({[ 0%N ]} ∪ live)) as Hf.
  split; [intros Heq|intros Hin]; apply Hf; [rewrite Heq|]; set_solver.
Qed.

Definition demo_handle : N := (loomabase_state_new 1 ffi_start).1.
Definition world_new : FfiWorld := (loomabase_state_new 1 ffi_start).2.
Definition demo_pushed : N * FfiWorld :=
  default (0%N, ffi_start)
    (loomabase_state_merge 1 demo_handle (Some "a") (Some "device-a") world_new).
Lemma demo_push :
  loomabase_state_merge 1 demo_handle (Some "a") (Some "device-a") world_new
    = Some (demo_pushed.1, demo_pushed.2).
Proof. vm_compute. reflexivity. Qed.

Lemma ffi_merge_exact_witness :
  demo_pushed.1 ≠ 0%N ∧ ffi_strings demo_pushed.2 !! demo_pushed.1 = Some "response" ∧
  loomabase_state_merge 1 77 (Some "a") (Some "device-a") world_new = None.
Proof.
  split; [|split].
  - destruct (proj2 (ffi_merge_exact 1 demo_handle (Some "a") (Some "device-a") world_new demo_alloc)
      demo_pushed.1 demo_pushed.2 demo_push) as [(Hne & _)|(Hnull & _)]; [exact Hne|].
    exfalso. vm_compute in Hnull. discriminate Hnull.
  - vm_compute. reflexivity.
  - apply (proj1 (ffi_merge_exact 1 77 (Some "a") (Some "device-a") world_new demo_alloc)).
    split; [by eexists|]. split; [by eexists|]. split; [discriminate|]. vm_compute. reflexivity.
Defined.

End witnesses.
