(* ===== verification/Postgres.v ===== *)
(** * The PostgreSQL tables of the sync server (src/server.rs, src/schema.rs)

    The relations [TableDef::postgres_schema] creates for one contract table,
    and what each statement of server.rs does to them. *)
From Stdlib Require Import SpecFloat.
From S2P Require Import Prelude RustStd Error Schema Crdt Policy Replica.

Local Open Scope loom_scope.

(** What PostgreSQL and its driver bring: the text of an error, the
    [gen_random_uuid()] of the n-th draw, the value a double has after a
    round trip through JSONB, and the collation of the database. *)
Class Pg_externals := {
  pg_message : string → string;
  gen_random_uuid : N → string;
  jsonb_real : f64 → f64;
  collate_le : string → string → Prop;
  collate_le_dec : RelDecision collate_le;
}.
#[export] Existing Instance collate_le_dec.

(** ** Relations *)
Record LogRow := { lr_value : CrdtValue; lr_lamport : Z; lr_device : string; lr_seq : Z }.
#[export] Instance LogRow_eq_dec : EqDecision LogRow.
Proof. solve_decision. Defined.

Record Lease := { ls_max_issued : Z; ls_token : string; ls_epoch : string; ls_last_seen : Z }.
#[export] Instance Lease_eq_dec : EqDecision Lease.
Proof. solve_decision. Defined.

Record AuditRow := {
  au_tenant : string;
  au_table : string;
  au_todo_id : string;
  au_column : string;
  au_device : string;
  au_outcome : string;
  au_reason : string;
  au_incoming_value : CrdtValue;
  au_incoming_lamport : Z;
  au_incoming_device : string;
  au_current_value : option CrdtValue;
  au_current_lamport : option Z;
  au_current_device : option string;
}.
#[export] Instance AuditRow_eq_dec : EqDecision AuditRow.
Proof. solve_decision. Defined.

(** Relations whose key starts with the tenant are indexed by it first.
    [pg_gap n] is how many numbers other sessions draw from the sequence
    between the draw of [n] and the next draw of the session that looks at the
    tables: the sequence is outside transactions, so a merge need not get
    consecutive numbers. *)
Record PgDb := {
  pg_state : gmap string Z;
  pg_rows : gmap string (gmap string (gmap string CrdtValue));
  pg_log : gmap string (gmap (string * string) LogRow);
  pg_sequence : Z;
  pg_gap : Z → N;
  pg_leases : gmap (string * string * string) Lease;
  pg_epoch : option string;
  pg_audit : list AuditRow;
  pg_uuids : N;
  pg_now : Z;
}.
Definition PgM (A : Type) : Type := stM PgDb SyncError A.

Definition set_state (m : gmap string Z) (db : PgDb) : PgDb :=
  {| pg_state := m; pg_rows := pg_rows db; pg_log := pg_log db; pg_sequence := pg_sequence db;
     pg_gap := pg_gap db;
     pg_leases := pg_leases db; pg_epoch := pg_epoch db; pg_audit := pg_audit db;
     pg_uuids := pg_uuids db; pg_now := pg_now db |}.
Definition set_rows (m : gmap string (gmap string (gmap string CrdtValue))) (db : PgDb) : PgDb :=
  {| pg_state := pg_state db; pg_rows := m; pg_log := pg_log db; pg_sequence := pg_sequence db;
     pg_gap := pg_gap db;
     pg_leases := pg_leases db; pg_epoch := pg_epoch db; pg_audit := pg_audit db;
     pg_uuids := pg_uuids db; pg_now := pg_now db |}.
Definition set_log (m : gmap string (gmap (string * string) LogRow)) (db : PgDb) : PgDb :=
  {| pg_state := pg_state db; pg_rows := pg_rows db; pg_log := m; pg_sequence := pg_sequence db;
     pg_gap := pg_gap db;
     pg_leases := pg_leases db; pg_epoch := pg_epoch db; pg_audit := pg_audit db;
     pg_uuids := pg_uuids db; pg_now := pg_now db |}.
Definition set_sequence (n : Z) (db : PgDb) : PgDb :=
  {| pg_state := pg_state db; pg_rows := pg_rows db; pg_log := pg_log db; pg_sequence := n;
     pg_gap := pg_gap db;
     pg_leases := pg_leases db; pg_epoch := pg_epoch db; pg_audit := pg_audit db;
     pg_uuids := pg_uuids db; pg_now := pg_now db |}.
Definition set_gap (g : Z → N) (db : PgDb) : PgDb :=
  {| pg_state := pg_state db; pg_rows := pg_rows db; pg_log := pg_log db; pg_sequence := pg_sequence db;
     pg_gap := g; pg_leases := pg_leases db; pg_epoch := pg_epoch db; pg_audit := pg_audit db;
     pg_uuids := pg_uuids db; pg_now := pg_now db |}.
Definition set_leases (m : gmap (string * string * string) Lease) (db : PgDb) : PgDb :=
  {| pg_state := pg_state db; pg_rows := pg_rows db; pg_log := pg_log db;
     pg_sequence := pg_sequence db;
     pg_gap := pg_gap db; pg_leases := m; pg_epoch := pg_epoch db;
     pg_audit := pg_audit db; pg_uuids := pg_uuids db; pg_now := pg_now db |}.
Definition set_epoch (e : option string) (db : PgDb) : PgDb :=
  {| pg_state := pg_state db; pg_rows := pg_rows db; pg_log := pg_log db;
     pg_sequence := pg_sequence db;
     pg_gap := pg_gap db; pg_leases := pg_leases db; pg_epoch := e;
     pg_audit := pg_audit db; pg_uuids := pg_uuids db; pg_now := pg_now db |}.
Definition set_audit (l : list AuditRow) (db : PgDb) : PgDb :=
  {| pg_state := pg_state db; pg_rows := pg_rows db; pg_log := pg_log db;
     pg_sequence := pg_sequence db;
     pg_gap := pg_gap db; pg_leases := pg_leases db; pg_epoch := pg_epoch db;
     pg_audit := l; pg_uuids := pg_uuids db; pg_now := pg_now db |}.
Definition set_uuids (n : N) (db : PgDb) : PgDb :=
  {| pg_state := pg_state db; pg_rows := pg_rows db; pg_log := pg_log db;
     pg_sequence := pg_sequence db;
     pg_gap := pg_gap db; pg_leases := pg_leases db; pg_epoch := pg_epoch db;
     pg_audit := pg_audit db; pg_uuids := n; pg_now := pg_now db |}.
Definition set_now (n : Z) (db : PgDb) : PgDb :=
  {| pg_state := pg_state db; pg_rows := pg_rows db; pg_log := pg_log db;
     pg_sequence := pg_sequence db;
     pg_gap := pg_gap db; pg_leases := pg_leases db; pg_epoch := pg_epoch db;
     pg_audit := pg_audit db; pg_uuids := pg_uuids db; pg_now := n |}.

Definition tenant_rows (tenant : string) (db : PgDb) : gmap string (gmap string CrdtValue) :=
  default ∅ (pg_rows db !! tenant).
Definition tenant_log (tenant : string) (db : PgDb) : gmap (string * string) LogRow :=
  default ∅ (pg_log db !! tenant).

(** The largest sequence number of a tenant: [COALESCE(MAX(seq), 0)]. *)
Definition max_seq (log : gmap (string * string) LogRow) : Z :=
  foldr (λ row m, Z.max (lr_seq row) m) 0%Z (bt_values log).

(** ** Values *)
Section values.
Context `{!Pg_externals}.

Definition pg_err {A} (what : string) : Result A := Err (Postgres (pg_message what)).

(** A text parameter: PostgreSQL's [TEXT] has no character zero. *)
Definition has_nul (s : string) : bool := existsb (λ b, b =? 0)%N (str_bytes s).
Definition bind_text (s : string) : Result string :=
  if has_nul s then pg_err "invalid byte sequence for encoding UTF8: 0x00" else Ok s.

(** [Json(value)] in a [JSONB] column. *)
Definition bind_json (v : CrdtValue) : Result CrdtValue :=
  match v with
  | VText s =>
    if has_nul s then pg_err "unsupported Unicode escape sequence" else Ok v
  | VReal r => Ok (VReal (jsonb_real r))
  | VNull | VInteger _ | VBoolean _ | VBlob _ => Ok v
  end.

(** The [clock_from_i64] and [clock_to_i64] of server.rs. *)
Definition pg_clock_from_i64 (clock : Z) : Result N :=
  match u64_try_from_i64 clock with
  | Some n => Ok n
  | None => invalid "negative clock stored in database"
  end.
Definition pg_clock_to_i64 (clock : N) : Result Z := ok_or (i64_try_from_u64 clock) ClockOverflow.

(** [postgres_default] as a value. *)
Definition pg_default (ty : ColumnType) : CrdtValue :=
  match ty with
  | TText => VText ""
  | TInteger => VInteger 0
  | TReal => VReal (S754_zero false)
  | TBoolean => VBoolean false
  end.

(** [nextval('loomabase_seq')]: past the numbers of other sessions. *)
Definition draw_after (gap : Z → N) (n : Z) : Z := (n + Z.of_N (gap n) + 1)%Z.
Definition next_number (db : PgDb) : Z := draw_after (pg_gap db) (pg_sequence db).
Definition nextval : PgM Z :=
  db <-- st_get ;;
  if (next_number db <=? i64_max)%Z
  then st_modify (set_sequence (next_number db)) ;;; st_ret (next_number db)
  else st_lift (pg_err "nextval: reached maximum value of sequence").

(** [gen_random_uuid()::text] *)
Definition draw_uuid : PgM string :=
  db <-- st_get ;;
  st_modify (set_uuids (pg_uuids db + 1)) ;;;
  st_ret (gen_random_uuid (pg_uuids db)).
End values.
