(* ===== verification/Server.v ===== *)
(** * The PostgreSQL sync adapter (src/server.rs)

    Every statement of a merge as an operation on the relations of
    Postgres.v, in the order of the source. The functions run inside the
    caller's transaction: what they did before failing stays in the state
    they return, and [run_transaction] - the caller - rolls it back. *)
From S2P Require Import Prelude RustStd Error Schema Crdt Policy Explain Replica State Postgres.

Local Open Scope loom_scope.

Section server.
Context `{!Pg_externals, !SerdeJson, !StrDebug}.
Variable (t : TableDef).

(** ** The clock row of a tenant *)

(** [INSERT INTO loomabase_state .. ON CONFLICT .. RETURNING lamport_clock] *)
Definition tenant_clock (tenant : string) : PgM N :=
  db <-- st_get ;;
  let clock := default 0%Z (pg_state db !! tenant) in
  st_modify (set_state (<[tenant := clock]> (pg_state db))) ;;;
  st_lift (pg_clock_from_i64 clock).

(** [UPDATE loomabase_state SET lamport_clock = $1 WHERE tenant_id = $2] *)
Definition update_clock (tenant : string) (clock : N) : PgM unit :=
  z <-- st_lift (pg_clock_to_i64 clock) ;;
  st_modify (λ db, if decide (is_Some (pg_state db !! tenant))
                   then set_state (<[tenant := z]> (pg_state db)) db else db).

(** ** One cell *)

(** The row [CREATE TABLE .. DEFAULT ..] gives a new identifier. *)
Definition pg_default_row : gmap string CrdtValue :=
  list_to_map ((λ c, (cd_name c, pg_default (cd_ty c))) <$> synchronized_columns t).

(** [INSERT INTO {app_table}(tenant_id, id) .. ON CONFLICT DO NOTHING] *)
Definition insert_app_row (tenant row_id : string) : PgM unit :=
  st_modify (λ db,
    match tenant_rows tenant db !! row_id with
    | Some _ => db
    | None =>
      set_rows (<[tenant := <[row_id := pg_default_row]> (tenant_rows tenant db)]> (pg_rows db)) db
    end).

(** [SELECT value, lamport_clock, device_id .. FOR UPDATE], decoded. *)
Definition decode_log (row : LogRow) : Result CrdtColumn :=
  clock ← pg_clock_from_i64 (lr_lamport row);
  Ok {| value := lr_value row;
        metadata := {| lamport_clock := clock; device_id := lr_device row |} |}.
Definition select_cell (tenant : string) (key : string * string) (db : PgDb)
  : Result (option CrdtColumn) :=
  match tenant_log tenant db !! key with
  | Some row => Some <$> decode_log row
  | None => Ok None
  end.

Definition write_server_todo_column (tenant row_id column : string) (v : CrdtValue) : PgM unit :=
  stored <-- st_lift
    match column_type t column, v with
    | None, _ => invalid ("column is not synchronizable: " +:+ column)
    | Some TText, VText s => _ ← bind_text s; Ok v
    | Some TInteger, VInteger _ => Ok v
    | Some TReal, VReal _ => Ok v
    | Some TBoolean, VBoolean _ => Ok v
    | Some _, _ => invalid ("value type is incompatible with column " +:+ column)
    end ;;
  st_modify (λ db,
    match tenant_rows tenant db !! row_id with
    | Some row =>
      set_rows (<[tenant := <[row_id := <[column := stored]> row]> (tenant_rows tenant db)]>
                  (pg_rows db)) db
    | None => db
    end).

(** [INSERT INTO {crdt_table} .. nextval('loomabase_seq') .. ON CONFLICT DO UPDATE] *)
Definition upsert_log (tenant : string) (key : string * string) (incoming : CrdtColumn)
  : PgM unit :=
  clock <-- st_lift (pg_clock_to_i64 (lamport_clock (metadata incoming))) ;;
  v <-- st_lift (bind_json (value incoming)) ;;
  n <-- nextval ;;
  st_modify (λ db,
    set_log (<[tenant := <[key := {| lr_value := v; lr_lamport := clock;
                                     lr_device := device_id (metadata incoming);
                                     lr_seq := n |}]> (tenant_log tenant db)]> (pg_log db)) db).

(** ** Audit *)
Definition write_audit_event (tenant : string) (event : SyncAuditEvent) : PgM unit :=
  clock <-- st_lift (pg_clock_to_i64 (lamport_clock (ae_incoming_metadata event))) ;;
  current_clock <-- st_lift
    (match ae_current_metadata event with
     | Some m => Some <$> pg_clock_to_i64 (lamport_clock m) | None => Ok None end) ;;
  incoming <-- st_lift (bind_json (ae_incoming_value event)) ;;
  current <-- st_lift (match ae_current_value event with
                       | Some v => Some <$> bind_json v | None => Ok None end) ;;
  st_modify (λ db, set_audit (pg_audit db ++
    [{| au_tenant := tenant;
        au_table := ae_table_name event;
        au_todo_id := ae_todo_id event;
        au_column := ae_column_name event;
        au_device := device_id (ae_incoming_metadata event);
        au_outcome := outcome_as_str (ae_outcome event);
        au_reason := ae_reason event;
        au_incoming_value := incoming;
        au_incoming_lamport := clock;
        au_incoming_device := device_id (ae_incoming_metadata event);
        au_current_value := current;
        au_current_lamport := current_clock;
        au_current_device := device_id <$> ae_current_metadata event |}]) db).

Definition record_audit_if_enabled (tenant : string) (security : SyncSecurity)
    (event : SyncAuditEvent) : PgM unit :=
  match audit_mode security with
  | AuditDisabled => st_ret tt
  | AuditDatabase => write_audit_event tenant event
  end.

Definition rejection_audit_outcome (kind : SyncRejectionKind) : SyncAuditOutcome :=
  match kind with
  | AuthorizationDenied => RejectedAuthorization
  | ValidationFailed => RejectedValidation
  end.

(** ** The loop over the cells; [rejections] travels with the tables *)
Definition ServerM (A : Type) : Type := stM (PgDb * list SyncRejection) SyncError A.
Definition on_db {A} (m : PgM A) : ServerM A := λ s,
  match m s.1 with (r, db) => (r, (db, s.2)) end.

Definition server_reject (security : SyncSecurity) (context : SyncContext)
    (mutation : CellMutation) (current : option CrdtColumn) (kind : SyncRejectionKind)
    (why : string) : ServerM unit :=
  rejection <-- st_lift (SyncRejection_new (cm_todo_id mutation) (cm_column_name mutation)
                           kind why (cm_value mutation) (cm_metadata mutation)) ;;
  st_modify (λ '(db, rs), (db, rs ++ [rejection])) ;;;
  event <-- st_lift (SyncAuditEvent_new context mutation current
                       (rejection_audit_outcome kind) why) ;;
  on_db (record_audit_if_enabled (tenant_id context) security event).

(** The decision and the outcome it is audited with. *)
Definition server_decision (current : option CrdtColumn) (incoming : CrdtColumn)
  : Result (bool * SyncAuditOutcome)%type :=
  match current with
  | None => Ok (true, Accepted)
  | Some c =>
    match decide_lww (metadata c) (metadata incoming) with
    | AcceptIncoming => Ok (true, Accepted)
    | KeepCurrent => Ok (false, KeptCurrent)
    | EqualVersion =>
      if value_eqb (value c) (value incoming) then Ok (false, Idempotent)
      else invalid "the same CRDT version cannot identify different values"
    end
  end.

Definition server_merge_cell (security : SyncSecurity) (context : SyncContext)
    (row_id : string) (cell : string * CrdtColumn) : ServerM unit :=
  let '(column_name, incoming) := cell in
  let tenant := tenant_id context in
  let key := (row_id, column_name) in
  s <-- st_get ;;
  current <-- st_lift (select_cell tenant key s.1) ;;
  let mutation := {| cm_todo_id := row_id; cm_column_name := column_name;
                     cm_value := value incoming; cm_metadata := metadata incoming |} in
  authorized <-- st_lift (authorizer security context mutation current) ;;
  match authorized with
  | Deny kind why => server_reject security context mutation current kind why
  | Allow =>
    validated <-- st_lift (validator security context mutation current) ;;
    match validated with
    | Deny kind why => server_reject security context mutation current kind why
    | Allow =>
      let explanation := explain_lww current incoming in
      decided <-- st_lift (server_decision current incoming) ;;
      (if decided.1 : bool
       then on_db (write_server_todo_column tenant row_id column_name (value incoming) ;;;
                   upsert_log tenant key incoming)
       else st_ret tt) ;;;
      event <-- st_lift (SyncAuditEvent_new context mutation current decided.2
                           (summary explanation)) ;;
      on_db (record_audit_if_enabled tenant security event)
    end
  end.

Definition server_merge_row (security : SyncSecurity) (context : SyncContext) (row : RowChange)
  : ServerM unit :=
  on_db (insert_app_row (tenant_id context) (todo_id row)) ;;;
  st_for (server_merge_cell security context (todo_id row)) (bt_iter (columns row)).

(** ** The change feed *)
Definition feed_le (a b : (string * string) * LogRow) : Prop := (lr_seq a.2 ≤ lr_seq b.2)%Z.
#[export] Instance feed_le_dec : RelDecision feed_le.
Proof. intros a b; unfold feed_le; apply _. Defined.

(** [SELECT .. WHERE tenant_id = $1 AND seq > $2 ORDER BY seq LIMIT $3] *)
Definition select_feed (log : gmap (string * string) LogRow) (after : Z)
  : list ((string * string) * LogRow) :=
  take (S (N.to_nat MAX_RESPONSE_CELLS))
    (merge_sort feed_le
       (filter (λ e : (string * string) * LogRow, (after < lr_seq e.2)%Z) (bt_iter log))).

(** The locals of the paging loop. *)
Record feed_page := {
  fp_rows : gmap string (gmap string CrdtColumn);
  fp_bytes : N;
  fp_included : N;
  fp_cursor : Z;
  fp_has_more : bool;
}.
Definition start_feed (after : Z) : feed_page :=
  {| fp_rows := ∅; fp_bytes := 0; fp_included := 0; fp_cursor := after; fp_has_more := false |}.

Definition feed_cell_bytes (key : string * string) (column : CrdtColumn) : Result N :=
  json ← value_json_len (value column);
  Ok (json + str_len key.1 + str_len key.2 + str_len (device_id (metadata column)))%N.

Fixpoint fill_feed (l : list ((string * string) * LogRow)) (p : feed_page) : Result feed_page :=
  match l with
  | [] => Ok p
  | (key, row) :: l =>
    column ← decode_log row;
    cell_bytes ← feed_cell_bytes key column;
    if (MAX_RESPONSE_CELLS <=? fp_included p)%N
       || ((0 <? fp_included p)%N && (MAX_RESPONSE_BYTES <? fp_bytes p + cell_bytes)%N)
    then Ok {| fp_rows := fp_rows p; fp_bytes := fp_bytes p; fp_included := fp_included p;
               fp_cursor := fp_cursor p; fp_has_more := true |}
    else fill_feed l
      {| fp_rows := row_insert (fp_rows p) key.1 key.2 column;
         fp_bytes := (fp_bytes p + cell_bytes)%N;
         fp_included := (fp_included p + 1)%N;
         fp_cursor := lr_seq row;
         fp_has_more := fp_has_more p |}
  end.

(** ** Cursors and leases *)
Definition select_epoch (db : PgDb) : Result string :=
  match pg_epoch db with Some e => Ok e | None => pg_err "no rows returned" end.

Definition lease_is_valid (p : SyncPayload) (max_cursor : Z) (epoch : string)
    (lease : option Lease) : bool :=
  (cursor p =? 0)%Z ||
  match lease with
  | None => false
  | Some l =>
    (cursor p <=? max_cursor)%Z && (cursor p <=? ls_max_issued l)%Z &&
    ((protocol_version p <? 4)%N ||
     (bool_decide (cursor_token p = Some (ls_token l)) &&
      bool_decide (server_epoch p = Some (ls_epoch l)) &&
      bool_decide (ls_epoch l = epoch)))
  end.

(** [INSERT INTO loomabase_cursor_lease .. ON CONFLICT .. RETURNING cursor_token] *)
Definition upsert_lease (key : string * string * string) (next : Z) (epoch : string)
  : PgM string :=
  fresh <-- draw_uuid ;;
  db <-- st_get ;;
  match pg_leases db !! key with
  | None =>
    st_modify (set_leases (<[key := {| ls_max_issued := next; ls_token := fresh;
                                       ls_epoch := epoch; ls_last_seen := pg_now db |}]>
                             (pg_leases db))) ;;;
    st_ret fresh
  | Some l =>
    token <-- (if decide (ls_epoch l = epoch) then st_ret (ls_token l) else draw_uuid) ;;
    st_modify (set_leases (<[key := {| ls_max_issued := Z.max (ls_max_issued l) next;
                                       ls_token := token; ls_epoch := epoch;
                                       ls_last_seen := pg_now db |}]> (pg_leases db))) ;;;
    st_ret token
  end.

(** ** [merge_crdt_states_with_security] *)
Definition merge_crdt_states_with_security (p : SyncPayload) (device tenant : string)
    (security : SyncSecurity) : PgM SyncPayload :=
  st_lift (validate_identifier "tenant_id" tenant) ;;;
  st_lift (validate_client_request p device t) ;;;
  let observed_clock := max_observed_clock p in
  let context := {| tenant_id := tenant; authenticated_device_id := device; ctx_table := t |} in
  server_clock <-- tenant_clock tenant ;;
  st_lift (validate_clock_advance server_clock observed_clock) ;;;
  rejected <-- (λ db, match st_for (server_merge_row security context) (changes p) (db, []) with
                      | (Ok _, (db', rs)) => (Ok rs, db')
                      | (Err e, (db', _)) => (Err e, db')
                      end) ;;
  next_clock <-- st_lift (ok_or (u64_checked_add (N.max server_clock observed_clock) 1)
                            ClockOverflow) ;;
  update_clock tenant next_clock ;;;
  db <-- st_get ;;
  let log := tenant_log tenant db in
  let tenant_max_cursor := max_seq log in
  epoch <-- st_lift (select_epoch db) ;;
  let key := (tenant, device, crdt_table t) in
  let valid := lease_is_valid p tenant_max_cursor epoch (pg_leases db !! key) in
  let reset := negb (cursor p =? 0)%Z && negb valid in
  let effective := if valid then cursor p else 0%Z in
  pg <-- st_lift (fill_feed (select_feed log effective) (start_feed effective)) ;;
  let next := if fp_has_more pg then fp_cursor pg else tenant_max_cursor in
  token <-- upsert_lease key next epoch ;;
  st_ret {| protocol_version := protocol_version p;
            schema_fingerprint := table_fingerprint t;
            source_device_id := SERVER_DEVICE_ID;
            source_lamport := next_clock;
            changes := row_changes (fp_rows pg);
            cursor := next;
            has_more := fp_has_more pg;
            cursor_reset := reset;
            cursor_token := Some token;
            server_epoch := Some epoch;
            rejections := rejected |}.

Definition merge_crdt_states (p : SyncPayload) (device tenant : string) : PgM SyncPayload :=
  merge_crdt_states_with_security p device tenant SyncSecurity_default.

(** ** [merge_partial_replica_with_security] *)

(** One predicate of the query: what building it and binding its parameter
    can refuse. *)
Definition bind_predicate (predicate : ReplicaPredicate) : Result unit :=
  match predicate with
  | IdEquals _ | IdPrefix _ => Ok tt
  | ColumnEquals column v =>
    match v with
    | VInteger _ | VReal _ | VText _ | VBoolean _ => Ok tt
    | VNull | VBlob _ => invalid ("invalid partial-replica predicate value for " +:+ column)
    end
  end.
Definition bind_parameter (predicate : ReplicaPredicate) : Result unit :=
  match predicate with
  | IdEquals v | IdPrefix v | ColumnEquals _ (VText v) => _ ← bind_text v; Ok tt
  | ColumnEquals _ _ => Ok tt
  end.

(** [WHERE tenant_id = .. AND deleted = FALSE AND ..], on one row. *)
Definition row_is_live (row : gmap string CrdtValue) : bool :=
  match row !! LIVENESS_COLUMN with
  | Some v => value_eqb v (VBoolean false)
  | None => false
  end.
Definition row_selected (i : ReplicaInterest) (e : string * gmap string CrdtValue) : bool :=
  row_is_live e.2 && interest_matches i e.1 e.2.

(** [ORDER BY id LIMIT {limit + 1}]: in the collation of the database. *)
Definition select_members (i : ReplicaInterest) (rows : gmap string (gmap string CrdtValue))
  : list string :=
  take (S (N.to_nat (limit i)))
    (merge_sort collate_le (filter (λ e, row_selected i e = true) (bt_iter rows)).*1).

(** [ORDER BY todo_id, column_name] *)
Definition snapshot_le (a b : (string * string) * LogRow) : Prop :=
  collate_le a.1.1 b.1.1 ∧ (a.1.1 = b.1.1 → collate_le a.1.2 b.1.2).
#[export] Instance snapshot_le_dec : RelDecision snapshot_le.
Proof. intros a b; unfold snapshot_le; apply _. Defined.
Definition select_snapshot (members : list string) (log : gmap (string * string) LogRow)
  : list ((string * string) * LogRow) :=
  merge_sort snapshot_le
    (filter (λ e : (string * string) * LogRow, e.1.1 ∈ members) (bt_iter log)).

Record snapshot := {
  sn_rows : gmap string (gmap string CrdtColumn);
  sn_bytes : N;
  sn_cells : N;
}.
Definition server_snapshot_cell (acc : snapshot) (e : (string * string) * LogRow)
  : Result snapshot :=
  let '(key, row) := e in
  let cells := (sn_cells acc + 1)%N in
  if (MAX_PAYLOAD_CELLS <? cells)%N
  then invalid ("partial replica snapshot exceeds the " +:+ pretty MAX_PAYLOAD_CELLS +:+
                " cell limit")
  else
    column ← decode_log row;
    cell_bytes ← feed_cell_bytes key column;
    let bytes := (sn_bytes acc + cell_bytes)%N in
    if (MAX_RESPONSE_BYTES <? bytes)%N
    then invalid ("partial replica snapshot exceeds the " +:+ pretty MAX_RESPONSE_BYTES +:+
                  "-byte limit")
    else Ok {| sn_rows := row_insert (sn_rows acc) key.1 key.2 column;
               sn_bytes := bytes; sn_cells := cells |}.

Definition merge_partial_replica_with_security (r : PartialReplicaRequest)
    (device tenant : string) (security : SyncSecurity) : PgM PartialReplicaResponse :=
  st_lift (request_validate r t device) ;;;
  sync <-- merge_crdt_states_with_security (prq_sync r) device tenant security ;;
  st_lift (for_each bind_predicate (predicates (interest r))) ;;;
  st_lift (for_each bind_parameter (predicates (interest r))) ;;;
  db <-- st_get ;;
  let members := select_members (interest r) (tenant_rows tenant db) in
  st_lift (if (limit (interest r) <? N.of_nat (length members))%N
           then invalid ("partial replica scope exceeds its declared limit of " +:+
                         pretty (limit (interest r)) +:+
                         " rows; narrow the interest or increase the limit")
           else Ok tt) ;;;
  st_lift (validate_member_ids members) ;;;
  snap <-- st_lift (foldM server_snapshot_cell {| sn_rows := ∅; sn_bytes := 0; sn_cells := 0 |}
                      (match members with
                       | [] => []
                       | _ => select_snapshot members (tenant_log tenant db)
                       end)) ;;
  let evicted := filter (λ row_id, binary_search members row_id = false) (known_member_ids r) in
  let response :=
    {| prs_scope_id := prq_scope_id r;
       prs_scope_version := prq_scope_version r;
       member_ids := members;
       evicted_row_ids := evicted;
       prs_sync := with_snapshot (row_changes (sn_rows snap)) sync |} in
  st_lift (response_validate response t) ;;;
  st_ret response.

Definition merge_partial_replica (r : PartialReplicaRequest) (device tenant : string)
  : PgM PartialReplicaResponse :=
  merge_partial_replica_with_security r device tenant SyncSecurity_default.

(** ** Maintenance *)

(** [DELETE FROM loomabase_cursor_lease WHERE last_seen_at < now - secs]; the
    number of rows it affected. *)
Definition expire_cursor_leases (inactive_for : N) : PgM nat :=
  seconds <-- st_lift (ok_or (i64_try_from_u64 inactive_for)
                         (InvalidPayload "lease TTL is too large")) ;;
  db <-- st_get ;;
  let kept := filter (λ e : (string * string * string) * Lease,
                        ¬ (ls_last_seen e.2 < pg_now db - seconds)%Z) (pg_leases db) in
  st_modify (set_leases kept) ;;;
  st_ret (size (pg_leases db) - size kept)%nat.

Definition rotate_server_epoch : PgM string :=
  transactional (
    db <-- st_get ;;
    match pg_epoch db with
    | None => st_lift (pg_err "no rows returned")
    | Some _ =>
      epoch <-- draw_uuid ;;
      st_modify (set_epoch (Some epoch)) ;;;
      st_modify (set_leases ∅) ;;;
      st_ret epoch
    end).

(** ** Schema initialization

    The statements it executes for a contract, in order, and what they do to
    the rows of a database whose relations already have the columns of this
    contract: only the epoch is inserted when there is none. The rows of an
    older contract - the defaults of added columns, the backfill of [seq] - are
    outside [PgDb], whose contract is fixed; their migrations appear as the
    exact text only. [existing] and [existing_crdt] are the columns
    [postgres_existing_columns] reads from the catalog. *)
Definition lease_columns_ddl : string :=
  "ALTER TABLE loomabase_cursor_lease
            ADD COLUMN IF NOT EXISTS cursor_token TEXT;
         ALTER TABLE loomabase_cursor_lease
            ADD COLUMN IF NOT EXISTS server_epoch TEXT;
         ALTER TABLE loomabase_cursor_lease
            ADD COLUMN IF NOT EXISTS last_seen_at TIMESTAMPTZ;
         UPDATE loomabase_cursor_lease
            SET cursor_token = COALESCE(cursor_token, gen_random_uuid()::text),
                server_epoch = COALESCE(
                    server_epoch,
                    (SELECT server_epoch FROM loomabase_server_state WHERE singleton)
                ),
                last_seen_at = COALESCE(last_seen_at, clock_timestamp());
         ALTER TABLE loomabase_cursor_lease ALTER COLUMN cursor_token SET NOT NULL;
         ALTER TABLE loomabase_cursor_lease ALTER COLUMN server_epoch SET NOT NULL;
         ALTER TABLE loomabase_cursor_lease ALTER COLUMN last_seen_at SET NOT NULL;
         ALTER TABLE loomabase_cursor_lease
            ALTER COLUMN cursor_token SET DEFAULT gen_random_uuid()::text;
         ALTER TABLE loomabase_cursor_lease
            ALTER COLUMN last_seen_at SET DEFAULT clock_timestamp();".
Definition insert_epoch : PgM unit :=
  fresh <-- draw_uuid ;;
  st_modify (λ db, match pg_epoch db with
                   | Some _ => db | None => set_epoch (Some fresh) db end).
Definition initialize_server_schema_with (existing existing_crdt : gmap string string)
  : PgM (list string) :=
  transactional (
    migrations <-- st_lift (if decide (existing = ∅) then Ok []
                            else postgres_migration_sql t existing) ;;
    crdt_migrations <-- st_lift (postgres_crdt_migration_sql t existing_crdt) ;;
    insert_epoch ;;;
    st_ret (["SELECT pg_advisory_xact_lock($1)"; "CREATE SEQUENCE IF NOT EXISTS loomabase_seq"]
            ++ migrations ++ crdt_migrations ++
            [postgres_schema t; lease_columns_ddl; postgres_rls_policies t])).

(** ** The caller's transaction

    A failed body is rolled back; a sequence is not, and random values are
    never drawn again. *)
Definition run_transaction {A} (m : PgM A) : PgM A := λ db,
  match m db with
  | (Ok a, db') => (Ok a, db')
  | (Err e, db') =>
    (Err e, set_uuids (pg_uuids db') (set_sequence (pg_sequence db') db))
  end.
End server.

(** A database before its schema is initialized. *)
Definition empty_pg : PgDb :=
  {| pg_state := ∅; pg_rows := ∅; pg_log := ∅; pg_sequence := 0; pg_gap := λ _, 0%N; pg_leases := ∅;
     pg_epoch := None; pg_audit := []; pg_uuids := 0; pg_now := 0 |}.
