(* ===== verification/ServerFacts.v ===== *)
(** * What a merge does to the PostgreSQL tables (src/server.rs)

    The cells of a tenant, the frame of a merge - what it leaves to the other
    tenants - and the effect of its loop over the incoming cells. *)
From S2P Require Import Prelude RustStd Error Schema Crdt Lww Payload Policy Explain Replica.
From S2P Require Import State Feed Merge Postgres Server.

(** ** The cells of a tenant *)
Definition pg_column (row : LogRow) : CrdtColumn :=
  {| value := lr_value row;
     metadata := {| lamport_clock := Z.to_N (lr_lamport row); device_id := lr_device row |} |}.
Definition tenant_cells (tenant : string) (db : PgDb) : cell_map :=
  pg_column <$> tenant_log tenant db.
Definition log_clocks (log : gmap (string * string) LogRow) : Prop :=
  map_Forall (λ _ row, (0 ≤ lr_lamport row)%Z) log.

Lemma tenant_cells_lookup tenant db k :
  tenant_cells tenant db !! k = pg_column <$> tenant_log tenant db !! k.
Proof. apply lookup_fmap. Qed.

Lemma decode_log_ok row :
  (0 ≤ lr_lamport row)%Z → decode_log row = Ok (pg_column row).
Proof.
  intros Hrow. unfold decode_log, pg_clock_from_i64, u64_try_from_i64.
  destruct (Z.leb_spec 0 (lr_lamport row)); [done|lia].
Qed.
Lemma decode_log_inv row c :
  decode_log row = Ok c → (0 ≤ lr_lamport row)%Z ∧ c = pg_column row.
Proof.
  unfold decode_log, pg_clock_from_i64, u64_try_from_i64.
  destruct (Z.leb_spec 0 (lr_lamport row)); [|done]. by intros [= <-].
Qed.

Lemma select_cell_ok tenant k db current :
  select_cell tenant k db = Ok current → current = tenant_cells tenant db !! k.
Proof.
  rewrite tenant_cells_lookup. unfold select_cell.
  destruct (tenant_log tenant db !! k) as [row|]; [|by intros [= <-]].
  destruct (decode_log row) as [c|] eqn:Hc; [|done]. intros [= <-].
  by apply decode_log_inv in Hc as [_ ->].
Qed.
Lemma select_cell_total tenant k db :
  log_clocks (tenant_log tenant db) → select_cell tenant k db = Ok (tenant_cells tenant db !! k).
Proof.
  intros Hlog. rewrite tenant_cells_lookup. unfold select_cell.
  destruct (tenant_log tenant db !! k) as [row|] eqn:Hk; [|done].
  by rewrite decode_log_ok by apply (Hlog _ _ Hk).
Qed.

Section facts.
Context `{!Pg_externals, !SerdeJson, !StrDebug}.
Variable (t : TableDef).

Definition server_context (tenant device : string) : SyncContext :=
  {| tenant_id := tenant; authenticated_device_id := device; ctx_table := t |}.

(** ** The frame: other tenants *)
Record same_tenant (other : string) (db db' : PgDb) : Prop := {
  st_state : pg_state db' !! other = pg_state db !! other;
  st_rows : pg_rows db' !! other = pg_rows db !! other;
  st_log : pg_log db' !! other = pg_log db !! other;
  st_leases d c : pg_leases db' !! (other, d, c) = pg_leases db !! (other, d, c);
  st_audit : filter (λ row, au_tenant row = other) (pg_audit db')
             = filter (λ row, au_tenant row = other) (pg_audit db);
  st_epoch : pg_epoch db' = pg_epoch db;
  st_now : pg_now db' = pg_now db;
  st_sequence : (pg_sequence db ≤ pg_sequence db')%Z;
  st_uuids : (pg_uuids db ≤ pg_uuids db')%N;
}.
#[export] Instance same_tenant_preorder other : PreOrder (same_tenant other).
Proof.
  split.
  - intros db. by split.
  - intros db1 db2 db3 [] []. split; intros; etransitivity; eauto.
Qed.

Section frame.
Context (tenant other : string) (Hne : tenant ≠ other).

Lemma set_rows_frame rows db :
  same_tenant other db (set_rows (<[tenant := rows]> (pg_rows db)) db).
Proof. split; try done. simpl. by rewrite lookup_insert_ne. Qed.
Lemma insert_app_row_frame row_id : st_keeps (same_tenant other) (insert_app_row t tenant row_id).
Proof.
  apply st_keeps_modify. intros db. case_match; [done|]. apply set_rows_frame.
Qed.
Lemma write_column_frame row_id column v :
  st_keeps (same_tenant other) (write_server_todo_column t tenant row_id column v).
Proof.
  apply st_keeps_bind; [apply _|apply st_keeps_lift; apply _|]. intros stored.
  apply st_keeps_modify. intros db. case_match; [|done]. apply set_rows_frame.
Qed.
Lemma nextval_frame : st_keeps (same_tenant other) nextval.
Proof.
  intros db r db'. unfold nextval, st_bind, st_get. case_match; intros [= _ <-]; [|done].
  split; try done. simpl. unfold next_number, draw_after. lia.
Qed.
Lemma draw_uuid_frame : st_keeps (same_tenant other) draw_uuid.
Proof. intros db r db' [= _ <-]. split; try done. simpl. lia. Qed.
Lemma upsert_log_frame k incoming :
  st_keeps (same_tenant other) (upsert_log tenant k incoming).
Proof.
  unfold upsert_log.
  do 2 (apply st_keeps_bind; [apply _|apply st_keeps_lift; apply _|intros ?]).
  apply st_keeps_bind; [apply _|exact nextval_frame|intros ?]. apply st_keeps_modify. intros db. split; try done. simpl. by rewrite lookup_insert_ne.
Qed.
Lemma write_audit_frame event : st_keeps (same_tenant other) (write_audit_event tenant event).
Proof.
  unfold write_audit_event.
  repeat (apply st_keeps_bind; [apply _|apply st_keeps_lift; apply _|intros ?]).
  apply st_keeps_modify. intros db. split; try done. cbn [pg_audit set_audit].
  rewrite list.filter_app, list.filter_cons_False by done. by rewrite app_nil_r.
Qed.
Lemma record_audit_frame security event :
  st_keeps (same_tenant other) (record_audit_if_enabled tenant security event).
Proof.
  unfold record_audit_if_enabled.
  case_match; [apply st_keeps_ret; apply _|apply write_audit_frame].
Qed.
Lemma tenant_clock_frame : st_keeps (same_tenant other) (tenant_clock tenant).
Proof.
  intros db r db'. unfold tenant_clock, st_bind, st_get, st_modify, st_lift. intros [= _ <-].
  split; try done. simpl. by rewrite lookup_insert_ne.
Qed.
Lemma update_clock_frame clock : st_keeps (same_tenant other) (update_clock tenant clock).
Proof.
  apply st_keeps_bind; [apply _|apply st_keeps_lift; apply _|]. intros z.
  apply st_keeps_modify. intros db. case_decide; [|done].
  split; try done. simpl. by rewrite lookup_insert_ne.
Qed.
Lemma upsert_lease_frame d c next epoch :
  st_keeps (same_tenant other) (upsert_lease (tenant, d, c) next epoch).
Proof.
  assert (∀ l db, same_tenant other db (set_leases (<[(tenant, d, c) := l]> (pg_leases db)) db))
    as Hset by (intros l db; split; try done; intros d' c'; simpl; by rewrite lookup_insert_ne by congruence).
  unfold upsert_lease. apply st_keeps_bind; [apply _|exact draw_uuid_frame|]. intros fresh db r db'.
  unfold st_bind at 1, st_get. case_match eqn:Hl.
  - unfold st_bind at 1. case_decide.
    + unfold st_ret, st_bind, st_modify. intros [= _ <-]. apply Hset.
    + destruct (draw_uuid db) as [[token|e] db1] eqn:Hd; [|done].
      pose proof (draw_uuid_frame _ _ _ Hd) as Hdb1.
      injection Hd as <- <-. unfold st_ret, st_bind, st_modify. intros [= _ <-].
      etransitivity; [exact Hdb1|].
      exact (Hset _ (set_uuids (pg_uuids db + 1) db)).
  - unfold st_ret, st_bind, st_modify. intros [= _ <-]. apply Hset.
Qed.
#[local] Hint Resolve insert_app_row_frame write_column_frame nextval_frame draw_uuid_frame
  upsert_log_frame record_audit_frame tenant_clock_frame update_clock_frame upsert_lease_frame
  : keeps.

(** The loop carries the rejections along. *)
Definition same_tenant_fst (s s' : PgDb * list SyncRejection) : Prop := same_tenant other s.1 s'.1.
#[local] Instance same_tenant_fst_preorder : PreOrder same_tenant_fst.
Proof. split; [intros s|intros s1 s2 s3]; unfold same_tenant_fst; [done|by etransitivity]. Qed.
Lemma on_db_frame {A} (m : PgM A) :
  st_keeps (same_tenant other) m → st_keeps same_tenant_fst (on_db m).
Proof.
  intros Hm [db rs] r [db' rs']. unfold on_db. simpl.
  destruct (m db) as [r1 db1] eqn:Hrun. intros [= _ <- _]. by apply (Hm _ _ _ Hrun).
Qed.
Ltac frame_step :=
  first [apply st_keeps_bind; [apply _| |intros ?]
        |apply st_keeps_lift; apply _ |apply st_keeps_ret; apply _ |apply st_keeps_get; apply _].

Lemma server_reject_frame security context mutation current kind why :
  tenant_id context = tenant →
  st_keeps same_tenant_fst (server_reject security context mutation current kind why).
Proof.
  intros Htenant. unfold server_reject. repeat frame_step.
  - apply st_keeps_modify. intros [db rs]. unfold same_tenant_fst. done.
  - apply on_db_frame. rewrite Htenant. auto with keeps.
Qed.
Lemma server_cell_frame security context row_id cell :
  tenant_id context = tenant →
  st_keeps same_tenant_fst (server_merge_cell t security context row_id cell).
Proof.
  intros Htenant. destruct cell as [column incoming]. unfold server_merge_cell. rewrite Htenant.
  repeat first [by apply server_reject_frame|frame_step|case_match].
  all: apply on_db_frame; auto with keeps.
  apply st_keeps_bind; auto with keeps; apply _.
Qed.
Lemma server_rows_frame security context rows :
  tenant_id context = tenant →
  st_keeps same_tenant_fst (st_for (server_merge_row t security context) rows).
Proof.
  intros Htenant. apply st_keeps_for; [apply _|]. intros row _.
  apply st_keeps_bind; [apply _|apply on_db_frame; rewrite Htenant; auto with keeps|].
  intros _. apply st_keeps_for; [apply _|]. intros cell _. by apply server_cell_frame.
Qed.

(** A merge, whether it succeeds or fails, leaves the other tenants alone. *)
Lemma merge_frame p device security :
  st_keeps (same_tenant other) (merge_crdt_states_with_security t p device tenant security).
Proof.
  unfold merge_crdt_states_with_security.
  repeat first [apply tenant_clock_frame|apply update_clock_frame|apply upsert_lease_frame
               |frame_step].
  intros db r db' Hfor.
  destruct (st_for _ _ _) as [[u|e] [db1 rs]] eqn:Hst; injection Hfor as _ <-;
    exact (server_rows_frame security (server_context tenant device) (changes p) eq_refl
             _ _ _ Hst).
Qed.
End frame.
End facts.
