(* ===== verification/ServerRun.v ===== *)
(** * The loop of a merge over the incoming cells (src/server.rs)

    The effect of the loop on the tables, as a relation that composes: which
    log rows it writes and how they are numbered, what the application rows
    hold, and the audit rows it appends. *)
From S2P Require Import Prelude RustStd Error Schema Crdt Lww Payload Policy Explain Replica.
From S2P Require Import State Feed Merge Postgres Server ServerFacts.

Section loop.
Context `{!Pg_externals, !SerdeJson, !StrDebug}.
Variable (t : TableDef).

(** ** Stored values *)
Definition json_stored (v : CrdtValue) : CrdtValue :=
  match v with VReal r => VReal (jsonb_real r) | _ => v end.
Definition no_nul (v : CrdtValue) : Prop :=
  match v with VText s => has_nul s = false | _ => True end.
Definition log_row (n : Z) (c : CrdtColumn) : LogRow :=
  {| lr_value := json_stored (value c);
     lr_lamport := Z.of_N (lamport_clock (metadata c));
     lr_device := device_id (metadata c);
     lr_seq := n |}.
Definition stored_cell (c : CrdtColumn) : CrdtColumn :=
  {| value := json_stored (value c); metadata := metadata c |}.

Lemma bind_json_ok v v' : bind_json v = Ok v' ↔ no_nul v ∧ v' = json_stored v.
Proof. destruct v; simpl; try naive_solver. case_match; naive_solver. Qed.
Lemma pg_clock_ok n z : pg_clock_to_i64 n = Ok z ↔ (n ≤ I64_MAX)%N ∧ z = Z.of_N n.
Proof.
  unfold pg_clock_to_i64, i64_try_from_u64.
  destruct (N.leb_spec n I64_MAX); simpl; [naive_solver|]. split; [done|lia].
Qed.
Lemma pg_column_log_row n c : pg_column (log_row n c) = stored_cell c.
Proof.
  destruct c as [v [clock device]]. unfold pg_column, log_row, stored_cell. simpl.
  by rewrite N2Z.id.
Qed.

(** ** Numbered writes *)

(** The number of the [k]-th draw from now on, and of none: the last one. *)
Definition seq_after (db : PgDb) (k : nat) : Z :=
  Nat.iter k (draw_after (pg_gap db)) (pg_sequence db).
#[global] Arguments seq_after : simpl never.
Lemma seq_after_S db k : (seq_after db k < seq_after db (S k))%Z.
Proof. unfold seq_after. simpl. unfold draw_after. lia. Qed.
Lemma seq_after_mono db i j : i ≤ j → (seq_after db i ≤ seq_after db j)%Z.
Proof.
  induction 1 as [|j _ IH]; [done|]. etransitivity; [exact IH|]. apply Z.lt_le_incl, seq_after_S.
Qed.
Lemma seq_after_lt db i j : i < j → (seq_after db i < seq_after db j)%Z.
Proof.
  intros Hij. eapply Z.lt_le_trans; [apply seq_after_S|]. by apply seq_after_mono.
Qed.
Lemma seq_after_inj db i j : seq_after db i = seq_after db j → i = j.
Proof.
  intros Heq. destruct (lt_eq_lt_dec i j) as [[Hlt| ->]|Hlt]; [|done|];
    apply (seq_after_lt db) in Hlt; lia.
Qed.
Lemma seq_after_ge db k : (pg_sequence db + Z.of_nat k ≤ seq_after db k)%Z.
Proof.
  induction k as [|k IH]; [unfold seq_after; simpl; lia|]. pose proof (seq_after_S db k). lia.
Qed.
Lemma seq_after_add db db' k j :
  pg_gap db' = pg_gap db → pg_sequence db' = seq_after db k →
  seq_after db' j = seq_after db (k + j).
Proof.
  unfold seq_after. intros -> ->. rewrite (Nat.add_comm k j). symmetry. apply Nat.iter_add.
Qed.
Lemma seq_after_eq db db' k :
  pg_gap db' = pg_gap db → pg_sequence db' = pg_sequence db → seq_after db' k = seq_after db k.
Proof. intros Hg Hs. by apply (seq_after_add db db' 0). Qed.
(** Alone, a session gets consecutive numbers. *)
Lemma seq_after_alone db k :
  (∀ z, pg_gap db z = 0%N) → seq_after db k = (pg_sequence db + Z.of_nat k)%Z.
Proof.
  intros Hg. induction k as [|k IH]; [unfold seq_after; simpl; lia|].
  change (seq_after db (S k)) with (draw_after (pg_gap db) (seq_after db k)).
  unfold draw_after. rewrite Hg, IH. lia.
Qed.

Definition numbered (f : nat → Z) (l : list cell_write) : list ((string * string) * LogRow) :=
  imap (λ i w, (w.1, log_row (f (S i)) w.2)) l.
Lemma numbered_keys f l : (numbered f l).*1 = l.*1.
Proof. unfold numbered. rewrite fmap_imap. apply list_eq. intros i. rewrite list_lookup_imap, list_lookup_fmap. by destruct (l !! i). Qed.
Lemma numbered_app f g l1 l2 :
  (∀ i, g i = f (length l1 + i)) → numbered f (l1 ++ l2) = numbered f l1 ++ numbered g l2.
Proof.
  intros Hg. unfold numbered. rewrite imap_app. f_equal. apply imap_ext. intros i w _. simpl.
  rewrite Hg. do 3 f_equal. lia.
Qed.

(** The log after some writes with distinct keys. *)
Definition log_after (f : nat → Z) (l : list cell_write) (log : gmap (string * string) LogRow)
  : gmap (string * string) LogRow := list_to_map (numbered f l) ∪ log.

Lemma log_after_nil n log : log_after n [] log = log.
Proof. unfold log_after. apply (left_id_L ∅ (∪)). Qed.
Lemma log_after_app f g l1 l2 log :
  (∀ i, g i = f (length l1 + i)) →
  NoDup (l1 ++ l2).*1 →
  log_after f (l1 ++ l2) log = log_after g l2 (log_after f l1 log).
Proof.
  intros Hg Hnd. unfold log_after. rewrite (numbered_app f g), list_to_map_app, (assoc_L (∪)) by done.
  f_equal. apply map_union_comm. apply map_disjoint_list_to_map_l, list.Forall_forall.
  intros [k row] Hk. simpl. apply not_elem_of_list_to_map_1. rewrite numbered_keys.
  rewrite fmap_app in Hnd. apply list.NoDup_app in Hnd as (_ & Hdis & _). apply Hdis.
  rewrite <-(numbered_keys f). by apply (list_elem_of_fmap_2 fst) in Hk.
Qed.

Lemma log_after_other f l log k : k ∉ l.*1 → log_after f l log !! k = log !! k.
Proof.
  intros Hk. unfold log_after. rewrite lookup_union_r; [done|].
  apply not_elem_of_list_to_map_1. by rewrite numbered_keys.
Qed.

(** ** The audit of a cell

    The words of [SyncAuditOutcome::as_str]: a kept cell was the same version
    (idempotent) or a newer one; a rejection says who rejected and why. *)
Definition audited_as (current : option CrdtColumn) (incoming : CrdtColumn) (o : CellOutcome)
    (outcome why : string) : Prop :=
  match o with
  | OWrite _ => outcome = "accepted" ∧ why = summary (explain_lww current incoming)
  | OKeep =>
    (∃ c, current = Some c ∧
      outcome = if decide (metadata c = metadata incoming) then "idempotent" else "kept_current") ∧
    why = summary (explain_lww current incoming)
  | OReject r =>
    outcome = match sr_kind r with
              | AuthorizationDenied => "rejected_authorization"
              | ValidationFailed => "rejected_validation"
              end ∧ why = sr_reason r
  end.
(** The row for a cell, decided against the cells [m]. *)
Record audit_entry (tenant : string) (m : cell_map) (e : cell_write * CellOutcome) (row : AuditRow)
  : Prop := {
  ae_tenant : au_tenant row = tenant;
  ae_table : au_table row = td_name t;
  ae_cell : (au_todo_id row, au_column row) = e.1.1;
  ae_value : au_incoming_value row = json_stored (value e.1.2);
  ae_storable : no_nul (value e.1.2);
  ae_clock : au_incoming_lamport row = Z.of_N (lamport_clock (metadata e.1.2));
  ae_device : au_device row = device_id (metadata e.1.2);
  ae_author : au_incoming_device row = device_id (metadata e.1.2);
  ae_current : au_current_value row = (λ c, json_stored (value c)) <$> m !! e.1.1 ∧
    au_current_lamport row = (λ c, Z.of_N (lamport_clock (metadata c))) <$> m !! e.1.1 ∧
    au_current_device row = (λ c, device_id (metadata c)) <$> m !! e.1.1;
  ae_result : audited_as (m !! e.1.1) e.1.2 e.2 (au_outcome row) (au_reason row);
}.

(** ** The effect *)
Definition accepted (l : list (cell_write * CellOutcome)) : list cell_write :=
  omap outcome_write l.*2.
Record served (security : SyncSecurity) (tenant : string) (ids : list string)
    (l : list (cell_write * CellOutcome)) (db db' : PgDb) : Prop := {
  sv_log : tenant_log tenant db' = log_after (seq_after db) (accepted l) (tenant_log tenant db);
  sv_sequence : pg_sequence db' = seq_after db (length (accepted l));
  sv_gap : pg_gap db' = pg_gap db;
  sv_dom id : is_Some (tenant_rows tenant db' !! id) ↔
              is_Some (tenant_rows tenant db !! id) ∨ id ∈ ids;
  sv_hit w : w ∈ accepted l → is_Some (tenant_rows tenant db' !! w.1.1);
  sv_values id row' column : tenant_rows tenant db' !! id = Some row' →
    row' !! column =
    match (list_to_map (accepted l) : cell_map) !! (id, column) with
    | Some c => Some (value c)
    | None => default (pg_default_row t) (tenant_rows tenant db !! id) !! column
    end;
  sv_audit : ∃ rows, pg_audit db' = pg_audit db ++ rows ∧
    match audit_mode security with
    | AuditDisabled => rows = []
    | AuditDatabase => Forall2 (audit_entry tenant (tenant_cells tenant db)) l rows
    end;
  sv_state : pg_state db' = pg_state db;
  sv_leases : pg_leases db' = pg_leases db;
  sv_epoch : pg_epoch db' = pg_epoch db;
  sv_now : pg_now db' = pg_now db;
  sv_uuids : pg_uuids db' = pg_uuids db;
}.

Lemma audit_entry_ext tenant m m' e row :
  m !! e.1.1 = m' !! e.1.1 → audit_entry tenant m e row → audit_entry tenant m' e row.
Proof. intros Heq [? ? ? ? ? ? ? ? Hc Hr]. split; rewrite <-?Heq; done. Qed.
Lemma accepted_app l1 l2 : accepted (l1 ++ l2) = accepted l1 ++ accepted l2.
Proof. unfold accepted. by rewrite fmap_app, omap_app. Qed.

Lemma served_nil security tenant db : served security tenant [] [] db db.
Proof.
  split; try done.
  - by rewrite log_after_nil.
  - set_solver.
  - by intros w ?%not_elem_of_nil.
  - by intros id row' column ->.
  - exists []. rewrite app_nil_r. split; [done|]. case_match; [done|constructor].
Qed.

Lemma served_app security tenant ids1 ids2 l1 l2 db db1 db2 :
  NoDup (accepted (l1 ++ l2)).*1 → (∀ e, e ∈ l2 → e.1.1 ∉ (accepted l1).*1) →
  served security tenant ids1 l1 db db1 → served security tenant ids2 l2 db1 db2 →
  served security tenant (ids1 ++ ids2) (l1 ++ l2) db db2.
Proof.
  rewrite accepted_app. intros Hnd Hnew Hs1 Hs2.
  split; rewrite ?accepted_app, ?length_app; try (by etransitivity; [apply Hs2|apply Hs1]).
  - rewrite (sv_log _ _ _ _ _ _ Hs2), (sv_log _ _ _ _ _ _ Hs1). symmetry.
    apply log_after_app; [|done]. intros i.
    apply seq_after_add; [apply (sv_gap _ _ _ _ _ _ Hs1)|apply (sv_sequence _ _ _ _ _ _ Hs1)].
  - rewrite (sv_sequence _ _ _ _ _ _ Hs2).
    apply seq_after_add; [apply (sv_gap _ _ _ _ _ _ Hs1)|apply (sv_sequence _ _ _ _ _ _ Hs1)].
  - intros id. rewrite (sv_dom _ _ _ _ _ _ Hs2), (sv_dom _ _ _ _ _ _ Hs1), elem_of_app. tauto.
  - intros w [Hw|Hw]%elem_of_app; [|by apply (sv_hit _ _ _ _ _ _ Hs2)].
    apply (sv_dom _ _ _ _ _ _ Hs2). left. by apply (sv_hit _ _ _ _ _ _ Hs1).
  - intros id row2 column Hrow2. rewrite list_to_map_app.
    rewrite (sv_values _ _ _ _ _ _ Hs2 _ _ _ Hrow2), map_union_comm, lookup_union.
    2:{ apply map_disjoint_list_to_map_l, list.Forall_forall. intros [k c] Hk. simpl.
        apply not_elem_of_list_to_map_1. rewrite fmap_app in Hnd.
        apply list.NoDup_app in Hnd as (_ & Hdis & _). apply Hdis.
        by apply (list_elem_of_fmap_2 fst) in Hk. }
    destruct (list_to_map (accepted l2) !! (id, column)) as [c|] eqn:Hc2;
      [by destruct (list_to_map (accepted l1) !! (id, column))|]. rewrite (left_id_L None (∪)).
    destruct (tenant_rows tenant db1 !! id) as [row1|] eqn:Hrow1; simpl.
    + exact (sv_values _ _ _ _ _ _ Hs1 _ _ _ Hrow1).
    + destruct (list_to_map (accepted l1) !! (id, column)) as [c|] eqn:Hc1.
      * apply elem_of_list_to_map_2, (sv_hit _ _ _ _ _ _ Hs1) in Hc1. simpl in Hc1.
        rewrite Hrow1 in Hc1. by destruct Hc1.
      * destruct (tenant_rows tenant db !! id) as [row|] eqn:Hrow; [|done].
        assert (is_Some (tenant_rows tenant db1 !! id)) as [? ?]; [|congruence].
        apply (sv_dom _ _ _ _ _ _ Hs1). left. by exists row.
  - destruct (sv_audit _ _ _ _ _ _ Hs1) as (rows1 & Ha1 & Hr1), (sv_audit _ _ _ _ _ _ Hs2) as (rows2 & Ha2 & Hr2).
    exists (rows1 ++ rows2). rewrite Ha2, Ha1, app_assoc. split; [done|].
    destruct (audit_mode security); [by subst|].
    apply Forall2_app; [done|]. apply Forall2_same_length_lookup_2.
    + by apply Forall2_length in Hr2.
    + intros i e row He Hrow. pose proof (Forall2_lookup_lr _ _ _ _ _ _ Hr2 He Hrow) as Hentry.
      eapply audit_entry_ext; [|exact Hentry]. rewrite !tenant_cells_lookup.
      rewrite (sv_log _ _ _ _ _ _ Hs1), log_after_other; [done|].
      by apply Hnew, list_elem_of_lookup_2 with i.
Qed.

(** ** One cell *)
Definition audit_row (tenant : string) (e : SyncAuditEvent) : Result AuditRow :=
  clock ← pg_clock_to_i64 (lamport_clock (ae_incoming_metadata e));
  current_clock ← match ae_current_metadata e with
                  | Some m => Some <$> pg_clock_to_i64 (lamport_clock m) | None => Ok None end;
  incoming ← bind_json (ae_incoming_value e);
  current ← match ae_current_value e with
            | Some v => Some <$> bind_json v | None => Ok None end;
  Ok {| au_tenant := tenant; au_table := ae_table_name e; au_todo_id := ae_todo_id e;
        au_column := ae_column_name e; au_device := device_id (ae_incoming_metadata e);
        au_outcome := outcome_as_str (ae_outcome e); au_reason := ae_reason e;
        au_incoming_value := incoming; au_incoming_lamport := clock;
        au_incoming_device := device_id (ae_incoming_metadata e);
        au_current_value := current; au_current_lamport := current_clock;
        au_current_device := device_id <$> ae_current_metadata e |}.

Lemma write_audit_run tenant e db :
  write_audit_event tenant e db =
  match audit_row tenant e with
  | Ok row => (Ok tt, set_audit (pg_audit db ++ [row]) db)
  | Err x => (Err x, db)
  end.
Proof.
  unfold write_audit_event, audit_row, st_bind, st_lift, st_modify.
  destruct (pg_clock_to_i64 _) as [clock|]; [|done]. simpl.
  destruct (match ae_current_metadata e with Some _ => _ | None => _ end) as [cc|]; [|done]. simpl.
  destruct (bind_json _) as [v|]; [|done]. simpl.
  by destruct (match ae_current_value e with Some _ => _ | None => _ end) as [cv|].
Qed.

Lemma SyncAuditEvent_new_inv context mutation current outcome why e :
  SyncAuditEvent_new context mutation current outcome why = Ok e →
  ae_table_name e = td_name (ctx_table context) ∧ ae_todo_id e = cm_todo_id mutation ∧
  ae_column_name e = cm_column_name mutation ∧ ae_outcome e = outcome ∧
  ae_incoming_value e = cm_value mutation ∧ ae_incoming_metadata e = cm_metadata mutation ∧
  ae_reason e = why ∧ ae_current_value e = value <$> current ∧
  ae_current_metadata e = metadata <$> current.
Proof. unfold SyncAuditEvent_new. rewrite !bind_unit_ok. by intros (_ & _ & _ & _ & _ & [= <-]). Qed.

Lemma audit_row_entry tenant m device e w current outcome why row o :
  SyncAuditEvent_new (server_context t tenant device) (write_mutation w) current outcome why = Ok e →
  audit_row tenant e = Ok row → m !! w.1 = current →
  audited_as current w.2 o (outcome_as_str outcome) why →
  audit_entry tenant m (w, o) row.
Proof.
  intros (Ht & Hid & Hc & Ho & Hv & Hm & Hwhy & Hcv & Hcm)%SyncAuditEvent_new_inv Hrow Hcur Haud.
  unfold audit_row in Hrow.
  apply bind_ok in Hrow as (clock & [_ Hclock]%pg_clock_ok & Hrow).
  apply bind_ok in Hrow as (cc & Hcc & Hrow).
  apply bind_ok in Hrow as (v & [Hnul Hval]%bind_json_ok & Hrow).
  apply bind_ok in Hrow as (cv & Hcvs & Hrow). injection Hrow as <-.
  rewrite Hv in Hnul. rewrite Hcm in Hcc. rewrite Hcv in Hcvs. destruct w as [[id column] c].
  assert (cv = (λ c, json_stored (value c)) <$> current) as ->.
  { destruct current as [c0|]; simpl in Hcvs; [|by injection Hcvs as <-].
    destruct (bind_json (value c0)) as [x|] eqn:Hx; [|done]. injection Hcvs as <-.
    by apply bind_json_ok in Hx as [_ ->]. }
  assert (cc = (λ c, Z.of_N (lamport_clock (metadata c))) <$> current) as ->.
  { destruct current as [c0|]; simpl in Hcc; [|by injection Hcc as <-].
    destruct (pg_clock_to_i64 (lamport_clock (metadata c0))) as [x|] eqn:Hx; [|done].
    injection Hcc as <-. by apply pg_clock_ok in Hx as [_ ->]. }
  split; simpl in *; subst; rewrite ?Ht, ?Hid, ?Hc, ?Hv, ?Hm, ?Hcm; try done.
  split_and!; [done..|by destruct (m !! _)].
Qed.

Lemma record_audit_run security tenant m device e w current outcome why o db db' :
  SyncAuditEvent_new (server_context t tenant device) (write_mutation w) current outcome why = Ok e →
  m !! w.1 = current → audited_as current w.2 o (outcome_as_str outcome) why →
  record_audit_if_enabled tenant security e db = (Ok tt, db') →
  ∃ rows, db' = set_audit (pg_audit db ++ rows) db ∧
    match audit_mode security with
    | AuditDisabled => rows = []
    | AuditDatabase => Forall2 (audit_entry tenant m) [(w, o)] rows
    end.
Proof.
  intros He Hcur Haud. unfold record_audit_if_enabled. destruct (audit_mode security).
  - intros [= <-]. exists []. rewrite app_nil_r. split; [by destruct db|done].
  - rewrite write_audit_run. destruct (audit_row tenant e) as [row|] eqn:Hrow; [|done].
    intros [= <-]. exists [row]. split; [done|]. constructor; [by eapply audit_row_entry|constructor].
Qed.

Lemma server_decision_inv current incoming b outcome :
  server_decision current incoming = Ok (b, outcome) →
  should_apply current incoming = Ok b ∧
  if b then outcome = Accepted
  else ∃ c, current = Some c ∧
    outcome = if decide (metadata c = metadata incoming) then Idempotent else KeptCurrent.
Proof.
  unfold server_decision, should_apply. destruct current as [c|]; [|by intros [= <- <-]].
  pose proof (decide_lww_equal (metadata c) (metadata incoming)) as Heq.
  destruct (decide_lww _ _); [by intros [= <- <-]|intros [= <- <-]|].
  - split; [done|]. exists c. split; [done|]. case_decide as Hm; [|done]. by apply Heq in Hm.
  - destruct (value_eqb _ _); [|done]. intros [= <- <-]. split; [done|]. exists c. split; [done|].
    case_decide as Hm; [done|]. by destruct Hm; apply Heq.
Qed.

(** An audit, and nothing else. *)
Lemma served_audit security tenant w o db rows :
  accepted [(w, o)] = [] →
  match audit_mode security with
  | AuditDisabled => rows = []
  | AuditDatabase => Forall2 (audit_entry tenant (tenant_cells tenant db)) [(w, o)] rows
  end →
  served security tenant [] [(w, o)] db (set_audit (pg_audit db ++ rows) db).
Proof.
  intros Hacc Haud. split; rewrite ?Hacc; try done.
  - by rewrite log_after_nil.
  - intros id. change (tenant_rows tenant (set_audit _ db)) with (tenant_rows tenant db). set_solver.
  - by intros w' ?%not_elem_of_nil.
  - intros id row' column. change (tenant_rows tenant (set_audit _ db)) with (tenant_rows tenant db).
    by intros ->.
  - by exists rows.
Qed.

(** The application value and the log row of an accepted cell. *)
Definition write_effect (tenant : string) (w : cell_write) (db : PgDb) : PgDb :=
  let n := next_number db in
  set_log (<[tenant := <[w.1 := log_row n w.2]> (tenant_log tenant db)]> (pg_log db))
    (set_sequence n
      (match tenant_rows tenant db !! w.1.1 with
       | Some row =>
         set_rows (<[tenant := <[w.1.1 := <[w.1.2 := value w.2]> row]> (tenant_rows tenant db)]>
                     (pg_rows db)) db
       | None => db
       end)).

Lemma write_cell_run tenant w db u db' :
  (write_server_todo_column t tenant w.1.1 w.1.2 (value w.2) ;;; upsert_log tenant w.1 w.2)%loom db
    = (Ok u, db') →
  db' = write_effect tenant w db ∧ no_nul (value w.2) ∧ (lamport_clock (metadata w.2) ≤ I64_MAX)%N ∧
  (next_number db ≤ i64_max)%Z.
Proof.
  intros (u1 & db1 & Hcol & Hlog)%st_bind_ok.
  apply st_pure_ok in Hcol as (stored & Hst & Hcol).
  assert (stored = value w.2) as ->.
  { destruct (column_type t w.1.2) as [[]|], (value w.2); try done; try congruence.
    by apply bind_ok in Hst as (? & _ & [= <-]). }
  apply st_modify_ok in Hcol.
  apply st_pure_ok in Hlog as (clock & [Hclock ->]%pg_clock_ok & Hlog).
  apply st_pure_ok in Hlog as (v & [Hnul ->]%bind_json_ok & Hlog).
  apply st_bind_ok in Hlog as (n & db2 & Hseq & Hlog). apply st_modify_ok in Hlog.
  unfold nextval, st_bind, st_get in Hseq.
  assert (next_number db1 = next_number db) as Hsame by (rewrite Hcol; by destruct (tenant_rows tenant db !! w.1.1)).
  destruct (Z.leb_spec (next_number db1) i64_max) as [Hle|]; [|done].
  unfold st_modify, st_ret in Hseq. injection Hseq as <- <-.
  split; [|split_and!; [done|done|by rewrite <-Hsame]].
  unfold write_effect. rewrite Hlog, Hcol. unfold log_row.
  by destruct (tenant_rows tenant db !! w.1.1).
Qed.

Lemma write_effect_served security tenant w db rows :
  is_Some (tenant_rows tenant db !! w.1.1) →
  match audit_mode security with
  | AuditDisabled => rows = []
  | AuditDatabase => Forall2 (audit_entry tenant (tenant_cells tenant db)) [(w, OWrite w)] rows
  end →
  served security tenant [] [(w, OWrite w)] db
    (set_audit (pg_audit (write_effect tenant w db) ++ rows) (write_effect tenant w db)).
Proof.
  intros [row Hrow] Haud. destruct w as [[id column] c]. unfold write_effect. simpl in *. rewrite Hrow.
  assert (∀ m n x, tenant_rows tenant (set_audit x (set_log m (set_sequence n
    (set_rows (<[tenant := <[id := <[column := value c]> row]> (tenant_rows tenant db)]> (pg_rows db)) db))))
    = <[id := <[column := value c]> row]> (tenant_rows tenant db)) as Hrows.
  { intros m n x. unfold tenant_rows at 1. simpl. by rewrite lookup_insert_eq. }
  split; try done; cbn -[tenant_rows].
  - unfold tenant_log at 1. simpl. rewrite lookup_insert_eq. simpl. unfold log_after, numbered. simpl.
    by rewrite insert_empty, <-insert_union_singleton_l.
  - intros i. rewrite Hrows. destruct (decide (i = id)) as [->|Hne].
    + rewrite lookup_insert_eq, Hrow. split; [by left|by eexists].
    + rewrite lookup_insert_ne by done. set_solver.
  - intros w ->%list_elem_of_singleton. rewrite Hrows. simpl. rewrite lookup_insert_eq. by eexists.
  - intros i row' col. rewrite Hrows. destruct (decide (i = id)) as [->|Hne].
    + rewrite lookup_insert_eq, Hrow. intros [= <-]. simpl. destruct (decide (col = column)) as [->|Hne].
      * by rewrite !lookup_insert_eq.
      * by rewrite !lookup_insert_ne, lookup_empty by congruence.
    + rewrite lookup_insert_ne by done. intros ->. by rewrite lookup_insert_ne, lookup_empty by congruence.
  - by exists rows.
Qed.

Definition storable (w : cell_write) : Prop :=
  no_nul (value w.2) ∧ (lamport_clock (metadata w.2) ≤ I64_MAX)%N.

Lemma on_db_ok {A} (m : PgM A) s a s' :
  on_db m s = (Ok a, s') ↔ m s.1 = (Ok a, s'.1) ∧ s'.2 = s.2.
Proof.
  destruct s as [db rs], s' as [db' rs']. unfold on_db. simpl.
  destruct (m db) as [r db1]. naive_solver.
Qed.

Section cell.
Context (security : SyncSecurity) (tenant device : string).
Abbreviation context := (server_context t tenant device).

Lemma server_reject_run w current k why db rs db' rs' :
  tenant_cells tenant db !! w.1 = current →
  server_reject security context (write_mutation w) current k why (db, rs) = (Ok tt, (db', rs')) →
  ∃ r, SyncRejection_new w.1.1 w.1.2 k why (value w.2) (metadata w.2) = Ok r ∧
    rs' = rs ++ [r] ∧ served security tenant [] [(w, OReject r)] db db'.
Proof.
  intros Hcur. unfold server_reject. intros (r & Hr & Hrest)%st_pure_ok. simpl in Hr.
  exists r. split; [done|].
  apply st_bind_ok in Hrest as ([] & s1 & ->%st_modify_ok & Hrest).
  apply st_pure_ok in Hrest as (e & He & [Hrec Hrs]%on_db_ok). simpl in Hrec, Hrs.
  split; [done|].
  assert (sr_kind r = k ∧ sr_reason r = why) as [Hk Hwhy].
  { unfold SyncRejection_new in Hr. by repeat (progress inv_ok || case_match). }
  apply (record_audit_run _ _ _ _ _ w _ _ _ (OReject r)) with (1 := He) (2 := Hcur) in Hrec
    as (rows & -> & Haud); [|split; [|done]; rewrite Hk; by destruct k].
  by apply served_audit.
Qed.

Lemma server_cell_run w db rs db' rs' :
  server_merge_cell t security context w.1.1 (w.1.2, w.2) (db, rs) = (Ok tt, (db', rs')) →
  is_Some (tenant_rows tenant db !! w.1.1) →
  ∃ o, cell_outcome security context (tenant_cells tenant db !! w.1) w = Ok o ∧
    rs' = rs ++ omap outcome_rejection [o] ∧ served security tenant [] [(w, o)] db db' ∧
    (o = OWrite w → storable w).
Proof.
  intros Hcell Hrow. destruct w as [[id column] c]. unfold server_merge_cell in Hcell.
  cbn [fst snd] in *.
  apply st_bind_ok in Hcell as (s & s1 & [-> ->]%st_get_ok & Hcell).
  apply st_pure_ok in Hcell as (current & Hcur%select_cell_ok & Hcell).
  simpl in Hcur. rewrite <-Hcur. set (w := ((id, column), c)).
  change {| cm_todo_id := id; cm_column_name := column; cm_value := value c;
            cm_metadata := metadata c |} with (write_mutation w) in Hcell.
  apply st_pure_ok in Hcell as (authorized & Hauth & Hcell).
  unfold cell_outcome. rewrite Hauth. cbn [mbind result_bind].
  destruct authorized as [|k why].
  2:{ apply (server_reject_run w) in Hcell as (r & Hr & Hrs & Hserved); [|done]. unfold reject_outcome.
      exists (OReject r). rewrite Hr. split_and!; [done..|by intros [=]]. }
  apply st_pure_ok in Hcell as (validated & Hval & Hcell). rewrite Hval. cbn [mbind result_bind].
  destruct validated as [|k why].
  2:{ apply (server_reject_run w) in Hcell as (r & Hr & Hrs & Hserved); [|done]. unfold reject_outcome.
      exists (OReject r). rewrite Hr. split_and!; [done..|by intros [=]]. }
  apply st_pure_ok in Hcell as ([b outcome] & [Happly Hout]%server_decision_inv & Hcell).
  change (w.2) with c. rewrite Happly. cbn [mbind result_bind fst snd] in *.
  apply st_bind_ok in Hcell as ([] & [db1 rs1] & Hwrite & Hcell).
  apply st_pure_ok in Hcell as (e & He & [Hrec Hrs]%on_db_ok). simpl in Hrec, Hrs.
  destruct b.
  - apply on_db_ok in Hwrite as [Hwrite Hrs1]. simpl in Hwrite, Hrs1. subst outcome.
    apply (write_cell_run tenant w) in Hwrite as (-> & Hnul & Hclock & _).
    apply (record_audit_run _ _ (tenant_cells tenant db) _ _ w _ _ _ (OWrite w)) with (1 := He) in Hrec
      as (rows & -> & Haud); [|done..].
    exists (OWrite w). split_and!; [done|by rewrite Hrs, Hrs1, app_nil_r| |done].
    by apply write_effect_served.
  - injection Hwrite as <- <-.
    apply (record_audit_run _ _ (tenant_cells tenant db) _ _ w _ _ _ OKeep) with (1 := He) in Hrec
      as (rows & -> & Haud); [|done|].
    2:{ destruct Hout as (c0 & Hc0 & ->). split; [|done]. exists c0. split; [done|].
        change (w.2) with c. by case_decide. }
    exists OKeep. split_and!; [done|by rewrite Hrs, app_nil_r| |done].
    by apply served_audit.
Qed.

(** ** The loop *)
Record loop_run (ids : list string) (l : list cell_write) (db : PgDb) (rs : list SyncRejection)
    (outs : list CellOutcome) (db' : PgDb) (rs' : list SyncRejection) : Prop := {
  lr_decided : decide_all security context (tenant_cells tenant db) l = Ok outs;
  lr_rejections : rs' = rs ++ omap outcome_rejection outs;
  lr_served : served security tenant ids (zip l outs) db db';
  lr_storable : Forall storable (omap outcome_write outs);
}.

Lemma decide_all_ext m m' l :
  (∀ k, k ∈ l.*1 → m !! k = m' !! k) →
  decide_all security context m l = decide_all security context m' l.
Proof.
  induction l as [|w l IH]; intros Hext; [done|]. rewrite !decide_all_cons.
  rewrite (Hext w.1), IH; [done|intros k Hk; apply Hext; by right|by left].
Qed.

Lemma accepted_zip l outs :
  length l = length outs → accepted (zip l outs) = omap outcome_write outs.
Proof. intros Hlen. unfold accepted. rewrite snd_zip; [done|lia]. Qed.

Lemma loop_run_nil db rs : loop_run [] [] db rs [] db rs.
Proof. split; [done|by rewrite app_nil_r|apply served_nil|constructor]. Qed.

Lemma loop_run_app ids1 ids2 l1 l2 db rs outs1 db1 rs1 outs2 db2 rs2 :
  NoDup (l1 ++ l2).*1 →
  loop_run ids1 l1 db rs outs1 db1 rs1 → loop_run ids2 l2 db1 rs1 outs2 db2 rs2 →
  loop_run (ids1 ++ ids2) (l1 ++ l2) db rs (outs1 ++ outs2) db2 rs2.
Proof.
  intros Hnd [Hd1 -> Hs1 Hst1] [Hd2 -> Hs2 Hst2].
  pose proof Hd1 as Hlen1%decide_all_ok%Forall2_length.
  pose proof Hd2 as Hlen2%decide_all_ok%Forall2_length.
  pose proof (decide_all_sublist _ _ _ _ _ Hd1) as Hsub1.
  pose proof (decide_all_sublist _ _ _ _ _ Hd2) as Hsub2.
  rewrite fmap_app in Hnd. pose proof Hnd as (_ & Hdis & _)%list.NoDup_app.
  assert (decide_all security context (tenant_cells tenant db) l2 = Ok outs2) as Hd2'.
  { rewrite <-Hd2. apply decide_all_ext. intros k Hk. rewrite !tenant_cells_lookup.
    rewrite (sv_log _ _ _ _ _ _ Hs1), log_after_other; [done|].
    rewrite accepted_zip by done. intros Hacc. apply (Hdis k); [|done].
    eapply elem_of_sublist; [exact Hacc|]. by apply fmap_sublist. }
  split.
  - apply decide_all_ok. apply Forall2_app; by apply decide_all_ok.
  - by rewrite omap_app, app_assoc.
  - rewrite zip_with_app by done. apply (served_app _ _ _ _ _ _ _ db1); [| |done|done].
    2:{ intros [w o] He. rewrite accepted_zip by done. intros Hacc.
        apply (Hdis w.1); [eapply elem_of_sublist; [exact Hacc|by apply fmap_sublist]|].
        apply list_elem_of_fmap. exists w. split; [done|]. by apply elem_of_zip_l in He. }
    rewrite accepted_app, !accepted_zip by done.
    eapply sublist_NoDup; [exact Hnd|]. rewrite fmap_app.
    apply sublist_app; by apply fmap_sublist.
  - rewrite omap_app. by apply Forall_app_2.
Qed.

Lemma cells_loop id l db rs db' rs' :
  is_Some (tenant_rows tenant db !! id) →
  NoDup ((λ e : string * CrdtColumn, ((id, e.1), e.2)) <$> l).*1 →
  st_for (server_merge_cell t security context id) l (db, rs) = (Ok tt, (db', rs')) →
  ∃ outs, loop_run [] ((λ e : string * CrdtColumn, ((id, e.1), e.2)) <$> l) db rs outs db' rs'.
Proof.
  revert db rs. induction l as [|[column c] l IH]; intros db rs Hrow Hnd Hfor.
  - injection Hfor as <- <-. exists []. apply loop_run_nil.
  - simpl in Hfor. apply st_bind_ok in Hfor as ([] & [db1 rs1] & Hcell & Hfor).
    apply (server_cell_run ((id, column), c)) in Hcell as (o & Ho & -> & Hserved & Hst); [|done].
    rewrite fmap_cons in Hnd |- *.
    apply IH in Hfor as (outs & Hrun).
    + exists ([o] ++ outs). apply (loop_run_app [] [] [_]) with (db1 := db1)
        (rs1 := rs ++ omap outcome_rejection [o]); [done| |done].
      split; [|done|done|].
      * apply decide_all_ok. by constructor.
      * destruct o as [w| |r]; [|constructor..]. constructor; [|constructor].
        pose proof (cell_outcome_write _ _ _ _ _ Ho) as ->. by apply Hst.
    + apply (sv_dom _ _ _ _ _ _ Hserved). by left.
    + rewrite fmap_cons in Hnd. by apply list.NoDup_cons in Hnd as [_ ?].
Qed.

Lemma insert_row_served id db :
  ∃ db', insert_app_row t tenant id db = (Ok tt, db') ∧
    served security tenant [id] [] db db' ∧ is_Some (tenant_rows tenant db' !! id).
Proof.
  unfold insert_app_row, st_modify. eexists. split; [reflexivity|].
  destruct (tenant_rows tenant db !! id) as [row|] eqn:Hrow.
  - split; [|by rewrite Hrow]. destruct (served_nil security tenant db). split; try done.
    intros i. split; [by left|]. intros [?| ->%list_elem_of_singleton]; [done|by exists row].
  - assert (∀ i, tenant_rows tenant (set_rows (<[tenant := <[id := pg_default_row t]>
      (tenant_rows tenant db)]> (pg_rows db)) db) !! i
      = <[id := pg_default_row t]> (tenant_rows tenant db) !! i) as Hrows.
    { intros i. unfold tenant_rows at 1. simpl. by rewrite lookup_insert_eq. }
    split; [|rewrite Hrows, lookup_insert_eq; by eexists].
    destruct (served_nil security tenant db). split; try done.
    + intros i. rewrite Hrows. destruct (decide (i = id)) as [->|Hne].
      * rewrite lookup_insert_eq. split; [intros _; right; by left|by eexists].
      * rewrite lookup_insert_ne by done. split; [by left|]. intros [?| ?%list_elem_of_singleton]; done.
    + by intros w ?%not_elem_of_nil.
    + intros i row' column. rewrite Hrows. simpl. destruct (decide (i = id)) as [->|Hne].
      * rewrite lookup_insert_eq. intros [= <-]. by rewrite lookup_empty, Hrow.
      * rewrite lookup_insert_ne by done. intros ->. by rewrite lookup_empty.
Qed.

Definition row_writes (row : RowChange) : list cell_write :=
  (λ e : string * CrdtColumn, ((todo_id row, e.1), e.2)) <$> bt_iter (columns row).

Lemma rows_loop rows db rs db' rs' :
  NoDup (rows ≫= row_writes).*1 →
  st_for (server_merge_row t security context) rows (db, rs) = (Ok tt, (db', rs')) →
  ∃ outs, loop_run (todo_id <$> rows) (rows ≫= row_writes) db rs outs db' rs'.
Proof.
  revert db rs. induction rows as [|row rows IH]; intros db rs Hnd Hfor.
  - injection Hfor as <- <-. exists []. apply loop_run_nil.
  - cbn [st_for] in Hfor. apply st_bind_ok in Hfor as ([] & [db2 rs2] & Hrow & Hfor).
    unfold server_merge_row in Hrow. apply st_bind_ok in Hrow as ([] & [db1 rs1] & Hins & Hcells).
    destruct (insert_row_served (todo_id row) db) as (db1' & Hins' & Hserved & Hsome).
    apply on_db_ok in Hins as [Hins Hrs1]. simpl in Hins, Hrs1.
    change (tenant_id context) with tenant in Hins. rewrite Hins' in Hins.
    injection Hins as <-. subst rs1.
    rewrite bind_cons in Hnd |- *. rewrite fmap_cons.
    pose proof Hnd as Hnd'. rewrite fmap_app in Hnd'. apply list.NoDup_app in Hnd' as (Hnd1 & _ & Hnd2).
    apply cells_loop in Hcells as (outs1 & Hrun1); [|done|done].
    apply IH in Hfor as (outs2 & Hrun2); [|done].
    exists (outs1 ++ outs2). change (todo_id row :: ?l) with ([todo_id row] ++ l).
    apply (loop_run_app _ _ _ _ _ _ _ db2 rs2); [done| |done].
    rewrite <-(app_nil_r [todo_id row]). rewrite <-(app_nil_l outs1).
    apply (loop_run_app _ _ [] _ _ _ _ db1' rs); [done| |done].
    split; [done|by rewrite app_nil_r|done|constructor].
Qed.
End cell.

(** ** The whole merge *)
Definition db_clock (tenant : string) (db : PgDb) : Z := default 0%Z (pg_state db !! tenant).
Definition with_clock (tenant : string) (clock : Z) (db : PgDb) : PgDb :=
  set_state (<[tenant := clock]> (pg_state db)) db.
Definition next_clock (tenant : string) (p : SyncPayload) (db : PgDb) : N :=
  (N.max (Z.to_N (db_clock tenant db)) (source_lamport p) + 1)%N.

Record server_run (security : SyncSecurity) (p : SyncPayload) (device tenant : string)
    (db : PgDb) (outs : list CellOutcome) (db2 : PgDb) (epoch : string) (pg : feed_page)
    (r : SyncPayload) (db' : PgDb) : Prop := {
  vr_tenant : identifier_ok tenant;
  vr_request : client_request_wf p device t;
  vr_clock : (0 ≤ db_clock tenant db)%Z;
  vr_advance : (source_lamport p ≤ Z.to_N (db_clock tenant db) + MAX_CLOCK_ADVANCE_PER_SYNC)%N;
  vr_loop : loop_run security tenant device (todo_id <$> changes p) (payload_writes p)
              (with_clock tenant (db_clock tenant db) db) [] outs db2 (rejections r);
  vr_next : (next_clock tenant p db ≤ I64_MAX)%N;
  vr_epoch : pg_epoch db = Some epoch;
  vr_page :
    let log := tenant_log tenant db2 in
    let valid := lease_is_valid p (max_seq log) epoch
                   (pg_leases db !! (tenant, device, crdt_table t)) in
    let effective := if valid then cursor p else 0%Z in
    fill_feed (select_feed log effective) (start_feed effective) = Ok pg ∧
    cursor_reset r = negb (cursor p =? 0)%Z && negb valid;
  vr_cursor :
    cursor r = if fp_has_more pg then fp_cursor pg else max_seq (tenant_log tenant db2);
  vr_response :
    protocol_version r = protocol_version p ∧ schema_fingerprint r = table_fingerprint t ∧
    source_device_id r = SERVER_DEVICE_ID ∧ source_lamport r = next_clock tenant p db ∧
    changes r = row_changes (fp_rows pg) ∧ has_more r = fp_has_more pg ∧
    server_epoch r = Some epoch;
  vr_lease : ∃ token, cursor_token r = Some token ∧
    upsert_lease (tenant, device, crdt_table t) (cursor r) epoch
      (with_clock tenant (Z.of_N (next_clock tenant p db)) db2) = (Ok token, db');
}.

Lemma server_clock_run tenant db clock db1 :
  tenant_clock tenant db = (Ok clock, db1) →
  (0 ≤ db_clock tenant db)%Z ∧ clock = Z.to_N (db_clock tenant db) ∧
  db1 = with_clock tenant (db_clock tenant db) db.
Proof.
  unfold tenant_clock, st_bind, st_get, st_modify, st_lift. fold (db_clock tenant db).
  unfold pg_clock_from_i64, u64_try_from_i64.
  destruct (Z.leb_spec 0 (db_clock tenant db)); [|done]. by intros [= <- <-].
Qed.

Lemma update_clock_run tenant clock db u db' :
  update_clock tenant clock db = (Ok u, db') → is_Some (pg_state db !! tenant) →
  (clock ≤ I64_MAX)%N ∧ db' = with_clock tenant (Z.of_N clock) db.
Proof.
  unfold update_clock. intros (z & [Hz ->]%pg_clock_ok & ->%st_modify_ok)%st_pure_ok Hsome.
  by rewrite decide_True.
Qed.

Lemma merge_server_run security p device tenant db r db' :
  merge_crdt_states_with_security t p device tenant security db = (Ok r, db') →
  ∃ outs db2 epoch pg, server_run security p device tenant db outs db2 epoch pg r db'.
Proof.
  unfold merge_crdt_states_with_security.
  intros [Htenant [Hreq Hrun]%st_check_ok]%st_check_ok.
  apply validate_client_request_ok in Hreq. rewrite (client_request_observed _ _ _ Hreq) in Hrun.
  apply st_bind_ok in Hrun as (clock & db1 & (Hclock & -> & ->)%server_clock_run & Hrun).
  apply st_check_ok in Hrun as [Hadv%validate_clock_advance_ok Hrun].
  apply st_bind_ok in Hrun as (rejected & db2 & Hloop & Hrun).
  destruct (st_for _ _ _) as [[[]|e] [db2' rs]] eqn:Hfor; [|done]. injection Hloop as <- <-.
  fold (server_context t tenant device) in Hfor.
  pose proof (NoDup_payload_writes _ (wf_distinct _ _ (cr_payload _ _ _ Hreq))) as Hnd.
  apply rows_loop in Hfor as (outs & Hl); [|exact Hnd].
  apply st_pure_ok in Hrun as (next & Hnext%ok_or_ok & Hrun). unfold u64_checked_add in Hnext.
  fold (next_clock tenant p db) in Hnext. case_match; [|done]. injection Hnext as <-.
  apply st_bind_ok in Hrun as (u & db3 & Hup & Hrun).
  pose proof (lr_served _ _ _ _ _ _ _ _ _ _ Hl) as Hs.
  apply update_clock_run in Hup as [Hmax ->].
  2:{ rewrite (sv_state _ _ _ _ _ _ Hs). simpl. rewrite lookup_insert_eq. by eexists. }
  apply st_bind_ok in Hrun as (db3' & db3 & [-> ->]%st_get_ok & Hrun).
  apply st_pure_ok in Hrun as (epoch & Hepoch & Hrun). unfold select_epoch in Hepoch.
  destruct (pg_epoch _) as [e|] eqn:He in Hepoch; [|done]. injection Hepoch as ->.
  apply st_pure_ok in Hrun as (pg & Hpg & Hrun).
  apply st_bind_ok in Hrun as (token & db3 & Hlease & [-> ->]%st_ret_ok).
  exists outs, db2', epoch, pg. simpl in He. rewrite (sv_epoch _ _ _ _ _ _ Hs) in He. simpl in He.
  cbn [pg_leases with_clock set_state] in Hpg, Hlease |- *.
  rewrite (sv_leases _ _ _ _ _ _ Hs) in Hpg |- *.
  split; simpl; rewrite ?(sv_leases _ _ _ _ _ _ Hs); try done.
  - by apply validate_identifier_ok in Htenant.
  - by exists token.
Qed.
End loop.
