(* ===== verification/ServerFeed.v ===== *)
(** * The change feed of the PostgreSQL server (src/server.rs)

    The query takes the rows of a tenant above the cursor in the order of
    their sequence numbers and one row more than a page holds; the loop over
    them stops at a full page. The page is exactly an interval of the log. *)
From S2P Require Import Prelude RustStd Error Schema Crdt Lww Payload Policy Explain Replica.
From S2P Require Import State Feed Merge Postgres Server ServerFacts.

Abbreviation log_entry := ((string * string) * LogRow)%type.

(** ** Sorted lists of numbered entries *)

(** The last number of a prefix, or where it started, separates the prefix
    from the rest. *)
Definition cut_cursor {A} (num : A → Z) (z : Z) (taken : list A) : Z :=
  match list.last taken with Some x => num x | None => z end.

Lemma sorted_cut {A} (num : A → Z) z taken rest :
  StronglySorted (λ a b, num a ≤ num b)%Z (taken ++ rest) →
  NoDup (num <$> (taken ++ rest)) → (∀ x, x ∈ taken ++ rest → (z < num x)%Z) →
  (∀ x, x ∈ taken → (num x ≤ cut_cursor num z taken)%Z) ∧
  (∀ x, x ∈ rest → (cut_cursor num z taken < num x)%Z) ∧
  (taken ≠ [] → (z < cut_cursor num z taken)%Z).
Proof.
  intros Hs Hnd Hz. unfold cut_cursor. destruct (list.last taken) as [y|] eqn:Hlast.
  - pose proof (last_Some_elem_of _ _ Hlast) as Hy.
    apply StronglySorted_app in Hs as (Hcross & Hs & _). split_and!.
    + intros x Hx. assert (Reflexive (λ a b, num a ≤ num b)%Z) by (intros a; lia).
      exact (sorted_last_max _ taken x y Hs Hlast Hx).
    + intros x Hx. pose proof (Hcross y x Hy Hx) as Hle. cbv beta in Hle.
      assert (num y ≠ num x); [|lia]. rewrite fmap_app in Hnd.
      apply list.NoDup_app in Hnd as (_ & Hdis & _). intros Heq. apply (Hdis (num y)).
      * by apply list_elem_of_fmap_2.
      * rewrite Heq. by apply list_elem_of_fmap_2.
    + intros _. apply Hz. set_solver.
  - apply last_None in Hlast as ->. split_and!; [set_solver|exact Hz|done].
Qed.

(** ** The query *)
Definition log_numbered (log : gmap (string * string) LogRow) : Prop :=
  ∀ k k' row row', log !! k = Some row → log !! k' = Some row' → lr_seq row = lr_seq row' → k = k'.

#[export] Instance feed_le_refl : Reflexive feed_le.
Proof. intros a. unfold feed_le. lia. Qed.
#[export] Instance feed_le_trans : Transitive feed_le.
Proof. intros a b c. unfold feed_le. lia. Qed.
#[export] Instance feed_le_total : Total feed_le.
Proof. intros a b. unfold feed_le. lia. Qed.

Definition feed_all (log : gmap (string * string) LogRow) (z : Z) : list log_entry :=
  merge_sort feed_le (filter (λ e : log_entry, (z < lr_seq e.2)%Z) (bt_iter log)).

Lemma elem_of_feed_all log z k row :
  (k, row) ∈ feed_all log z ↔ log !! k = Some row ∧ (z < lr_seq row)%Z.
Proof.
  unfold feed_all. rewrite merge_sort_Permutation, list_elem_of_filter, elem_of_bt_iter.
  simpl. tauto.
Qed.
Lemma feed_all_keys log z : NoDup (feed_all log z).*1.
Proof.
  unfold feed_all. rewrite merge_sort_Permutation.
  eapply sublist_NoDup; [apply (NoDup_bt_keys log)|]. unfold bt_keys.
  apply fmap_sublist, sublist_filter.
Qed.
Lemma feed_all_numbers log z :
  log_numbered log → NoDup ((λ e : log_entry, lr_seq e.2) <$> feed_all log z).
Proof.
  intros Hinj. pose proof (feed_all_keys log z) as Hnd.
  assert (∀ e, e ∈ feed_all log z → log !! e.1 = Some e.2) as Hin
    by (intros [k row] [? _]%elem_of_feed_all; done).
  revert Hnd Hin. generalize (feed_all log z). intros l. induction l as [|e l IH]; [constructor|].
  intros Hnd Hin. rewrite fmap_cons in Hnd. rewrite fmap_cons.
  apply list.NoDup_cons in Hnd as [He Hnd].
  constructor; [|apply IH; [done|]; intros e' He'; apply Hin; by right].
  intros (e' & Heq & He')%list_elem_of_fmap. apply He.
  rewrite (Hinj e.1 e'.1 e.2 e'.2); [by apply list_elem_of_fmap_2|apply Hin; by left| |done].
  apply Hin. by right.
Qed.

Lemma max_seq_ge log k row : log !! k = Some row → (lr_seq row ≤ max_seq log)%Z.
Proof.
  intros Hk%elem_of_bt_iter. unfold max_seq, bt_values.
  apply (list_elem_of_fmap_2 snd) in Hk. simpl in Hk.
  induction (bt_iter log).*2 as [|r l IH]; [by apply not_elem_of_nil in Hk|].
  simpl. apply elem_of_cons in Hk as [->|Hk]; [lia|]. specialize (IH Hk). lia.
Qed.
Lemma max_seq_nonneg log : (0 ≤ max_seq log)%Z.
Proof. unfold max_seq. induction (bt_values log) as [|r l IH]; simpl; lia. Qed.
Lemma max_seq_le log b :
  (0 ≤ b)%Z → (∀ k row, log !! k = Some row → (lr_seq row ≤ b)%Z) → (max_seq log ≤ b)%Z.
Proof.
  intros Hb Hall. unfold max_seq, bt_values.
  assert (∀ e, e ∈ bt_iter log → (lr_seq e.2 ≤ b)%Z) as Hin
    by (intros [k row] Hk%elem_of_bt_iter; by apply (Hall k)).
  induction (bt_iter log) as [|e l IH]; simpl; [lia|].
  apply Z.max_lub; [apply Hin; by left|]. apply IH. intros e' He'. apply Hin. by right.
Qed.

Section page.
Context `{!SerdeJson}.

(** ** The loop takes a prefix *)
Lemma fill_feed_prefix l p pg :
  fill_feed l p = Ok pg → fp_has_more p = false →
  ∃ taken rest, l = taken ++ rest ∧
    fp_rows pg = foldl (λ rows e, row_insert rows e.1.1 e.1.2 e.2) (fp_rows p)
                   ((λ e : log_entry, (e.1, pg_column e.2)) <$> taken) ∧
    fp_included pg = (fp_included p + N.of_nat (length taken))%N ∧
    fp_cursor pg = cut_cursor (λ e : log_entry, lr_seq e.2) (fp_cursor p) taken ∧
    (fp_has_more pg = true ↔ rest ≠ []) ∧
    (fp_included p = 0%N → rest ≠ [] → taken ≠ []) ∧
    ((fp_included p ≤ MAX_RESPONSE_CELLS)%N → (fp_included pg ≤ MAX_RESPONSE_CELLS)%N).
Proof.
  revert p; induction l as [|[[id column] row] l IH]; intros p; cbn [fill_feed].
  { intros [= <-] Hmore. exists [], []. simpl. rewrite Hmore. split_and!; done || lia. }
  intros (c & [_ ->]%decode_log_inv & (bytes & Hbytes & Hif)%bind_ok)%bind_ok Hmore.
  destruct (_ || _) eqn:Hguard.
  - injection Hif as <-. exists [], (((id, column), row) :: l). simpl.
    split_and!; try done; [lia|]. intros H0' _.
    apply orb_true_iff in Hguard as [Hg|Hg].
    + apply N.leb_le in Hg. unfold MAX_RESPONSE_CELLS in Hg. lia.
    + rewrite H0' in Hg. done.
  - apply orb_false_iff in Hguard as [Hg%N.leb_gt _].
    apply IH in Hif as (taken & rest & -> & Hrows & Hinc & Hcur & Hmore' & _ & Hmax); [|done].
    simpl in *. exists (((id, column), row) :: taken), rest. split_and!; try done.
    + cbn [length]. lia.
    + rewrite Hcur. unfold cut_cursor. rewrite list.last_cons. by destruct (list.last taken).
    + intros _. apply Hmax. lia.
Qed.

(** ** The page *)
Section exact.
Context (log : gmap (string * string) LogRow) (z : Z) (pg : feed_page).
Context (Hnum : log_numbered log).
Context (Hpg : fill_feed (select_feed log z) (start_feed z) = Ok pg).

Definition feed_next : Z := if fp_has_more pg then fp_cursor pg else max_seq log.

Lemma feed_split :
  ∃ taken rest, feed_all log z = taken ++ rest ∧
    fp_rows pg = group_rows ((λ e : log_entry, (e.1, pg_column e.2)) <$> taken) ∧
    fp_included pg = N.of_nat (length taken) ∧
    (N.of_nat (length taken) ≤ MAX_RESPONSE_CELLS)%N ∧
    (fp_has_more pg = true ↔ rest ≠ []) ∧
    (rest ≠ [] → taken ≠ []) ∧
    fp_cursor pg = cut_cursor (λ e : log_entry, lr_seq e.2) z taken.
Proof.
  destruct (fill_feed_prefix _ _ _ Hpg eq_refl)
    as (taken & rest & Hsplit & Hrows & Hinc & Hcur & Hmore & Hne & Hmax).
  simpl in Hrows, Hinc, Hcur, Hne, Hmax. specialize (Hmax ltac:(done)).
  unfold select_feed in Hsplit. fold (feed_all log z) in Hsplit.
  set (limit := S (N.to_nat MAX_RESPONSE_CELLS)) in Hsplit.
  exists taken, (rest ++ drop limit (feed_all log z)).
  assert (rest = [] → drop limit (feed_all log z) = []) as Hdrop.
  { intros ->. rewrite app_nil_r in Hsplit. apply drop_ge.
    assert (length (take limit (feed_all log z)) < limit)%nat as Hlen
      by (rewrite Hsplit; unfold limit; lia).
    rewrite length_take in Hlen. lia. }
  split_and!; [|done|lia|lia| | |done].
  - by rewrite app_assoc, <-Hsplit, take_drop.
  - rewrite Hmore. split; [by destruct rest|]. intros Hr ->. by rewrite Hdrop in Hr.
  - intros Hr. apply Hne; [done|]. intros ->. by rewrite Hdrop in Hr.
Qed.

Lemma feed_cut taken rest :
  feed_all log z = taken ++ rest →
  (∀ e, e ∈ taken → (lr_seq e.2 ≤ cut_cursor (λ e : log_entry, lr_seq e.2) z taken)%Z) ∧
  (∀ e, e ∈ rest → (cut_cursor (λ e : log_entry, lr_seq e.2) z taken < lr_seq e.2)%Z) ∧
  (taken ≠ [] → (z < cut_cursor (λ e : log_entry, lr_seq e.2) z taken)%Z).
Proof.
  intros Hsplit. apply (sorted_cut (λ e : log_entry, lr_seq e.2)); rewrite <-Hsplit.
  - apply (StronglySorted_merge_sort feed_le).
  - by apply feed_all_numbers.
  - intros [k row] [_ ?]%elem_of_feed_all. done.
Qed.

(** The cells of a page are exactly those of the log numbered in the
    interval between the cursor it starts from and the one it hands out. *)
Lemma feed_exact p k c :
  changes p = row_changes (fp_rows pg) →
  (k, c) ∈ payload_writes p ↔
  ∃ row, log !! k = Some row ∧ c = pg_column row ∧ (z < lr_seq row ≤ feed_next)%Z.
Proof.
  intros Hp. destruct feed_split as (taken & rest & Hsplit & Hrows & _ & _ & Hmore & _ & Hcur).
  destruct (feed_cut _ _ Hsplit) as (Htaken & Hrest & _). rewrite <-Hcur in Htaken, Hrest.
  rewrite Hrows in Hp. rewrite (grouped_writes _ _ _ _ Hp).
  2:{ pose proof (feed_all_keys log z) as Hnd. rewrite Hsplit, fmap_app in Hnd.
      apply list.NoDup_app in Hnd as (Hnd & _). by rewrite <-list_fmap_compose. }
  assert (∀ k row, (k, row) ∈ taken ++ rest ↔ log !! k = Some row ∧ (z < lr_seq row)%Z) as Hin
    by (intros; rewrite <-Hsplit; apply elem_of_feed_all).
  rewrite list_elem_of_fmap. unfold feed_next. split.
  - intros ([k' row] & [= -> ->] & He). exists row.
    destruct (proj1 (Hin k' row)) as [Hk Hlt]; [set_solver|]. split_and!; [done|done|done|].
    specialize (Htaken _ He). simpl in Htaken. pose proof (max_seq_ge _ _ _ Hk). case_match; lia.
  - intros (row & Hk & -> & Hlt & Hle). exists (k, row). split; [done|].
    pose proof (proj2 (Hin k row) (conj Hk Hlt)) as [He|He]%elem_of_app; [done|].
    specialize (Hrest _ He). simpl in Hrest.
    destruct (fp_has_more pg) eqn:Hm; [lia|]. destruct rest; [by apply not_elem_of_nil in He|].
    assert (false = true) by (by apply Hmore). done.
Qed.

Lemma feed_next_bounds :
  (0 ≤ z ≤ max_seq log)%Z →
  (z ≤ feed_next ≤ max_seq log)%Z ∧ (fp_has_more pg = true → (z < feed_next)%Z).
Proof.
  intros Hz. destruct feed_split as (taken & rest & Hsplit & _ & _ & _ & Hmore & Hne & Hcur).
  destruct (feed_cut _ _ Hsplit) as (_ & _ & Hlt). rewrite <-Hcur in Hlt.
  unfold feed_next. destruct (fp_has_more pg); [|split; [lia|done]].
  assert (taken ≠ []) as Ht by (by apply Hne, Hmore). specialize (Hlt Ht).
  assert (fp_cursor pg ≤ max_seq log)%Z; [|lia].
  rewrite Hcur. unfold cut_cursor.
  destruct (list.last taken) as [[k row]|] eqn:Hl; [|by apply last_None in Hl].
  apply last_Some_elem_of in Hl.
  assert ((k, row) ∈ feed_all log z) as [Hk _]%elem_of_feed_all by (rewrite Hsplit; set_solver).
  by apply max_seq_ge in Hk.
Qed.

Lemma feed_cells_bound p :
  changes p = row_changes (fp_rows pg) →
  (N.of_nat (total_cells (changes p)) ≤ MAX_RESPONSE_CELLS)%N.
Proof.
  intros Hp. destruct feed_split as (taken & rest & Hsplit & Hrows & _ & Hlen & _).
  rewrite Hrows in Hp. rewrite (grouped_total _ _ Hp); [by rewrite length_fmap|].
  pose proof (feed_all_keys log z) as Hnd. rewrite Hsplit, fmap_app in Hnd.
  apply list.NoDup_app in Hnd as (Hnd & _). by rewrite <-list_fmap_compose.
Qed.
End exact.
End page.
