(* ===== verification/ServerInv.v ===== *)
(** * The invariant of a tenant (src/server.rs)

    What the tables of one tenant look like at any time: typed log cells with
    clocks below the tenant's, distinct sequence numbers, application rows
    that show the log, and leases no cursor of which is in the future. A
    merge keeps it, for its own tenant and for every other. *)
From S2P Require Import Prelude RustStd Error Schema Crdt Lww Payload Policy Explain Replica.
From S2P Require Import State Feed Merge Postgres Server ServerFacts ServerRun ServerFeed.

Section inv.
Context `{!Pg_externals, !SerdeJson, !StrDebug}.
Variable (t : TableDef).

(** JSONB keeps finite numbers finite. *)
Definition json_finite : Prop :=
  ∀ r, f64_is_finite r = true → f64_is_finite (jsonb_real r) = true.

Record tenant_wf (tenant : string) (db : PgDb) : Prop := {
  tw_cells k row : tenant_log tenant db !! k = Some row →
    identifier_ok k.1 ∧ cell_wf t k.2 (pg_column row);
  tw_clocks k row : tenant_log tenant db !! k = Some row →
    (0 ≤ lr_lamport row < db_clock tenant db)%Z;
  tw_clock : (0 ≤ db_clock tenant db ≤ i64_max)%Z;
  tw_range k row : tenant_log tenant db !! k = Some row →
    (1 ≤ lr_seq row ≤ pg_sequence db)%Z;
  tw_numbered : log_numbered (tenant_log tenant db);
  tw_sequence : (0 ≤ pg_sequence db)%Z;
  tw_leases d l : pg_leases db !! (tenant, d, crdt_table t) = Some l →
    (0 ≤ ls_max_issued l ≤ max_seq (tenant_log tenant db))%Z;
  tw_values k row : tenant_log tenant db !! k = Some row →
    ∃ values v, tenant_rows tenant db !! k.1 = Some values ∧ values !! k.2 = Some v ∧
      lr_value row = json_stored v;
  tw_defaults id values column : tenant_rows tenant db !! id = Some values →
    tenant_log tenant db !! (id, column) = None → values !! column = pg_default_row t !! column;
}.

Lemma log_after_cases f l log k row :
  log_after f l log !! k = Some row →
  (∃ i w, l !! i = Some w ∧ w.1 = k ∧ row = log_row (f (S i)) w.2) ∨
  ((k ∉ l.*1) ∧ log !! k = Some row).
Proof.
  unfold log_after. rewrite lookup_union_Some_raw. intros [Hk|[Hk Hlog]].
  - left. apply elem_of_list_to_map_2, list_elem_of_lookup in Hk as [i Hi].
    unfold numbered in Hi. rewrite list_lookup_imap in Hi.
    destruct (l !! i) as [w|] eqn:Hw; [|done]. injection Hi as <- <-. eauto.
  - right. apply not_elem_of_list_to_map_2 in Hk. by rewrite numbered_keys in Hk.
Qed.
Lemma log_after_new f l log i w :
  NoDup l.*1 → l !! i = Some w → log_after f l log !! w.1 = Some (log_row (f (S i)) w.2).
Proof.
  intros Hnd Hi. unfold log_after. apply lookup_union_Some_l, elem_of_list_to_map_1.
  - by rewrite numbered_keys.
  - apply list_elem_of_lookup. exists i. unfold numbered. by rewrite list_lookup_imap, Hi.
Qed.
Lemma log_after_numbered db l log :
  NoDup l.*1 → log_numbered log →
  (∀ k row, log !! k = Some row → (lr_seq row ≤ pg_sequence db)%Z) →
  log_numbered (log_after (seq_after db) l log).
Proof.
  intros Hnd Hinj Hle k k' row row' Hk Hk' Heq.
  apply log_after_cases in Hk as [(i & w & Hi & <- & ->)|[Hk1 Hk]],
    Hk' as [(i' & w' & Hi' & <- & ->)|[Hk1' Hk']]; simpl in Heq.
  - apply seq_after_inj in Heq as [= ->]. congruence.
  - specialize (Hle _ _ Hk'). pose proof (seq_after_ge db (S i)). lia.
  - specialize (Hle _ _ Hk). pose proof (seq_after_ge db (S i')). lia.
  - by apply (Hinj _ _ _ _ Hk Hk').
Qed.
Lemma log_after_max db l log :
  NoDup l.*1 → (0 ≤ pg_sequence db)%Z →
  (∀ k row, log !! k = Some row → (lr_seq row ≤ pg_sequence db)%Z) →
  (max_seq log ≤ max_seq (log_after (seq_after db) l log))%Z.
Proof.
  intros Hnd Hn Hle. apply max_seq_le; [apply max_seq_nonneg|]. intros k row Hk.
  destruct (decide (k ∈ l.*1)) as [Hin|Hnin].
  - apply list_elem_of_fmap in Hin as (w & -> & [i Hi]%list_elem_of_lookup).
    pose proof (max_seq_ge _ _ _ (log_after_new (seq_after db) l log i w Hnd Hi)) as Hge.
    cbn [lr_seq log_row] in Hge. specialize (Hle _ _ Hk). pose proof (seq_after_ge db (S i)). lia.
  - apply (max_seq_ge _ k). by rewrite log_after_other.
Qed.

(** ** A merge keeps the invariant of its tenant *)
Section merge.
Context {security : SyncSecurity} {p : SyncPayload} {device tenant : string} {db : PgDb}.
Context {outs : list CellOutcome} {db2 : PgDb} {epoch : string} {pg : feed_page}.
Context {r : SyncPayload} {db' : PgDb}.
Context (Hrun : server_run t security p device tenant db outs db2 epoch pg r db').

Abbreviation writes := (omap outcome_write outs).

Lemma srun_served :
  served t security tenant (todo_id <$> changes p) (zip (payload_writes p) outs)
    (with_clock tenant (db_clock tenant db) db) db2.
Proof. apply (vr_loop _ _ _ _ _ _ _ _ _ _ _ _ Hrun). Qed.
Lemma srun_decided :
  decide_all security (server_context t tenant device) (tenant_cells tenant db)
    (payload_writes p) = Ok outs.
Proof. apply (vr_loop _ _ _ _ _ _ _ _ _ _ _ _ Hrun). Qed.
Lemma srun_rejections : rejections r = omap outcome_rejection outs.
Proof. apply (vr_loop _ _ _ _ _ _ _ _ _ _ _ _ Hrun). Qed.
Lemma srun_accepted : accepted (zip (payload_writes p) outs) = writes.
Proof.
  apply accepted_zip. by pose proof srun_decided as ?%decide_all_ok%Forall2_length.
Qed.
Lemma srun_distinct : NoDup (payload_writes p).*1.
Proof.
  apply NoDup_payload_writes, wf_distinct with t, (vr_request _ _ _ _ _ _ _ _ _ _ _ _ Hrun).
Qed.
Lemma srun_sublist : sublist writes (payload_writes p).
Proof. eapply decide_all_sublist, srun_decided. Qed.
Lemma srun_accepted_distinct : NoDup writes.*1.
Proof. eapply sublist_NoDup; [apply srun_distinct|]. apply fmap_sublist, srun_sublist. Qed.

(** The lease is the last thing a merge touches, and all it touches then. *)
Lemma upsert_lease_run key next e dbx token dby :
  upsert_lease key next e dbx = (Ok token, dby) →
  ∃ n, dby = set_leases (<[key := {| ls_max_issued :=
        match pg_leases dbx !! key with
        | Some l => Z.max (ls_max_issued l) next | None => next end;
      ls_token := token; ls_epoch := e; ls_last_seen := pg_now dbx |}]> (pg_leases dbx))
      (set_uuids n dbx) ∧
    (pg_uuids dbx < n ≤ pg_uuids dbx + 2)%N ∧
    match pg_leases dbx !! key with
    | Some l => if decide (ls_epoch l = e) then token = ls_token l
                else token = gen_random_uuid (pg_uuids dbx + 1)
    | None => token = gen_random_uuid (pg_uuids dbx)
    end.
Proof.
  unfold upsert_lease, draw_uuid, st_bind, st_get, st_modify, st_ret. simpl.
  destruct (pg_leases dbx !! key) as [l|] eqn:Hl.
  - case_decide; simpl; intros [= <- <-]; eexists; (split; [reflexivity|]); (split; [lia|done]).
  - simpl. intros [= <- <-]. eexists. split; [reflexivity|]. split; [lia|done].
Qed.

Lemma srun_tables :
  tenant_log tenant db' = log_after (seq_after db) writes (tenant_log tenant db) ∧
  tenant_rows tenant db' = tenant_rows tenant db2 ∧
  db_clock tenant db' = Z.of_N (next_clock tenant p db) ∧
  pg_sequence db' = seq_after db (length writes) ∧
  pg_epoch db' = Some epoch ∧ pg_now db' = pg_now db ∧ pg_audit db' = pg_audit db2 ∧
  tenant_log tenant db' = tenant_log tenant db2 ∧
  ∃ token n, cursor_token r = Some token ∧ (pg_uuids db < n ≤ pg_uuids db + 2)%N ∧ pg_uuids db' = n ∧
    let key := (tenant, device, crdt_table t) in
    pg_leases db' = <[key := {| ls_max_issued :=
        match pg_leases db !! key with
        | Some l => Z.max (ls_max_issued l) (cursor r) | None => cursor r end;
      ls_token := token; ls_epoch := epoch; ls_last_seen := pg_now db |}]> (pg_leases db) ∧
    match pg_leases db !! key with
    | Some l => if decide (ls_epoch l = epoch) then token = ls_token l
                else token = gen_random_uuid (pg_uuids db + 1)
    | None => token = gen_random_uuid (pg_uuids db)
    end.
Proof.
  pose proof srun_served as Hs.
  pose proof (vr_lease _ _ _ _ _ _ _ _ _ _ _ _ Hrun) as (token & Htok & Hlease).
  apply upsert_lease_run in Hlease as (n & Hdb' & Hn & Htoken).
  pose proof (sv_log _ _ _ _ _ _ _ Hs) as Hlog. pose proof (sv_sequence _ _ _ _ _ _ _ Hs) as Hseq.
  pose proof (sv_epoch _ _ _ _ _ _ _ Hs) as Hep. pose proof (sv_now _ _ _ _ _ _ _ Hs) as Hnow.
  pose proof (sv_leases _ _ _ _ _ _ _ Hs) as Hl. pose proof (sv_uuids _ _ _ _ _ _ _ Hs) as Hu.
  rewrite srun_accepted in Hlog, Hseq. rewrite Hdb'. clear Hdb'. simpl in *.
  change (tenant_log tenant (set_leases _ _)) with (tenant_log tenant db2).
  change (tenant_rows tenant (set_leases _ _)) with (tenant_rows tenant db2).
  rewrite Hl in Htoken |- *. rewrite Hu in Hn, Htoken.
  split_and!; [by rewrite Hlog|done| |done|by rewrite Hep, (vr_epoch _ _ _ _ _ _ _ _ _ _ _ _ Hrun)
    |done|done|done|].
  - unfold db_clock. simpl. by rewrite lookup_insert_eq.
  - exists token, n. by rewrite Hnow.
Qed.

Lemma srun_gap : pg_gap db' = pg_gap db.
Proof.
  pose proof srun_served as Hs.
  pose proof (vr_lease _ _ _ _ _ _ _ _ _ _ _ _ Hrun) as (token & _ & Hlease).
  apply upsert_lease_run in Hlease as (n & -> & _). exact (sv_gap _ _ _ _ _ _ _ Hs).
Qed.
Lemma srun_seq_after k : seq_after db' k = seq_after db (length writes + k).
Proof.
  destruct srun_tables as (_ & _ & _ & Hseq & _). by apply seq_after_add; [exact srun_gap|].
Qed.

(** The feed of the merge, on the merged log. *)
Definition effective_of : Z := if cursor_reset r then 0%Z else cursor p.
Lemma srun_effective :
  effective_of = (if lease_is_valid p (max_seq (tenant_log tenant db2)) epoch
                       (pg_leases db !! (tenant, device, crdt_table t)) then cursor p else 0%Z).
Proof.
  destruct (vr_page _ _ _ _ _ _ _ _ _ _ _ _ Hrun) as [_ Hreset]. unfold effective_of.
  rewrite Hreset. unfold lease_is_valid. destruct (Z.eqb_spec (cursor p) 0) as [->|]; [done|].
  simpl. match goal with |- context [negb ?b] => by destruct b end.
Qed.
Lemma srun_page :
  fill_feed (select_feed (tenant_log tenant db') effective_of) (start_feed effective_of) = Ok pg.
Proof.
  destruct srun_tables as (_ & _ & _ & _ & _ & _ & _ & -> & _). rewrite srun_effective.
  apply (vr_page _ _ _ _ _ _ _ _ _ _ _ _ Hrun).
Qed.
Lemma srun_cursor : cursor r = feed_next (tenant_log tenant db') pg.
Proof.
  destruct srun_tables as (_ & _ & _ & _ & _ & _ & _ & -> & _).
  apply (vr_cursor _ _ _ _ _ _ _ _ _ _ _ _ Hrun).
Qed.

Section wf.
Context (Hfinite : json_finite) (Hwf : tenant_wf tenant db).

Lemma srun_old_range k row : tenant_log tenant db !! k = Some row → (lr_seq row ≤ pg_sequence db)%Z.
Proof. by intros [_ ?]%(tw_range _ _ Hwf). Qed.
Lemma srun_numbered : log_numbered (tenant_log tenant db').
Proof.
  destruct srun_tables as (-> & _). apply log_after_numbered.
  - apply srun_accepted_distinct.
  - apply (tw_numbered _ _ Hwf).
  - exact srun_old_range.
Qed.
Lemma srun_max : (max_seq (tenant_log tenant db) ≤ max_seq (tenant_log tenant db'))%Z.
Proof.
  destruct srun_tables as (-> & _). apply log_after_max;
    [apply srun_accepted_distinct|apply (tw_sequence _ _ Hwf)|exact srun_old_range].
Qed.
Lemma srun_effective_bounds : (0 ≤ effective_of ≤ max_seq (tenant_log tenant db'))%Z.
Proof.
  destruct srun_tables as (_ & _ & _ & _ & _ & _ & _ & -> & _). rewrite srun_effective.
  pose proof (max_seq_nonneg (tenant_log tenant db2)).
  pose proof (wf_cursor _ _ (cr_payload _ _ _ (vr_request _ _ _ _ _ _ _ _ _ _ _ _ Hrun))).
  unfold lease_is_valid. destruct (Z.eqb_spec (cursor p) 0) as [->|]; cbn [orb]; [lia|].
  destruct (pg_leases db !! _) as [l|]; [|lia].
  destruct (Z.leb_spec (cursor p) (max_seq (tenant_log tenant db2))); cbn [andb]; [|lia].
  case_match; lia.
Qed.
Lemma srun_cursor_bounds :
  (effective_of ≤ cursor r ≤ max_seq (tenant_log tenant db'))%Z ∧
  (has_more r = true → (effective_of < cursor r)%Z) ∧
  (has_more r = false → cursor r = max_seq (tenant_log tenant db')).
Proof.
  destruct (feed_next_bounds _ _ _ srun_numbered srun_page srun_effective_bounds) as [Hb Hmore].
  pose proof (vr_response _ _ _ _ _ _ _ _ _ _ _ _ Hrun) as (_ & _ & _ & _ & _ & -> & _).
  rewrite srun_cursor. split_and!; [apply Hb|apply Hb|exact Hmore|].
  unfold feed_next. by intros ->.
Qed.

Lemma stored_cell_wf name c : cell_wf t name c → cell_wf t name (stored_cell c).
Proof.
  intros [(ty & Hty & Hv) Hm]. split; [|done]. exists ty. split; [done|].
  unfold stored_cell; simpl. destruct ty, (value c); simpl in *; try done. by apply Hfinite.
Qed.
Lemma srun_write w :
  w ∈ writes → identifier_ok w.1.1 ∧ cell_wf t w.1.2 w.2 ∧
  (lamport_clock (metadata w.2) ≤ source_lamport p)%N.
Proof.
  intros Hw. pose proof (elem_of_sublist _ _ _ Hw srun_sublist) as Hin. destruct w as [k c].
  pose proof (vr_request _ _ _ _ _ _ _ _ _ _ _ _ Hrun) as Hreq.
  destruct (payload_write_wf _ _ _ _ (cr_payload _ _ _ Hreq) Hin).
  by destruct (request_write_clock _ _ _ _ _ Hreq Hin).
Qed.

Lemma srun_wf : tenant_wf tenant db'.
Proof.
  destruct srun_tables as (Hlog & Hrows & Hclock & Hseq & _ & _ & _ & Hlog2 & token & n & _ & _ & _ & Hleases & _).
  pose proof (vr_next _ _ _ _ _ _ _ _ _ _ _ _ Hrun) as Hnext.
  pose proof (tw_clock _ _ Hwf) as Hc. pose proof srun_served as Hs.
  pose proof srun_accepted as Hacc.
  assert (Z.of_N (next_clock tenant p db) = Z.max (db_clock tenant db) (Z.of_N (source_lamport p)) + 1)%Z
    as Hnc by (unfold next_clock; lia).
  split.
  - intros k row. rewrite Hlog. intros [(i & w & Hi & <- & ->)|[_ Hk]]%log_after_cases.
    + apply list_elem_of_lookup_2, srun_write in Hi as (Hid & Hw & _). split; [done|].
      rewrite pg_column_log_row. by apply stored_cell_wf.
    + by apply (tw_cells _ _ Hwf).
  - intros k row. rewrite Hlog, Hclock, Hnc. intros [(i & w & Hi & <- & ->)|[_ Hk]]%log_after_cases.
    + apply list_elem_of_lookup_2, srun_write in Hi as (_ & _ & Hle). simpl. lia.
    + apply (tw_clocks _ _ Hwf) in Hk. lia.
  - rewrite Hclock. unfold i64_max, I64_MAX in *. lia.
  - intros k row. rewrite Hlog, Hseq. pose proof (tw_sequence _ _ Hwf).
    intros [(i & w & Hi%lookup_lt_Some & <- & ->)|[_ Hk]]%log_after_cases.
    + cbn [lr_seq log_row]. pose proof (seq_after_ge db (S i)).
      pose proof (seq_after_mono db (S i) (length writes)). lia.
    + apply (tw_range _ _ Hwf) in Hk. pose proof (seq_after_ge db (length writes)). lia.
  - exact srun_numbered.
  - rewrite Hseq. pose proof (tw_sequence _ _ Hwf). pose proof (seq_after_ge db (length writes)). lia.
  - intros d l. rewrite Hleases. pose proof srun_cursor_bounds as (Hb & _).
    pose proof srun_effective_bounds. pose proof srun_max.
    intros [[_ <-]|[_ Hl]]%lookup_insert_Some; simpl.
    + destruct (pg_leases db !! _) as [l|] eqn:Hl; [|lia]. apply (tw_leases _ _ Hwf) in Hl. lia.
    + apply (tw_leases _ _ Hwf) in Hl. lia.
  - intros k row. rewrite Hlog, Hrows. intros [(i & w & Hi & <- & ->)|[Hnin Hk]]%log_after_cases.
    + destruct (sv_hit _ _ _ _ _ _ _ Hs w) as [values Hv].
      { rewrite Hacc. by apply list_elem_of_lookup_2 in Hi. }
      exists values, (value w.2). split; [done|]. split; [|done].
      rewrite (sv_values _ _ _ _ _ _ _ Hs _ _ w.1.2 Hv), Hacc.
      destruct w as [[id column] c]; simpl in *.
      apply list_elem_of_lookup_2, elem_of_list_to_map in Hi as ->; [done|].
      apply srun_accepted_distinct.
    + destruct (tw_values _ _ Hwf _ _ Hk) as (values & v & Hv & Hcol & Heq).
      destruct (proj2 (sv_dom _ _ _ _ _ _ _ Hs k.1)) as [values' Hv'].
      { left. simpl. change (tenant_rows tenant (with_clock _ _ db)) with (tenant_rows tenant db).
        by exists values. }
      exists values', v. split; [done|]. split; [|done].
      rewrite (sv_values _ _ _ _ _ _ _ Hs _ _ k.2 Hv'), Hacc.
      assert ((list_to_map writes : cell_map) !! (k.1, k.2) = None) as ->.
      { apply not_elem_of_list_to_map_1. by destruct k. }
      change (tenant_rows tenant (with_clock _ _ db)) with (tenant_rows tenant db). by rewrite Hv.
  - intros id values column. rewrite Hrows, Hlog. intros Hv Hnone.
    unfold log_after in Hnone. apply lookup_union_None in Hnone as [Hnew Hold].
    rewrite (sv_values _ _ _ _ _ _ _ Hs _ _ column Hv), Hacc.
    assert ((list_to_map writes : cell_map) !! (id, column) = None) as ->.
    { apply not_elem_of_list_to_map_1. apply not_elem_of_list_to_map_2 in Hnew.
      by rewrite numbered_keys in Hnew. }
    change (tenant_rows tenant (with_clock _ _ db)) with (tenant_rows tenant db).
    destruct (tenant_rows tenant db !! id) as [old|] eqn:Hold'; [|done]. simpl.
    by apply (tw_defaults _ _ Hwf id).
Qed.
End wf.
End merge.

(** ** Every other tenant keeps it too *)
Lemma frame_wf other db db' :
  same_tenant other db db' → tenant_wf other db → tenant_wf other db'.
Proof.
  intros Hsame [H1' H2' H3' H4' H5' H6' H7' H8' H9'].
  assert (tenant_log other db' = tenant_log other db) as Hlog
    by (unfold tenant_log; by rewrite (st_log _ _ _ Hsame)).
  assert (tenant_rows other db' = tenant_rows other db) as Hrows
    by (unfold tenant_rows; by rewrite (st_rows _ _ _ Hsame)).
  assert (db_clock other db' = db_clock other db) as Hclock
    by (unfold db_clock; by rewrite (st_state _ _ _ Hsame)).
  pose proof (st_sequence _ _ _ Hsame).
  split; rewrite ?Hlog, ?Hrows, ?Hclock; try done.
  - intros k row Hk%H4'. lia.
  - lia.
  - intros d l. rewrite (st_leases _ _ _ Hsame). by apply H7'.
Qed.
End inv.
