(* ===== verification/ServerSteps.v ===== *)
(** * The PostgreSQL server over time (src/server.rs)

    Everything that happens to the database - syncs that commit or roll
    back, partial syncs, maintenance, other sessions drawing sequence
    numbers, the passing of time - as a step relation, and the sessions of a
    device against it, with restores from a backup. *)
From S2P Require Import Prelude RustStd Error Schema Crdt Lww Payload Policy Explain Replica.
From S2P Require Import State Feed Merge Postgres Server ServerFacts ServerRun ServerFeed ServerInv.

Section steps.
Context `{!Pg_externals, !SerdeJson, !StrDebug}.
Variable (t : TableDef).

(** ** Partial syncs write what the merge inside them writes *)
Lemma server_partial_run r device tenant security db resp db' :
  merge_partial_replica_with_security t r device tenant security db = (Ok resp, db') →
  request_validate r t device = Ok tt ∧
  ∃ sync, merge_crdt_states_with_security t (prq_sync r) device tenant security db
            = (Ok sync, db') ∧
    let members := select_members (interest r) (tenant_rows tenant db') in
    (N.of_nat (length members) ≤ limit (interest r))%N ∧
    validate_member_ids members = Ok tt ∧
    for_each bind_predicate (predicates (interest r)) = Ok tt ∧
    ∃ snap,
      foldM server_snapshot_cell {| sn_rows := ∅; sn_bytes := 0; sn_cells := 0 |}
        (match members with [] => [] | _ => select_snapshot members (tenant_log tenant db') end)
        = Ok snap ∧
      resp = {| prs_scope_id := prq_scope_id r;
                prs_scope_version := prq_scope_version r;
                member_ids := members;
                evicted_row_ids :=
                  filter (λ row_id, binary_search members row_id = false) (known_member_ids r);
                prs_sync := with_snapshot (row_changes (sn_rows snap)) sync |} ∧
      response_validate resp t = Ok tt.
Proof.
  unfold merge_partial_replica_with_security.
  intros [Hreq (sync & db1 & Hm & Hrun)%st_bind_ok]%st_check_ok. split; [done|].
  apply st_check_ok in Hrun as [Hbind Hrun]. apply st_check_ok in Hrun as [_ Hrun].
  apply st_bind_ok in Hrun as (db2 & db3 & [-> ->]%st_get_ok & Hrun).
  apply st_check_ok in Hrun as [Hlimit Hrun]. apply st_check_ok in Hrun as [Hids Hrun].
  apply st_pure_ok in Hrun as (snap & Hsnap & Hrun).
  apply st_check_ok in Hrun as [Hval [-> ->]%st_ret_ok].
  exists sync. split; [done|]. cbn zeta. split.
  { destruct (N.ltb_spec (limit (interest r)) (N.of_nat (length (select_members (interest r)
      (tenant_rows tenant db1))))); done || lia. }
  split; [done|]. split; [done|]. by exists snap.
Qed.

Lemma merge_partial_frame r device tenant security other :
  tenant ≠ other →
  st_keeps (same_tenant other) (merge_partial_replica_with_security t r device tenant security).
Proof.
  intros Hne. unfold merge_partial_replica_with_security.
  repeat first [apply (merge_frame _ _ _ Hne)
    |apply st_keeps_bind; [apply _| |intros ?]
    |apply st_keeps_lift; apply _|apply st_keeps_ret; apply _|apply st_keeps_get; apply _].
Qed.

(** ** Steps *)
Definition rolled_back (db db1 : PgDb) : PgDb :=
  set_uuids (pg_uuids db1) (set_sequence (pg_sequence db1) db).

(** The counters only grow. *)
Record counters_le (db db' : PgDb) : Prop := {
  cl_sequence : (pg_sequence db ≤ pg_sequence db')%Z;
  cl_uuids : (pg_uuids db ≤ pg_uuids db')%N;
}.
#[export] Instance counters_le_preorder : PreOrder counters_le.
Proof. split; [split; lia|]. intros ? ? ? [] []. split; lia. Qed.

(** What the sessions that work on other tables of the database do, as this
    table sees it: they draw from the sequence and from the generator, move
    the clocks of tenants forward, and write leases and audit rows of their
    own. *)
Record other_sessions (db db' : PgDb) : Prop := {
  os_rows : pg_rows db' = pg_rows db;
  os_log : pg_log db' = pg_log db;
  os_clock tenant : (db_clock tenant db ≤ db_clock tenant db')%Z ∧
    (db_clock tenant db ≤ i64_max → db_clock tenant db' ≤ i64_max)%Z;
  os_leases tenant device :
    pg_leases db' !! (tenant, device, crdt_table t) = pg_leases db !! (tenant, device, crdt_table t);
  os_epoch : pg_epoch db' = pg_epoch db;
  os_audit : ∃ rows, pg_audit db' = pg_audit db ++ rows;
  os_counters : counters_le db db';
  os_now : pg_now db' = pg_now db;
}.
Lemma drawn_sessions n m db :
  (pg_sequence db ≤ n)%Z → (pg_uuids db ≤ m)%N → other_sessions db (set_uuids m (set_sequence n db)).
Proof.
  intros Hn Hm. split; try done; exists []; simpl; by rewrite app_nil_r.
Qed.

Inductive pg_step (db db' : PgDb) : Prop :=
| step_sync p device tenant security res :
    run_transaction (merge_crdt_states_with_security t p device tenant security) db = (res, db') →
    pg_step db db'
| step_partial r device tenant security res :
    run_transaction (merge_partial_replica_with_security t r device tenant security) db
      = (res, db') → pg_step db db'
| step_expire ttl res : expire_cursor_leases ttl db = (res, db') → pg_step db db'
| step_rotate res : rotate_server_epoch db = (res, db') → pg_step db db'
| step_init existing existing_crdt res :
    initialize_server_schema_with t existing existing_crdt db = (res, db') → pg_step db db'
| step_other : other_sessions db db' → pg_step db db'
| step_time n : db' = set_now n db → pg_step db db'.

Definition another (tenant : string) : string := String "'" tenant.
Lemma another_ne tenant : tenant ≠ another tenant.
Proof.
  intros Heq%(f_equal String.length). simpl in Heq. lia.
Qed.
Lemma frame_counters {A} (m : PgM A) tenant :
  (∀ other, tenant ≠ other → st_keeps (same_tenant other) m) → st_keeps counters_le m.
Proof.
  intros Hm db res db' Hr. destruct (Hm _ (another_ne tenant) _ _ _ Hr). by split.
Qed.

(** ** The invariant of all tenants *)
Definition pg_wf (db : PgDb) : Prop := ∀ tenant, tenant_wf t tenant db.

Lemma counters_wf n m db :
  pg_wf db → (pg_sequence db ≤ n)%Z → pg_wf (set_uuids m (set_sequence n db)).
Proof.
  intros Hwf Hn tenant. destruct (Hwf tenant) as [H1' H2' H3' H4' H5' H6' H7' H8' H9']. split; try done.
  - intros k row Hk%H4'. simpl. lia.
  - simpl. lia.
Qed.

Lemma other_sessions_wf db db' : other_sessions db db' → pg_wf db → pg_wf db'.
Proof.
  intros [Hrows Hlog Hclock Hleases _ _ [Hseq _] _] Hwf tenant.
  destruct (Hwf tenant) as [H1' H2' H3' H4' H5' H6' H7' H8' H9'].
  destruct (Hclock tenant) as [Hle Hmax].
  split; unfold tenant_log, tenant_rows in *; rewrite ?Hrows, ?Hlog; try done.
  - intros k row Hk%H2'. lia.
  - lia.
  - intros k row Hk%H4'. lia.
  - lia.
  - intros d l. rewrite Hleases. by apply H7'.
Qed.

Lemma sync_wf p device tenant security db r db' :
  json_finite → pg_wf db →
  merge_crdt_states_with_security t p device tenant security db = (Ok r, db') → pg_wf db'.
Proof.
  intros Hfin Hwf Hm other. destruct (decide (tenant = other)) as [<-|Hne].
  - destruct (merge_server_run _ _ _ _ _ _ _ _ Hm) as (outs & db2 & epoch & pg & Hrun).
    by apply (srun_wf t Hrun Hfin).
  - eapply frame_wf; [|by apply Hwf]. by apply (merge_frame _ _ _ Hne _ _ _ _ _ _ Hm).
Qed.

Lemma transaction_cases {A} (m : PgM A) db res db' :
  run_transaction m db = (res, db') →
  (∃ a, res = Ok a ∧ m db = (Ok a, db')) ∨
  (∃ e db1, res = Err e ∧ m db = (Err e, db1) ∧ db' = rolled_back db db1).
Proof.
  unfold run_transaction, rolled_back. destruct (m db) as [[a|e] db1]; intros [= <- <-]; eauto 6.
Qed.

Lemma leases_wf (leases : gmap (string * string * string) Lease) db :
  (∀ k l, leases !! k = Some l → pg_leases db !! k = Some l) → pg_wf db →
  pg_wf (set_leases leases db).
Proof.
  intros Hsub Hwf tenant. destruct (Hwf tenant) as [H1' H2' H3' H4' H5' H6' H7' H8' H9'].
  split; try done. intros d l Hl%Hsub. by apply (H7' d).
Qed.

(** The relations of a tenant that maintenance leaves as they are. *)
Definition same_tables (db db' : PgDb) : Prop :=
  pg_log db' = pg_log db ∧ pg_rows db' = pg_rows db ∧ pg_state db' = pg_state db ∧
  counters_le db db' ∧ ∀ k l, pg_leases db' !! k = Some l → pg_leases db !! k = Some l.

Lemma same_tables_wf db db' : same_tables db db' → pg_wf db → pg_wf db'.
Proof.
  intros (Hlog & Hrows & Hstate & [Hseq _] & Hl) Hwf tenant.
  destruct (Hwf tenant) as [H1' H2' H3' H4' H5' H6' H7' H8' H9'].
  unfold tenant_log, tenant_rows, db_clock in *.
  split; unfold tenant_log, tenant_rows, db_clock; rewrite ?Hlog, ?Hrows, ?Hstate; try done.
  - intros k row Hk%H4'. lia.
  - lia.
  - intros d l Hd%Hl. by apply (H7' d).
Qed.

Lemma maintenance_tables db db' :
  (∃ ttl res, expire_cursor_leases ttl db = (res, db')) ∨
  (∃ res, rotate_server_epoch db = (res, db')) ∨
  (∃ existing existing_crdt res,
     initialize_server_schema_with t existing existing_crdt db = (res, db')) →
  same_tables db db'.
Proof.
  assert (same_tables db db) as Hrefl by done.
  intros [(ttl & res & Hr)|[(res & Hr)|(ex & exc & res & Hr)]].
  - unfold expire_cursor_leases, st_bind, st_lift, st_get, st_modify, st_ret in Hr.
    destruct (ok_or _ _); injection Hr as _ <-; [|done]. split_and!; try done.
    simpl. intros k l Hl. by apply map_lookup_filter_Some in Hl as [? _].
  - unfold rotate_server_epoch, transactional, st_bind, st_get in Hr.
    destruct (pg_epoch db); injection Hr as _ <-; [|done]. split_and!; try done.
    simpl. split; simpl; lia.
  - unfold initialize_server_schema_with, transactional, st_bind, st_lift in Hr.
    destruct (if decide (ex = ∅) then _ else _) as [l1|]; [|by injection Hr as _ <-].
    destruct (postgres_crdt_migration_sql t exc) as [l2|]; [|by injection Hr as _ <-].
    unfold insert_epoch, st_bind, draw_uuid, st_get, st_modify, st_ret in Hr. simpl in Hr.
    injection Hr as _ <-. destruct (pg_epoch db); split_and!; try done; split; simpl; lia.
Qed.

Lemma pg_step_wf db db' : json_finite → pg_wf db → pg_step db db' → pg_wf db'.
Proof.
  intros Hfin Hwf [p device tenant security res Hr|r device tenant security res Hr|ttl res Hr
    |res Hr|ex exc res Hr|Hr|n ->].
  - apply transaction_cases in Hr as [(a & -> & Hr)|(e & db1 & -> & Hr & ->)].
    + by apply sync_wf in Hr.
    + apply counters_wf; [done|].
      by apply (frame_counters _ tenant (λ o Hne, merge_frame _ _ _ Hne _ _ _)) in Hr as [? _].
  - apply transaction_cases in Hr as [(a & -> & Hr)|(e & db1 & -> & Hr & ->)].
    + apply server_partial_run in Hr as (_ & sync & Hm & _). by apply sync_wf in Hm.
    + apply counters_wf; [done|].
      by apply (frame_counters _ tenant (merge_partial_frame _ _ _ _)) in Hr as [? _].
  - eapply same_tables_wf, Hwf. apply maintenance_tables. eauto.
  - eapply same_tables_wf, Hwf. apply maintenance_tables. eauto.
  - eapply same_tables_wf, Hwf. apply maintenance_tables. eauto 8.
  - by eapply other_sessions_wf.
  - intros tenant. by destruct (Hwf tenant).
Qed.

Lemma empty_pg_wf : pg_wf empty_pg.
Proof.
  intros tenant.
  assert (tenant_log tenant empty_pg = ∅) as Hlog by done.
  assert (tenant_rows tenant empty_pg = ∅) as Hrows by done.
  by split; rewrite ?Hlog, ?Hrows.
Qed.
End steps.
