(* ===== verification/ServerSession.v ===== *)
(** * Sessions against the PostgreSQL server (src/server.rs)

    One device, its replica and the cursor, token and epoch it holds, while
    the server syncs others, expires leases, rotates its epoch, and is
    restored from backups into another history. *)
From S2P Require Import Prelude RustStd Error Schema Crdt Lww Payload Policy Explain Replica.
From S2P Require Import State Feed Merge Postgres Server ServerFacts ServerRun ServerFeed.
From S2P Require Import ServerInv ServerSteps.

Section session.
Context `{!Pg_externals, !SerdeJson, !StrDebug}.
Variable (t : TableDef).
Variables (tenant device : string).

(** Every row numbered up to [z] is dominated by the replica [m]. *)
Definition log_covered (db : PgDb) (z : Z) (m : cell_map) : Prop :=
  ∀ k row, tenant_log tenant db !! k = Some row → (lr_seq row ≤ z)%Z →
    ∃ c', m !! k = Some c' ∧ lww_le (pg_column row) c'.

(** [gen_random_uuid] never repeats itself. *)
Definition uuids_distinct : Prop := ∀ i j, gen_random_uuid i = gen_random_uuid j → i = j.
Definition epoch_drawn (db : PgDb) : Prop :=
  ∀ e, pg_epoch db = Some e → ∃ n, e = gen_random_uuid n ∧ (n < pg_uuids db)%N.

(** A backup is put back - random values are not drawn again - and the epoch
    rotated, as [rotate_server_epoch] asks. *)
Definition restored (backup db db' : PgDb) : Prop :=
  ∃ e, rotate_server_epoch (set_uuids (N.max (pg_uuids backup) (pg_uuids db)) backup) = (Ok e, db').

Inductive pg_session : PgDb → Z → option string → option string → cell_map → Prop :=
| ps_start db m : pg_wf t db → epoch_drawn db → pg_session db 0 None None m
| ps_step db db' z token epoch m :
    pg_session db z token epoch m → pg_step t db db' → pg_session db' z token epoch m
| ps_restore backup db db' z token epoch m :
    pg_session db z token epoch m → pg_wf t backup → epoch_drawn backup → restored backup db db' →
    pg_session db' z token epoch m
| ps_local db z token epoch m m' :
    pg_session db z token epoch m → cells_le m m' → pg_session db z token epoch m'
| ps_sync db z token epoch m p security r db' m' :
    pg_session db z token epoch m →
    protocol_version p = PROTOCOL_VERSION → cursor p = z →
    cursor_token p = token → server_epoch p = epoch →
    merge_crdt_states_with_security t p device tenant security db = (Ok r, db') →
    absorbs m (payload_writes r) m' →
    pg_session db' (cursor r) (cursor_token r) (server_epoch r) m'.

(** ** The rows a step leaves below a cursor *)
Lemma covered_mono db z m m' : log_covered db z m → cells_le m m' → log_covered db z m'.
Proof.
  intros Hcov Hle k row Hk Hz. destruct (Hcov k row Hk Hz) as (c1 & H1' & Hc1).
  destruct (Hle k c1 H1') as (c2 & H2' & Hc2). exists c2. split; [done|]. by transitivity c1.
Qed.

(** The log either stays below the old end, or grows above it. *)
Definition log_extends (db db' : PgDb) : Prop :=
  ∀ k row, tenant_log tenant db' !! k = Some row →
    tenant_log tenant db !! k = Some row ∨ (pg_sequence db < lr_seq row)%Z.

Lemma covered_extends db db' z m :
  log_extends db db' → (z ≤ pg_sequence db)%Z → log_covered db z m → log_covered db' z m.
Proof.
  intros Hext Hz Hcov k row Hk Hle. destruct (Hext k row Hk) as [Hold|Hnew]; [by apply Hcov|lia].
Qed.

Lemma sync_extends p d tn security db r db' :
  merge_crdt_states_with_security t p d tn security db = (Ok r, db') →
  log_extends db db' ∧ (pg_sequence db ≤ pg_sequence db')%Z ∧ pg_epoch db' = pg_epoch db ∧
  (pg_uuids db ≤ pg_uuids db')%N.
Proof.
  intros Hm.
  pose proof (frame_counters _ tn (λ o Hne, merge_frame t _ _ Hne _ _ _) _ _ _ Hm) as [Hseq Huu].
  destruct (decide (tn = tenant)) as [->|Hne].
  - destruct (merge_server_run _ _ _ _ _ _ _ _ Hm) as (outs & db2 & e & pg & Hrun).
    destruct (srun_tables t Hrun) as (Hlog & _ & _ & _ & He & _).
    split_and!; [|done|by rewrite He, (vr_epoch _ _ _ _ _ _ _ _ _ _ _ _ Hrun)|done].
    intros k row. rewrite Hlog.
    intros [(i & w & _ & _ & ->)|[_ Hk]]%log_after_cases; [right|by left].
    cbn [lr_seq log_row]. pose proof (seq_after_ge db (S i)). lia.
  - destruct (merge_frame t _ _ Hne _ _ _ _ _ _ Hm) as [_ _ Hlog _ _ He _ _ _].
    split_and!; [|done|done|done]. intros k row. unfold tenant_log. rewrite Hlog. by left.
Qed.

(** A step extends the log, or draws a new epoch. *)
Lemma step_extends db db' :
  pg_step t db db' →
  log_extends db db' ∧ (pg_sequence db ≤ pg_sequence db')%Z ∧ (pg_uuids db ≤ pg_uuids db')%N ∧
  (pg_epoch db' = pg_epoch db ∨
   ∃ n, pg_epoch db' = Some (gen_random_uuid n) ∧ (pg_uuids db ≤ n < pg_uuids db')%N).
Proof.
  assert (∀ db1, log_extends db db1 → counters_le db db1 → pg_epoch db1 = pg_epoch db →
    log_extends db db1 ∧ (pg_sequence db ≤ pg_sequence db1)%Z ∧ (pg_uuids db ≤ pg_uuids db1)%N ∧
    (pg_epoch db1 = pg_epoch db ∨
     ∃ n, pg_epoch db1 = Some (gen_random_uuid n) ∧ (pg_uuids db ≤ n < pg_uuids db1)%N)) as Hsame.
  { intros db1 Hext [? ?] He. auto. }
  assert (∀ db1, tenant_log tenant db1 = tenant_log tenant db → log_extends db db1) as Hlog.
  { intros db1 Heq k row. rewrite Heq. by left. }
  intros [p d tn security res Hr|r d tn security res Hr|ttl res Hr|res Hr|ex exc res Hr
         |[_ Hl _ _ He _ Hc _]|n ->].
  - apply transaction_cases in Hr as [(a & -> & Hr)|(e & db1 & -> & Hr & ->)].
    + apply sync_extends in Hr as (? & ? & ? & ?). by apply Hsame.
    + apply Hsame; [by apply Hlog| |done].
      by apply (frame_counters _ tn (λ o Hne, merge_frame t _ _ Hne _ _ _)) in Hr as [].
  - apply transaction_cases in Hr as [(a & -> & Hr)|(e & db1 & -> & Hr & ->)].
    + apply server_partial_run in Hr as (_ & sync & Hr & _).
      apply sync_extends in Hr as (? & ? & ? & ?). by apply Hsame.
    + apply Hsame; [by apply Hlog| |done].
      by apply (frame_counters _ tn (merge_partial_frame t _ _ _ _)) in Hr as [].
  - unfold expire_cursor_leases, st_bind, st_lift, st_get, st_modify, st_ret in Hr.
    destruct (ok_or _ _); injection Hr as _ <-; by apply Hsame; [apply Hlog| |].
  - unfold rotate_server_epoch, transactional, st_bind, st_get in Hr.
    assert (pg_epoch db = None ∨ ∃ e, pg_epoch db = Some e) as [He|[e He]]
      by (destruct (pg_epoch db); eauto); rewrite He in Hr; injection Hr as _ <-;
      [by apply Hsame; [apply Hlog| |]|].
    simpl. split_and!; [by apply Hlog|lia|lia|]. right. exists (pg_uuids db). split; [done|lia].
  - unfold initialize_server_schema_with, transactional, st_bind, st_lift in Hr.
    destruct (if decide (ex = ∅) then _ else _) as [l1|];
      [|by injection Hr as _ <-; apply Hsame; [apply Hlog| |]].
    destruct (postgres_crdt_migration_sql t exc) as [l2|];
      [|by injection Hr as _ <-; apply Hsame; [apply Hlog| |]].
    unfold insert_epoch, st_bind, draw_uuid, st_get, st_modify, st_ret in Hr. simpl in Hr.
    injection Hr as _ <-.
    assert (pg_epoch db = None ∨ ∃ e, pg_epoch db = Some e) as [He|[e He]]
      by (destruct (pg_epoch db); eauto); rewrite ?He; simpl.
    + split_and!; [by apply Hlog|lia|lia|]. right. exists (pg_uuids db). split; [done|lia].
    + rewrite ?He. split_and!; [by apply Hlog|lia|lia|by left].
  - apply Hsame; [apply Hlog; unfold tenant_log; by rewrite Hl|done|done].
  - apply Hsame; [by apply Hlog|by split|done].
Qed.

(** ** The invariant of a session *)
Record session_ok (db : PgDb) (z : Z) (epoch : option string) (m : cell_map) : Prop := {
  so_wf : pg_wf t db;
  so_drawn : epoch_drawn db;
  so_cursor : (0 ≤ z)%Z;
  so_held : z = 0%Z ∨ ∃ n, epoch = Some (gen_random_uuid n) ∧ (n < pg_uuids db)%N ∧
              (pg_epoch db = Some (gen_random_uuid n) →
               log_covered db z m ∧ (z ≤ pg_sequence db)%Z);
}.

Lemma session_covered db z epoch m :
  session_ok db z epoch m → z = 0%Z ∨ epoch = pg_epoch db → log_covered db z m.
Proof.
  intros [Hwf _ _ Hheld] Hcase.
  assert (log_covered db 0 m) as Hzero.
  { intros k row Hk Hle. pose proof (tw_range _ _ _ (Hwf tenant) _ _ Hk). lia. }
  destruct Hheld as [->|(n & -> & _ & Hcov)]; [done|].
  destruct Hcase as [->|He]; [done|]. by apply Hcov.
Qed.

Lemma session_step db db' z epoch m :
  json_finite → uuids_distinct → session_ok db z epoch m → pg_step t db db' →
  session_ok db' z epoch m.
Proof.
  intros Hfin Huuid [Hwf Hdrawn Hz Hheld] Hstep.
  destruct (step_extends _ _ Hstep) as (Hext & Hseq & Huu & Hep). split.
  - by apply (pg_step_wf t db).
  - intros e He. destruct Hep as [Hep|(n & Hn & Hr)].
    + rewrite Hep in He. destruct (Hdrawn e He) as (n & -> & Hn). exists n. split; [done|lia].
    + rewrite Hn in He. injection He as <-. exists n. split; [done|lia].
  - done.
  - destruct Hheld as [->|(n & -> & Hn & Hcov)]; [by left|]. right. exists n.
    split; [done|]. split; [lia|]. destruct Hep as [Hep|(n' & Hn' & Hr)].
    + rewrite Hep. intros He. destruct (Hcov He) as [Hc Hle].
      split; [|lia]. by apply (covered_extends db).
    + rewrite Hn'. intros [= Heq%Huuid]. lia.
Qed.

Lemma session_restore backup db db' z epoch m :
  uuids_distinct → session_ok db z epoch m → pg_wf t backup → epoch_drawn backup →
  restored backup db db' → session_ok db' z epoch m.
Proof.
  intros Huuid [Hwf Hdrawn Hz Hheld] Hbackup Hbd (e & Hr).
  assert (pg_wf t db') as Hwf'.
  { eapply same_tables_wf; [apply (maintenance_tables t); eauto|].
    intros tn. by destruct (Hbackup tn). }
  unfold rotate_server_epoch, transactional, st_bind, st_get in Hr. simpl in Hr.
  destruct (pg_epoch backup); [|done]. injection Hr as <- <-. simpl in *.
  split; [done| |done|].
  - intros e [= <-]. eexists. split; [done|]. simpl. lia.
  - destruct Hheld as [->|(n & -> & Hn & _)]; [by left|]. right. exists n. split; [done|].
    simpl. split; [lia|]. intros [= Heq%Huuid]. lia.
Qed.

Lemma session_sync db z token epoch m p security r db' m' :
  json_finite → uuids_distinct → session_ok db z epoch m →
  protocol_version p = PROTOCOL_VERSION → cursor p = z →
  cursor_token p = token → server_epoch p = epoch →
  merge_crdt_states_with_security t p device tenant security db = (Ok r, db') →
  absorbs m (payload_writes r) m' →
  session_ok db' (cursor r) (server_epoch r) m' ∧ log_covered db' (cursor r) m' ∧
  (has_more r = false → cursor r = max_seq (tenant_log tenant db')).
Proof.
  intros Hfin Huuid Hok Hv Hcur Htok Hepoch Hm Habs.
  pose proof (so_wf _ _ _ _ Hok) as Hwf.
  pose proof (sync_wf t _ _ _ _ _ _ _ Hfin Hwf Hm) as Hwf'.
  destruct (sync_extends _ _ _ _ _ _ _ Hm) as (Hext & Hseq & Hep & Huu).
  destruct (merge_server_run _ _ _ _ _ _ _ _ Hm) as (outs & db2 & e & pg & Hrun).
  pose proof (vr_epoch _ _ _ _ _ _ _ _ _ _ _ _ Hrun) as He.
  pose proof (vr_response _ _ _ _ _ _ _ _ _ _ _ _ Hrun) as (_ & _ & _ & _ & Hch & _ & Hse).
  destruct (srun_cursor_bounds t Hrun (Hwf tenant)) as (Hb & _ & Hlast).
  pose proof (srun_effective_bounds t Hrun) as Heff.
  assert (log_covered db' (@effective_of p r) m) as Hcov.
  { pose proof (srun_effective t Hrun) as Hval. unfold lease_is_valid in Hval.
    rewrite Hv, Hcur in Hval. rewrite Hval.
    assert (log_covered db' 0 m) as Hzero.
    { intros k row Hk Hle. pose proof (tw_range _ _ _ (Hwf' tenant) _ _ Hk). lia. }
    destruct (Z.eqb_spec z 0) as [->|Hz]; [done|]. cbn [orb].
    destruct (pg_leases db !! _) as [l|]; [|done].
    change (PROTOCOL_VERSION <? 4)%N with false in *. cbn [orb] in *.
    destruct (_ && _) eqn:Hlease; [|done]. split_guards.
    assert (epoch = pg_epoch db) as Hcurrent by congruence.
    apply (covered_extends db); [done| |by eapply session_covered; [|right]].
    destruct (so_held _ _ _ _ Hok) as [->|(n & -> & _ & Hn)]; [done|]. by apply Hn. }
  assert (log_covered db' (cursor r) m') as Hnew.
  { intros k row Hk Hle.
    destruct (Z.le_gt_cases (lr_seq row) (@effective_of p r)) as [Hold|Hfresh].
    - destruct (Hcov k row Hk Hold) as (c1 & H1' & Hc1).
      destruct (absorbs_above _ _ _ Habs k c1) as (c2 & H2' & Hc2); [by left|].
      exists c2. split; [done|]. by transitivity c1.
    - apply (absorbs_above _ _ _ Habs k (pg_column row)). right.
      apply (feed_exact _ _ _ (srun_numbered t Hrun (Hwf tenant)) (srun_page t Hrun)); [done|].
      exists row. rewrite <-(srun_cursor t Hrun). done. }
  split; [|split; [exact Hnew|exact Hlast]]. split; [done| |lia|].
  - intros e' He'. rewrite Hep in He'. destruct (so_drawn _ _ _ _ Hok e' He') as (n & -> & Hn).
    exists n. split; [done|lia].
  - right. destruct (so_drawn _ _ _ _ Hok e He) as (n & -> & Hn). exists n.
    split; [done|]. split; [lia|]. intros _. split; [done|].
    assert (max_seq (tenant_log tenant db') ≤ pg_sequence db')%Z; [|lia].
    apply max_seq_le; [apply (tw_sequence _ _ _ (Hwf' tenant))|].
    intros k row Hk. pose proof (tw_range _ _ _ (Hwf' tenant) _ _ Hk). lia.
Qed.

Lemma session_run db z token epoch m :
  json_finite → uuids_distinct → pg_session db z token epoch m → session_ok db z epoch m.
Proof.
  intros Hfin Huuid. induction 1.
  - split; [done|done|done|by left].
  - by eapply session_step.
  - by eapply session_restore.
  - destruct IHpg_session as [? ? ? Hheld]. split; [done..|].
    destruct Hheld as [->|(n & -> & Hn & Hcov)]; [by left|]. right. exists n.
    split; [done|]. split; [done|]. intros He. destruct (Hcov He).
    split; [by eapply covered_mono|done].
  - by eapply session_sync.
Qed.
End session.
