(* ===== verification/ServerTotal.v ===== *)
(** * When a merge of the PostgreSQL server succeeds (src/server.rs)

    Every statement of a merge succeeds on the tables of a tenant that
    satisfy the invariant, when every cell has an outcome, no text holds a
    character zero and the sequence has numbers left: the audit events can be
    written, the loop and the paging loop come to their end. *)
From S2P Require Import Prelude RustStd Error Schema SchemaFacts Crdt Lww Payload Policy.
From S2P Require Import PolicyFacts Explain Replica State Feed Merge MergeTheorems FeedTheorems.
From S2P Require Import Postgres Server ServerFacts ServerRun ServerFeed ServerInv.

(** ** The text of an explanation *)
Lemma char_digit n : ∃ b, byte_of (pretty_N_char n) = b ∧ (48 ≤ b ≤ 57)%N.
Proof. eexists. split; [done|]. unfold pretty_N_char. repeat case_match; cbn; lia. Qed.

Lemma pretty_N_go_text k x s :
  (x < 10 ^ k)%N → ascii_text s →
  ascii_text (pretty_N_go x s) ∧ (str_len s ≤ str_len (pretty_N_go x s) ≤ k + str_len s)%N.
Proof.
  revert x s. induction k as [|k IH] using N.peano_ind; intros x s Hx Hs.
  - assert (x = 0%N) as -> by (simpl in Hx; lia). rewrite pretty_N_go_0. split; [done|lia].
  - destruct (decide (x = 0)%N) as [->|Hne]; [rewrite pretty_N_go_0; split; [done|lia]|].
    rewrite pretty_N_go_step by lia.
    destruct (IH (x `div` 10)%N (String (pretty_N_char (x `mod` 10)) s)) as [Ha Hl].
    + rewrite N.pow_succ_r' in Hx. apply N.Div0.div_lt_upper_bound. lia.
    + unfold ascii_text, str_bytes. cbn [String.list_ascii_of_string]. rewrite fmap_cons.
      constructor; [|exact Hs]. destruct (char_digit (x `mod` 10)) as (b & Hb & Hr).
      cbv beta. rewrite Hb. lia.
    + split; [done|]. unfold str_len in *. simpl in Hl. lia.
Qed.
Lemma pretty_u64_text n : (n ≤ U64_MAX)%N → ascii_text (pretty n) ∧ (str_len (pretty n) ≤ 20)%N.
Proof.
  intros Hn. unfold pretty, pretty_N. destruct (decide (n = 0%N)); [split; [by repeat constructor|done]|].
  destruct (pretty_N_go_text 20 n "") as [Ha Hl]; [unfold U64_MAX in Hn; lia|constructor|].
  split; [done|]. rewrite N.add_0_r in Hl. apply Hl.
Qed.

Lemma ascii_text_app a b : ascii_text a → ascii_text b → ascii_text (a +:+ b).
Proof. unfold ascii_text. rewrite str_bytes_app. apply Forall_app_2. Qed.
Lemma str_chars_ascii_app a b : ascii_text a → str_chars (a +:+ b) = str_bytes a ++ str_chars b.
Proof.
  unfold ascii_text, str_bytes. induction a as [|c a IH]; [done|].
  cbn [String.list_ascii_of_string]. rewrite fmap_cons, Forall_cons_iff. intros [Hc Ha].
  change (String c a +:+ b) with (String c (a +:+ b)). cbn [str_chars]. simpl in Hc.
  destruct (N.ltb_spec (byte_of c) 128); [|lia]. by rewrite IH.
Qed.

(** [{:?}] of a string: it escapes what it does not print, so the text is
    printable; an escape takes at most seven bytes for a character of two. *)
Record debug_laws `{!StrDebug} : Prop := {
  debug_printable s : identifier_ok s →
    Forall (λ c, char_is_control c = false) (str_chars (str_debug s));
  debug_valid s rest : identifier_ok s →
    str_chars (str_debug s +:+ rest) = str_chars (str_debug s) ++ str_chars rest;
  debug_len s : identifier_ok s → (2 * str_len (str_debug s) ≤ 7 * str_len s + 4)%N;
}.

Section explanation.
Context `{!StrDebug}.

(** A text of printable parts. *)
Definition printable (s : string) : Prop :=
  Forall (λ c, char_is_control c = false) (str_chars s).
Lemma printable_ascii a b : ascii_text a → printable b → printable (a +:+ b).
Proof.
  intros Ha Hb. unfold printable. rewrite str_chars_ascii_app by done.
  apply Forall_app_2; [|done]. rewrite <-ascii_text_chars by done. by apply ascii_text_no_control.
Qed.
Lemma printable_debug s b :
  debug_laws → identifier_ok s → printable b → printable (str_debug s +:+ b).
Proof.
  intros Hlaws Hs Hb. unfold printable. rewrite (debug_valid Hlaws) by done.
  apply Forall_app_2; [by apply (debug_printable Hlaws)|done].
Qed.
Lemma debug_identifier_len s :
  debug_laws → identifier_ok s → (str_len (str_debug s) ≤ 894)%N.
Proof. intros Hlaws Hs. pose proof (debug_len Hlaws s Hs). destruct Hs as (_ & ? & _). lia. Qed.

Ltac ascii_goal := unfold ascii_text; apply (bool_decide_unpack _); vm_compute; exact I.

Lemma explanation_ok current incoming :
  debug_laws → metadata_wf (metadata incoming) →
  (∀ c, current = Some c → metadata_wf (metadata c)) →
  reason_ok (summary (explain_lww current incoming)).
Proof.
  intros Hlaws [Hi Hic] Hcur. unfold explain_lww. destruct current as [c|].
  2:{ split; [done|]. split; [vm_compute; congruence|]. apply ascii_text_no_control. ascii_goal. }
  destruct (Hcur c eq_refl) as [Hc Hcc]. unfold explain_decision.
  destruct (pretty_u64_text (lamport_clock (metadata incoming))) as [Hia Hil];
    [unfold MAX_STORABLE_LAMPORT, I64_MAX, U64_MAX in *; lia|].
  destruct (pretty_u64_text (lamport_clock (metadata c))) as [Hca Hcl];
    [unfold MAX_STORABLE_LAMPORT, I64_MAX, U64_MAX in *; lia|].
  pose proof (debug_identifier_len _ Hlaws Hi). pose proof (debug_identifier_len _ Hlaws Hc).
  assert (∀ a b m n, ascii_text a → ascii_text b → printable m → printable n → a ≠ "" →
    (str_len a + str_len m + str_len b + str_len n ≤ MAX_REJECTION_REASON_BYTES)%N →
    printable (m +:+ b +:+ n) → reason_ok (a +:+ m +:+ b +:+ n)) as Hjoin.
  { intros a b m n Ha Hb Hm Hn Hne Hlen Hrest. split; [by destruct a|].
    split; [rewrite !str_len_app; lia|]. by apply printable_ascii. }
  assert (∀ m n a b, ascii_text m → ascii_text n → ascii_text a → ascii_text b → a ≠ "" →
    (str_len a ≤ 40)%N → (str_len b ≤ 40)%N → (str_len m ≤ 20)%N → (str_len n ≤ 20)%N →
    reason_ok (a +:+ m +:+ b +:+ n)) as Hclocks.
  { intros m n a b Hm Hn Ha Hb Hne ????.
    assert (printable n) by by apply ascii_text_no_control.
    apply Hjoin; try done; [by apply ascii_text_no_control| |].
    - unfold MAX_REJECTION_REASON_BYTES. lia.
    - by apply printable_ascii, printable_ascii. }
  assert (∀ a b, ascii_text a → ascii_text b → a ≠ "" → (str_len a + str_len b ≤ 200)%N →
    reason_ok (a +:+ str_debug (device_id (metadata incoming)) +:+ b +:+
               str_debug (device_id (metadata c)))) as Hdevices.
  { intros a b Ha Hb Hne ?.
    assert (printable (b +:+ str_debug (device_id (metadata c)))).
    { apply printable_ascii; [done|]. by apply (debug_printable Hlaws). }
    apply Hjoin; try done; [by apply (debug_printable Hlaws)..| |].
    - unfold MAX_REJECTION_REASON_BYTES. lia.
    - by apply printable_debug. }
  destruct (decide_lww _ _); repeat case_match; simplify_eq/=.
  all: first [apply Hclocks; first [done|ascii_goal|vm_compute; congruence]
             |apply Hdevices; first [done|ascii_goal|vm_compute; congruence]
             |split; [done|]; split; [vm_compute; congruence|]; apply ascii_text_no_control; ascii_goal].
Qed.
End explanation.

Lemma sql_identifier_ok s : sql_identifier s → identifier_ok s.
Proof.
  intros Hs. pose proof Hs as (Hlen & (b & rest & Hb & _) & _). split_and!.
  - by intros ->.
  - unfold MAX_IDENTIFIER_LEN in Hlen. lia.
  - by apply ascii_text_no_control, sql_identifier_ascii.
Qed.

Section total.
Context `{!Pg_externals, !SerdeJson, !StrDebug}.
Variable (t : TableDef).
Hypotheses (Ht : table_wf t) (Hdebug : debug_laws).

(** ** Sound rows *)

(** What the columns [lamport_clock], [device_id] and [value] hold. *)
Definition column_sound (c : CrdtColumn) : Prop := metadata_wf (metadata c) ∧ no_nul (value c).
Definition log_sound (log : gmap (string * string) LogRow) : Prop :=
  ∀ k row, log !! k = Some row → (0 ≤ lr_lamport row)%Z ∧ column_sound (pg_column row).
Definition write_sound (w : cell_write) : Prop :=
  identifier_ok w.1.1 ∧ cell_wf t w.1.2 w.2 ∧ no_nul (value w.2).

Lemma log_sound_clocks log : log_sound log → log_clocks log.
Proof. intros Hlog k row Hk. by apply (Hlog k row). Qed.
Lemma log_sound_cell tenant db k c :
  log_sound (tenant_log tenant db) → tenant_cells tenant db !! k = Some c → column_sound c.
Proof. intros Hlog. rewrite tenant_cells_lookup. intros (row & Hk & ->)%fmap_Some. by apply (Hlog k). Qed.
Lemma stored_no_nul v : no_nul v → no_nul (json_stored v).
Proof. by destruct v. Qed.
Lemma log_sound_after n l log :
  Forall write_sound l → log_sound log → log_sound (log_after n l log).
Proof.
  rewrite list.Forall_forall. intros Hl Hlog k row [(i & w & Hi & _ & ->)|[_ Hk]]%log_after_cases;
    [|by apply (Hlog k)].
  destruct (Hl w) as (_ & [_ Hm] & Hnul); [by eapply list_elem_of_lookup_2|].
  split; [simpl; lia|]. rewrite pg_column_log_row. split; [done|by apply stored_no_nul].
Qed.

(** ** Audit events *)
Section cell.
Variables (security : SyncSecurity) (tenant device : string).
Abbreviation context := (server_context t tenant device).

Lemma audit_event_total w current outcome why :
  write_sound w → (∀ c, current = Some c → column_sound c) → reason_ok why →
  ∃ e row, SyncAuditEvent_new context (write_mutation w) current outcome why = Ok e ∧
    audit_row tenant e = Ok row.
Proof.
  intros (Hid & [Hcol [Hdev Hclock]] & Hnul) Hcur Hwhy.
  assert (sql_identifier w.1.2) as Hname
    by (apply (column_type_identifier t); [done|destruct Hcol as (? & ? & _); by eexists]).
  assert (∃ cc cv,
    match metadata <$> current with
    | Some m => Some <$> pg_clock_to_i64 (lamport_clock m) | None => Ok None end = Ok cc ∧
    match value <$> current with Some v => Some <$> bind_json v | None => Ok None end = Ok cv)
    as (cc & cv & Hcc & Hcv).
  { destruct current as [c|]; [|by eexists _, _]. destruct (Hcur c eq_refl) as [[_ Hc] Hv].
    cbn [fmap option_fmap option_map].
    rewrite (proj2 (pg_clock_ok _ _) (conj Hc eq_refl)), (proj2 (bind_json_ok _ _) (conj Hv eq_refl)).
    by eexists _, _. }
  eexists _, _. unfold SyncAuditEvent_new, audit_row. cbn [ctx_table server_context write_mutation
    cm_todo_id cm_column_name cm_metadata cm_value].
  rewrite !(proj2 (validate_identifier_ok _ _)) by
    (done || (by apply sql_identifier_ok) || (apply sql_identifier_ok, (tw_name _ Ht))).
  rewrite (proj2 (validate_rejection_reason_ok _)) by done. cbn [mbind result_bind].
  split; [reflexivity|].
  cbn [ae_incoming_metadata ae_current_metadata ae_incoming_value ae_current_value].
  rewrite Hcc, Hcv, (proj2 (pg_clock_ok _ _) (conj Hclock eq_refl)).
  rewrite (proj2 (bind_json_ok _ _) (conj Hnul eq_refl)). reflexivity.
Qed.

Lemma record_audit_total w current outcome why rs db :
  write_sound w → (∀ c, current = Some c → column_sound c) → reason_ok why →
  ∃ e db', SyncAuditEvent_new context (write_mutation w) current outcome why = Ok e ∧
    on_db (record_audit_if_enabled tenant security e) (db, rs) = (Ok tt, (db', rs)).
Proof.
  intros Hw Hcur Hwhy.
  destruct (audit_event_total w current outcome why Hw Hcur Hwhy) as (e & row & He & Hrow).
  exists e. unfold on_db, record_audit_if_enabled. destruct (audit_mode security).
  - by exists db.
  - cbn [fst snd]. rewrite write_audit_run, Hrow. by eexists.
Qed.

(** ** One cell *)
Lemma write_cell_total w db :
  write_sound w → (next_number db ≤ i64_max)%Z →
  ∃ db', (write_server_todo_column t tenant w.1.1 w.1.2 (value w.2) ;;;
          upsert_log tenant w.1 w.2)%loom db = (Ok tt, db').
Proof.
  intros (_ & [(ty & Hty & Hacc) [_ Hclock]] & Hnul) Hseq.
  assert (∃ db1, write_server_todo_column t tenant w.1.1 w.1.2 (value w.2) db = (Ok tt, db1) ∧
    next_number db1 = next_number db) as (db1 & Hcol & Hsame).
  { eexists. split.
    - apply st_pure_ok. exists (value w.2). split; [|by apply st_modify_ok].
      rewrite Hty. destruct ty, (value w.2); try done.
      simpl in Hnul. unfold bind_text. by rewrite Hnul.
    - by case_match. }
  eexists. apply st_bind_ok. exists tt, db1. split; [done|]. unfold upsert_log.
  apply st_pure_ok. exists (Z.of_N (lamport_clock (metadata w.2))). split; [by apply pg_clock_ok|].
  apply st_pure_ok. exists (json_stored (value w.2)). split; [by apply bind_json_ok|].
  apply st_bind_ok. exists (next_number db1), (set_sequence (next_number db1) db1).
  split; [|by apply st_modify_ok]. unfold nextval, st_bind, st_get. rewrite Hsame.
  by rewrite (proj2 (Z.leb_le _ _)) by done.
Qed.

Lemma server_decision_total current incoming b :
  should_apply current incoming = Ok b → ∃ outcome, server_decision current incoming = Ok (b, outcome).
Proof.
  unfold server_decision, should_apply. destruct current as [c|]; [|intros [= <-]; by eexists].
  destruct (decide_lww _ _); [intros [= <-]; by eexists..|].
  destruct (value_eqb _ _); [|done]. intros [= <-]. by eexists.
Qed.

Lemma server_reject_total w current k why o db rs :
  write_sound w → (∀ c, current = Some c → column_sound c) →
  reject_outcome w k why = Ok o →
  ∃ s', server_reject security context (write_mutation w) current k why (db, rs) = (Ok tt, s').
Proof.
  unfold reject_outcome. intros Hw Hcur (r & Hr & _)%bind_ok.
  pose proof Hr as (_ & _ & _ & Hwhy)%SyncRejection_new_ok.
  destruct (record_audit_total w current (rejection_audit_outcome k) why (rs ++ [r]) db Hw Hcur Hwhy)
    as (e & db' & He & Hrec).
  eexists. unfold server_reject. apply st_pure_ok. exists r. split; [done|].
  apply st_bind_ok. exists tt, (db, rs ++ [r]). split; [by apply st_modify_ok|].
  apply st_pure_ok. exists e. split; [exact He|exact Hrec].
Qed.

Lemma server_cell_total w o db rs :
  write_sound w → log_sound (tenant_log tenant db) → (next_number db ≤ i64_max)%Z →
  cell_outcome security context (tenant_cells tenant db !! w.1) w = Ok o →
  ∃ s', server_merge_cell t security context w.1.1 (w.1.2, w.2) (db, rs) = (Ok tt, s').
Proof.
  intros Hw Hlog Hseq Ho.
  assert (∀ c, tenant_cells tenant db !! w.1 = Some c → column_sound c) as Hcur
    by (intros c; by apply log_sound_cell).
  destruct w as [[id column] c]. cbn [fst snd] in *. set (w := ((id, column), c)) in *.
  unfold cell_outcome in Ho. apply bind_ok in Ho as (authorized & Hauth & Ho).
  unfold server_merge_cell. cbn [tenant_id server_context].
  assert (select_cell tenant (id, column) db = Ok (tenant_cells tenant db !! (id, column))) as Hsel
    by by apply select_cell_total, log_sound_clocks.
  unfold st_bind at 1, st_get at 1. cbn [fst].
  change {| cm_todo_id := id; cm_column_name := column; cm_value := value c;
            cm_metadata := metadata c |} with (write_mutation w).
  unfold st_bind at 1, st_lift at 1. rewrite Hsel.
  unfold st_bind at 1, st_lift at 1. rewrite Hauth.
  destruct authorized as [|k why]; [|by eapply server_reject_total].
  apply bind_ok in Ho as (validated & Hval & Ho).
  unfold st_bind at 1, st_lift at 1. rewrite Hval.
  destruct validated as [|k why]; [|by eapply server_reject_total].
  apply bind_ok in Ho as (b & Hb & _).
  change (w.2) with c in Hb. destruct (server_decision_total _ _ _ Hb) as [outcome Hdec].
  unfold st_bind at 1, st_lift at 1. rewrite Hdec. cbn [fst snd].
  set (current := tenant_cells tenant db !! (id, column)) in *.
  assert (reason_ok (summary (explain_lww current c))) as Hwhy.
  { apply explanation_ok; [done|apply Hw|]. intros c0 Hc0. by apply Hcur. }
  assert (∃ db1, (if b then on_db (write_server_todo_column t tenant id column (value c) ;;;
      upsert_log tenant (id, column) c)%loom else st_ret tt) (db, rs) = (Ok tt, (db1, rs)))
    as [db1 Hwrite].
  { destruct b; [|by exists db]. destruct (write_cell_total w db Hw Hseq) as [db1 Hdb1].
    unfold w in Hdb1. cbn [fst snd] in Hdb1.
    exists db1. unfold on_db. cbn [fst snd]. by rewrite Hdb1. }
  destruct (record_audit_total w current outcome _ rs db1 Hw Hcur Hwhy) as (e & db2 & He & Hrec).
  eexists. apply st_bind_ok. exists tt, (db1, rs). split; [exact Hwrite|].
  apply st_pure_ok. exists e. split; [exact He|exact Hrec].
Qed.

(** ** The loop *)
Record can_serve (l : list cell_write) (db : PgDb) : Prop := {
  cs_log : log_sound (tenant_log tenant db);
  cs_sequence : (seq_after db (length l) ≤ i64_max)%Z;
  cs_writes : Forall write_sound l;
  cs_outcomes w : w ∈ l →
    ∃ o, cell_outcome security context (tenant_cells tenant db !! w.1) w = Ok o;
}.

Lemma can_serve_prefix l1 l2 db : can_serve (l1 ++ l2) db → can_serve l1 db.
Proof.
  intros [Hlog Hseq [? _]%Forall_app Houts]. split; [done| |done|].
  - rewrite length_app in Hseq. etransitivity; [|exact Hseq]. apply seq_after_mono. lia.
  - intros w Hw. apply Houts. set_solver.
Qed.

Lemma can_serve_rest ids l1 l2 db rs outs db1 rs1 :
  NoDup (l1 ++ l2).*1 → can_serve (l1 ++ l2) db →
  loop_run t security tenant device ids l1 db rs outs db1 rs1 → can_serve l2 db1.
Proof.
  intros Hnd [Hlog Hseq [Hw1 Hw2]%Forall_app Houts] [Hd _ Hs _].
  pose proof Hd as Hlen%decide_all_ok%Forall2_length.
  pose proof (decide_all_sublist _ _ _ _ _ Hd) as Hsub.
  pose proof (sv_log _ _ _ _ _ _ _ Hs) as Hl. pose proof (sv_sequence _ _ _ _ _ _ _ Hs) as Hn.
  rewrite accepted_zip in Hl, Hn by done.
  rewrite fmap_app in Hnd. apply list.NoDup_app in Hnd as (_ & Hdis & _). split; [| |done|].
  - rewrite Hl. apply log_sound_after; [|done]. rewrite list.Forall_forall in Hw1 |- *.
    intros w Hw. apply Hw1. by eapply elem_of_sublist.
  - rewrite (seq_after_add db db1 _ (length l2) (sv_gap _ _ _ _ _ _ _ Hs) Hn).
    etransitivity; [|exact Hseq]. apply seq_after_mono. rewrite length_app.
    apply sublist_length in Hsub. lia.
  - intros w Hw. destruct (Houts w) as [o Ho]; [set_solver|]. exists o. rewrite <-Ho. f_equal.
    rewrite !tenant_cells_lookup, Hl, log_after_other; [done|].
    intros Hin. apply (Hdis w.1); [|by apply list_elem_of_fmap_2].
    eapply elem_of_sublist; [exact Hin|by apply fmap_sublist].
Qed.

Lemma cells_total id l db rs :
  is_Some (tenant_rows tenant db !! id) →
  NoDup ((λ e : string * CrdtColumn, ((id, e.1), e.2)) <$> l).*1 →
  can_serve ((λ e : string * CrdtColumn, ((id, e.1), e.2)) <$> l) db →
  ∃ s', st_for (server_merge_cell t security context id) l (db, rs) = (Ok tt, s').
Proof.
  revert db rs. induction l as [|[column c] l IH]; intros db rs Hrow Hnd Hcan; [by eexists|].
  rewrite fmap_cons in Hnd, Hcan. set (w := ((id, column), c) : cell_write) in *.
  destruct (cs_outcomes _ _ Hcan w) as [o Ho]; [by left|].
  destruct (server_cell_total w o db rs) as [[db1 rs1] Hcell]; [|apply Hcan| |done|].
  { by destruct (Forall_cons_1 _ _ _ (cs_writes _ _ Hcan)). }
  { etransitivity; [|exact (cs_sequence _ _ Hcan)]. apply (seq_after_mono db 1). cbn [length]. lia. }
  change (server_merge_cell t security context id (column, c) (db, rs) = (Ok tt, (db1, rs1))) in Hcell.
  destruct (cells_loop t security tenant device id [(column, c)] db rs db1 rs1) as [outs Hrun];
    [done|apply NoDup_singleton|cbn [st_for]; unfold st_bind; by rewrite Hcell|].
  destruct (IH db1 rs1) as [s' Hrest].
  - apply (sv_dom _ _ _ _ _ _ _ (lr_served _ _ _ _ _ _ _ _ _ _ _ Hrun)). by left.
  - rewrite fmap_cons in Hnd. by apply list.NoDup_cons in Hnd as [_ ?].
  - by apply (can_serve_rest [] [w] _ db rs outs db1 rs1).
  - exists s'. cbn [st_for]. unfold st_bind. by rewrite Hcell.
Qed.

Lemma rows_total rows db rs :
  NoDup (rows ≫= row_writes).*1 → can_serve (rows ≫= row_writes) db →
  ∃ s', st_for (server_merge_row t security context) rows (db, rs) = (Ok tt, s').
Proof.
  revert db rs. induction rows as [|row rows IH]; intros db rs Hnd Hcan; [by eexists|].
  rewrite bind_cons in Hnd, Hcan. pose proof Hnd as Hnd'.
  rewrite fmap_app in Hnd'. apply list.NoDup_app in Hnd' as (Hnd1 & _ & Hnd2).
  destruct (insert_row_served t security tenant (todo_id row) db) as (db1 & Hins & Hserved & Hsome).
  assert (can_serve (row_writes row) db1) as Hcan1.
  { apply (can_serve_rest [todo_id row] [] _ db rs [] db1 rs); [done|by eapply can_serve_prefix|].
    split; [done|by rewrite app_nil_r|done|constructor]. }
  destruct (cells_total (todo_id row) (bt_iter (columns row)) db1 rs Hsome Hnd1 Hcan1)
    as [[db2 rs2] Hcells].
  assert (server_merge_row t security context row (db, rs) = (Ok tt, (db2, rs2))) as Hrow.
  { unfold server_merge_row, st_bind, on_db. cbn [fst snd tenant_id server_context].
    by rewrite Hins. }
  destruct (rows_loop t security tenant device [row] db rs db2 rs2) as [outs Hrun].
  { cbn [mbind list_bind]. by rewrite app_nil_r. }
  { cbn [st_for]. unfold st_bind. by rewrite Hrow. }
  cbn [mbind list_bind] in Hrun. rewrite app_nil_r in Hrun.
  destruct (IH db2 rs2 Hnd2) as [s' Hrest]; [by apply (can_serve_rest [todo_id row] (row_writes row) _ db rs outs db2 rs2)|].
  exists s'. cbn [st_for]. unfold st_bind. by rewrite Hrow.
Qed.
End cell.

(** ** The page and the lease *)

(** The JSON encoder does not fail on values that passed validation. *)
Definition value_serde_total : Prop := ∀ v, value_storable v → ∃ n, value_json_len v = Ok n.

Lemma fill_feed_total l p :
  value_serde_total →
  (∀ e, e ∈ l → (0 ≤ lr_lamport e.2)%Z ∧ value_storable (lr_value e.2)) →
  ∃ pg, fill_feed l p = Ok pg.
Proof.
  intros Hserde. revert p. induction l as [|[k row] l IH]; intros p Hl; [by eexists|].
  destruct (Hl (k, row)) as [Hclock Hst]; [by left|]. cbn [fst snd] in *.
  destruct (Hserde _ Hst) as [n Hn]. cbn [fill_feed]. rewrite decode_log_ok by done.
  unfold feed_cell_bytes. cbn [mbind result_bind pg_column value]. rewrite Hn.
  cbn [mbind result_bind]. case_match; [by eexists|]. apply IH. intros e He. apply Hl. by right.
Qed.
Lemma select_feed_total log z p :
  value_serde_total →
  (∀ k row, log !! k = Some row → (0 ≤ lr_lamport row)%Z ∧ value_storable (lr_value row)) →
  ∃ pg, fill_feed (select_feed log z) p = Ok pg.
Proof.
  intros Hserde Hlog. apply fill_feed_total; [done|]. intros [k row] He.
  apply (Hlog k). unfold select_feed in He. fold (feed_all log z) in He.
  apply (elem_of_feed_all log z). by eapply elem_of_take in He as (i & He%list_elem_of_lookup_2 & _).
Qed.

Lemma upsert_lease_total key next epoch db : ∃ token db', upsert_lease key next epoch db = (Ok token, db').
Proof.
  unfold upsert_lease, draw_uuid, st_bind, st_get, st_modify, st_ret. simpl.
  destruct (pg_leases db !! key) as [l|]; [|by eexists _, _]. case_decide; by eexists _, _.
Qed.

(** ** The merge *)
Section merge.
Context {security : SyncSecurity} {p : SyncPayload} {device tenant : string} {db : PgDb}.
Hypotheses (Hfinite : json_finite) (Hserde : value_serde_total) (Hwf : tenant_wf t tenant db).
Hypothesis (Hreq : client_request_wf p device t).
Hypothesis (Hcan : can_serve security tenant device (payload_writes p) db).

(** Everything the loop leaves in the log can be put on a page. *)
Lemma served_storable outs rs db1 db2 :
  tenant_log tenant db1 = tenant_log tenant db →
  loop_run t security tenant device (todo_id <$> changes p) (payload_writes p) db1 [] outs db2 rs →
  ∀ k row, tenant_log tenant db2 !! k = Some row → (0 ≤ lr_lamport row)%Z ∧ value_storable (lr_value row).
Proof.
  intros Hsame [Hd _ Hs _] k row. pose proof (sv_log _ _ _ _ _ _ _ Hs) as Hl.
  pose proof Hd as Hlen%decide_all_ok%Forall2_length.
  rewrite accepted_zip in Hl by done. rewrite Hl, Hsame.
  intros [(i & w & Hi & _ & ->)|[_ Hk]]%log_after_cases.
  - split; [simpl; lia|].
    assert (write_sound w) as (_ & Hw & _).
    { pose proof (cs_writes _ _ _ _ _ Hcan) as Hall. rewrite list.Forall_forall in Hall. apply Hall.
      eapply elem_of_sublist; [by eapply list_elem_of_lookup_2|by eapply decide_all_sublist]. }
    destruct (stored_cell_wf t Hfinite _ _ Hw) as [Hacc _]. by eapply column_accepts_storable.
  - destruct (tw_cells _ _ _ Hwf _ _ Hk) as [_ [Hacc _]].
    split; [by apply (tw_clocks _ _ _ Hwf k)|]. by eapply (column_accepts_storable t k.2).
Qed.

Lemma merge_server_total :
  identifier_ok tenant →
  (source_lamport p ≤ Z.to_N (db_clock tenant db) + MAX_CLOCK_ADVANCE_PER_SYNC)%N →
  (next_clock tenant p db ≤ I64_MAX)%N → is_Some (pg_epoch db) →
  ∃ r db', merge_crdt_states_with_security t p device tenant security db = (Ok r, db').
Proof.
  intros Htenant Hadv Hnext [epoch Hepoch].
  set (db1 := with_clock tenant (db_clock tenant db) db).
  pose proof (NoDup_payload_writes _ (wf_distinct _ _ (cr_payload _ _ _ Hreq))) as Hnd.
  assert (can_serve security tenant device (changes p ≫= row_writes) db1) as Hcan1
    by (destruct Hcan as [? ? ? ?]; by split).
  destruct (rows_total security tenant device (changes p) db1 [] Hnd Hcan1) as [[db2 rs] Hloop].
  destruct (rows_loop t security tenant device (changes p) db1 [] db2 rs Hnd Hloop) as [outs Hrun].
  pose proof (lr_served _ _ _ _ _ _ _ _ _ _ _ Hrun) as Hs.
  pose proof (served_storable outs rs db1 db2 eq_refl Hrun) as Hstore.
  set (db3 := with_clock tenant (Z.of_N (next_clock tenant p db)) db2).
  set (key := (tenant, device, crdt_table t)).
  set (valid := lease_is_valid p (max_seq (tenant_log tenant db3)) epoch (pg_leases db3 !! key)).
  set (effective := if valid then cursor p else 0%Z).
  destruct (select_feed_total (tenant_log tenant db3) effective (start_feed effective) Hserde)
    as [pg Hpg]; [exact Hstore|].
  set (next := if fp_has_more pg then fp_cursor pg else max_seq (tenant_log tenant db3)).
  destruct (upsert_lease_total key next epoch db3) as (token & db4 & Hlease).
  eexists _, db4. unfold merge_crdt_states_with_security.
  apply st_check_ok. split; [by apply validate_identifier_ok|].
  apply st_check_ok. split; [by apply validate_client_request_ok|].
  rewrite (client_request_observed _ _ _ Hreq).
  apply st_bind_ok. exists (Z.to_N (db_clock tenant db)), db1. split.
  { unfold tenant_clock, st_bind, st_get, st_modify, st_lift. fold (db_clock tenant db).
    unfold pg_clock_from_i64, u64_try_from_i64. pose proof (tw_clock _ _ _ Hwf).
    by rewrite (proj2 (Z.leb_le _ _)) by lia. }
  apply st_check_ok. split; [by apply validate_clock_advance_ok|].
  apply st_bind_ok. exists rs, db2. split.
  { fold (server_context t tenant device). by rewrite Hloop. }
  apply st_pure_ok. exists (next_clock tenant p db). split.
  { unfold u64_checked_add. fold (next_clock tenant p db).
    by rewrite (proj2 (N.leb_le _ _)) by (unfold I64_MAX, U64_MAX in *; lia). }
  apply st_bind_ok. exists tt, db3. split.
  { unfold update_clock. apply st_pure_ok. eexists. split; [by apply pg_clock_ok|].
    apply st_modify_ok. rewrite decide_True; [done|].
    rewrite (sv_state _ _ _ _ _ _ _ Hs). simpl. rewrite lookup_insert_eq. by eexists. }
  apply st_bind_ok. exists db3, db3. split; [done|].
  apply st_pure_ok. exists epoch. split.
  { unfold select_epoch. simpl. rewrite (sv_epoch _ _ _ _ _ _ _ Hs). simpl. by rewrite Hepoch. }
  apply st_pure_ok. exists pg. split; [exact Hpg|].
  apply st_bind_ok. exists token, db4. split; [exact Hlease|reflexivity].
Qed.
End merge.
End total.
