(* ===== verification/ServerAnswers.v ===== *)
(** * The answers of the PostgreSQL server (src/server.rs)

    The response of a merge passes the validation of the client that gets it,
    and a page that promises more leaves a quota of cells fewer to tell. *)
From S2P Require Import Prelude RustStd Error Schema Crdt Lww Payload Policy Explain Replica.
From S2P Require Import State Feed Merge MergeTheorems FeedTheorems.
From S2P Require Import Client ClientFacts ClientProgress SyncServer.
From S2P Require Import Postgres Server ServerFacts ServerRun ServerFeed ServerInv ServerSession.

Section answers.
Context `{!Pg_externals, !SerdeJson, !StrDebug}.
Variable (t : TableDef).

(** Random identifiers are identifiers - a UUID has 36 characters -, as long
    as there are new ones: 122 of their bits are random. *)
Definition UUIDS : N := (2 ^ 122)%N.
Definition uuids_identify : Prop := ∀ n, (n < UUIDS)%N → identifier_ok (gen_random_uuid n).
(** The token a device holds. *)
Definition token_sound (tenant device : string) (db : PgDb) : Prop :=
  ∀ l, pg_leases db !! (tenant, device, crdt_table t) = Some l → identifier_ok (ls_token l).

Section run.
Context {security : SyncSecurity} {p : SyncPayload} {device tenant : string} {db : PgDb}.
Context {outs : list CellOutcome} {db2 : PgDb} {epoch : string} {pg : feed_page}.
Context {r : SyncPayload} {db' : PgDb}.
Context (Hrun : server_run t security p device tenant db outs db2 epoch pg r db').
Context (Hfinite : json_finite) (Hwf : tenant_wf t tenant db).

Abbreviation log' := (tenant_log tenant db').
Abbreviation start := (effective_of (p := p) (r := r)).

Lemma srun_changes : changes r = row_changes (fp_rows pg).
Proof. apply (vr_response _ _ _ _ _ _ _ _ _ _ _ _ Hrun). Qed.

Lemma srun_page_exact k c :
  (k, c) ∈ payload_writes r ↔
  ∃ row, log' !! k = Some row ∧ c = pg_column row ∧ (start < lr_seq row ≤ cursor r)%Z.
Proof.
  rewrite (feed_exact log' start pg (srun_numbered t Hrun Hwf) (srun_page t Hrun) r k c srun_changes).
  by rewrite (srun_cursor t Hrun).
Qed.

Lemma srun_nonempty : Forall (λ row, columns row ≠ ∅) (changes r).
Proof.
  rewrite srun_changes.
  destruct (feed_split log' start pg (srun_page t Hrun)) as (taken & rest & _ & -> & _).
  apply grouped_rows_nonempty.
Qed.

Lemma srun_rows_wf : Forall (row_wf t) (changes r).
Proof.
  pose proof srun_nonempty as Hne. rewrite list.Forall_forall in Hne |- *. intros row Hrow.
  assert (∀ name c, columns row !! name = Some c →
    identifier_ok (todo_id row) ∧ cell_wf t name c) as Hcells.
  { intros name c Hc. assert (((todo_id row, name), c) ∈ payload_writes r) as Hin.
    { apply elem_of_payload_writes. by exists row. }
    apply srun_page_exact in Hin as (lrow & Hk & -> & _).
    apply (tw_cells _ _ _ (srun_wf t Hrun Hfinite Hwf) _ _ Hk). }
  pose proof (Hne row Hrow) as Hcols. split_and!; [|done|by intros; apply Hcells].
  apply map_choose in Hcols as (name & c & Hc). by eapply Hcells.
Qed.

Lemma srun_rejected x :
  x ∈ rejections r →
  ∃ w, w ∈ payload_writes p ∧
    cell_outcome security (server_context t tenant device) (tenant_cells tenant db !! w.1) w
      = Ok (OReject x).
Proof.
  rewrite (srun_rejections t Hrun). intros (w & Hin & Hout)%(decide_all_rejected _ _ _ _ _ _ (srun_decided t Hrun)).
  by exists w.
Qed.

Lemma srun_rejections_wf : Forall (rejection_wf t) (rejections r).
Proof.
  rewrite list.Forall_forall. intros x ([k c] & Hin & Hx)%srun_rejected.
  apply cell_outcome_rejected in Hx as (H1' & H2' & H3' & H4' & Hid & Hm & Hr).
  unfold rejection_wf. rewrite H1', H2', H3', H4'. split_and!; try done.
  eapply (payload_write_wf p t); [apply (vr_request _ _ _ _ _ _ _ _ _ _ _ _ Hrun)|done].
Qed.

Lemma srun_token_ok token :
  uuids_identify → (pg_uuids db + 2 ≤ UUIDS)%N → token_sound tenant device db →
  cursor_token r = Some token → identifier_ok token.
Proof.
  intros Huuid Hleft Htoken Htok.
  destruct (srun_tables t Hrun) as (_ & _ & _ & _ & _ & _ & _ & _ & tok & n & Htok' & _ & _ & _ & Hcase).
  rewrite Htok in Htok'. injection Htok' as <-.
  destruct (pg_leases db !! _) as [l|] eqn:Hl; [|subst; apply Huuid; lia].
  case_decide; subst; [by apply Htoken|apply Huuid; lia].
Qed.

(** ** The response is valid *)
Lemma srun_response_wf :
  uuids_identify → (pg_uuids db + 2 ≤ UUIDS)%N → token_sound tenant device db → epoch_drawn db →
  server_response_wf r t.
Proof.
  intros Huuid Hleft Htoken Hdrawn.
  pose proof (vr_request _ _ _ _ _ _ _ _ _ _ _ _ Hrun) as Hreq. pose proof (cr_payload _ _ _ Hreq) as Hp.
  pose proof (vr_response _ _ _ _ _ _ _ _ _ _ _ _ Hrun) as (Hv & Hf & Hsrc & Hl & Hch & _ & He).
  pose proof (feed_cells_bound log' start pg (srun_page t Hrun) r Hch) as Hcells.
  pose proof (length_rows_total _ srun_nonempty) as Hrows.
  pose proof (vr_next _ _ _ _ _ _ _ _ _ _ _ _ Hrun) as Hnext.
  split.
  - split; rewrite ?Hv, ?Hf, ?Hsrc, ?Hl; try done.
    + apply (wf_version _ _ Hp).
    + apply (validate_identifier_ok ""). reflexivity.
    + pose proof (srun_cursor_bounds t Hrun Hwf) as (Hb & _).
      pose proof (srun_effective_bounds t Hrun). lia.
    + intros v Htok. by apply srun_token_ok.
    + rewrite He. intros v [= <-].
      destruct (Hdrawn epoch (vr_epoch _ _ _ _ _ _ _ _ _ _ _ _ Hrun)) as (n & -> & Hn). apply Huuid. lia.
    + unfold MAX_RESPONSE_CELLS, MAX_PAYLOAD_ROWS in *. lia.
    + pose proof (length_rejections _ _ _ _ _ (srun_decided t Hrun)) as Hlen.
      rewrite length_payload_writes in Hlen. rewrite (srun_rejections t Hrun).
      pose proof (wf_cell_count _ _ Hp). lia.
    + rewrite Hch, row_changes_ids. apply NoDup_bt_keys.
    + exact srun_rows_wf.
    + unfold MAX_RESPONSE_CELLS, MAX_PAYLOAD_CELLS in *. lia.
    + exact srun_rejections_wf.
  - done.
  - intros row name c Hrow Hc.
    assert (((todo_id row, name), c) ∈ payload_writes r) as Hin
      by (apply elem_of_payload_writes; by exists row).
    apply srun_page_exact in Hin as (lrow & Hk & -> & _).
    apply (tw_clocks _ _ _ (srun_wf t Hrun Hfinite Hwf)) in Hk.
    destruct (srun_tables t Hrun) as (_ & _ & Hclock & _). rewrite Hclock in Hk. simpl. lia.
  - intros x ([k c] & Hin & Hx)%srun_rejected.
    apply cell_outcome_rejected in Hx as (_ & _ & _ & -> & _).
    destruct (request_write_clock _ _ _ _ _ Hreq Hin) as [_ Hc].
    rewrite Hl. unfold next_clock. simpl in *. lia.
Qed.
End run.

(** ** How far a page brings a device *)

(** A request of a device that stands at [z], as far as its lease is
    concerned. *)
Definition position_payload (z : CursorRow) : SyncPayload :=
  {| protocol_version := PROTOCOL_VERSION; schema_fingerprint := 0; source_device_id := "";
     source_lamport := 0; changes := []; cursor := cu_cursor z; has_more := false;
     cursor_reset := false; cursor_token := cu_token z; server_epoch := cu_epoch z;
     rejections := [] |}.
Lemma position_lease p m e lease :
  protocol_version p = PROTOCOL_VERSION →
  lease_is_valid p m e lease = lease_is_valid (position_payload (payload_position p)) m e lease.
Proof. intros Hv. unfold lease_is_valid. by rewrite Hv. Qed.

(** The cursor a page starts from, and what is numbered above it. *)
Definition pg_effective (tenant device : string) (db : PgDb) (z : CursorRow) : Z :=
  if lease_is_valid (position_payload z) (max_seq (tenant_log tenant db)) (default "" (pg_epoch db))
       (pg_leases db !! (tenant, device, crdt_table t))
  then cu_cursor z else 0%Z.
Definition pg_untold (tenant : string) (db : PgDb) (device : string) (z : CursorRow) : nat :=
  length (feed_all (tenant_log tenant db) (pg_effective tenant device db z)).

Lemma feed_all_bound log z (keys : list (string * string)) :
  (∀ k row, log !! k = Some row → (z < lr_seq row)%Z → k ∈ keys) →
  (length (feed_all log z) ≤ length keys)%nat.
Proof.
  intros Hin. rewrite <-(length_fmap fst). apply submseteq_length, NoDup_submseteq; [apply feed_all_keys|].
  intros k ([k' row] & -> & [Hk Hlt]%elem_of_feed_all)%list_elem_of_fmap. by eapply Hin.
Qed.

(** The bytes a cell takes in a page ([feed_cell_bytes]). *)
Definition feed_cell_le (bound : N) (k : string * string) (c : CrdtColumn) : Prop :=
  ∀ n, feed_cell_bytes k c = Ok n → (n ≤ bound)%N.

(** A page that stopped early is full. *)
Lemma fill_feed_full bound quota l p pg :
  (quota ≤ MAX_RESPONSE_CELLS)%N → (quota * bound ≤ MAX_RESPONSE_BYTES)%N →
  (∀ e, e ∈ l → feed_cell_le bound e.1 (pg_column e.2)) →
  (fp_bytes p ≤ fp_included p * bound)%N → fp_has_more p = false →
  fill_feed l p = Ok pg → fp_has_more pg = true → (quota ≤ fp_included pg)%N.
Proof.
  intros Hq Hqb. revert p. induction l as [|[k row] l IH]; intros p Hl Hp Hno.
  { intros [= ->]. by rewrite Hno. }
  cbn [fill_feed]. intros (c & [_ ->]%decode_log_inv & (bytes & Hbytes & Hif)%bind_ok)%bind_ok Hmore.
  pose proof (Hl (k, row) ltac:(by left) bytes Hbytes) as Hc.
  destruct (_ || _) eqn:Hguard.
  - injection Hif as <-. apply orb_true_iff in Hguard as [Hg%N.leb_le|Hg]; [simpl; lia|].
    apply andb_true_iff in Hg as [_ Hg%N.ltb_lt]. simpl. nia.
  - eapply IH; [| | |exact Hif|done]; [|simpl; nia|done]. intros e He. apply Hl. by right.
Qed.

Section progress.
Context {security : SyncSecurity} {p : SyncPayload} {device tenant : string} {db : PgDb}.
Context {outs : list CellOutcome} {db2 : PgDb} {epoch : string} {pg : feed_page}.
Context {r : SyncPayload} {db' : PgDb}.
Context (Hrun : server_run t security p device tenant db outs db2 epoch pg r db').
Context (Hwf : tenant_wf t tenant db) (Hversion : protocol_version p = PROTOCOL_VERSION).

Abbreviation log := (tenant_log tenant db).
Abbreviation log' := (tenant_log tenant db').
Abbreviation start := (effective_of (p := p) (r := r)).

Lemma srun_start : start = pg_effective tenant device db (payload_position p).
Proof.
  rewrite (srun_effective t Hrun). unfold pg_effective.
  destruct (srun_tables t Hrun) as (_ & _ & _ & _ & _ & _ & _ & <- & _).
  rewrite (vr_epoch _ _ _ _ _ _ _ _ _ _ _ _ Hrun), <-position_lease by done.
  pose proof (srun_max t Hrun Hwf) as Hmax. unfold lease_is_valid. cbn [default].
  destruct (pg_leases db !! _) as [l|] eqn:Hl; [|done]. apply (tw_leases _ _ _ Hwf) in Hl.
  destruct (Z.leb_spec (cursor p) (ls_max_issued l)); [|by rewrite !andb_false_r].
  by rewrite !(proj2 (Z.leb_le _ _)) by lia.
Qed.

(** The device itself adds at most what it sends. *)
Lemma srun_untold :
  (length (feed_all log' start) ≤ pg_untold tenant db device (payload_position p)
     + total_cells (changes p))%nat.
Proof.
  unfold pg_untold. rewrite <-srun_start, <-length_payload_writes.
  rewrite <-(length_fmap fst (payload_writes p)), <-(length_fmap fst (feed_all log _)), <-length_app.
  apply feed_all_bound. intros k row Hk Hlt. apply elem_of_app.
  destruct (srun_tables t Hrun) as (Hlog & _). rewrite Hlog in Hk.
  apply log_after_cases in Hk as [(i & w & Hi%list_elem_of_lookup_2 & <- & _)|[_ Hk]].
  - right. apply list_elem_of_fmap_2. eapply elem_of_sublist; [exact Hi|apply (srun_sublist t Hrun)].
  - left. change k with (k, row).1. apply list_elem_of_fmap_2. by apply elem_of_feed_all.
Qed.

(** The lease it is given makes the cursor good for the next page. *)
Lemma srun_leased : pg_effective tenant device db' (payload_position r) = cursor r.
Proof.
  unfold pg_effective.
  destruct (srun_tables t Hrun) as (_ & _ & _ & _ & He & _ & _ & _ & token & n & Htok & _ & _ & Hl & _).
  rewrite He, Hl, lookup_insert_eq. cbn [default].
  pose proof (vr_response _ _ _ _ _ _ _ _ _ _ _ _ Hrun) as (_ & _ & _ & _ & _ & _ & Hepoch).
  destruct (srun_cursor_bounds t Hrun Hwf) as (Hb & _).
  unfold lease_is_valid. cbn [cursor cursor_token server_epoch protocol_version position_payload
    payload_position cu_cursor cu_token cu_epoch ls_max_issued ls_token ls_epoch].
  rewrite Htok, Hepoch, !bool_decide_true by done.
  rewrite (proj2 (Z.leb_le _ _)) by lia.
  rewrite (proj2 (Z.leb_le _ _)) by (destruct (pg_leases db !! _); lia).
  by destruct (cursor r =? 0)%Z.
Qed.

Lemma srun_progress bound quota :
  (quota ≤ MAX_RESPONSE_CELLS)%N → (quota * bound ≤ MAX_RESPONSE_BYTES)%N →
  (∀ k row, log' !! k = Some row → feed_cell_le bound k (pg_column row)) → has_more r = true →
  (pg_untold tenant db' device (payload_position r) + N.to_nat quota
   ≤ pg_untold tenant db device (payload_position p) + total_cells (changes p))%nat.
Proof.
  intros Hq Hqb Hsmall Hmore. pose proof srun_untold as Hle.
  pose proof (srun_page t Hrun) as Hpg. pose proof (srun_numbered t Hrun Hwf) as Hnum.
  pose proof (vr_response _ _ _ _ _ _ _ _ _ _ _ _ Hrun) as (_ & _ & _ & _ & _ & Hm & _).
  rewrite Hm in Hmore.
  destruct (feed_split log' start pg Hpg) as (taken & rest & Hsplit & _ & Hinc & _ & _ & _ & Hcur).
  destruct (feed_cut log' start Hnum taken rest Hsplit) as (Htaken & _ & _). rewrite <-Hcur in Htaken.
  assert (cursor r = fp_cursor pg) as Hc
    by (rewrite (srun_cursor t Hrun); unfold feed_next; by rewrite Hmore).
  assert (quota ≤ N.of_nat (length taken))%N as Hfull.
  { rewrite <-Hinc.
    apply (fill_feed_full bound quota (select_feed log' start) (start_feed start));
      [done|done| |simpl; lia|done|exact Hpg|done].
    intros [k row] He. apply (Hsmall k). unfold select_feed in He. fold (feed_all log' start) in He.
    apply (elem_of_feed_all log' start). by apply elem_of_take in He as (i & He%list_elem_of_lookup_2 & _). }
  unfold pg_untold at 1. rewrite srun_leased.
  assert (length (feed_all log' (cursor r)) ≤ length rest)%nat as Hrest.
  { rewrite <-(length_fmap fst rest). apply feed_all_bound. intros k row Hk Hlt.
    pose proof (srun_cursor_bounds t Hrun Hwf) as (Hb & _).
    assert ((k, row) ∈ feed_all log' start) as Hin by (apply elem_of_feed_all; split; [done|lia]).
    rewrite Hsplit in Hin. apply elem_of_app in Hin as [Hin|Hin].
    - specialize (Htaken _ Hin). simpl in Htaken. lia.
    - by apply (list_elem_of_fmap_2 fst) in Hin. }
  rewrite Hsplit, length_app in Hle. lia.
Qed.
End progress.
End answers.
