(* ===== verification/ServerStatements.v ===== *)
(** * A sync request as a program of statements (src/server.rs)

    The merge and the partial merge of Server.v once more, as the sequence of
    statements they send to PostgreSQL: the unit at which transactions of
    other connections can run in between. [run_merge_prog] and
    [run_partial_prog]: executed without interruption, the programs are the
    functions of Server.v. *)
From S2P Require Import Prelude RustStd Error Schema Crdt Policy Explain Replica State Postgres.
From S2P Require Import Server.

Section statements.
Context `{!Pg_externals, !SerdeJson, !StrDebug}.
Variable (t : TableDef).

(** ** Statements

    Each with the type of what the source reads from its result. *)
Inductive stmt : Type → Type :=
| SClock : stmt N
| SAppRow (row_id : string) : stmt unit
| SCell (key : string * string) : stmt (option CrdtColumn)
| SColumn (row_id column : string) (v : CrdtValue) : stmt unit
| SLog (key : string * string) (incoming : CrdtColumn) : stmt unit
| SAudit (event : SyncAuditEvent) : stmt unit
| SClockTo (clock : N) : stmt unit
| SMaxSeq : stmt Z
| SEpoch : stmt string
| SLease : stmt (option Lease)
| SFeed (after : Z) : stmt (list ((string * string) * LogRow))
| SUpsertLease (next : Z) (epoch : string) : stmt string
| SMembers (i : ReplicaInterest) : stmt (list string)
| SSnapshot (members : list string) : stmt (list ((string * string) * LogRow)).

(** What a statement does to the tables it sees. *)
Definition exec (device tenant : string) {X} (s : stmt X) : PgM X :=
  match s in stmt X return PgM X with
  | SClock => tenant_clock tenant
  | SAppRow row_id => insert_app_row t tenant row_id
  | SCell key => (db <-- st_get ;; st_lift (select_cell tenant key db))%loom
  | SColumn row_id column v => write_server_todo_column t tenant row_id column v
  | SLog key incoming => upsert_log tenant key incoming
  | SAudit event => write_audit_event tenant event
  | SClockTo clock => update_clock tenant clock
  | SMaxSeq => (db <-- st_get ;; st_ret (max_seq (tenant_log tenant db)))%loom
  | SEpoch => (db <-- st_get ;; st_lift (select_epoch db))%loom
  | SLease => (db <-- st_get ;; st_ret (pg_leases db !! (tenant, device, crdt_table t)))%loom
  | SFeed after => (db <-- st_get ;; st_ret (select_feed (tenant_log tenant db) after))%loom
  | SUpsertLease next epoch => upsert_lease (tenant, device, crdt_table t) next epoch
  | SMembers i => (db <-- st_get ;; st_ret (select_members i (tenant_rows tenant db)))%loom
  | SSnapshot members => (db <-- st_get ;; st_ret (select_snapshot members (tenant_log tenant db)))%loom
  end.

(** ** Programs *)
Inductive prog (A : Type) : Type :=
| Done (r : Result A)
| Do {X : Type} (s : stmt X) (k : X → prog A).
#[global] Arguments Done {A} r.
#[global] Arguments Do {A X} s k.

Fixpoint prog_bind {A B} (q : prog A) (f : A → prog B) : prog B :=
  match q with
  | Done (Ok a) => f a
  | Done (Err e) => Done (Err e)
  | Do s k => Do s (λ x, prog_bind (k x) f)
  end.
Definition prog_ret {A} (a : A) : prog A := Done (Ok a).
Definition prog_do {X} (s : stmt X) : prog X := Do s prog_ret.

(** A program run without interruption. *)
Fixpoint run (device tenant : string) {A} (q : prog A) : PgM A :=
  match q with
  | Done r => st_lift r
  | Do s k => st_bind (exec device tenant s) (λ x, run device tenant (k x))
  end.

(** A loop that collects what its rounds return. *)
Fixpoint prog_collect {A B} (f : A → prog (list B)) (l : list A) : prog (list B) :=
  match l with
  | [] => prog_ret []
  | x :: l => prog_bind (f x) (λ b, prog_bind (prog_collect f l) (λ bs, prog_ret (b ++ bs)))
  end.

Local Notation "x <~ q ;; k" := (prog_bind q (λ x, k))
  (at level 100, q at next level, right associativity).
Local Notation "q ;~ k" := (prog_bind q (λ _, k)) (at level 100, right associativity).

(** ** The merge *)
Definition audit_prog (security : SyncSecurity) (event : SyncAuditEvent) : prog unit :=
  match audit_mode security with
  | AuditDisabled => prog_ret tt
  | AuditDatabase => prog_do (SAudit event)
  end.

(** The rejections a cell adds. *)
Definition reject_prog (security : SyncSecurity) (context : SyncContext)
    (mutation : CellMutation) (current : option CrdtColumn) (kind : SyncRejectionKind)
    (why : string) : prog (list SyncRejection) :=
  rejection <~ Done (SyncRejection_new (cm_todo_id mutation) (cm_column_name mutation)
                       kind why (cm_value mutation) (cm_metadata mutation)) ;;
  event <~ Done (SyncAuditEvent_new context mutation current
                   (rejection_audit_outcome kind) why) ;;
  audit_prog security event ;~
  prog_ret [rejection].

Definition cell_prog (security : SyncSecurity) (context : SyncContext)
    (row_id : string) (cell : string * CrdtColumn) : prog (list SyncRejection) :=
  let '(column_name, incoming) := cell in
  let key := (row_id, column_name) in
  current <~ prog_do (SCell key) ;;
  let mutation := {| cm_todo_id := row_id; cm_column_name := column_name;
                     cm_value := value incoming; cm_metadata := metadata incoming |} in
  authorized <~ Done (authorizer security context mutation current) ;;
  match authorized with
  | Deny kind why => reject_prog security context mutation current kind why
  | Allow =>
    validated <~ Done (validator security context mutation current) ;;
    match validated with
    | Deny kind why => reject_prog security context mutation current kind why
    | Allow =>
      let explanation := explain_lww current incoming in
      decided <~ Done (server_decision current incoming) ;;
      (if decided.1 : bool
       then prog_do (SColumn row_id column_name (value incoming)) ;~ prog_do (SLog key incoming)
       else prog_ret tt) ;~
      event <~ Done (SyncAuditEvent_new context mutation current decided.2
                       (summary explanation)) ;;
      audit_prog security event ;~
      prog_ret []
    end
  end.

Definition row_prog (security : SyncSecurity) (context : SyncContext) (row : RowChange)
  : prog (list SyncRejection) :=
  prog_do (SAppRow (todo_id row)) ;~
  prog_collect (cell_prog security context (todo_id row)) (bt_iter (columns row)).

Definition merge_prog (p : SyncPayload) (device tenant : string) (security : SyncSecurity)
  : prog SyncPayload :=
  Done (validate_identifier "tenant_id" tenant) ;~
  Done (validate_client_request p device t) ;~
  let observed_clock := max_observed_clock p in
  let context := {| tenant_id := tenant; authenticated_device_id := device; ctx_table := t |} in
  server_clock <~ prog_do SClock ;;
  Done (validate_clock_advance server_clock observed_clock) ;~
  rejected <~ prog_collect (row_prog security context) (changes p) ;;
  next_clock <~ Done (ok_or (u64_checked_add (N.max server_clock observed_clock) 1)
                        ClockOverflow) ;;
  prog_do (SClockTo next_clock) ;~
  tenant_max_cursor <~ prog_do SMaxSeq ;;
  epoch <~ prog_do SEpoch ;;
  lease <~ prog_do SLease ;;
  let valid := lease_is_valid p tenant_max_cursor epoch lease in
  let reset := negb (cursor p =? 0)%Z && negb valid in
  let effective := if valid then cursor p else 0%Z in
  rows <~ prog_do (SFeed effective) ;;
  pg <~ Done (fill_feed rows (start_feed effective)) ;;
  let next := if fp_has_more pg then fp_cursor pg else tenant_max_cursor in
  token <~ prog_do (SUpsertLease next epoch) ;;
  prog_ret {| protocol_version := protocol_version p;
              schema_fingerprint := table_fingerprint t;
              source_device_id := SERVER_DEVICE_ID;
              source_lamport := next_clock;
              changes := row_changes (fp_rows pg);
              cursor := next;
              has_more := fp_has_more pg;
              cursor_reset := reset;
              cursor_token := Some token;
              server_epoch := Some epoch;
              rejections := rejected |}.

Definition partial_prog (r : PartialReplicaRequest) (device tenant : string)
    (security : SyncSecurity) : prog PartialReplicaResponse :=
  Done (request_validate r t device) ;~
  sync <~ merge_prog (prq_sync r) device tenant security ;;
  Done (for_each bind_predicate (predicates (interest r))) ;~
  Done (for_each bind_parameter (predicates (interest r))) ;~
  members <~ prog_do (SMembers (interest r)) ;;
  Done (if (limit (interest r) <? N.of_nat (length members))%N
        then invalid ("partial replica scope exceeds its declared limit of " +:+
                      pretty (limit (interest r)) +:+
                      " rows; narrow the interest or increase the limit")
        else Ok tt) ;~
  Done (validate_member_ids members) ;~
  rows <~ match members with [] => prog_ret [] | _ => prog_do (SSnapshot members) end ;;
  snap <~ Done (foldM server_snapshot_cell {| sn_rows := ∅; sn_bytes := 0; sn_cells := 0 |} rows) ;;
  let evicted := filter (λ row_id, binary_search members row_id = false) (known_member_ids r) in
  let response :=
    {| prs_scope_id := prq_scope_id r;
       prs_scope_version := prq_scope_version r;
       member_ids := members;
       evicted_row_ids := evicted;
       prs_sync := with_snapshot (row_changes (sn_rows snap)) sync |} in
  Done (response_validate response t) ;~
  prog_ret response.

(** ** The programs are the functions of Server.v *)
Section run.
Variables (device tenant : string).

Lemma run_bind {A B} (q : prog A) (f : A → prog B) db :
  run device tenant (prog_bind q f) db = st_bind (run device tenant q) (λ a, run device tenant (f a)) db.
Proof.
  revert db. induction q as [r|X s k IH]; intros db.
  - by destruct r.
  - cbn [prog_bind run]. unfold st_bind at 1 2 3.
    destruct (exec device tenant s db) as [[x|e] db1]; [apply IH|done].
Qed.
Lemma run_done {A B} (r : Result A) (f : A → prog B) db :
  run device tenant (prog_bind (Done r) f) db =
  match r with Ok a => run device tenant (f a) db | Err e => (Err e, db) end.
Proof. by destruct r. Qed.
Lemma run_do {X B} (s : stmt X) (f : X → prog B) db :
  run device tenant (prog_bind (prog_do s) f) db =
  match exec device tenant s db with
  | (Ok x, db1) => run device tenant (f x) db1
  | (Err e, db1) => (Err e, db1)
  end.
Proof. done. Qed.

Lemma run_read {X B} (s : stmt X) (f : X → prog B) db x :
  exec device tenant s db = (Ok x, db) →
  run device tenant (prog_bind (prog_do s) f) db = run device tenant (f x) db.
Proof. rewrite run_do. by intros ->. Qed.

(** The result of a loop body that keeps its rejections in the state, against
    the result of one that returns them. *)
Definition collects (rs : list SyncRejection) (res : Result (list SyncRejection) * PgDb)
    (res' : Result unit * (PgDb * list SyncRejection)) : Prop :=
  match res with
  | (Ok new, db') => res' = (Ok tt, (db', rs ++ new))
  | (Err e, db') => ∃ rs', res' = (Err e, (db', rs'))
  end.

Lemma collects_for {A} (f : A → prog (list SyncRejection)) (g : A → ServerM unit) l db rs :
  (∀ x db rs, collects rs (run device tenant (f x) db) (g x (db, rs))) →
  collects rs (run device tenant (prog_collect f l) db) (st_for g l (db, rs)).
Proof.
  intros Hf. revert db rs. induction l as [|x l IH]; intros db rs.
  { unfold collects. cbn. by rewrite app_nil_r. }
  cbn [prog_collect st_for]. rewrite run_bind. unfold st_bind. specialize (Hf x db rs).
  destruct (run device tenant (f x) db) as [[new|e] db1]; cbn [collects] in Hf.
  2:{ destruct Hf as [rs' ->]. by exists rs'. }
  rewrite Hf, run_bind. unfold st_bind. specialize (IH db1 (rs ++ new)).
  destruct (run device tenant (prog_collect f l) db1) as [[news|e] db2]; cbn [collects] in IH.
  - rewrite IH. cbn. by rewrite app_assoc.
  - destruct IH as [rs' ->]. by exists rs'.
Qed.

Lemma run_audit security event db :
  run device tenant (audit_prog security event) db = record_audit_if_enabled tenant security event db.
Proof.
  unfold audit_prog, record_audit_if_enabled. destruct (audit_mode security); [done|].
  cbn [prog_do run exec]. unfold st_bind. by destruct (write_audit_event tenant event db) as [[[]|e] db1].
Qed.
Lemma run_audited {B} security event (q : prog B) db :
  run device tenant (audit_prog security event ;~ q) db =
  match record_audit_if_enabled tenant security event db with
  | (Ok _, db1) => run device tenant q db1
  | (Err e, db1) => (Err e, db1)
  end.
Proof. rewrite run_bind. unfold st_bind. by rewrite run_audit. Qed.

Lemma run_reject security mutation current kind why db rs :
  collects rs
    (run device tenant (reject_prog security
       {| tenant_id := tenant; authenticated_device_id := device; ctx_table := t |}
       mutation current kind why) db)
    (server_reject security {| tenant_id := tenant; authenticated_device_id := device; ctx_table := t |}
       mutation current kind why (db, rs)).
Proof.
  unfold reject_prog, server_reject. rewrite run_done. unfold st_bind at 1, st_lift at 1.
  destruct (SyncRejection_new _ _ _ _ _ _) as [r|e]; [|by exists rs].
  rewrite run_done. unfold st_bind, st_modify, st_lift.
  destruct (SyncAuditEvent_new _ _ _ _ _) as [event|e]; [|by eexists].
  rewrite run_audited. unfold on_db. cbn [fst snd tenant_id].
  destruct (record_audit_if_enabled tenant security event db) as [[[]|e] db1]; [done|by eexists].
Qed.

Lemma run_cell security row_id cell db rs :
  let context := {| tenant_id := tenant; authenticated_device_id := device; ctx_table := t |} in
  collects rs (run device tenant (cell_prog security context row_id cell) db)
    (server_merge_cell t security context row_id cell (db, rs)).
Proof.
  destruct cell as [column c]. intros context. unfold cell_prog, server_merge_cell.
  change (tenant_id context) with tenant. rewrite run_do.
  change (exec device tenant (SCell (row_id, column)) db) with (select_cell tenant (row_id, column) db, db).
  unfold st_bind at 1 2, st_get, st_lift at 1. cbn [fst].
  destruct (select_cell tenant (row_id, column) db) as [current|e]; [|by exists rs].
  rewrite run_done. unfold st_bind at 1, st_lift at 1.
  destruct (authorizer security _ _ _) as [[|kind why]|e]; [|apply run_reject|by exists rs].
  rewrite run_done. unfold st_bind at 1, st_lift at 1.
  destruct (validator security _ _ _) as [[|kind why]|e]; [|apply run_reject|by exists rs].
  rewrite run_done. unfold st_bind at 1, st_lift at 1.
  destruct (server_decision current c) as [[b outcome]|e]; [|by exists rs]. cbn [fst snd].
  assert (∀ db1, collects rs
    (run device tenant (event <~ Done (SyncAuditEvent_new context
        {| cm_todo_id := row_id; cm_column_name := column; cm_value := value c;
           cm_metadata := metadata c |} current outcome (summary (explain_lww current c))) ;;
      audit_prog security event ;~ prog_ret []) db1)
    ((event <-- st_lift (SyncAuditEvent_new context
        {| cm_todo_id := row_id; cm_column_name := column; cm_value := value c;
           cm_metadata := metadata c |} current outcome (summary (explain_lww current c))) ;;
      on_db (record_audit_if_enabled tenant security event))%loom (db1, rs))) as Hevent.
  { intros db1. rewrite run_done. unfold st_bind, st_lift.
    destruct (SyncAuditEvent_new _ _ _ _ _) as [event|e]; [|by exists rs].
    rewrite run_audited. unfold on_db. cbn [fst snd].
    destruct (record_audit_if_enabled tenant security event db1) as [[[]|e] db2];
      cbn; [by rewrite app_nil_r|by exists rs]. }
  destruct b; [|exact (Hevent db)].
  rewrite run_bind. unfold st_bind at 1 2, on_db at 1. cbn [fst snd].
  assert (run device tenant (prog_do (SColumn row_id column (value c)) ;~
      prog_do (SLog (row_id, column) c)) db =
    (write_server_todo_column t tenant row_id column (value c) ;;;
      upsert_log tenant (row_id, column) c)%loom db) as ->.
  { rewrite run_do. cbn [exec]. unfold st_bind at 1.
    destruct (write_server_todo_column _ _ _ _ _ db) as [[[]|e] db1]; [|done].
    cbn [run prog_do exec]. unfold st_bind. by destruct (upsert_log _ _ _ db1) as [[[]|e] db2]. }
  destruct ((write_server_todo_column t tenant row_id column (value c) ;;;
      upsert_log tenant (row_id, column) c)%loom db) as [[[]|e] db1]; [|by exists rs].
  exact (Hevent db1).
Qed.

Lemma run_row security row db rs :
  let context := {| tenant_id := tenant; authenticated_device_id := device; ctx_table := t |} in
  collects rs (run device tenant (row_prog security context row) db)
    (server_merge_row t security context row (db, rs)).
Proof.
  intros context. unfold row_prog, server_merge_row. change (tenant_id context) with tenant.
  rewrite run_do. unfold st_bind, on_db. cbn [exec fst snd].
  destruct (insert_app_row t tenant (todo_id row) db) as [[[]|e] db1]; [|by exists rs].
  apply collects_for. intros cell db2 rs2. apply run_cell.
Qed.
End run.

Lemma run_merge_prog p device tenant security db :
  run device tenant (merge_prog p device tenant security) db =
  merge_crdt_states_with_security t p device tenant security db.
Proof.
  unfold merge_prog, merge_crdt_states_with_security.
  rewrite run_done. unfold st_bind at 1, st_lift at 1. destruct (validate_identifier _ _); [|done].
  rewrite run_done. unfold st_bind at 1, st_lift at 1.
  destruct (validate_client_request _ _ _); [|done].
  rewrite run_do. cbn [exec]. unfold st_bind at 1.
  destruct (tenant_clock tenant db) as [[clock|e] db1]; [|done].
  rewrite run_done. unfold st_bind at 1, st_lift at 1.
  destruct (validate_clock_advance _ _); [|done].
  rewrite run_bind. unfold st_bind at 1 2.
  pose proof (collects_for device tenant (row_prog security {| tenant_id := tenant;
    authenticated_device_id := device; ctx_table := t |}) _ (changes p) db1 []
    (run_row device tenant security)) as Hrows.
  destruct (run device tenant (prog_collect _ _) db1) as [[new|e] db2]; cbn [collects] in Hrows.
  2:{ destruct Hrows as [rs' ->]. done. }
  rewrite Hrows. cbn [app].
  rewrite run_done. unfold st_bind at 1, st_lift at 1. destruct (ok_or _ _) as [next|e]; [|done].
  rewrite run_do. cbn [exec]. unfold st_bind at 1.
  destruct (update_clock tenant next db2) as [[[]|e] db3]; [|done].
  erewrite (run_read _ _ SMaxSeq) by reflexivity.
  rewrite run_do. change (exec device tenant SEpoch db3) with (select_epoch db3, db3).
  unfold st_bind at 1 2, st_get at 1, st_lift at 1. cbv zeta.
  destruct (select_epoch db3) as [epoch|e]; [|done].
  erewrite (run_read _ _ SLease) by reflexivity. cbv zeta.
  erewrite (run_read _ _ (SFeed _)) by reflexivity.
  rewrite run_done. unfold st_bind at 1, st_lift at 1. destruct (fill_feed _ _) as [pg|e]; [|done].
  rewrite run_do. cbn [exec]. unfold st_bind at 1.
  by destruct (upsert_lease _ _ _ db3) as [[token|e] db4].
Qed.

Lemma run_partial_prog r device tenant security db :
  run device tenant (partial_prog r device tenant security) db =
  merge_partial_replica_with_security t r device tenant security db.
Proof.
  unfold partial_prog, merge_partial_replica_with_security.
  rewrite run_done. unfold st_bind at 1, st_lift at 1. destruct (request_validate _ _ _); [|done].
  rewrite run_bind. unfold st_bind at 1 2. rewrite run_merge_prog.
  destruct (merge_crdt_states_with_security t _ _ _ _ db) as [[sync|e] db1]; [|done].
  rewrite run_done. unfold st_bind at 1, st_lift at 1.
  destruct (for_each bind_predicate _); [|done].
  rewrite run_done. unfold st_bind at 1, st_lift at 1.
  destruct (for_each bind_parameter _); [|done].
  erewrite (run_read _ _ (SMembers _)) by reflexivity. unfold st_bind at 1, st_get at 1. cbv zeta.
  rewrite run_done. unfold st_bind at 1, st_lift at 1. destruct (_ <? _)%N; [done|].
  rewrite run_done. unfold st_bind at 1, st_lift at 1.
  destruct (validate_member_ids _); [|done].
  rewrite run_bind. unfold st_bind at 1.
  set (members := select_members (interest r) (tenant_rows tenant db1)).
  assert (run device tenant match members with
    [] => prog_ret [] | _ => prog_do (SSnapshot members) end db1 =
    (Ok match members with
        [] => [] | _ => select_snapshot members (tenant_log tenant db1) end, db1)) as ->
    by by destruct members.
  rewrite run_done. unfold st_bind at 1, st_lift at 1. destruct (foldM _ _ _) as [snap|e]; [|done].
  rewrite run_done. unfold st_bind at 1, st_lift at 1. by destruct (response_validate _ _).
Qed.

(** ** What a request can see

    Two databases that agree on a tenant - its clock, rows, log and leases -
    and on what everybody draws from. *)
Record sees (tenant : string) (db db' : PgDb) : Prop := {
  se_clock : pg_state db' !! tenant = pg_state db !! tenant;
  se_rows : pg_rows db' !! tenant = pg_rows db !! tenant;
  se_log : pg_log db' !! tenant = pg_log db !! tenant;
  se_leases d c : pg_leases db' !! (tenant, d, c) = pg_leases db !! (tenant, d, c);
  se_sequence : pg_sequence db' = pg_sequence db;
  se_gap : pg_gap db' = pg_gap db;
  se_epoch : pg_epoch db' = pg_epoch db;
  se_uuids : pg_uuids db' = pg_uuids db;
  se_now : pg_now db' = pg_now db;
}.
(** An operation that sees no more than that. *)
Definition sees_only {A} (tenant : string) (m : PgM A) : Prop := ∀ db db',
  sees tenant db db' → (m db').1 = (m db).1 ∧ sees tenant (m db).2 (m db').2.

Section sees.
Variables (device tenant : string).

Lemma sees_tenant_rows db db' : sees tenant db db' → tenant_rows tenant db' = tenant_rows tenant db.
Proof. intros Hs. unfold tenant_rows. by rewrite (se_rows _ _ _ Hs). Qed.
Lemma sees_tenant_log db db' : sees tenant db db' → tenant_log tenant db' = tenant_log tenant db.
Proof. intros Hs. unfold tenant_log. by rewrite (se_log _ _ _ Hs). Qed.

Lemma sees_only_lift {A} (r : Result A) : sees_only tenant (st_lift r).
Proof. by intros db db'. Qed.
Lemma sees_only_bind {A B} (m : PgM A) (k : A → PgM B) :
  sees_only tenant m → (∀ a, sees_only tenant (k a)) → sees_only tenant (st_bind m k).
Proof.
  intros Hm Hk db db' [Hr Hs]%Hm. unfold st_bind.
  destruct (m db) as [r1 s1], (m db') as [r2 s2]. simpl in Hr, Hs. subst r2.
  destruct r1 as [a|e]; [by apply Hk|done].
Qed.
Lemma sees_only_read {A} (f : PgDb → Result A) :
  (∀ db db', sees tenant db db' → f db' = f db) →
  sees_only tenant (db <-- st_get ;; st_lift (f db))%loom.
Proof. intros Hf db db' Hs. unfold st_bind, st_get, st_lift. simpl. by rewrite (Hf db db' Hs). Qed.
Lemma sees_only_modify (f : PgDb → PgDb) :
  (∀ db db', sees tenant db db' → sees tenant (f db) (f db')) → sees_only tenant (st_modify f).
Proof. intros Hf db db' Hs. split; [done|by apply Hf]. Qed.

Lemma set_rows_sees rows db db' :
  sees tenant db db' →
  sees tenant (set_rows (<[tenant := rows]> (pg_rows db)) db)
    (set_rows (<[tenant := rows]> (pg_rows db')) db').
Proof. intros []. split; try done. simpl. by rewrite !lookup_insert_eq. Qed.
Lemma set_leases_sees d c l db db' :
  sees tenant db db' →
  sees tenant (set_leases (<[(tenant, d, c) := l]> (pg_leases db)) db)
    (set_leases (<[(tenant, d, c) := l]> (pg_leases db')) db').
Proof.
  intros Hs. split; try apply Hs. intros d' c'. simpl.
  destruct (decide ((tenant, d, c) = (tenant, d', c'))) as [<-|Hne].
  - by rewrite !lookup_insert_eq.
  - rewrite !lookup_insert_ne by done. apply Hs.
Qed.
Lemma draw_uuid_sees : sees_only tenant draw_uuid.
Proof.
  intros db db' Hs. unfold draw_uuid, st_bind, st_get, st_modify, st_ret. simpl.
  rewrite (se_uuids _ _ _ Hs). split; [done|]. split; try apply Hs. simpl. done.
Qed.
Lemma nextval_sees : sees_only tenant nextval.
Proof.
  intros db db' Hs. unfold nextval, st_bind, st_get, st_modify, st_ret, st_lift.
  assert (next_number db' = next_number db) as ->
    by (unfold next_number; by rewrite (se_gap _ _ _ Hs), (se_sequence _ _ _ Hs)).
  destruct (_ <=? _)%Z; [|done]. split; [done|]. by split; try apply Hs.
Qed.
Lemma upsert_log_sees key c : sees_only tenant (upsert_log tenant key c).
Proof.
  unfold upsert_log. do 2 (apply sees_only_bind; [apply sees_only_lift|intros ?]).
  apply sees_only_bind; [apply nextval_sees|intros n]. apply sees_only_modify.
  intros db db' Hs. split; try apply Hs. simpl.
  by rewrite !lookup_insert_eq, (sees_tenant_log _ _ Hs).
Qed.
Lemma upsert_lease_sees next epoch :
  sees_only tenant (upsert_lease (tenant, device, crdt_table t) next epoch).
Proof.
  unfold upsert_lease. apply sees_only_bind; [apply draw_uuid_sees|]. intros fresh.
  intros db db' Hs. pose proof (se_leases _ _ _ Hs device (crdt_table t)) as Hl.
  unfold st_bind, st_get. cbv beta iota zeta. rewrite Hl, (se_now _ _ _ Hs).
  destruct (pg_leases db !! (tenant, device, crdt_table t)) as [l|];
    [|split; [done|by apply set_leases_sees]].
  case_decide; unfold draw_uuid, st_bind, st_get, st_modify, st_ret; cbn -[set_leases set_uuids];
    [split; [done|by apply set_leases_sees]|].
  rewrite (se_uuids _ _ _ Hs). split; [done|].
  apply (set_leases_sees _ _ _ (set_uuids (pg_uuids db + 1) db) (set_uuids (pg_uuids db + 1) db')).
  by split; try apply Hs.
Qed.

Lemma exec_sees {X} (s : stmt X) : sees_only tenant (exec device tenant s).
Proof.
  destruct s; cbn [exec].
  - intros db db' Hs. unfold tenant_clock, st_bind, st_get, st_modify, st_lift. simpl.
    rewrite (se_clock _ _ _ Hs). split; [done|]. split; try apply Hs. simpl.
    by rewrite !lookup_insert_eq.
  - apply sees_only_modify. intros db db' Hs. rewrite (sees_tenant_rows _ _ Hs).
    case_match; [done|by apply set_rows_sees].
  - apply sees_only_read. intros db db' Hs. unfold select_cell. by rewrite (sees_tenant_log _ _ Hs).
  - unfold write_server_todo_column. apply sees_only_bind; [apply sees_only_lift|intros stored].
    apply sees_only_modify. intros db db' Hs. rewrite (sees_tenant_rows _ _ Hs).
    case_match; [by apply set_rows_sees|done].
  - apply upsert_log_sees.
  - unfold write_audit_event. do 4 (apply sees_only_bind; [apply sees_only_lift|intros ?]).
    apply sees_only_modify. intros db db' Hs. by split; try apply Hs.
  - unfold update_clock. apply sees_only_bind; [apply sees_only_lift|intros z].
    apply sees_only_modify. intros db db' Hs. rewrite (se_clock _ _ _ Hs).
    case_decide; [|done]. split; try apply Hs. simpl. by rewrite !lookup_insert_eq.
  - apply (sees_only_read (λ db, Ok _)). intros db db' Hs. by rewrite (sees_tenant_log _ _ Hs).
  - apply sees_only_read. intros db db' Hs. unfold select_epoch. by rewrite (se_epoch _ _ _ Hs).
  - apply (sees_only_read (λ db, Ok _)). intros db db' Hs. by rewrite (se_leases _ _ _ Hs).
  - apply (sees_only_read (λ db, Ok _)). intros db db' Hs. by rewrite (sees_tenant_log _ _ Hs).
  - apply upsert_lease_sees.
  - apply (sees_only_read (λ db, Ok _)). intros db db' Hs. by rewrite (sees_tenant_rows _ _ Hs).
  - apply (sees_only_read (λ db, Ok _)). intros db db' Hs. by rewrite (sees_tenant_log _ _ Hs).
Qed.
Lemma run_sees {A} (q : prog A) : sees_only tenant (run device tenant q).
Proof.
  induction q as [r|X s k IH]; [apply sees_only_lift|]. cbn [run].
  apply sees_only_bind; [apply exec_sees|exact IH].
Qed.
End sees.

(** A merge, full or partial, sees its tenant only. *)
Lemma sees_only_ext {A} tenant (m m' : PgM A) :
  (∀ db, m db = m' db) → sees_only tenant m → sees_only tenant m'.
Proof. intros Heq Hm db db' Hs. rewrite <-!Heq. by apply Hm. Qed.
Lemma merge_sees p device tenant security :
  sees_only tenant (merge_crdt_states_with_security t p device tenant security).
Proof. eapply sees_only_ext; [intros db; apply run_merge_prog|apply run_sees]. Qed.
Lemma merge_partial_sees r device tenant security :
  sees_only tenant (merge_partial_replica_with_security t r device tenant security).
Proof. eapply sees_only_ext; [intros db; apply run_partial_prog|apply run_sees]. Qed.
Lemma transaction_sees {A} tenant (m : PgM A) :
  sees_only tenant m → sees_only tenant (run_transaction m).
Proof.
  intros Hm db db' Hs. destruct (Hm db db' Hs) as [Hr Hs']. unfold run_transaction.
  destruct (m db) as [r1 s1], (m db') as [r2 s2]. simpl in Hr, Hs'. subst r2.
  destruct r1 as [a|e]; [done|]. split; [done|]. split; try apply Hs; simpl; apply Hs'.
Qed.
End statements.
