(* ===== verification/ServerTheorems.v ===== *)
(** * Theorems of the PostgreSQL server (src/server.rs) *)
From S2P Require Import Prelude RustStd Error Schema Crdt Lww Payload Policy Explain Replica.
From S2P Require Import State Feed Merge Demo MergeTheorems.
From S2P Require Import Postgres Server ServerFacts ServerRun ServerFeed ServerInv ServerSteps.
From S2P Require Import ServerSession ServerStatements.

Section theorems.
Context `{!Pg_externals, !SerdeJson, !StrDebug}.
Variable (t : TableDef).

(** C16: Whatever happens to the database since its creation - committed and
    rolled back syncs of any devices and tenants, partial syncs, expiry,
    epoch rotation, other sessions using the sequence - the tables of every
    tenant stay well formed. *)
Theorem server_reachable_wf db :
  json_finite → rtc (pg_step t) empty_pg db → pg_wf t db.
Proof.
  intros Hfin Hsteps. remember empty_pg as db0 eqn:H0'.
  assert (pg_wf t db0) as Hwf by (subst; apply empty_pg_wf). clear H0'.
  induction Hsteps as [|db1 db2 db3 Hstep _ IH]; [done|].
  apply IH. by apply (pg_step_wf t db1).
Qed.

(** C9: A device that always sends back the cursor, token and epoch it was
    given misses nothing, across the syncs of all devices and tenants, lost
    responses, expired leases, rotated epochs and restores from backups: what
    it holds dominates every row up to its cursor as long as its epoch is the
    server's, and after a last page it dominates the whole table of its
    tenant, whatever happened before. *)
Theorem server_session_covers tenant device db z token epoch m :
  json_finite → uuids_distinct → pg_session t tenant device db z token epoch m →
  (z = 0%Z ∨ epoch = pg_epoch db → log_covered tenant db z m) ∧
  (∀ p security r db' m',
    protocol_version p = PROTOCOL_VERSION → cursor p = z →
    cursor_token p = token → server_epoch p = epoch →
    merge_crdt_states_with_security t p device tenant security db = (Ok r, db') →
    has_more r = false → absorbs m (payload_writes r) m' →
    cells_le (tenant_cells tenant db') m').
Proof.
  intros Hfin Huuid Hs%session_run; [|done..]. split; [by apply session_covered with (t := t)|].
  intros p security r db' m' Hv Hcur Htok Hep Hm Hlast Habs k c Hc.
  destruct (session_sync t tenant device db z token epoch m p security r db' m' Hfin Huuid Hs Hv Hcur Htok Hep Hm Habs)
    as (_ & Hcov & Hend).
  rewrite tenant_cells_lookup in Hc. apply fmap_Some in Hc as (row & Hk & ->).
  apply (Hcov k row Hk). rewrite Hend by done. by apply max_seq_ge in Hk.
Qed.

(** C15: The page of a response is exactly an interval of the log of the
    tenant: from the cursor of the request when its lease redeems it - in
    protocol 4 with the token and the epoch of the lease, which must be the
    epoch of the server - and from the start otherwise, to the cursor it
    hands out, which is the end of the log unless more is promised. The
    lease it leaves redeems that cursor. *)
Theorem server_page_exact p device tenant security db r db' :
  json_finite → pg_wf t db →
  merge_crdt_states_with_security t p device tenant security db = (Ok r, db') →
  let log := tenant_log tenant db' in
  let key := (tenant, device, crdt_table t) in
  ∃ effective,
    (effective = cursor p ∧ cursor_reset r = false ∨ effective = 0%Z ∧ cursor_reset r = true) ∧
    (cursor_reset r = true ↔ cursor p ≠ 0%Z ∧ ¬ ∃ l, pg_leases db !! key = Some l ∧
      (cursor p ≤ max_seq log)%Z ∧ (cursor p ≤ ls_max_issued l)%Z ∧
      ((protocol_version p < 4)%N ∨
       cursor_token p = Some (ls_token l) ∧ server_epoch p = Some (ls_epoch l) ∧
       pg_epoch db = Some (ls_epoch l))) ∧
    (∀ k c, (k, c) ∈ payload_writes r ↔
      ∃ row, log !! k = Some row ∧ c = pg_column row ∧ (effective < lr_seq row ≤ cursor r)%Z) ∧
    (N.of_nat (total_cells (changes r)) ≤ MAX_RESPONSE_CELLS)%N ∧
    (has_more r = false → cursor r = max_seq log) ∧
    (has_more r = true → (effective < cursor r ≤ max_seq log)%Z) ∧
    ∃ l, pg_leases db' !! key = Some l ∧ (cursor r ≤ ls_max_issued l)%Z ∧
      cursor_token r = Some (ls_token l) ∧ server_epoch r = Some (ls_epoch l) ∧
      pg_epoch db' = Some (ls_epoch l).
Proof.
  intros Hfin Hwf Hm log key.
  destruct (merge_server_run _ _ _ _ _ _ _ _ Hm) as (outs & db2 & e & pg & Hrun).
  pose proof (srun_numbered t Hrun (Hwf tenant)) as Hnum.
  pose proof (srun_page t Hrun) as Hpage. pose proof (srun_cursor t Hrun) as Hcur.
  pose proof (vr_response _ _ _ _ _ _ _ _ _ _ _ _ Hrun) as (_ & _ & _ & _ & Hch & _ & Hse).
  destruct (srun_cursor_bounds t Hrun (Hwf tenant)) as (Hb & Hmore & Hlast).
  destruct (srun_tables t Hrun)
    as (_ & _ & _ & _ & He & _ & _ & Hlog2 & token & n & Htok & _ & _ & Hleases & _).
  pose proof (vr_epoch _ _ _ _ _ _ _ _ _ _ _ _ Hrun) as He0.
  exists (@effective_of p r). split_and!.
  - unfold effective_of. destruct (cursor_reset r); auto.
  - destruct (vr_page _ _ _ _ _ _ _ _ _ _ _ _ Hrun) as [_ ->]. fold key. unfold log.
    rewrite Hlog2, He0. unfold lease_is_valid.
    rewrite andb_true_iff, !negb_true_iff, Z.eqb_neq, orb_false_iff, Z.eqb_neq.
    split; (intros [Hne Hl]; split; [done|]).
    + destruct Hl as [_ Hl]. intros (l & Hkey & Hle1 & Hle2 & Hcase). rewrite Hkey in Hl.
      apply Z.leb_le in Hle1, Hle2. rewrite Hle1, Hle2 in Hl. cbn [andb] in Hl.
      apply orb_false_iff in Hl as [Hv%N.ltb_ge Hl].
      destruct Hcase as [|(Htoken & Hepoch & [= Heq])]; [lia|].
      by rewrite !bool_decide_eq_true_2 in Hl.
    + split; [done|]. destruct (pg_leases db !! key) as [l|]; [|done].
      apply not_true_iff_false. intros Hv. apply Hl. exists l.
      apply andb_true_iff in Hv as [[Hv1%Z.leb_le Hv2%Z.leb_le]%andb_true_iff Hv3].
      split_and!; [done..|]. apply orb_true_iff in Hv3 as [Hv3%N.ltb_lt|Hv3]; [by left|right].
      apply andb_true_iff in Hv3 as [[? ?]%andb_true_iff ?]. split_guards.
      split_and!; [done|done|congruence].
  - intros k c. rewrite (feed_exact _ _ _ Hnum Hpage r k c Hch), <-Hcur. done.
  - by apply (feed_cells_bound _ _ _ Hpage).
  - exact Hlast.
  - intros Hm'. specialize (Hmore Hm'). unfold log. lia.
  - eexists. rewrite Hleases, lookup_insert_eq. split; [reflexivity|]. simpl.
    split_and!; [|done|done|done]. case_match; lia.
Qed.

(** C13: Tenants are isolated. A sync of one tenant, whether it commits or is
    rolled back, full or partial, leaves every relation of every other tenant
    as it was; and it reads nothing of theirs: on any two databases that agree
    on its own tenant, whatever they hold of the others, the answer - members
    and snapshot of a partial sync included - is the same, and so is what the
    tenant has afterwards. The cells of an answer are cells of its tenant. *)
Theorem server_tenant_isolation p r device tenant other security db :
  tenant ≠ other →
  (∀ res db',
    run_transaction (merge_crdt_states_with_security t p device tenant security) db = (res, db') →
    same_tenant other db db') ∧
  (∀ res db',
    run_transaction (merge_partial_replica_with_security t r device tenant security) db
      = (res, db') → same_tenant other db db') ∧
  (∀ db2, sees tenant db db2 →
    let sync := run_transaction (merge_crdt_states_with_security t p device tenant security) in
    let partial := run_transaction (merge_partial_replica_with_security t r device tenant security) in
    (sync db2).1 = (sync db).1 ∧ sees tenant (sync db).2 (sync db2).2 ∧
    (partial db2).1 = (partial db).1 ∧ sees tenant (partial db).2 (partial db2).2) ∧
  (json_finite → pg_wf t db → ∀ resp db',
    merge_crdt_states_with_security t p device tenant security db = (Ok resp, db') →
    ∀ k c, (k, c) ∈ payload_writes resp → tenant_cells tenant db' !! k = Some c).
Proof.
  intros Hne.
  assert (∀ A (m : PgM A) res db', st_keeps (same_tenant other) m →
    run_transaction m db = (res, db') → same_tenant other db db') as Htx.
  { intros A m res db' Hm Hr.
    apply transaction_cases in Hr as [(a & -> & Hr)|(e & db1 & -> & Hr & ->)];
      [by apply (Hm _ _ _ Hr)|].
    destruct (Hm _ _ _ Hr) as [_ _ _ _ _ _ _ Hs Hu]. by split. }
  split_and!.
  - intros res db'. apply Htx. by apply merge_frame.
  - intros res db'. apply Htx. by apply merge_partial_frame.
  - intros db2 Hs sync partial.
    destruct (transaction_sees tenant _ (merge_sees t p device tenant security) db db2 Hs).
    by destruct (transaction_sees tenant _ (merge_partial_sees t r device tenant security) db db2 Hs).
  - intros Hfin Hwf resp db' Hm k c Hin.
    destruct (merge_server_run _ _ _ _ _ _ _ _ Hm) as (outs & db2 & e & pg & Hrun).
    pose proof (vr_response _ _ _ _ _ _ _ _ _ _ _ _ Hrun) as (_ & _ & _ & _ & Hch & _).
    apply (feed_exact _ _ _ (srun_numbered t Hrun (Hwf tenant)) (srun_page t Hrun) _ _ _ Hch)
      in Hin as (row & Hk & -> & _).
    by rewrite tenant_cells_lookup, Hk.
Qed.

(** C22: The audit is complete and truthful. A committed merge under a
    database audit appends exactly one row per incoming cell, in order, with
    the tenant, the author, the cell before it, its own value and version, and
    the outcome and the reason the cell had: [accepted] when it was written,
    [idempotent] when its metadata is exactly that of the current cell and
    [kept_current] when it lost to it, [rejected_authorization] and
    [rejected_validation] by the kind of its rejection, with the reason given
    for it. Without the audit it appends nothing. *)
Theorem server_audit_complete p device tenant security db r db' :
  merge_crdt_states_with_security t p device tenant security db = (Ok r, db') →
  ∃ outs rows,
    decide_all security (server_context t tenant device) (tenant_cells tenant db)
      (payload_writes p) = Ok outs ∧
    rejections r = omap outcome_rejection outs ∧
    pg_audit db' = pg_audit db ++ rows ∧
    match audit_mode security with
    | AuditDisabled => rows = []
    | AuditDatabase =>
      Forall2 (audit_entry t tenant (tenant_cells tenant db)) (zip (payload_writes p) outs) rows ∧
      length rows = total_cells (changes p)
    end.
Proof.
  intros (outs & db2 & e & pg & Hrun)%merge_server_run.
  pose proof (srun_decided t Hrun) as Hd. pose proof (srun_served t Hrun) as Hs.
  destruct (sv_audit _ _ _ _ _ _ _ Hs) as (rows & Haudit & Hrows).
  destruct (srun_tables t Hrun) as (_ & _ & _ & _ & _ & _ & Ha & _).
  exists outs, rows. split_and!; [done|by apply (srun_rejections t Hrun)| |].
  - by rewrite Ha, Haudit.
  - destruct (audit_mode security); [done|]. split; [done|].
    apply Forall2_length in Hrows. rewrite <-Hrows, length_zip_with, <-length_payload_writes.
    apply decide_all_ok, Forall2_length in Hd. lia.
Qed.

(** ** Refinement of the reference server *)

(** A state of [CrdtState] stands for a tenant: same table, clock and cells,
    and its change feed orders the cells the same way. *)
Record simulates (tenant : string) (db : PgDb) (s : CrdtState) : Prop := {
  sim_table : table s = t;
  sim_clock : db_clock tenant db = Z.of_N (global_lamport s);
  sim_cells : tenant_cells tenant db = cells s;
  sim_order k k' row row' :
    tenant_log tenant db !! k = Some row → tenant_log tenant db !! k' = Some row' →
    (lr_seq row < lr_seq row')%Z ↔ (cell_sequence s k < cell_sequence s k')%N;
}.

(** A policy that does not look at the tenant. *)
Definition tenant_blind (policy : CellPolicy) : Prop :=
  ∀ c1 c2, authenticated_device_id c1 = authenticated_device_id c2 → ctx_table c1 = ctx_table c2 →
    policy c1 = policy c2.

(** The values of a request survive JSONB. *)
Definition values_survive (p : SyncPayload) : Prop :=
  ∀ k c, (k, c) ∈ payload_writes p → json_stored (value c) = value c.

Lemma blind_outcome security c1 c2 current w :
  tenant_blind (authorizer security) → tenant_blind (validator security) →
  authenticated_device_id c1 = authenticated_device_id c2 → ctx_table c1 = ctx_table c2 →
  cell_outcome security c1 current w = cell_outcome security c2 current w.
Proof. intros Ha Hv Hd Ht. unfold cell_outcome. by rewrite (Ha c1 c2), (Hv c1 c2). Qed.

Lemma survivors_after p n l log :
  values_survive p → NoDup l.*1 → (∀ w, w ∈ l → w ∈ payload_writes p) →
  pg_column <$> log_after n l log = cells_after (pg_column <$> log) l.
Proof.
  intros Hsurv Hnd Hsub. unfold log_after, cells_after. rewrite map_fmap_union. f_equal.
  rewrite <-list_to_map_fmap. f_equal. apply list_eq. intros i.
  unfold numbered. rewrite list_lookup_fmap, list_lookup_imap.
  destruct (l !! i) as [[k c]|] eqn:Hi; [|done]. simpl. do 2 f_equal.
  apply list_elem_of_lookup_2, Hsub, Hsurv in Hi.
  rewrite pg_column_log_row. unfold stored_cell. simpl. rewrite Hi. by destruct c.
Qed.

Lemma order_after (l : list cell_write) db s k k' row row' log :
  NoDup l.*1 → (seq s + N.of_nat (length l) ≤ I64_MAX)%N →
  (∀ k row, log !! k = Some row → (lr_seq row ≤ pg_sequence db)%Z ∧ (cell_sequence s k ≤ seq s)%N) →
  (∀ k k' row row', log !! k = Some row → log !! k' = Some row' →
    (lr_seq row < lr_seq row')%Z ↔ (cell_sequence s k < cell_sequence s k')%N) →
  log_after (seq_after db) l log !! k = Some row → log_after (seq_after db) l log !! k' = Some row' →
  (lr_seq row < lr_seq row')%Z ↔
  (cell_sequence (write_all s l) k < cell_sequence (write_all s l) k')%N.
Proof.
  intros Hnd Hroom Hold Hord.
  assert (∀ i w, l !! i = Some w →
    cell_sequence (write_all s l) w.1 = (seq s + N.of_nat i + 1)%N) as Hnew
    by (intros i w Hi; by apply cell_sequence_Some, write_all_cell_seq_new).
  assert (∀ k, k ∉ l.*1 → cell_sequence (write_all s l) k = cell_sequence s k) as Hsame
    by (intros q Hq; unfold cell_sequence; by rewrite write_all_cell_seq_old).
  intros [(i & w & Hi & <- & ->)|[Hk Hrow]]%log_after_cases
    [(i' & w' & Hi' & <- & ->)|[Hk' Hrow']]%log_after_cases; cbn [lr_seq log_row].
  - rewrite (Hnew _ _ Hi), (Hnew _ _ Hi').
    pose proof (seq_after_lt db (S i) (S i')). pose proof (seq_after_mono db (S i') (S i)). lia.
  - rewrite (Hnew _ _ Hi), Hsame by done. destruct (Hold _ _ Hrow').
    pose proof (seq_after_ge db (S i)). lia.
  - rewrite (Hnew _ _ Hi'), Hsame by done. destruct (Hold _ _ Hrow).
    pose proof (seq_after_ge db (S i')). lia.
  - rewrite !Hsame by done. by apply Hord.
Qed.

(** C7: The PostgreSQL merge refines the reference server, under policies that
    do not look at the tenant ([tenant_blind]: the reference has none) and for
    values that survive JSONB ([values_survive]). When a state of
    [CrdtState] stands for the tenant, every merge that succeeds on the
    database succeeds on that state, with the same clock and the same
    rejections, and the new state stands for the tenant again. *)
Theorem server_refines_reference p device tenant security db s r db' :
  json_finite → serde_total → tenant_blind (authorizer security) →
  tenant_blind (validator security) → values_survive p →
  pg_wf t db → state_wf s → has_room s p → simulates tenant db s →
  merge_crdt_states_with_security t p device tenant security db = (Ok r, db') →
  ∃ r' s', merge_with_security p device security s = (Ok r', s') ∧ simulates tenant db' s' ∧
    source_lamport r = source_lamport r' ∧ rejections r = rejections r'.
Proof.
  intros Hfin Hserde Ha Hv Hsurv Hwf Hs Hroom [Ht Hclock Hcells Hord] Hm.
  destruct (merge_server_run _ _ _ _ _ _ _ _ Hm) as (outs & db2 & e & pg & Hrun).
  pose proof (srun_decided t Hrun) as Hd.
  assert (decide_all security (merge_context s device) (cells s) (payload_writes p) = Ok outs)
    as Hd'.
  { rewrite <-Hcells. apply decide_all_ok. apply decide_all_ok in Hd.
    eapply Forall2_impl; [|exact Hd]. intros w o Ho. cbv beta in Ho |- *.
    rewrite <-Ho. by apply blind_outcome. }
  pose proof (vr_request _ _ _ _ _ _ _ _ _ _ _ _ Hrun) as Hreq.
  pose proof (vr_advance _ _ _ _ _ _ _ _ _ _ _ _ Hrun) as Hadv.
  pose proof (vr_next _ _ _ _ _ _ _ _ _ _ _ _ Hrun) as Hnext. unfold next_clock in Hnext.
  assert (Z.to_N (db_clock tenant db) = global_lamport s) as Hg by (rewrite Hclock; lia).
  rewrite Hg in Hadv, Hnext.
  destruct (proj2 (merge_inner_success security p device s Hs Hroom Hserde)) as (r' & s' & Hm').
  { rewrite Ht. split_and!; [done|done|unfold U64_MAX, I64_MAX in *; lia|].
    apply mapR_total. by exists outs. }
  exists r', s'. split; [done|].
  destruct (run_of_merge _ _ _ _ _ _ Hm') as (outs' & pg' & Hrun').
  assert (outs' = outs) as -> by (pose proof (mr_decided _ _ _ _ _ _ _ _ Hrun'); congruence).
  destruct (srun_tables t Hrun) as (Hlog & _ & Hc' & _).
  pose proof (run_accepted_distinct Hrun') as Hnd. pose proof (run_room Hrun' Hroom) as Hroom'.
  pose proof (srun_sublist t Hrun) as Hsub.
  assert (tenant_cells tenant db' = cells s') as Hcells'.
  { rewrite (run_cells Hrun'), <-Hcells. unfold tenant_cells. rewrite Hlog.
    apply (survivors_after p); [done|done|]. intros w Hw. by eapply elem_of_sublist. }
  split; [split|split].
  - by rewrite (run_table Hrun').
  - rewrite Hc', (run_clock Hrun'). unfold next_clock. by rewrite Hg.
  - done.
  - intros k k' row row'. rewrite Hlog. rewrite (mr_state _ _ _ _ _ _ _ _ Hrun').
    apply order_after; [done|done| |done].
    intros k0 row0 Hk0. destruct (tw_range _ _ _ (Hwf tenant) _ _ Hk0). split; [done|].
    assert (cells s !! k0 = Some (pg_column row0)) as Hcell
      by (by rewrite <-Hcells, tenant_cells_lookup, Hk0).
    pose proof (cell_sequence_range _ _ _ Hs Hcell). lia.
  - pose proof (vr_response _ _ _ _ _ _ _ _ _ _ _ _ Hrun) as (_ & _ & _ & -> & _).
    rewrite (mr_response _ _ _ _ _ _ _ _ Hrun'). unfold next_clock. simpl. by rewrite Hg.
  - rewrite (srun_rejections t Hrun). by rewrite (mr_response _ _ _ _ _ _ _ _ Hrun').
Qed.
End theorems.
