(* ===== verification/ServerSync.v ===== *)
(** * The PostgreSQL server as a [SyncServer] (src/src/server.rs)

    A tenant of the database, behind committed transactions, meets what the
    client relies on: the theorems on executions of ClientSync hold against
    it. *)
From S2P Require Import Prelude RustStd Error Schema Crdt Lww Payload Policy Explain Replica.
From S2P Require Import State Feed Merge MergeTheorems Client ClientFacts SyncServer.
From S2P Require Import Postgres Server ServerFacts ServerRun ServerFeed ServerInv ServerSteps.
From S2P Require Import ServerSession ServerTheorems.

(** Nothing is refused by policy; an audit may be kept. *)
Definition permissive (security : SyncSecurity) : Prop :=
  authorizer security = authorizer open_security ∧ validator security = validator open_security.

Section server.
Context `{!Pg_externals, !SerdeJson, !StrDebug}.

(** The values the columns of [t] hold come back from JSONB as they were: so
    in every table without reals. *)
Definition json_exact (t : TableDef) : Prop :=
  ∀ name v, column_accepts t name v → json_stored v = v.
Lemma no_reals_json_exact t :
  (∀ name, column_type t name ≠ Some TReal) → json_exact t.
Proof.
  intros Hno name v (ty & Hty & Hacc). destruct v; try done.
  destruct ty; try done. by destruct (Hno name).
Qed.

Section tenant.
Variables (t : TableDef) (tenant : string).

(** ** What a merge does to the cells *)
Lemma permissive_outcome security context current w :
  permissive security →
  cell_outcome security context current w
  = (b ← should_apply current w.2; Ok (if b : bool then OWrite w else OKeep)).
Proof. intros [Ha Hv]. unfold cell_outcome. by rewrite Ha, Hv. Qed.

Lemma request_survives p device : json_exact t → client_request_wf p device t → values_survive p.
Proof.
  intros Hexact Hreq k c Hin. apply (Hexact k.2).
  by destruct (payload_write_wf _ _ _ _ (cr_payload _ _ _ Hreq) Hin) as [_ [? _]].
Qed.

Section merged.
Context {security : SyncSecurity} {p : SyncPayload} {device : string} {db : PgDb}.
Context {outs : list CellOutcome} {db2 : PgDb} {epoch : string} {pg : feed_page}.
Context {r : SyncPayload} {db' : PgDb}.
Context (Hrun : server_run t security p device tenant db outs db2 epoch pg r db').

Lemma srun_cells_after :
  json_exact t → tenant_cells tenant db' = cells_after (tenant_cells tenant db) (omap outcome_write outs).
Proof.
  intros Hexact. destruct (srun_tables t Hrun) as (Hlog & _). unfold tenant_cells. rewrite Hlog.
  apply (survivors_after p).
  - eapply request_survives; [done|apply (vr_request _ _ _ _ _ _ _ _ _ _ _ _ Hrun)].
  - apply (srun_accepted_distinct t Hrun).
  - intros w Hw. by eapply elem_of_sublist, (srun_sublist t Hrun).
Qed.

Lemma srun_absorbs :
  permissive security → json_exact t →
  absorbs (tenant_cells tenant db) (payload_writes p) (tenant_cells tenant db').
Proof.
  intros Hopen Hexact. rewrite srun_cells_after by done.
  eapply absorbs_decided; [apply (srun_distinct t Hrun)|apply (srun_decided t Hrun)|].
  intros w o Hin. rewrite permissive_outcome by done.
  destruct (should_apply _ _) as [[|]|e] eqn:Hs; intros [= <-].
  - by apply should_apply_true.
  - by apply should_apply_false.
Qed.

Lemma srun_no_rejections : permissive security → rejections r = [].
Proof.
  intros Hopen. rewrite (srun_rejections t Hrun).
  destruct (omap outcome_rejection outs) as [|x l] eqn:Hr; [done|]. exfalso.
  assert (x ∈ omap outcome_rejection outs) as Hin by (rewrite Hr; by left).
  apply (decide_all_rejected _ _ _ _ _ _ (srun_decided t Hrun)) in Hin as (w & _ & Hout).
  rewrite permissive_outcome in Hout by done. by destruct (should_apply _ _) as [[|]|].
Qed.

Lemma srun_cursor_forward :
  pg_wf t db → cursor_reset r = false → (cursor p ≤ cursor r)%Z.
Proof.
  intros Hwf Hreset. destruct (srun_cursor_bounds t Hrun (Hwf tenant)) as ((Hle & _) & _).
  unfold effective_of in Hle. by rewrite Hreset in Hle.
Qed.

Lemma srun_page_cells k c :
  pg_wf t db → (k, c) ∈ payload_writes r → tenant_cells tenant db' !! k = Some c.
Proof.
  intros Hwf.
  pose proof (vr_response _ _ _ _ _ _ _ _ _ _ _ _ Hrun) as (_ & _ & _ & _ & Hch & _).
  intros (row & Hk & -> & _)%(feed_exact _ _ _ (srun_numbered t Hrun (Hwf tenant))
    (srun_page t Hrun) _ _ _ Hch).
  by rewrite tenant_cells_lookup, Hk.
Qed.

(** Cells only grow, under any policy. *)
Lemma srun_cells_le : cells_le (tenant_cells tenant db) (tenant_cells tenant db').
Proof.
  intros k c. rewrite !tenant_cells_lookup. intros (row & Hk & ->)%fmap_Some.
  destruct (srun_tables t Hrun) as (Hlog & _).
  destruct (decide (k ∈ (omap outcome_write outs).*1)) as [Hin|Hnin].
  - apply list_elem_of_fmap in Hin as (w & -> & Hw).
    pose proof Hw as [i Hi]%list_elem_of_lookup.
    rewrite Hlog, (log_after_new _ _ _ i w (srun_accepted_distinct t Hrun) Hi). eexists.
    split; [done|]. left. rewrite pg_column_log_row.
    apply (decide_all_accepted _ _ _ _ _ _ (srun_decided t Hrun)) in Hw as [_ Hout].
    apply (outcome_write_newer _ _ _ _ _ Hout). by rewrite tenant_cells_lookup, Hk.
  - exists (pg_column row). rewrite Hlog, log_after_other, Hk by done. by split.
Qed.

Lemma srun_typed :
  payload_typed p → cells_typed (tenant_cells tenant db) → cells_typed (tenant_cells tenant db').
Proof.
  intros Hp Hdb k c. rewrite tenant_cells_lookup.
  destruct (srun_tables t Hrun) as (-> & _).
  intros (row & [(i & w & Hi & <- & ->)|[_ Hk]]%log_after_cases & ->)%fmap_Some.
  - rewrite pg_column_log_row.
    assert (value_typed (value w.2)) as Hw.
    { destruct w as [k c]. apply (Hp k).
      eapply elem_of_sublist, (srun_sublist t Hrun). by apply list_elem_of_lookup_2 in Hi. }
    unfold stored_cell. simpl. by destruct (value w.2).
  - apply (Hdb k). by rewrite tenant_cells_lookup, Hk.
Qed.
End merged.

(** ** A tenant is a last-writer-wins replica *)
#[refine] Definition pg_replica (security : SyncSecurity) (Hopen : permissive security)
    (Hexact : json_exact t) : LwwReplica PgDb (SyncPayload * string) := {|
  replica_cells := tenant_cells tenant;
  delivery_writes d := payload_writes d.1;
  delivers db d db' :=
    ∃ r, merge_crdt_states_with_security t d.1 d.2 tenant security db = (Ok r, db');
|}.
Proof.
  intros db [p device] db' [r (outs & db2 & e & pg & Hrun)%merge_server_run].
  by eapply srun_absorbs.
Defined.

(** ** The other steps of the database *)

(** Syncs, full and partial, of any device and tenant, and everything that
    leaves the log of this tenant alone: maintenance, other sessions, time. *)
Inductive pg_other (db db' : PgDb) : Prop :=
| po_sync p device tn security res :
    payload_typed p →
    run_transaction (merge_crdt_states_with_security t p device tn security) db = (res, db') →
    pg_other db db'
| po_partial request device tn security res :
    payload_typed (prq_sync request) →
    run_transaction (merge_partial_replica_with_security t request device tn security) db
      = (res, db') →
    pg_other db db'
| po_quiet : pg_step t db db' → tenant_log tenant db' = tenant_log tenant db → pg_other db db'.

Lemma pg_other_step db db' : pg_other db db' → pg_step t db db'.
Proof.
  intros [p device tn security res _ Hr|request device tn security res _ Hr|Hs _];
    [by eapply step_sync|by eapply step_partial|done].
Qed.

Lemma sync_cells p device tn security db r db' :
  payload_typed p → cells_typed (tenant_cells tenant db) →
  merge_crdt_states_with_security t p device tn security db = (Ok r, db') →
  cells_le (tenant_cells tenant db) (tenant_cells tenant db') ∧
  cells_typed (tenant_cells tenant db').
Proof.
  intros Hp Hty Hm. destruct (decide (tn = tenant)) as [->|Hne].
  - destruct (merge_server_run _ _ _ _ _ _ _ _ Hm) as (outs & db2 & e & pg & Hrun).
    split; [by eapply srun_cells_le|by eapply srun_typed].
  - assert (tenant_cells tenant db' = tenant_cells tenant db) as ->; [|done].
    unfold tenant_cells, tenant_log.
    by rewrite (st_log _ _ _ (merge_frame t _ _ Hne _ _ _ _ _ _ Hm)).
Qed.

Lemma pg_other_cells db db' :
  cells_typed (tenant_cells tenant db) → pg_other db db' →
  cells_le (tenant_cells tenant db) (tenant_cells tenant db') ∧
  cells_typed (tenant_cells tenant db').
Proof.
  intros Hty [p device tn security res Hp Hr|request device tn security res Hp Hr|_ Hlog].
  - apply transaction_cases in Hr as [(a & -> & Hr)|(e & db1 & -> & _ & ->)]; [|done].
    by apply sync_cells in Hr.
  - apply transaction_cases in Hr as [(a & -> & Hr)|(e & db1 & -> & _ & ->)]; [|done].
    apply server_partial_run in Hr as (_ & sync & Hr & _). by apply sync_cells in Hr.
  - unfold tenant_cells. by rewrite Hlog.
Qed.

(** ** The instance *)
Variable (security : SyncSecurity).

Definition pg_ready (db : PgDb) : Prop :=
  pg_wf t db ∧ epoch_drawn db ∧ cells_typed (tenant_cells tenant db).
Definition pg_server : SyncServer t PgDb := {|
  srv_cells := tenant_cells tenant;
  srv_step := pg_other;
  srv_send device p := run_transaction (merge_crdt_states_with_security t p device tenant security);
  srv_room _ _ := True;
  srv_pages _ _ := True;
  srv_ready := pg_ready;
|}.
Definition pg_server_session (db : PgDb) (z : CursorRow) (m : cell_map) : Prop :=
  session_ok t tenant db (cu_cursor z) (cu_epoch z) m ∧ cells_typed (tenant_cells tenant db).

Lemma session_ok_start db m :
  pg_wf t db → epoch_drawn db → session_ok t tenant db 0 None m.
Proof. intros. split; [done..|]. by left. Qed.
Lemma session_ok_local db z epoch m m' :
  session_ok t tenant db z epoch m → cells_le m m' → session_ok t tenant db z epoch m'.
Proof.
  intros [? ? ? Hheld] Hle. split; [done..|].
  destruct Hheld as [->|(n & -> & Hn & Hcov)]; [by left|]. right. exists n.
  split; [done|]. split; [done|]. intros He. destruct (Hcov He).
  split; [by eapply covered_mono|done].
Qed.

Lemma pg_other_session db db' z m :
  json_finite → uuids_distinct → pg_server_session db z m → pg_other db db' →
  pg_server_session db' z m ∧ cells_le (tenant_cells tenant db) (tenant_cells tenant db').
Proof.
  intros Hfin Huuid [Hok Hty] Hstep. destruct (pg_other_cells _ _ Hty Hstep) as [Hle Hty'].
  split; [|done]. split; [|done]. by eapply session_step, pg_other_step.
Qed.

(** A committed exchange continues the session. *)
Lemma pg_answered db z m p device r db' :
  json_finite → uuids_distinct → permissive security → json_exact t →
  pg_server_session db z m → payload_typed p → protocol_version p = PROTOCOL_VERSION →
  payload_position p = z →
  merge_crdt_states_with_security t p device tenant security db = (Ok r, db') →
  sync_answered (SyncServer0 := pg_server) pg_server_session m db p r db'.
Proof.
  intros Hfin Huuid Hopen Hexact [Hok Hty] Hp Hv <- Hm.
  pose proof (so_wf _ _ _ _ _ _ Hok) as Hwf.
  destruct (merge_server_run _ _ _ _ _ _ _ _ Hm) as (outs & db2 & e & pg & Hrun).
  assert (∀ m', absorbs m (payload_writes r) m' →
    session_ok t tenant db' (cursor r) (server_epoch r) m' ∧ log_covered tenant db' (cursor r) m' ∧
    (has_more r = false → cursor r = max_seq (tenant_log tenant db'))) as Hnext.
  { intros m' Habs.
    by apply (session_sync t tenant device db (cursor p) (cursor_token p) (server_epoch p) m p
      security r db' m' Hfin Huuid Hok Hv). }
  split.
  - by eapply srun_absorbs.
  - intros k c. by apply (srun_page_cells Hrun).
  - by eapply srun_no_rejections.
  - by apply (srun_cursor_forward Hrun).
  - intros m' Habs. split; [by apply Hnext|]. by eapply srun_typed.
  - intros m' Hlast Habs k c Hc. destruct (Hnext m' Habs) as (_ & Hcov & Hend).
    cbn [srv_cells pg_server] in Hc. rewrite tenant_cells_lookup in Hc.
    apply fmap_Some in Hc as (row & Hk & ->).
    apply (Hcov k row Hk). rewrite Hend by done. by apply max_seq_ge in Hk.
Qed.

#[refine] Definition pg_server_laws (Hfin : json_finite) (Huuid : uuids_distinct)
    (Hopen : permissive security) (Hexact : json_exact t) :
  SyncServerLaws (SyncServer0 := pg_server) t PgDb := {| srv_session := pg_server_session |}.
Proof.
  - intros db m (Hwf & Hdrawn & Hty). split; [by apply session_ok_start|done].
  - by intros db z m [_ ?].
  - intros db db' z m Hs Hstep. by apply pg_other_session.
  - intros db z m m' [Hok Hty] Hle. split; [by eapply session_ok_local|done].
  - intros db z m device p r db' Hs Hp Hv Hz _ Hm.
    apply transaction_cases in Hm as [(a & [= <-] & Hm)|(e & db1 & [=] & _)].
    by eapply pg_answered.
  - intros db z m device p res db' _ Hp _ Hm. apply rtc_once. by apply (po_sync _ _ p device tenant security res).
  - done.
Defined.
End tenant.
End server.
