(* ===== verification/ServerLive.v ===== *)
(** * The PostgreSQL server answers (src/server.rs)

    Within the limits of its columns the server takes every request of a
    device, so it is a [LiveServer]: syncing until caught up against it
    returns. *)
From S2P Require Import Prelude RustStd Error Schema SchemaFacts Crdt Lww Payload Policy Explain.
From S2P Require Import Replica State Feed Merge MergeTheorems Client ClientFacts ClientProgress.
From S2P Require Import SyncServer LiveServer Postgres Server ServerFacts ServerRun ServerFeed.
From S2P Require Import ServerInv ServerSteps ServerSession ServerTotal ServerAnswers ServerSync.

Section server.
Context `{!Pg_externals, !SerdeJson, !StrDebug}.
Variables (t : TableDef) (tenant : string) (security : SyncSecurity).

(** ** Limits

    There is an epoch - the schema is initialized -, no stored text has a
    character zero - JSONB refuses it -, the sequence has numbers and the
    generator UUIDs left for [n] full requests, and the token the device was
    given is an identifier. *)
Record pg_live (n : nat) (device : string) (db : PgDb) : Prop := {
  pl_epoch : is_Some (pg_epoch db);
  pl_text k row : tenant_log tenant db !! k = Some row → no_nul (lr_value row);
  pl_sequence : (seq_after db (n * N.to_nat MAX_PAYLOAD_CELLS) ≤ i64_max)%Z;
  pl_uuids : (pg_uuids db + 2 * N.of_nat n ≤ UUIDS)%N;
  pl_token : token_sound t tenant device db;
}.

Definition pg_live_server : LiveServer t PgDb := {|
  srv_clock db := Z.to_N (db_clock tenant db);
  srv_untold := pg_untold t tenant;
  srv_takes c := no_nul (value c);
  srv_cell_le := feed_cell_le;
  srv_live := pg_live;
|}.

(** What the instance relies on: the encoder and the formatter do not fail,
    UUIDs are identifiers. *)
Record pg_laws : Prop := {
  pg_finite : json_finite;
  pg_distinct : uuids_distinct;
  pg_identify : uuids_identify;
  pg_encodes : value_serde_total;
  pg_debug : debug_laws;
}.

Section exchange.
Hypotheses (Hlaws : pg_laws) (Ht : table_wf t) (Htenant : identifier_ok tenant).
Hypothesis (Hopen : permissive security).
Variables (n : nat) (device : string) (db : PgDb) (p : SyncPayload).
Hypotheses (Hwf : tenant_wf t tenant db) (Hlive : pg_live (S n) device db).
Hypothesis (Hp : servable (SyncServer0 := pg_server t tenant security)
  (LiveServer0 := pg_live_server) db device p).

Lemma live_sound : log_sound (tenant_log tenant db).
Proof.
  intros k row Hk. destruct (tw_clocks _ _ _ Hwf _ _ Hk) as [? _].
  destruct (tw_cells _ _ _ Hwf _ _ Hk) as (_ & _ & Hm). split; [done|]. split; [done|].
  by apply (pl_text _ _ _ Hlive k).
Qed.

Lemma live_can_serve : can_serve t security tenant device (payload_writes p) db.
Proof.
  pose proof (se_request _ _ _ Hp) as Hreq. pose proof (cr_payload _ _ _ Hreq) as Hpay. split.
  - exact live_sound.
  - rewrite length_payload_writes. pose proof (wf_cell_count _ _ Hpay).
    etransitivity; [|exact (pl_sequence _ _ _ Hlive)]. apply seq_after_mono. lia.
  - rewrite list.Forall_forall. intros [k c] Hin.
    destruct (payload_write_wf _ _ _ _ Hpay Hin) as [Hid Hc]. split_and!; [done|done|].
    by apply (se_takes _ _ _ Hp k).
  - intros [k c] Hin. rewrite permissive_outcome by done. cbn [fst snd].
    destruct (agreeing_outcome (tenant_cells tenant db !! k) c) as [b Hb];
      [|rewrite Hb; by eexists].
    intros c' Hc'. split; [|by apply (se_agree _ _ _ Hp k)].
    rewrite tenant_cells_lookup in Hc'. apply fmap_Some in Hc' as (row & Hk & ->).
    destruct (tw_cells _ _ _ Hwf _ _ Hk) as (_ & Hacc & _). by eapply column_accepts_storable.
Qed.

Lemma live_merges :
  ∃ r db', merge_crdt_states_with_security t p device tenant security db = (Ok r, db').
Proof.
  apply (merge_server_total t Ht (pg_debug Hlaws)); [apply Hlaws..|done|apply Hp|exact live_can_serve
    |done|apply Hp| |apply Hlive].
  pose proof (se_clock _ _ _ Hp) as Hc. cbn in Hc. unfold next_clock.
  unfold MAX_STORABLE_LAMPORT in Hc. lia.
Qed.

Lemma live_served r db' :
  epoch_drawn db →
  merge_crdt_states_with_security t p device tenant security db = (Ok r, db') →
  served_page (SyncServer0 := pg_server t tenant security) (LiveServer0 := pg_live_server)
    n device db p r db'.
Proof.
  intros Hdrawn Hm. destruct (merge_server_run _ _ _ _ _ _ _ _ Hm) as (outs & db2 & e & pg & Hrun).
  destruct (srun_tables t Hrun) as (Hlog & _ & Hclock & Hseq & He & _ & _ & _ & token & m & Htok & Hm1 & Hm2 & Hleases & _).
  pose proof (pg_finite Hlaws) as Hfin. pose proof (pg_identify Hlaws) as Huuid.
  assert (pg_uuids db + 2 ≤ UUIDS)%N as Hleft by (pose proof (pl_uuids _ _ _ Hlive); lia).
  assert (source_lamport r = next_clock tenant p db) as Hsrc
    by apply (vr_response _ _ _ _ _ _ _ _ _ _ _ _ Hrun).
  split.
  - by apply (srun_response_wf t Hrun Hfin Hwf); [| |apply Hlive|].
  - cbn [srv_clock pg_live_server]. rewrite Hclock, Hsrc. lia.
  - cbn [srv_clock pg_live_server]. rewrite Hclock. unfold next_clock. lia.
  - exact I.
  - split.
    + rewrite He. by eexists.
    + intros k row. rewrite Hlog. intros [(i & w & Hi & _ & ->)|[_ Hk]]%log_after_cases.
      * apply stored_no_nul. apply list_elem_of_lookup_2 in Hi.
        pose proof (cs_writes _ _ _ _ _ _ live_can_serve) as Hall. rewrite list.Forall_forall in Hall.
        apply (Hall w). by eapply elem_of_sublist, (srun_sublist t Hrun).
      * by apply (pl_text _ _ _ Hlive k).
    + rewrite (srun_seq_after t Hrun). etransitivity; [|exact (pl_sequence _ _ _ Hlive)].
      apply seq_after_mono. pose proof (sublist_length _ _ (srun_sublist t Hrun)) as Hlen.
      rewrite length_payload_writes in Hlen.
      pose proof (wf_cell_count _ _ (cr_payload _ _ _ (se_request _ _ _ Hp))). lia.
    + pose proof (pl_uuids _ _ _ Hlive). lia.
    + intros l. rewrite Hleases, lookup_insert_eq. intros [= <-]. cbn [ls_token].
      by apply (srun_token_ok t Hrun); [| |apply Hlive|].
  - intros bound quota Hq Hqb _ Hsmall Hmore.
    apply (srun_progress t Hrun Hwf (se_version _ _ _ Hp) bound quota); [done|done| |done].
    intros k row Hk. apply Hsmall. cbn [srv_cells pg_server]. by rewrite tenant_cells_lookup, Hk.
Qed.
End exchange.

(** ** The instance *)
Definition pg_live_server_laws (Hlaws : pg_laws) (Ht : table_wf t) (Htenant : identifier_ok tenant)
    (Hopen : permissive security) (Hexact : json_exact t) :
  LiveServerLaws (SyncServer0 := pg_server t tenant security)
    (SyncServerLaws0 := pg_server_laws t tenant security (pg_finite Hlaws) (pg_distinct Hlaws) Hopen Hexact)
    (LiveServer0 := pg_live_server) t PgDb.
Proof.
  split. intros db z m n device p [Hok _] Hlive _ Hp.
  pose proof (so_wf _ _ _ _ _ _ Hok tenant) as Hwf.
  destruct (live_merges Hlaws Ht Htenant Hopen n device db p Hwf Hlive Hp) as (r & db' & Hm).
  exists r, db'. split.
  - cbn [srv_send pg_server]. unfold run_transaction. by rewrite Hm.
  - by apply live_served; [|..|apply (so_drawn _ _ _ _ _ _ Hok)|].
Defined.
End server.
