(* ===== verification/ServerConcurrent.v ===== *)
(** * Concurrent sync requests (src/server.rs)

    Connections run their transactions statement by statement, in any
    interleaving: what a transaction sees of its tenant, what it keeps to
    itself until it commits, the lock on the clock row of the tenant, the
    sequence and the random identifiers that everybody draws from at once.
    PostgreSQL is at its default isolation level, read committed: a statement
    sees what was committed when it begins, and the transaction's own writes.
    A failed statement ends its transaction. The statements of expiry,
    rotation and initialization are one step each. *)
From S2P Require Import Prelude RustStd Error Schema Crdt Policy Explain Replica State Postgres.
From S2P Require Import Server ServerFacts ServerRun ServerInv ServerSteps ServerStatements.

Section concurrent.
Context `{!Pg_externals, !SerdeJson, !StrDebug}.
Variable (t : TableDef).

(** ** Requests *)
Inductive request :=
| RSync (p : SyncPayload)
| RPartial (r : PartialReplicaRequest).
Inductive answer :=
| ASync (p : SyncPayload)
| APartial (r : PartialReplicaResponse).

(** The handler of a request, whole and as a program. *)
Definition request_merge (req : request) (device tenant : string) (security : SyncSecurity)
  : PgM answer :=
  match req with
  | RSync p => (r <-- merge_crdt_states_with_security t p device tenant security ;;
                st_ret (ASync r))%loom
  | RPartial q => (r <-- merge_partial_replica_with_security t q device tenant security ;;
                   st_ret (APartial r))%loom
  end.
Definition request_prog (req : request) (device tenant : string) (security : SyncSecurity)
  : prog answer :=
  match req with
  | RSync p => prog_bind (merge_prog t p device tenant security) (λ r, prog_ret (ASync r))
  | RPartial q => prog_bind (partial_prog t q device tenant security) (λ r, prog_ret (APartial r))
  end.
Lemma run_request req device tenant security db :
  run t device tenant (request_prog req device tenant security) db =
  request_merge req device tenant security db.
Proof.
  destruct req; cbn [request_prog request_merge]; rewrite run_bind; unfold st_bind.
  - rewrite run_merge_prog. by destruct (merge_crdt_states_with_security t _ _ _ _ db) as [[]].
  - rewrite run_partial_prog. by destruct (merge_partial_replica_with_security t _ _ _ _ db) as [[]].
Qed.

(** ** What a transaction has of its own

    Row-level security shows a transaction the rows of its tenant only, and
    it holds the clock row of the tenant: until it ends, its versions of the
    tenant's rows are the ones it works on, and nobody else sees them. The
    lease of the device is its own from the moment it locks it. *)
Record own := {
  ow_clock : option Z;
  ow_rows : option (gmap string (gmap string CrdtValue));
  ow_log : option (gmap (string * string) LogRow);
  ow_audit : list AuditRow;
  ow_epoch : option string;
  ow_lease : option (option Lease);
}.
Definition slot {K A} `{Countable K} (o : option A) (k : K) (m : gmap K A) : gmap K A :=
  partial_alter (λ _, o) k m.

Section view.
Variables (device tenant : string).

(** The tables as the transaction sees them over the committed ones, which is
    also what a [COMMIT] leaves. *)
Definition own_view (o : own) (db : PgDb) : PgDb :=
  {| pg_state := slot (ow_clock o) tenant (pg_state db);
     pg_rows := slot (ow_rows o) tenant (pg_rows db);
     pg_log := slot (ow_log o) tenant (pg_log db);
     pg_sequence := pg_sequence db;
     pg_gap := pg_gap db;
     pg_leases := match ow_lease o with
                  | Some l => slot l (tenant, device, crdt_table t) (pg_leases db)
                  | None => pg_leases db
                  end;
     pg_epoch := pg_epoch db;
     pg_audit := pg_audit db ++ ow_audit o;
     pg_uuids := pg_uuids db;
     pg_now := pg_now db |}.
(** At the lock: the committed rows. *)
Definition own_start (db : PgDb) : own :=
  {| ow_clock := pg_state db !! tenant; ow_rows := pg_rows db !! tenant;
     ow_log := pg_log db !! tenant; ow_audit := []; ow_epoch := None; ow_lease := None |}.
(** After a statement that left [v], begun over the committed [db]. *)
Definition own_after {X} (s : stmt X) (o : own) (db v : PgDb) : own :=
  {| ow_clock := pg_state v !! tenant; ow_rows := pg_rows v !! tenant;
     ow_log := pg_log v !! tenant;
     ow_audit := drop (length (pg_audit db)) (pg_audit v);
     ow_epoch := match s with SEpoch => pg_epoch v | _ => ow_epoch o end;
     ow_lease := match s with
                 | SLease | SUpsertLease _ _ => Some (pg_leases v !! (tenant, device, crdt_table t))
                 | _ => ow_lease o
                 end |}.
End view.

(** ** Connections *)
Record txn := {
  tx_request : request;
  tx_device : string;
  tx_tenant : string;
  tx_security : SyncSecurity;
  tx_own : option own;
  tx_rest : prog answer;
}.
Definition tx_start (req : request) (device tenant : string) (security : SyncSecurity) : txn :=
  {| tx_request := req; tx_device := device; tx_tenant := tenant; tx_security := security;
     tx_own := None; tx_rest := request_prog req device tenant security |}.
Definition tx_next (o : own) (rest : prog answer) (tx : txn) : txn :=
  {| tx_request := tx_request tx; tx_device := tx_device tx; tx_tenant := tx_tenant tx;
     tx_security := tx_security tx; tx_own := Some o; tx_rest := rest |}.

Record conc := { cc_db : PgDb; cc_txns : gmap N txn }.

(** The clock row is locked by the first statement, which waits while another
    transaction of the tenant holds it; every other statement has it. *)
Definition is_clock {X} (s : stmt X) : bool := match s with SClock => true | _ => false end.
Definition granted {X} (c : conc) (i : N) (tx : txn) (s : stmt X) (o : own) : Prop :=
  match tx_own tx with
  | Some o' => o = o'
  | None =>
    is_clock s = true ∧ o = own_start (tx_tenant tx) (cc_db c) ∧
    ∀ j tx', cc_txns c !! j = Some tx' → j ≠ i → tx_tenant tx' = tx_tenant tx → tx_own tx' = None
  end.

(** A statement: what it draws is drawn for good; if it fails, the caller
    rolls the transaction back. *)
Definition conc_stmt {X} (i : N) (tx : txn) (s : stmt X) (k : X → prog answer) (o : own)
    (res : Result X) (v : PgDb) (c : conc) : conc :=
  {| cc_db := set_uuids (pg_uuids v) (set_sequence (pg_sequence v) (cc_db c));
     cc_txns :=
       match res with
       | Ok x => <[i := tx_next (own_after (tx_device tx) (tx_tenant tx) s o (cc_db c) v) (k x) tx]>
                   (cc_txns c)
       | Err _ => delete i (cc_txns c)
       end |}.

(** What a committed transaction answered. *)
Record commit := {
  cm_request : request;
  cm_device : string;
  cm_tenant : string;
  cm_security : SyncSecurity;
  cm_answer : answer;
}.
Definition tx_commit (tx : txn) (a : answer) : commit :=
  {| cm_request := tx_request tx; cm_device := tx_device tx; cm_tenant := tx_tenant tx;
     cm_security := tx_security tx; cm_answer := a |}.

(** What a run is remembered by: the commits, and maintenance with its time. *)
Inductive event :=
| ECommit (cm : commit)
| EExpire (ttl : N) (now : Z)
| ERotate
| EInit (existing existing_crdt : gmap string string).

(** Expiry and rotation wait for locked leases, a rotation is run while no
    merge works with the epoch it replaces ([rotation_race] in ConcurrentDemo
    is what happens otherwise), and the initialization of the schema holds the
    exclusive form of the lock every merge takes. *)
Inductive conc_step (c : conc) : option event → conc → Prop :=
| cs_begin i req device tenant security :
    cc_txns c !! i = None →
    conc_step c None
      {| cc_db := cc_db c; cc_txns := <[i := tx_start req device tenant security]> (cc_txns c) |}
| cs_stmt i tx X (s : stmt X) k o res v :
    cc_txns c !! i = Some tx → tx_rest tx = Do s k → granted c i tx s o →
    exec t (tx_device tx) (tx_tenant tx) s (own_view (tx_device tx) (tx_tenant tx) o (cc_db c))
      = (res, v) →
    conc_step c None (conc_stmt i tx s k o res v c)
| cs_commit i tx o a :
    cc_txns c !! i = Some tx → tx_own tx = Some o → tx_rest tx = Done (Ok a) →
    conc_step c (Some (ECommit (tx_commit tx a)))
      {| cc_db := own_view (tx_device tx) (tx_tenant tx) o (cc_db c);
         cc_txns := delete i (cc_txns c) |}
| cs_rollback i :
    conc_step c None {| cc_db := cc_db c; cc_txns := delete i (cc_txns c) |}
| cs_expire ttl res db :
    expire_cursor_leases ttl (cc_db c) = (res, db) →
    (∀ i tx o, cc_txns c !! i = Some tx → tx_own tx = Some o → ow_lease o ≠ None →
      let key := (tx_tenant tx, tx_device tx, crdt_table t) in
      pg_leases db !! key = pg_leases (cc_db c) !! key) →
    conc_step c (Some (EExpire ttl (pg_now (cc_db c)))) {| cc_db := db; cc_txns := cc_txns c |}
| cs_rotate res db :
    rotate_server_epoch (cc_db c) = (res, db) →
    (∀ i tx o, cc_txns c !! i = Some tx → tx_own tx = Some o →
      ow_epoch o = None ∧ ow_lease o = None) →
    conc_step c (Some ERotate) {| cc_db := db; cc_txns := cc_txns c |}
| cs_init existing existing_crdt res db :
    initialize_server_schema_with t existing existing_crdt (cc_db c) = (res, db) →
    cc_txns c = ∅ →
    conc_step c (Some (EInit existing existing_crdt)) {| cc_db := db; cc_txns := cc_txns c |}
| cs_time n :
    conc_step c None {| cc_db := set_now n (cc_db c); cc_txns := cc_txns c |}.

(** Runs, with their events in order. *)
Inductive conc_run (c : conc) : list event → conc → Prop :=
| cr_nil : conc_run c [] c
| cr_step l c1 e c2 : conc_run c l c1 → conc_step c1 e c2 → conc_run c (l ++ option_list e) c2.
Definition conc_start (db : PgDb) : conc := {| cc_db := db; cc_txns := ∅ |}.

(** ** What a tenant is promised

    Its requests one at a time, between them the maintenance of the run, each
    in the order of its events. Others draw numbers and identifiers and time
    passes at any point. *)
Definition concerns (tenant : string) (e : event) : bool :=
  match e with ECommit cm => String.eqb (cm_tenant cm) tenant | _ => true end.
Inductive quiet_step (db db' : PgDb) : Prop :=
| qs_draw g n m : (pg_sequence db ≤ n)%Z → (pg_uuids db ≤ m)%N →
    db' = set_gap g (set_uuids m (set_sequence n db)) → quiet_step db db'
| qs_time n : db' = set_now n db → quiet_step db db'.
Definition event_step (tenant : string) (e : event) (db db' : PgDb) : Prop :=
  match e with
  | ECommit cm =>
    cm_tenant cm = tenant ∧
    request_merge (cm_request cm) (cm_device cm) tenant (cm_security cm) db = (Ok (cm_answer cm), db')
  | EExpire ttl now => ∃ res, expire_cursor_leases ttl (set_now now db) = (res, db')
  | ERotate => ∃ res, rotate_server_epoch db = (res, db')
  | EInit existing existing_crdt =>
    ∃ res, initialize_server_schema_with t existing existing_crdt db = (res, db')
  end.
Inductive tenant_history (tenant : string) (db0 : PgDb) : list event → PgDb → Prop :=
| th_start : tenant_history tenant db0 [] db0
| th_quiet l db db' :
    tenant_history tenant db0 l db → quiet_step db db' → tenant_history tenant db0 l db'
| th_event l e db db' :
    tenant_history tenant db0 l db → event_step tenant e db db' →
    tenant_history tenant db0 (l ++ [e]) db'.

(** The tables of a tenant, in a database that other tenants use too. *)
Record shows (tenant : string) (db db' : PgDb) : Prop := {
  sh_clock : pg_state db !! tenant = pg_state db' !! tenant;
  sh_rows : pg_rows db !! tenant = pg_rows db' !! tenant;
  sh_log : pg_log db !! tenant = pg_log db' !! tenant;
  sh_leases d c : pg_leases db !! (tenant, d, c) = pg_leases db' !! (tenant, d, c);
  sh_epoch : pg_epoch db = pg_epoch db';
  sh_audit : filter (λ row, au_tenant row = tenant) (pg_audit db)
             = filter (λ row, au_tenant row = tenant) (pg_audit db');
  sh_sequence : (pg_sequence db ≤ pg_sequence db')%Z;
  sh_uuids : (pg_uuids db ≤ pg_uuids db')%N;
}.
End concurrent.
