(* ===== verification/ServerSerial.v ===== *)
(** * Concurrent sync requests are serializable (src/server.rs)

    Whatever the interleaving of ServerConcurrent, each tenant sees its
    requests served one at a time, in the order of their commits. *)
From S2P Require Import Prelude RustStd Error Schema Crdt Policy Explain Replica State Postgres.
From S2P Require Import Server ServerFacts ServerRun ServerInv ServerSteps ServerStatements.
From S2P Require Import ServerConcurrent.

(** ** Slots of a map *)
Section slot.
Context {K A : Type} `{Countable K}.
Lemma slot_lookup (o : option A) (k : K) m : slot o k m !! k = o.
Proof. apply lookup_partial_alter_eq. Qed.
Lemma slot_lookup_ne (o : option A) (k j : K) m : k ≠ j → slot o k m !! j = m !! j.
Proof. apply lookup_partial_alter_ne. Qed.
Lemma slot_insert a (o : option A) (k : K) m : <[k := a]> (slot o k m) = slot (Some a) k m.
Proof. unfold slot. rewrite insert_partial_alter_eq. reflexivity. Qed.
Lemma slot_same (k : K) (m : gmap K A) : slot (m !! k) k m = m.
Proof.
  apply map_eq. intros j. destruct (decide (k = j)) as [<-|Hne];
    [apply slot_lookup|by apply slot_lookup_ne].
Qed.
End slot.

Section serial.
Context `{!Pg_externals, !SerdeJson, !StrDebug}.
Variable (t : TableDef).

Section statement.
Variables (device tenant : string).
Abbreviation view := (own_view t device tenant).
Abbreviation after := (own_after t device tenant).

(** What a statement reads outside the rows of the tenant is the same over
    [D] and over [B]. *)
Definition same_read {X} (s : stmt X) (o : own) (D B : PgDb) : Prop :=
  let same_lease := ow_lease o = None →
    pg_leases B !! (tenant, device, crdt_table t) = pg_leases D !! (tenant, device, crdt_table t) in
  match s with
  | SLog _ _ => next_number B = next_number D
  | SEpoch => pg_epoch B = pg_epoch D
  | SLease => same_lease
  | SUpsertLease _ _ => same_lease ∧ pg_uuids B = pg_uuids D ∧ pg_now B = pg_now D
  | _ => True
  end.
(** What it draws. *)
Definition drawn {X} (s : stmt X) (v B : PgDb) : PgDb :=
  match s with
  | SLog _ _ => set_sequence (pg_sequence v) B
  | SUpsertLease _ _ => set_uuids (pg_uuids v) B
  | _ => B
  end.

Lemma view_rows o B : tenant_rows tenant (view o B) = default ∅ (ow_rows o).
Proof. unfold tenant_rows, own_view. simpl. by rewrite slot_lookup. Qed.
Lemma view_log o B : tenant_log tenant (view o B) = default ∅ (ow_log o).
Proof. unfold tenant_log, own_view. simpl. by rewrite slot_lookup. Qed.
Lemma view_clock o B : pg_state (view o B) !! tenant = ow_clock o.
Proof. unfold own_view. simpl. by rewrite slot_lookup. Qed.

(** A statement that only reads leaves everything as it is. *)
Lemma after_read {X} (s : stmt X) o D B :
  match s with SEpoch | SLease | SUpsertLease _ _ => False | _ => True end →
  view (after s o D (view o D)) B = view o B.
Proof.
  intros Hs. unfold own_after, own_view. cbn. rewrite !slot_lookup, drop_app_length.
  by destruct s.
Qed.

Ltac own_eq :=
  unfold own_view, own_after; cbn;
  rewrite ?slot_lookup, ?slot_insert, ?lookup_insert_eq, ?slot_lookup, <-?app_assoc, ?drop_app_length;
  try reflexivity.

Lemma app_row_local row_id o D x v B :
  exec t device tenant (SAppRow row_id) (view o D) = (Ok x, v) →
  exec t device tenant (SAppRow row_id) (view o B) = (Ok x, view (after (SAppRow row_id) o D v) B).
Proof.
  cbn [exec]. unfold insert_app_row. rewrite !st_modify_ok, !view_rows.
  destruct (default ∅ (ow_rows o) !! row_id); intros ->; own_eq.
Qed.
Lemma column_local row_id column c o D x v B :
  exec t device tenant (SColumn row_id column c) (view o D) = (Ok x, v) →
  exec t device tenant (SColumn row_id column c) (view o B) =
    (Ok x, view (after (SColumn row_id column c) o D v) B).
Proof.
  cbn [exec]. unfold write_server_todo_column. rewrite !st_pure_ok.
  intros (stored & Hst & Hv). exists stored. split; [done|]. revert Hv.
  rewrite !st_modify_ok, !view_rows.
  destruct (default ∅ (ow_rows o) !! row_id); intros ->; own_eq.
Qed.
Lemma log_local key c o D x v B :
  next_number B = next_number D →
  exec t device tenant (SLog key c) (view o D) = (Ok x, v) →
  exec t device tenant (SLog key c) (view o B) =
    (Ok x, view (after (SLog key c) o D v) (set_sequence (pg_sequence v) B)) ∧
  pg_sequence v = next_number D.
Proof.
  intros Hn. cbn [exec]. unfold upsert_log. rewrite !st_pure_ok.
  intros (clock & Hclock & Hv). apply st_pure_ok in Hv as (value & Hval & Hv).
  apply st_bind_ok in Hv as (n & db1 & Hseq & ->%st_modify_ok).
  unfold nextval, st_bind, st_get in Hseq.
  destruct (Z.leb_spec (next_number (view o D)) i64_max) as [Hle|]; [|done].
  unfold st_modify, st_ret in Hseq. injection Hseq as <- <-. destruct x. split; [|done].
  exists clock. split; [done|]. apply st_pure_ok. exists value. split; [done|].
  apply st_bind_ok. exists (next_number (view o B)), (set_sequence (next_number (view o B)) (view o B)).
  unfold nextval, st_bind, st_get.
  change (next_number (view o B)) with (next_number B).
  change (next_number (view o D)) with (next_number D) in *. rewrite Hn.
  rewrite (proj2 (Z.leb_le _ _) Hle). split; [done|]. apply st_modify_ok.
  change (tenant_log tenant (set_sequence ?n ?db)) with (tenant_log tenant db).
  rewrite !view_log. own_eq.
Qed.
Lemma audit_local event o D x v B :
  exec t device tenant (SAudit event) (view o D) = (Ok x, v) →
  exec t device tenant (SAudit event) (view o B) = (Ok x, view (after (SAudit event) o D v) B) ∧
  ∃ row, au_tenant row = tenant ∧ ow_audit (after (SAudit event) o D v) = ow_audit o ++ [row].
Proof.
  cbn [exec]. unfold write_audit_event. rewrite !st_pure_ok.
  intros (clock & Hclock & Hv). apply st_pure_ok in Hv as (current & Hcur & Hv).
  apply st_pure_ok in Hv as (incoming & Hin & Hv). apply st_pure_ok in Hv as (value & Hval & Hv).
  apply st_modify_ok in Hv as ->. destruct x. split.
  - exists clock. split; [done|]. apply st_pure_ok. exists current. split; [done|].
    apply st_pure_ok. exists incoming. split; [done|]. apply st_pure_ok. exists value.
    split; [done|]. apply st_modify_ok. own_eq.
  - eexists. split; [|own_eq]. done.
Qed.
Lemma clock_local o D x v B :
  exec t device tenant SClock (view o D) = (Ok x, v) →
  exec t device tenant SClock (view o B) = (Ok x, view (after SClock o D v) B).
Proof.
  cbn [exec]. unfold tenant_clock, st_bind, st_get, st_modify, st_lift. rewrite !view_clock.
  intros [= -> <-]. f_equal. own_eq.
Qed.
Lemma clock_to_local n o D x v B :
  exec t device tenant (SClockTo n) (view o D) = (Ok x, v) →
  exec t device tenant (SClockTo n) (view o B) = (Ok x, view (after (SClockTo n) o D v) B).
Proof.
  cbn [exec]. unfold update_clock. rewrite !st_pure_ok. intros (z & Hz & Hv). exists z.
  split; [done|]. revert Hv. rewrite !st_modify_ok, !view_clock. case_decide; intros ->; own_eq.
Qed.
Lemma lease_local o D x v B :
  same_read SLease o D B → exec t device tenant SLease (view o D) = (Ok x, v) →
  exec t device tenant SLease (view o B) = (Ok x, view (after SLease o D v) B).
Proof.
  cbn. intros Hread. unfold st_bind, st_get, st_ret. intros [= <- <-].
  f_equal; [f_equal|own_eq]; unfold own_view; cbn; destruct (ow_lease o) as [l|];
    rewrite ?slot_lookup, ?Hread by done; [done..|].
  rewrite <-Hread by done. by rewrite slot_same.
Qed.
Lemma upsert_local next e o D x v B :
  same_read (SUpsertLease next e) o D B →
  exec t device tenant (SUpsertLease next e) (view o D) = (Ok x, v) →
  exec t device tenant (SUpsertLease next e) (view o B) =
    (Ok x, view (after (SUpsertLease next e) o D v) (set_uuids (pg_uuids v) B)).
Proof.
  cbn [same_read exec]. intros (Hread & Hu & Hnow).
  set (key := (tenant, device, crdt_table t)) in *.
  assert (∀ C, pg_leases (view o C) !! key = match ow_lease o with
    | Some l => l | None => pg_leases C !! key end) as Hlease.
  { intros C. unfold own_view. cbn. destruct (ow_lease o); [apply slot_lookup|done]. }
  unfold upsert_lease, draw_uuid, st_bind, st_get, st_modify, st_ret. cbn -[own_view own_after].
  change (pg_uuids (view o B)) with (pg_uuids B). change (pg_uuids (view o D)) with (pg_uuids D).
  rewrite Hu.
  assert (pg_leases (view o B) !! key = pg_leases (view o D) !! key) as ->
    by (rewrite !Hlease; destruct (ow_lease o); [done|by apply Hread]).
  destruct (pg_leases (view o D) !! key) as [l|]; [case_decide|]; intros [= <- <-];
    f_equal; unfold own_after, own_view, set_leases, set_uuids; cbn;
    rewrite ?slot_lookup, ?drop_app_length, ?Hnow, ?lookup_insert_eq;
    f_equal; destruct (ow_lease o); rewrite ?slot_insert; done.
Qed.

Lemma exec_local {X} (s : stmt X) o D x v B :
  same_read s o D B → exec t device tenant s (view o D) = (Ok x, v) →
  exec t device tenant s (view o B) = (Ok x, view (after s o D v) (drawn s v B)).
Proof.
  destruct s; cbn [drawn]; intros Hread Hexec.
  - by apply clock_local.
  - by apply app_row_local.
  - revert Hexec. cbn [exec]. unfold st_bind, st_get, st_lift, select_cell. rewrite !view_log.
    intros [= -> <-]. by rewrite after_read.
  - by apply column_local.
  - by apply log_local.
  - by apply audit_local.
  - by apply clock_to_local.
  - revert Hexec. cbn [exec]. unfold st_bind, st_get, st_ret. rewrite !view_log.
    intros [= -> <-]. by rewrite after_read.
  - revert Hexec. cbn [exec]. unfold st_bind, st_get, st_lift, select_epoch. cbn in Hread |- *.
    rewrite Hread. intros [= -> <-]. f_equal. own_eq.
  - by apply lease_local.
  - revert Hexec. cbn [exec]. unfold st_bind, st_get, st_ret. rewrite !view_log.
    intros [= -> <-]. by rewrite after_read.
  - by apply upsert_local.
  - revert Hexec. cbn [exec]. unfold st_bind, st_get, st_ret. rewrite !view_rows.
    intros [= -> <-]. by rewrite after_read.
  - revert Hexec. cbn [exec]. unfold st_bind, st_get, st_ret. rewrite !view_log.
    intros [= -> <-]. by rewrite after_read.
Qed.

(** ** What statements draw and audit *)
Lemma exec_frame other {X} (s : stmt X) :
  tenant ≠ other → st_keeps (same_tenant other) (exec t device tenant s).
Proof.
  intros Hne. destruct s; cbn [exec];
    first [by apply tenant_clock_frame|by apply insert_app_row_frame|by apply write_column_frame
          |by apply upsert_log_frame|by apply write_audit_frame|by apply update_clock_frame
          |by apply upsert_lease_frame
          |apply st_keeps_bind; [apply _|apply st_keeps_get; apply _|intros ?];
           first [apply st_keeps_lift; apply _|apply st_keeps_ret; apply _]].
Qed.
Lemma exec_counters {X} (s : stmt X) db res v :
  exec t device tenant s db = (res, v) →
  (pg_sequence db ≤ pg_sequence v)%Z ∧ (pg_uuids db ≤ pg_uuids v)%N.
Proof. intros Hexec. by destruct (exec_frame _ s (another_ne tenant) _ _ _ Hexec). Qed.

Definition is_upsert {X} (s : stmt X) : bool :=
  match s with SUpsertLease _ _ => true | _ => false end.
(** Over [B], what the statement drew over [D] - when [D] is what both counters
    were read from. *)
Lemma exec_drawn {X} (s : stmt X) o D x v :
  exec t device tenant s (view o D) = (Ok x, v) →
  match s with
  | SLog _ _ => pg_sequence v = next_number D ∧ pg_uuids v = pg_uuids D
  | SUpsertLease _ _ => pg_sequence v = pg_sequence D ∧ (pg_uuids D < pg_uuids v)%N
  | _ => pg_sequence v = pg_sequence D ∧ pg_uuids v = pg_uuids D
  end ∧ pg_epoch v = pg_epoch D ∧ pg_now v = pg_now D.
Proof.
  intros Hexec.
  assert (v = view (after s o D v) (drawn s v D)) as Hv.
  { assert (same_read s o D D) as Hread by by destruct s.
    pose proof (exec_local s o D x v D Hread Hexec) as Hsame. congruence. }
  destruct s; (split; [|split; rewrite Hv; done]);
    try (split; rewrite Hv; reflexivity).
  - destruct (log_local key incoming o D x v D eq_refl Hexec) as [_ Hn].
    split; [done|]. by rewrite Hv.
  - split; [by rewrite Hv|]. by destruct (upsert_lease_run _ _ _ _ _ _ Hexec) as (n & -> & [? _] & _).
Qed.
Lemma exec_unaudited {X} (s : stmt X) db x v :
  exec t device tenant s db = (Ok x, v) →
  match s with SAudit _ => True | _ => pg_audit v = pg_audit db end.
Proof.
  destruct s; cbn [exec]; try done;
    try (unfold st_bind, st_get, st_ret, st_lift; by intros [= _ <-]).
  - intros ->%st_modify_ok. by case_match.
  - intros (stored & _ & ->%st_modify_ok)%st_pure_ok. by case_match.
  - intros (clock & _ & Hv)%st_pure_ok. apply st_pure_ok in Hv as (value & _ & Hv).
    apply st_bind_ok in Hv as (n & db1 & Hseq & ->%st_modify_ok).
    unfold nextval, st_bind, st_get in Hseq. case_match; [|done]. by injection Hseq as <- <-.
  - intros (z & _ & ->%st_modify_ok)%st_pure_ok. by case_decide.
  - by intros (n & -> & _)%upsert_lease_run.
Qed.
Lemma exec_audit {X} (s : stmt X) o D x v :
  exec t device tenant s (view o D) = (Ok x, v) →
  Forall (λ row, au_tenant row = tenant) (ow_audit o) →
  Forall (λ row, au_tenant row = tenant) (ow_audit (after s o D v)).
Proof.
  intros Hexec Ho. pose proof (exec_unaudited _ _ _ _ Hexec) as Haudit.
  destruct s; try (unfold own_after; cbn [ow_audit]; rewrite Haudit; cbn [own_view pg_audit];
    by rewrite drop_app_length).
  destruct (audit_local _ _ _ _ _ D Hexec) as (_ & row & Hrow & ->).
  apply Forall_app. split; [done|]. by apply Forall_singleton.
Qed.
End statement.

(** ** Identifiers are drawn once

    A request draws identifiers in one statement at most, [b] if it has yet to. *)
Fixpoint draws (b : bool) {A} (q : prog A) : Prop :=
  match q with
  | Done _ => True
  | Do s k => (is_upsert s = true → b = true) ∧ ∀ x, draws (b && negb (is_upsert s)) (k x)
  end.
Lemma draws_more {A} (q : prog A) b : draws false q → draws b q.
Proof.
  revert b. induction q as [|X s k IH]; intros b; [done|]. cbn [draws]. intros [Hs Hk].
  destruct (is_upsert s); [by specialize (Hs eq_refl)|]. split; [done|]. intros x. by apply IH, Hk.
Qed.
Lemma draws_then {A B} (q : prog A) (f : A → prog B) b :
  draws false q → (∀ a, draws b (f a)) → draws b (prog_bind q f).
Proof.
  intros Hq Hf. induction q as [[a|e]|X s k IH]; cbn [prog_bind]; [apply Hf|done|].
  cbn [draws] in Hq |- *. destruct Hq as [Hs Hk].
  destruct (is_upsert s); [by specialize (Hs eq_refl)|]. split; [done|]. intros x.
  rewrite andb_true_r. by apply IH.
Qed.
Lemma draws_before {A B} (q : prog A) (f : A → prog B) b :
  draws b q → (∀ a, draws false (f a)) → draws b (prog_bind q f).
Proof.
  intros Hq Hf. revert b Hq. induction q as [[a|e]|X s k IH]; intros b Hq; cbn [prog_bind];
    [by apply draws_more|done|].
  cbn [draws] in Hq |- *. destruct Hq as [Hs Hk]. split; [done|]. intros x. by apply IH.
Qed.
Lemma draws_collect {A B} (f : A → prog (list B)) l :
  (∀ x, draws false (f x)) → draws false (prog_collect f l).
Proof.
  intros Hf. induction l as [|x l IH]; [done|]. cbn [prog_collect].
  apply draws_then; [apply Hf|]. intros b. by apply draws_then.
Qed.
Lemma draws_check {A B} (r : Result A) (f : A → prog B) b :
  (∀ a, draws b (f a)) → draws b (prog_bind (Done r) f).
Proof. intros Hf. by destruct r; [apply Hf|]. Qed.
Lemma draws_do {X B} (s : stmt X) (f : X → prog B) b :
  is_upsert s = false → (∀ x, draws b (f x)) → draws b (prog_bind (prog_do s) f).
Proof. intros Hs Hf. cbn. rewrite Hs. split; [done|]. intros x. rewrite andb_true_r. apply Hf. Qed.
Ltac draws_step :=
  first [apply draws_check; intros ?|apply draws_do; [reflexivity|intros ?]|exact I].

Lemma draws_audited {B} security event (q : prog B) b :
  draws b q → draws b (prog_bind (audit_prog security event) (λ _, q)).
Proof. intros Hq. unfold audit_prog. destruct (audit_mode security); [done|]. by draws_step. Qed.
Lemma draws_reject security context mutation current kind why :
  draws false (reject_prog security context mutation current kind why).
Proof. unfold reject_prog. repeat draws_step. by apply draws_audited. Qed.
Lemma draws_cell security context row_id cell :
  draws false (cell_prog security context row_id cell).
Proof.
  destruct cell as [column c]. unfold cell_prog. draws_step. draws_step.
  case_match; [|apply draws_reject]. draws_step. case_match; [|apply draws_reject]. draws_step.
  apply draws_then; [case_match; [draws_step|]; by cbn|]. intros _. draws_step.
  by apply draws_audited.
Qed.
Lemma draws_merge p device tenant security : draws true (merge_prog t p device tenant security).
Proof.
  unfold merge_prog. repeat draws_step. apply draws_then.
  { apply draws_collect. intros row. unfold row_prog. draws_step. apply draws_collect, draws_cell. }
  intros rejected. repeat draws_step. cbn. by split.
Qed.
Lemma draws_request req device tenant security :
  draws true (request_prog t req device tenant security).
Proof.
  destruct req as [p|r]; cbn [request_prog].
  { apply draws_before; [apply draws_merge|done]. }
  apply draws_before; [|done]. unfold partial_prog. draws_step.
  apply draws_before; [apply draws_merge|]. intros sync. repeat draws_step.
  apply draws_then; [case_match; by cbn|]. intros rows. by repeat draws_step.
Qed.

(** ** A transaction under way

    [db] is the database of the tenant when its requests so far have run one
    at a time. The transaction has drawn numbers up to [last] with the gaps
    [g], and identifiers - [du] of them, after [u], at time [n]; [l0] is the
    lease it locked. On every database that agrees with what it has read, it
    would have come to the same point alone. *)
Record pace := { pc_last : Z; pc_gap : Z → N; pc_drawn : N; pc_uuids : N; pc_now : Z;
                 pc_lease : option Lease }.
Definition tx_key (tx : txn) : string * string * string :=
  (tx_tenant tx, tx_device tx, crdt_table t).

Record alone (tx : txn) (o : own) (a : pace) (db base : PgDb) : Prop := {
  al_clock : pg_state base !! tx_tenant tx = pg_state db !! tx_tenant tx;
  al_rows : pg_rows base !! tx_tenant tx = pg_rows db !! tx_tenant tx;
  al_log : pg_log base !! tx_tenant tx = pg_log db !! tx_tenant tx;
  al_sequence : pg_sequence base = pg_sequence db;
  al_gap z : (z < pc_last a)%Z → pg_gap base z = pc_gap a z;
  al_epoch e : ow_epoch o = Some e → pg_epoch base = Some e;
  al_lease : ow_lease o ≠ None → pg_leases base !! tx_key tx = pc_lease a;
  al_drawn : pc_drawn a ≠ 0%N → pg_uuids base = pc_uuids a ∧ pg_now base = pc_now a;
}.
(** The counters where the transaction left them. *)
Definition at_pace (a : pace) (base : PgDb) : PgDb :=
  set_uuids (pg_uuids base + pc_drawn a) (set_sequence (pc_last a) base).

Record in_flight (tx : txn) (o : own) (a : pace) (db D : PgDb) : Prop := {
  fl_run base : alone tx o a db base →
    run t (tx_device tx) (tx_tenant tx)
      (request_prog t (tx_request tx) (tx_device tx) (tx_tenant tx) (tx_security tx)) base =
    run t (tx_device tx) (tx_tenant tx) (tx_rest tx)
      (own_view t (tx_device tx) (tx_tenant tx) o (at_pace a base));
  fl_last : (pg_sequence db ≤ pc_last a ≤ pg_sequence D)%Z;
  fl_uuids : pc_drawn a ≠ 0%N →
    (pg_uuids db ≤ pc_uuids a)%N ∧ (pc_uuids a + pc_drawn a ≤ pg_uuids D)%N ∧ ow_lease o ≠ None;
  fl_epoch e : ow_epoch o = Some e → pg_epoch D = Some e;
  fl_lease : ow_lease o ≠ None → pg_leases D !! tx_key tx = pc_lease a;
  fl_draws : draws (pc_drawn a =? 0)%N (tx_rest tx);
  fl_audit : Forall (λ row, au_tenant row = tx_tenant tx) (ow_audit o);
}.

Lemma own_start_view device tenant db base :
  pg_state base !! tenant = pg_state db !! tenant → pg_rows base !! tenant = pg_rows db !! tenant →
  pg_log base !! tenant = pg_log db !! tenant →
  own_view t device tenant (own_start tenant db) base = base.
Proof.
  intros Hc Hr Hl. unfold own_view, own_start. cbn. rewrite <-Hc, <-Hr, <-Hl, !slot_same, app_nil_r.
  by destruct base.
Qed.

(** At the lock nothing has happened yet. *)
Lemma in_flight_start tx db D :
  tx_rest tx = request_prog t (tx_request tx) (tx_device tx) (tx_tenant tx) (tx_security tx) →
  shows (tx_tenant tx) db D →
  in_flight tx (own_start (tx_tenant tx) D)
    {| pc_last := pg_sequence db; pc_gap := λ _, 0%N; pc_drawn := 0; pc_uuids := 0; pc_now := 0;
       pc_lease := None |} db D.
Proof.
  intros Hrest [Hc Hr Hl _ _ _ Hseq _]. split; try done.
  - intros base [Hc' Hr' Hl' Hs' _ _ _ _]. rewrite Hrest. f_equal. symmetry.
    rewrite own_start_view; unfold at_pace; cbn; [|congruence..]. rewrite N.add_0_r, <-Hs'.
    by destruct base.
  - cbn. rewrite Hrest. apply draws_request.
Qed.

(** What the others do does not disturb it. *)
Lemma in_flight_others tx o a db db' D D' :
  in_flight tx o a db D →
  (∀ base, alone tx o a db' base → alone tx o a db base) →
  (pg_sequence db' ≤ pc_last a)%Z → (pc_drawn a ≠ 0 → pg_uuids db' ≤ pc_uuids a)%N →
  (pg_sequence D ≤ pg_sequence D')%Z → (pg_uuids D ≤ pg_uuids D')%N →
  (ow_epoch o ≠ None → pg_epoch D' = pg_epoch D) →
  (ow_lease o ≠ None → pg_leases D' !! tx_key tx = pg_leases D !! tx_key tx) →
  in_flight tx o a db' D'.
Proof.
  intros [Hrun Hlast Huu He Hl Hd Ha] Halone Hdb Hdb' HD HD' HeD HlD. split; try done.
  - intros base Hb. by apply Hrun, Halone.
  - lia.
  - intros Hne. destruct (Huu Hne) as (_ & ? & ?). split_and!; [by apply Hdb'|lia|done].
  - intros e Ho. rewrite HeD by (by rewrite Ho). by apply He.
  - intros Ho. rewrite HlD by done. by apply Hl.
Qed.

(** ** One statement of a transaction under way *)
Definition pace_after {X} (tx : txn) (s : stmt X) (o : own) (a : pace) (D v : PgDb) : pace :=
  let lease := match ow_lease o with Some _ => pc_lease a | None => pg_leases D !! tx_key tx end in
  match s with
  | SLog _ _ =>
    {| pc_last := pg_sequence v;
       pc_gap := λ z, if decide (z = pc_last a) then Z.to_N (pg_sequence v - pc_last a - 1)
                      else pc_gap a z;
       pc_drawn := pc_drawn a; pc_uuids := pc_uuids a; pc_now := pc_now a;
       pc_lease := pc_lease a |}
  | SLease =>
    {| pc_last := pc_last a; pc_gap := pc_gap a; pc_drawn := pc_drawn a; pc_uuids := pc_uuids a;
       pc_now := pc_now a; pc_lease := lease |}
  | SUpsertLease _ _ =>
    {| pc_last := pc_last a; pc_gap := pc_gap a; pc_drawn := pg_uuids v - pg_uuids D;
       pc_uuids := pg_uuids D; pc_now := pg_now D; pc_lease := lease |}
  | _ => a
  end.
Lemma next_number_gt db : (pg_sequence db < next_number db)%Z.
Proof. unfold next_number, draw_after. lia. Qed.

Lemma alone_next o1 q tx o a db base : alone (tx_next o1 q tx) o a db base → alone tx o a db base.
Proof. by intros []. Qed.

Section step.
Context (tx : txn) (o : own) (a : pace) (db D : PgDb).
Context (X : Type) (s : stmt X) (k : X → prog answer) (x : X) (v : PgDb).
Hypothesis Hin : in_flight tx o a db D.
Hypothesis Hrest : tx_rest tx = Do s k.
Hypothesis Hexec : exec t (tx_device tx) (tx_tenant tx) s
  (own_view t (tx_device tx) (tx_tenant tx) o D) = (Ok x, v).

Abbreviation o' := (own_after t (tx_device tx) (tx_tenant tx) s o D v).
Abbreviation a' := (pace_after tx s o a D v).

Lemma step_undrawn : is_upsert s = true → pc_drawn a = 0%N.
Proof.
  intros Hs. pose proof (fl_draws _ _ _ _ _ Hin) as Hd. rewrite Hrest in Hd.
  destruct Hd as [Hd _]. specialize (Hd Hs). by apply N.eqb_eq.
Qed.

(** A database that agrees with what it has read after the statement agrees
    with what it had read before. *)
Lemma alone_before base : alone tx o' a' db base → alone tx o a db base.
Proof.
  pose proof (exec_drawn _ _ s o D x v Hexec) as (Hdrawn & Hepoch & _).
  pose proof (next_number_gt D) as Hgt. destruct (fl_last _ _ _ _ _ Hin) as [_ Hlast].
  pose proof step_undrawn as Hundrawn.
  intros [Hc Hr Hl Hs Hg He Hle Hd]. split; try done.
  - intros z Hz. destruct s; try (by apply Hg). cbn in Hg. destruct Hdrawn as [Hseq _].
    rewrite Hg by lia. rewrite decide_False by lia. done.
  - intros e Ho. destruct s; try (by apply He). cbn in He.
    apply He. rewrite Hepoch. by apply (fl_epoch _ _ _ _ _ Hin).
  - intros Ho. destruct s; try (by apply Hle); cbn in Hle; rewrite Hle by done;
      by destruct (ow_lease o).
  - intros Hne. destruct s; try (by apply Hd). by destruct (Hne (Hundrawn eq_refl)).
Qed.

(** On such a database the statement reads the same. *)
Lemma alone_read base :
  alone tx o' a' db base →
  same_read (tx_device tx) (tx_tenant tx) s o D (at_pace a base).
Proof.
  pose proof (exec_drawn _ _ s o D x v Hexec) as (Hdrawn & Hepoch & _).
  pose proof (next_number_gt D) as Hgt. destruct (fl_last _ _ _ _ _ Hin) as [_ Hlast].
  pose proof step_undrawn as Hundrawn.
  intros [Hc Hr Hl Hs Hg He Hle Hd]. destruct s; cbn; try done.
  - destruct Hdrawn as [Hseq _]. cbn in Hg. specialize (Hg (pc_last a)).
    rewrite decide_True in Hg by done. unfold next_number at 1, draw_after. cbn.
    rewrite Hg by lia. rewrite Hseq. lia.
  - cbn in He. rewrite Hepoch in He. destruct (pg_epoch D) as [e|] eqn:HD; [by apply He|].
    cbn in Hexec. unfold st_bind, st_get, st_lift, select_epoch in Hexec. cbn in Hexec.
    by rewrite HD in Hexec.
  - intros Hnone. cbn in Hle. rewrite Hnone in Hle. by apply Hle.
  - cbn in Hle, Hd. assert (pc_drawn a = 0%N) as Hzero by (by apply Hundrawn).
    destruct Hd as [Hu Hn]; [lia|]. split_and!; [|rewrite Hu, Hzero; lia|done].
    intros Hnone. rewrite Hnone in Hle. by apply Hle.
Qed.
Lemma alone_drawn base :
  alone tx o' a' db base → drawn s v (at_pace a base) = at_pace a' base.
Proof.
  pose proof (exec_drawn _ _ s o D x v Hexec) as (Hdrawn & _ & _).
  intros [Hc Hr Hl Hs Hg He Hle Hd]. destruct s; try done.
  cbn in Hd |- *. unfold at_pace. cbn. destruct Hd as [Hu _]; [lia|].
  unfold set_uuids, set_sequence. cbn. f_equal. rewrite Hu. lia.
Qed.

Lemma in_flight_stmt :
  (pg_uuids db ≤ pg_uuids D)%N →
  in_flight (tx_next o' (k x) tx) o' a' db
    (set_uuids (pg_uuids v) (set_sequence (pg_sequence v) D)).
Proof.
  intros Huuids. pose proof Hin as [Hrun Hlast Huu He Hl Hd Ha].
  pose proof (exec_drawn _ _ s o D x v Hexec) as (Hdrawn & Hepoch & _).
  pose proof (exec_counters _ _ s _ _ _ Hexec) as [Hseq Hu]. cbn in Hseq, Hu.
  pose proof (next_number_gt D) as Hgt.
  rewrite Hrest in Hrun, Hd. cbn [draws] in Hd. destruct Hd as [Hs Hk].
  split; cbn [tx_next tx_request tx_device tx_tenant tx_security tx_rest].
  - intros base Hb%alone_next. rewrite Hrun by (by apply alone_before). cbn [run]. unfold st_bind.
    rewrite (exec_local _ _ s o D x v (at_pace a base)); [|by apply alone_read|exact Hexec].
    by rewrite alone_drawn.
  - destruct s; cbn; lia.
  - intros Hne. destruct s; cbn in Hne |- *;
      try (destruct (Huu Hne) as (? & ? & ?); split_and!; [done|lia|done]).
    + split_and!; [lia|lia|done].
  - intros e Ho. cbn [pg_epoch set_uuids set_sequence]. destruct s; cbn in Ho; try by apply He.
    by rewrite <-Hepoch.
  - intros Ho. cbn [pg_leases set_uuids set_sequence]. destruct s; cbn in Ho |- *; try by apply Hl.
    all: destruct (ow_lease o); [by apply Hl|done].
  - specialize (Hk x). destruct s; cbn [is_upsert negb pace_after pc_drawn] in *;
      rewrite ?andb_true_r, ?andb_false_r in Hk; try done.
    by apply draws_more.
  - by apply (exec_audit _ _ s o D x v).
Qed.
End step.

(** ** A commit is the request served alone *)
Definition base_of (a : pace) (db : PgDb) : PgDb :=
  set_gap (pc_gap a)
    (if decide (pc_drawn a = 0%N) then db else set_now (pc_now a) (set_uuids (pc_uuids a) db)).
Lemma base_alone tx o a db D :
  in_flight tx o a db D → shows (tx_tenant tx) db D → alone tx o a db (base_of a db).
Proof.
  intros [_ _ _ He Hl _ _] [_ _ _ Hleases Hepoch _ _ _]. unfold base_of.
  case_decide as Hd; split; cbn; try done.
  - intros e Ho. rewrite Hepoch. by apply He.
  - intros Ho. rewrite <-Hl by done. apply Hleases.
  - intros e Ho. rewrite Hepoch. by apply He.
  - intros Ho. rewrite <-Hl by done. apply Hleases.
Qed.
Lemma set_gap_own db : set_gap (pg_gap db) db = db.
Proof. by destruct db. Qed.
Lemma base_quiet tenant db0 l tx o a db D :
  in_flight tx o a db D → tenant_history t tenant db0 l db →
  tenant_history t tenant db0 l (base_of a db).
Proof.
  intros Hin Hh. unfold base_of. case_decide as Hd.
  - eapply th_quiet; [exact Hh|]. by apply (qs_draw _ _ (pc_gap a) (pg_sequence db) (pg_uuids db));
      [| |destruct db].
  - destruct (fl_uuids _ _ _ _ _ Hin Hd) as (Hu & _ & _).
    apply (th_quiet _ _ _ _ (set_now (pc_now a) db)); [|].
    + eapply th_quiet; [exact Hh|]. by eapply qs_time.
    + apply (qs_draw _ _ (pc_gap a) (pg_sequence db) (pc_uuids a)); [done..|by destruct db].
Qed.

Lemma serial_commit tenant db0 l tx o a db D x :
  in_flight tx o a db D → tx_tenant tx = tenant → shows tenant db D →
  tx_rest tx = Done (Ok x) → tenant_history t tenant db0 l db →
  ∃ db', tenant_history t tenant db0 (l ++ [ECommit (tx_commit tx x)]) db' ∧
         shows tenant db' (own_view t (tx_device tx) tenant o D).
Proof.
  intros Hin <- Hshow Hrest Hh.
  pose proof (fl_run _ _ _ _ _ Hin _ (base_alone _ _ _ _ _ Hin Hshow)) as Hrun.
  rewrite Hrest, run_request in Hrun. cbn [run] in Hrun.
  eexists. split.
  { eapply (th_event _ _ _ _ (ECommit (tx_commit tx x)) (base_of a db)); [|by split; [|exact Hrun]].
    by apply (base_quiet _ _ _ tx o a db D). }
  destruct Hin as [_ Hlast Huu _ _ _ Ha], Hshow as [Hc Hr Hl Hle He Hau Hs Hu].
  assert (pg_leases (base_of a db) = pg_leases db ∧ pg_epoch (base_of a db) = pg_epoch db ∧
    pg_audit (base_of a db) = pg_audit db) as (Hbl & Hbe & Hba)
    by (unfold base_of; by case_decide).
  split; cbn [own_view at_pace pg_state pg_rows pg_log pg_leases pg_epoch pg_audit pg_sequence
    pg_uuids set_uuids set_sequence]; rewrite ?slot_lookup; try done.
  - intros d cc. rewrite Hbl. destruct (ow_lease o) as [ol|]; [|apply Hle].
    destruct (decide ((tx_tenant tx, tx_device tx, crdt_table t) = (tx_tenant tx, d, cc))) as [<-|Hne].
    + by rewrite !slot_lookup.
    + rewrite !slot_lookup_ne by done. apply Hle.
  - by rewrite Hbe.
  - rewrite Hba, !list.filter_app. by f_equal.
  - lia.
  - unfold base_of. case_decide as Hd; cbn; [lia|]. by destruct (Huu Hd) as (_ & ? & _).
Qed.

(** ** The others *)
Lemma shows_counters tenant db D n m :
  shows tenant db D → (pg_sequence D ≤ n)%Z → (pg_uuids D ≤ m)%N →
  shows tenant db (set_uuids m (set_sequence n D)).
Proof. intros [] Hn Hm. split; cbn; try done; lia. Qed.
Lemma shows_now tenant db D n : shows tenant db D → shows tenant db (set_now n D).
Proof. by intros []. Qed.
Lemma shows_other tenant device other o db D :
  Forall (λ row, au_tenant row = other) (ow_audit o) → other ≠ tenant →
  shows tenant db D → shows tenant db (own_view t device other o D).
Proof.
  intros Ha Hne [Hc Hr Hl Hle He Hau Hs Hu]. split; cbn; rewrite ?slot_lookup_ne by done; try done.
  - intros d cc. rewrite Hle. destruct (ow_lease o); [|done].
    rewrite slot_lookup_ne; [done|]. by intros [= ? _ _].
  - rewrite list.filter_app, Hau. rewrite <-(app_nil_r (filter _ (pg_audit D))) at 1. f_equal.
    symmetry. clear -Ha Hne. induction Ha as [|row rows Hrow _ IH]; [done|].
    rewrite list.filter_cons, decide_False; [done|]. cbn in Hrow. by rewrite Hrow.
Qed.

(** Maintenance, as the requests of one tenant see it. *)
Record same_tenant_tables (db db' : PgDb) : Prop := {
  sm_state : pg_state db' = pg_state db;
  sm_rows : pg_rows db' = pg_rows db;
  sm_log : pg_log db' = pg_log db;
  sm_sequence : pg_sequence db' = pg_sequence db;
}.
Lemma alone_tables tx o a db db' base :
  same_tenant_tables db db' → alone tx o a db' base → alone tx o a db base.
Proof. intros [Hc Hr Hl Hs] []. split; try done; by rewrite <-?Hc, <-?Hr, <-?Hl, <-?Hs. Qed.

Lemma expire_shown tenant db0 l db D ttl res D' :
  expire_cursor_leases ttl D = (res, D') →
  tenant_history t tenant db0 l db → shows tenant db D →
  ∃ db', tenant_history t tenant db0 (l ++ [EExpire ttl (pg_now D)]) db' ∧ shows tenant db' D' ∧
    same_tenant_tables db db' ∧ pg_uuids db' = pg_uuids db.
Proof.
  intros Hexp Hh [Hc Hr Hl Hle He Hau Hs Hu].
  destruct (expire_cursor_leases ttl (set_now (pg_now D) db)) as [res' db'] eqn:Hexp'.
  exists db'. split; [eapply th_event; [exact Hh|by exists res']|].
  revert Hexp Hexp'. unfold expire_cursor_leases, st_bind, st_lift, st_get, st_modify, st_ret.
  destruct (ok_or (i64_try_from_u64 ttl) _) as [secs|e];
    intros [= _ <-] [= _ <-]; (split; [|by split]); split; cbn; try done.
  intros d cc. apply option_eq. intros ls. rewrite !map_lookup_filter_Some, Hle. done.
Qed.
Lemma draw_shown tenant db0 l db D :
  tenant_history t tenant db0 l db → shows tenant db D →
  tenant_history t tenant db0 l (set_uuids (pg_uuids D) db).
Proof.
  intros Hh Hshow. eapply th_quiet; [exact Hh|].
  apply (qs_draw _ _ (pg_gap db) (pg_sequence db) (pg_uuids D)); [done|apply Hshow|by destruct db].
Qed.
Lemma rotate_shown tenant db0 l db D res D' :
  rotate_server_epoch D = (res, D') →
  tenant_history t tenant db0 l db → shows tenant db D →
  ∃ db', tenant_history t tenant db0 (l ++ [ERotate]) db' ∧ shows tenant db' D' ∧
    same_tenant_tables db db'.
Proof.
  intros Hrot Hh Hshow. pose proof (draw_shown _ _ _ _ _ Hh Hshow) as Hh'.
  destruct Hshow as [Hc Hr Hl Hle He Hau Hs Hu].
  destruct (rotate_server_epoch (set_uuids (pg_uuids D) db)) as [res' db'] eqn:Hrot'.
  exists db'. split; [eapply th_event; [exact Hh'|by exists res']|].
  revert Hrot Hrot'.
  unfold rotate_server_epoch, transactional, draw_uuid, st_bind, st_get, st_modify, st_ret, st_lift.
  cbn. rewrite He. destruct (pg_epoch D) as [epoch|] eqn:Hepoch;
    intros [= _ <-] [= _ <-]; (split; [|by split]); split; cbn; try done; congruence.
Qed.
Lemma init_shown tenant db0 l db D existing existing_crdt res D' :
  initialize_server_schema_with t existing existing_crdt D = (res, D') →
  tenant_history t tenant db0 l db → shows tenant db D →
  ∃ db', tenant_history t tenant db0 (l ++ [EInit existing existing_crdt]) db' ∧
    shows tenant db' D' ∧ same_tenant_tables db db'.
Proof.
  intros Hinit Hh Hshow. pose proof (draw_shown _ _ _ _ _ Hh Hshow) as Hh'.
  destruct Hshow as [Hc Hr Hl Hle He Hau Hs Hu].
  destruct (initialize_server_schema_with t existing existing_crdt (set_uuids (pg_uuids D) db))
    as [res' db'] eqn:Hinit'.
  exists db'. split; [eapply th_event; [exact Hh'|by exists res']|].
  revert Hinit Hinit'. unfold initialize_server_schema_with, insert_epoch, transactional, draw_uuid,
    st_bind, st_get, st_modify, st_ret, st_lift.
  destruct (if decide (existing = ∅) then Ok [] else postgres_migration_sql t existing);
    [|intros [= _ <-] [= _ <-]; by repeat split].
  destruct (postgres_crdt_migration_sql t existing_crdt);
    [|intros [= _ <-] [= _ <-]; by repeat split].
  cbn. rewrite He. destruct (pg_epoch D) eqn:HD; rewrite <-HD in He; intros [= _ <-] [= _ <-]; (split; [|by split]);
    split; cbn; try done; exact He.
Qed.
Lemma expire_keeps ttl D res D' :
  expire_cursor_leases ttl D = (res, D') →
  pg_sequence D' = pg_sequence D ∧ pg_uuids D' = pg_uuids D ∧ pg_epoch D' = pg_epoch D.
Proof.
  unfold expire_cursor_leases, st_bind, st_lift, st_get, st_modify, st_ret.
  destruct (ok_or _ _); by intros [= _ <-].
Qed.
Lemma rotate_keeps D res D' :
  rotate_server_epoch D = (res, D') →
  pg_sequence D' = pg_sequence D ∧ (pg_uuids D ≤ pg_uuids D')%N.
Proof.
  unfold rotate_server_epoch, transactional, draw_uuid, st_bind, st_get, st_modify, st_ret, st_lift.
  destruct (pg_epoch D); intros [= _ <-]; cbn; split; try done. lia.
Qed.

(** ** The invariant *)
Definition of_tenant (tenant : string) (l : list event) : list event :=
  filter (λ e, concerns tenant e = true) l.
Definition flights (tenant : string) (txns : gmap N txn) (db D : PgDb) : Prop :=
  ∀ i tx o, txns !! i = Some tx → tx_tenant tx = tenant → tx_own tx = Some o →
  ∃ a, in_flight tx o a db D.
Record serial (db0 : PgDb) (l : list event) (c : conc) : Prop := {
  sr_fresh i tx : cc_txns c !! i = Some tx → tx_own tx = None →
    tx_rest tx = request_prog t (tx_request tx) (tx_device tx) (tx_tenant tx) (tx_security tx);
  sr_holder i j tx tx' : cc_txns c !! i = Some tx → cc_txns c !! j = Some tx' →
    tx_tenant tx = tx_tenant tx' → tx_own tx ≠ None → tx_own tx' ≠ None → i = j;
  sr_tenant tenant : ∃ db, tenant_history t tenant db0 (of_tenant tenant l) db ∧
    shows tenant db (cc_db c) ∧ flights tenant (cc_txns c) db (cc_db c);
}.

Lemma flights_delete tenant txns i db D :
  flights tenant txns db D → flights tenant (delete i txns) db D.
Proof. intros Hf j tx o Hj. apply lookup_delete_Some in Hj as [_ Hj]. by apply (Hf j). Qed.
(** Nothing a transaction depends on has changed. *)
Lemma flights_grow tenant txns db D n m :
  flights tenant txns db D → (pg_sequence D ≤ n)%Z → (pg_uuids D ≤ m)%N →
  flights tenant txns db (set_uuids m (set_sequence n D)).
Proof.
  intros Hf Hn Hm i tx o Hi Ht Ho. destruct (Hf i tx o Hi Ht Ho) as [a Hin]. exists a.
  apply (in_flight_others tx o a db db D _ Hin); cbn; try done.
  - apply (fl_last _ _ _ _ _ Hin).
  - intros Hne. apply (fl_uuids _ _ _ _ _ Hin Hne).
Qed.
(** Maintenance that leaves alone what it depends on. *)
Lemma flights_maintain tenant txns db db' D D' :
  flights tenant txns db D → same_tenant_tables db db' →
  (pg_sequence D ≤ pg_sequence D')%Z → (pg_uuids D ≤ pg_uuids D')%N →
  (∀ i tx o, txns !! i = Some tx → tx_own tx = Some o →
     (ow_lease o ≠ None → pg_uuids db' = pg_uuids db) ∧
     (ow_epoch o ≠ None → pg_epoch D' = pg_epoch D) ∧
     (ow_lease o ≠ None → pg_leases D' !! tx_key tx = pg_leases D !! tx_key tx)) →
  flights tenant txns db' D'.
Proof.
  intros Hf Hsame Hn Hm Hkeep i tx o Hi Ht Ho. destruct (Hf i tx o Hi Ht Ho) as [a Hin].
  destruct (Hkeep i tx o Hi Ho) as (Huu & He & Hl). exists a.
  apply (in_flight_others tx o a db db' D D' Hin); try done.
  - intros base. by apply alone_tables.
  - rewrite (sm_sequence _ _ Hsame). apply (fl_last _ _ _ _ _ Hin).
  - intros Hne. destruct (fl_uuids _ _ _ _ _ Hin Hne) as (? & _ & Hlease). by rewrite Huu.
Qed.

(** A statement of the transaction [i]. *)
Lemma serial_granted db0 l c i tx X (s : stmt X) k o :
  serial db0 l c → cc_txns c !! i = Some tx → tx_rest tx = Do s k → granted c i tx s o →
  ∃ db a, tenant_history t (tx_tenant tx) db0 (of_tenant (tx_tenant tx) l) db ∧
    shows (tx_tenant tx) db (cc_db c) ∧ in_flight tx o a db (cc_db c).
Proof.
  intros [Hfresh _ Htenant] Hi Hrest Hgrant.
  destruct (Htenant (tx_tenant tx)) as (db & Hh & Hshow & Hf). exists db.
  unfold granted in Hgrant. destruct (tx_own tx) as [o1|] eqn:Hown.
  - subst o1. destruct (Hf i tx o Hi eq_refl Hown) as [a Hin]. by exists a.
  - destruct Hgrant as (_ & -> & _). eexists. split; [done|]. split; [done|].
    apply in_flight_start; [by apply (Hfresh i)|done].
Qed.
Lemma granted_alone db0 l c i j tx tx' X (s : stmt X) o :
  serial db0 l c → cc_txns c !! i = Some tx → granted c i tx s o →
  cc_txns c !! j = Some tx' → i ≠ j → tx_tenant tx' = tx_tenant tx → tx_own tx' = None.
Proof.
  intros [_ Hholder _] Hi Hgrant Hj Hne Ht. unfold granted in Hgrant.
  destruct (tx_own tx) as [o1|] eqn:Hown.
  - destruct (tx_own tx') eqn:Hown'; [|done]. destruct Hne.
    by apply (Hholder i j tx tx'); rewrite ?Hown, ?Hown'.
  - destruct Hgrant as (_ & _ & Hothers). by apply (Hothers j).
Qed.

Lemma serial_stmt db0 l c i tx X (s : stmt X) k o res v :
  serial db0 l c → cc_txns c !! i = Some tx → tx_rest tx = Do s k → granted c i tx s o →
  exec t (tx_device tx) (tx_tenant tx) s (own_view t (tx_device tx) (tx_tenant tx) o (cc_db c))
    = (res, v) →
  serial db0 l (conc_stmt t i tx s k o res v c).
Proof.
  intros Hser Hi Hrest Hgrant Hexec.
  assert (∀ j tx', cc_txns c !! j = Some tx' → i ≠ j → tx_tenant tx' = tx_tenant tx →
    tx_own tx' = None) as Halone
    by (intros j tx' Hj Hne Ht; by apply (granted_alone _ _ _ _ j tx tx' _ s o Hser Hi Hgrant)).
  pose proof (exec_counters _ _ s _ _ _ Hexec) as [Hseq Hu]. cbn in Hseq, Hu.
  pose proof Hser as [Hfresh Hholder Htenant].
  destruct res as [x|e]; cycle 1.
  { split; cbn.
    - intros j tx' [_ Hj]%lookup_delete_Some. by apply (Hfresh j).
    - intros j j' tx1 tx2 [_ Hj]%lookup_delete_Some [_ Hj']%lookup_delete_Some. by apply (Hholder j j' tx1 tx2).
    - intros tenant. destruct (Htenant tenant) as (db & Hh & Hshow & Hf). exists db.
      split; [done|]. split; [by apply shows_counters|]. by apply flights_delete, flights_grow. }
  split; cbn.
  - intros j tx' [[<- <-]|[_ Hj]]%lookup_insert_Some; [done|]. by apply (Hfresh j).
  - intros j j' tx1 tx2 [[<- <-]|[Hne Hj]]%lookup_insert_Some [[<- <-]|[Hne' Hj']]%lookup_insert_Some;
      cbn; [done| | |by apply (Hholder j j' tx1 tx2)].
    + intros Ht _ Ho. destruct Ho. by apply (Halone j').
    + intros Ht Ho _. destruct Ho. by apply (Halone j).
  - intros tenant. destruct (decide (tenant = tx_tenant tx)) as [->|Hne].
    + destruct (serial_granted _ _ _ _ _ _ _ _ _ Hser Hi Hrest Hgrant) as (db & a & Hh & Hshow & Hin).
      exists db. split; [done|]. split; [by apply shows_counters|].
      intros j tx' o' [[<- <-]|[Hne Hj]]%lookup_insert_Some Ht Ho.
      * cbn in Ho. injection Ho as <-. eexists.
        apply (in_flight_stmt tx o a db (cc_db c) _ s k x v Hin Hrest Hexec), Hshow.
      * by rewrite (Halone j tx' Hj Hne Ht) in Ho.
    + destruct (Htenant tenant) as (db & Hh & Hshow & Hf). exists db.
      split; [done|]. split; [by apply shows_counters|].
      intros j tx' o' [[<- <-]|[_ Hj]]%lookup_insert_Some Ht Ho; [by destruct Hne|].
      by apply (flights_grow _ _ _ _ _ _ Hf Hseq Hu j tx' o').
Qed.

Lemma of_tenant_snoc tenant l e :
  of_tenant tenant (l ++ [e]) =
  of_tenant tenant l ++ (if decide (concerns tenant e = true) then [e] else []).
Proof.
  unfold of_tenant. by rewrite list.filter_app.
Qed.
Lemma serial_commit_step db0 l c i tx o x :
  serial db0 l c → cc_txns c !! i = Some tx → tx_own tx = Some o → tx_rest tx = Done (Ok x) →
  serial db0 (l ++ [ECommit (tx_commit tx x)])
    {| cc_db := own_view t (tx_device tx) (tx_tenant tx) o (cc_db c);
       cc_txns := delete i (cc_txns c) |}.
Proof.
  intros [Hfresh Hholder Htenant] Hi Hown Hrest. split; cbn [cc_db cc_txns].
  - intros j tx' [_ Hj]%lookup_delete_Some. by apply (Hfresh j).
  - intros j j' tx1 tx2 [_ Hj]%lookup_delete_Some [_ Hj']%lookup_delete_Some. by apply (Hholder j j' tx1 tx2).
  - destruct (Htenant (tx_tenant tx)) as (db & Hh & Hshow & Hf).
    destruct (Hf i tx o Hi eq_refl Hown) as [a Hin].
    intros tenant. rewrite of_tenant_snoc. cbn [concerns cm_tenant tx_commit].
    case_decide as Ht; [apply String.eqb_eq in Ht as <-|].
    + destruct (serial_commit _ _ _ _ _ _ _ _ _ Hin eq_refl Hshow Hrest Hh) as (db' & Hh' & Hshow').
      exists db'. split; [done|]. split; [done|].
      intros j tx' o' [Hne Hj]%lookup_delete_Some Ht Ho. destruct Hne.
      apply (Hholder i j tx tx' Hi Hj); [done|by rewrite Hown|by rewrite Ho].
    + destruct (Htenant tenant) as (db1 & Hh1 & Hshow1 & Hf1). exists db1. rewrite app_nil_r.
      split; [done|]. split; [by apply shows_other; [apply (fl_audit _ _ _ _ _ Hin)|intros Heq; apply Ht; by apply String.eqb_eq|]|].
      apply flights_delete. intros j tx' o' Hj Ht' Ho'.
      destruct (Hf1 j tx' o' Hj Ht' Ho') as [a' Hin']. exists a'.
      apply (in_flight_others tx' o' a' db1 db1 (cc_db c) _ Hin'); cbn; try done.
      * apply (fl_last _ _ _ _ _ Hin').
      * intros Hne. apply (fl_uuids _ _ _ _ _ Hin' Hne).
      * intros _. destruct (ow_lease o); [|done]. rewrite slot_lookup_ne; [done|].
        unfold tx_key. rewrite Ht'. intros [= Heq _]. apply Ht. by apply String.eqb_eq.
Qed.

Lemma conc_step_serial db0 l c e c' :
  conc_step t c e c' → serial db0 l c → serial db0 (l ++ option_list e) c'.
Proof.
  intros Hstep Hser. pose proof Hser as [Hfresh Hholder Htenant].
  destruct Hstep as [i req device tenant security Hi|i tx X s k o res v Hi Hrest Hgrant Hexec
    |i tx o a Hi Hown Hrest|i|ttl res D' Hexp Hguard|res D' Hrot Hguard
    |existing existing_crdt res D' Hinit Hempty|n]; 
    try change (option_list (Some ?e)) with [e]; try change (option_list None) with (@nil event);
    rewrite ?app_nil_r.
  - split; cbn.
    + intros j tx [[<- <-]|[_ Hj]]%lookup_insert_Some; [done|]. by apply (Hfresh j).
    + intros j j' tx1 tx2 [[<- <-]|[Hne Hj]]%lookup_insert_Some [[<- <-]|[Hne' Hj']]%lookup_insert_Some;
        cbn; [done|done|done|by apply (Hholder j j' tx1 tx2)].
    + intros tenant'. destruct (Htenant tenant') as (db & Hh & Hshow & Hf). exists db.
      split; [done|]. split; [done|].
      intros j tx o [[<- <-]|[_ Hj]]%lookup_insert_Some; [done|]. by apply (Hf j tx o).
  - by apply serial_stmt.
  - by apply serial_commit_step.
  - split; cbn.
    + intros j tx' [_ Hj]%lookup_delete_Some. by apply (Hfresh j).
    + intros j j' tx1 tx2 [_ Hj]%lookup_delete_Some [_ Hj']%lookup_delete_Some. by apply (Hholder j j' tx1 tx2).
    + intros tenant. destruct (Htenant tenant) as (db & Hh & Hshow & Hf). exists db.
      split; [done|]. split; [done|]. by apply flights_delete.
  - split; [done|done|]. cbn [cc_db cc_txns]. intros tenant. rewrite of_tenant_snoc.
    cbn [concerns decide]. rewrite decide_True by done.
    destruct (Htenant tenant) as (db & Hh & Hshow & Hf).
    destruct (expire_shown _ _ _ _ _ _ _ _ Hexp Hh Hshow) as (db' & Hh' & Hshow' & Hsame & Huu).
    exists db'. split; [done|]. split; [done|].
    pose proof (expire_keeps _ _ _ _ Hexp) as (Hs & Hu & He).
    apply (flights_maintain _ _ db db' (cc_db c)); [done|done|lia|lia|].
    intros i tx o Hi Ho. split; [done|]. split; [done|]. intros Hl. by apply (Hguard i tx o Hi Ho Hl).
  - split; [done|done|]. cbn [cc_db cc_txns]. intros tenant. rewrite of_tenant_snoc.
    cbn [concerns]. rewrite decide_True by done.
    destruct (Htenant tenant) as (db & Hh & Hshow & Hf).
    destruct (rotate_shown _ _ _ _ _ _ _ Hrot Hh Hshow) as (db' & Hh' & Hshow' & Hsame).
    exists db'. split; [done|]. split; [done|].
    pose proof (rotate_keeps _ _ _ Hrot) as (Hs & Hu).
    apply (flights_maintain _ _ db db' (cc_db c)); [done|done|lia|lia|].
    intros i tx o Hi Ho. destruct (Hguard i tx o Hi Ho) as [-> ->]. done.
  - rewrite Hempty. split; [done|done|]. cbn [cc_db cc_txns]. intros tenant. rewrite of_tenant_snoc.
    cbn [concerns]. rewrite decide_True by done.
    destruct (Htenant tenant) as (db & Hh & Hshow & Hf).
    destruct (init_shown _ _ _ _ _ _ _ _ _ Hinit Hh Hshow) as (db' & Hh' & Hshow' & Hsame).
    by exists db'.
  - split; [done|done|]. cbn. intros tenant. destruct (Htenant tenant) as (db & Hh & Hshow & Hf).
    exists db. split; [done|]. split; [by apply shows_now|].
    apply (flights_maintain _ _ db db (cc_db c)); done.
Qed.

(** A history is a run of the server of ServerSteps. *)
Lemma history_steps tenant db0 l db : tenant_history t tenant db0 l db → rtc (pg_step t) db0 db.
Proof.
  assert (∀ db n, pg_step t db (set_now n db)) as Htime by (intros; by eapply step_time).
  induction 1 as [|l db db' _ IH Hq|l e db db' _ IH He]; [done|..].
  - eapply rtc_r; [exact IH|]. destruct Hq as [g n m Hn Hm ->|n ->]; [|done].
    apply step_other. split; try done. exists []. by rewrite app_nil_r.
  - destruct e as [cm|ttl now| |existing existing_crdt]; cbn [event_step] in He.
    + eapply rtc_r; [exact IH|]. destruct He as [_ Hm].
      destruct (cm_request cm) as [p|r]; cbn [request_merge] in Hm;
        apply st_bind_ok in Hm as (resp & db1 & Hm & [_ ->]%st_ret_ok).
      * eapply (step_sync _ _ _ p (cm_device cm) tenant (cm_security cm) (Ok resp)).
        unfold run_transaction. by rewrite Hm.
      * eapply (step_partial _ _ _ r (cm_device cm) tenant (cm_security cm) (Ok resp)).
        unfold run_transaction. by rewrite Hm.
    + destruct He as [res He]. eapply rtc_r; [eapply rtc_r; [exact IH|apply Htime]|].
      by eapply step_expire.
    + destruct He as [res He]. eapply rtc_r; [exact IH|]. by eapply step_rotate.
    + destruct He as [res He]. eapply rtc_r; [exact IH|]. by eapply step_init.
Qed.

End serial.
