(* ===== verification/MultiServer.v ===== *)
(** * Several tables in one PostgreSQL database (src/server.rs, src/schema.rs)

    The tables of a contract have application and log tables of their own,
    and share everything else: the clock rows of the tenants, the sequence,
    the leases - keyed by the log table -, the server epoch, the audit log.
    A sync of one table is to every other one a session that draws numbers
    and moves a clock; so a device syncs all its tables against such a
    database as it would sync each one alone - provided the names of the
    relations are distinct after PostgreSQL has cut them ([pg_apart]). *)
From S2P Require Import Prelude RustStd Error Schema SchemaFacts Crdt Lww Payload Policy Explain.
From S2P Require Import Replica State Feed Merge MergeTheorems Sqlite Client ClientFacts ClientInv.
From S2P Require Import ClientLocal ClientAck ClientDelta ClientScopes ClientOps SyncServer ClientSync.
From S2P Require Import ClientTotal ClientProgress LiveServer ClientTermination SharedServer.
From S2P Require Import MultiTable MultiTableLive.
From S2P Require Import Postgres Server ServerFacts ServerRun ServerFeed ServerInv ServerSteps.
From S2P Require Import ServerSession ServerTotal ServerAnswers ServerSync ServerLive.

(** ** The database

    Application and log tables are relations of one schema, and PostgreSQL
    keeps the first 63 bytes of a name: relations whose names agree there are
    one relation. *)
Inductive PgTable :=
| PgApp (rows : gmap string (gmap string (gmap string CrdtValue)))
| PgLog (cells : gmap string (gmap (string * string) LogRow)).
Definition pg_name (name : string) : string := String.substring 0 63 name.
Record MultiPg := {
  mp_state : gmap string Z;
  mp_tables : gmap string PgTable;
  mp_sequence : Z;
  mp_gap : Z → N;
  mp_leases : gmap (string * string * string) Lease;
  mp_epoch : option string;
  mp_audit : list AuditRow;
  mp_uuids : N;
  mp_now : Z;
}.

(** What the statements for one table can name. *)
Definition pg_view (t : TableDef) (m : MultiPg) : PgDb :=
  {| pg_state := mp_state m;
     pg_rows := match mp_tables m !! pg_name (td_name t) with Some (PgApp rows) => rows | _ => ∅ end;
     pg_log := match mp_tables m !! pg_name (crdt_table t) with Some (PgLog cells) => cells | _ => ∅ end;
     pg_sequence := mp_sequence m; pg_gap := mp_gap m;
     pg_leases := mp_leases m; pg_epoch := mp_epoch m; pg_audit := mp_audit m;
     pg_uuids := mp_uuids m; pg_now := mp_now m |}.
Definition pg_put (t : TableDef) (db : PgDb) (m : MultiPg) : MultiPg :=
  {| mp_state := pg_state db;
     mp_tables := <[pg_name (td_name t) := PgApp (pg_rows db)]>
                    (<[pg_name (crdt_table t) := PgLog (pg_log db)]> (mp_tables m));
     mp_sequence := pg_sequence db; mp_gap := pg_gap db;
     mp_leases := pg_leases db; mp_epoch := pg_epoch db; mp_audit := pg_audit db;
     mp_uuids := pg_uuids db; mp_now := pg_now db |}.

#[export, refine] Instance pg_table_view : TableView MultiPg PgDb :=
  {| view := pg_view; put := pg_put;
     view_ok t := pg_name (td_name t) ≠ pg_name (crdt_table t) |}.
Proof.
  intros t db m Hok. unfold pg_view, pg_put. cbn [mp_tables].
  rewrite (lookup_insert_ne _ _ (pg_name (crdt_table t))) by done. rewrite !lookup_insert_eq. by destruct db.
Defined.

(** The tables of a contract have relations of their own in PostgreSQL, also
    after their names are cut to 63 bytes: no two tables, logs or indexes of
    the schema and none of the server's own have the same name. *)
Definition pg_metadata : list string :=
  ["loomabase_state"; "loomabase_cursor_lease"; "loomabase_server_state"; "loomabase_audit_log";
   "loomabase_seq"; "loomabase_audit_log_tenant_created_idx"; "loomabase_audit_log_cell_idx"].
Record pg_apart (tables : list TableDef) : Prop := {
  pa_apps t u : t ∈ tables → u ∈ tables → td_name t ≠ td_name u →
    pg_name (td_name t) ≠ pg_name (td_name u);
  pa_logs t u : t ∈ tables → u ∈ tables → td_name t ≠ td_name u →
    pg_name (crdt_table t) ≠ pg_name (crdt_table u);
  pa_cross t u : t ∈ tables → u ∈ tables → pg_name (td_name t) ≠ pg_name (crdt_table u);
  pa_indexes t u : t ∈ tables → u ∈ tables →
    Forall (λ index, pg_name (crdt_table u +:+ index)
                     ∉ [pg_name (td_name t); pg_name (crdt_table t)])
      ["_clock_idx"; "_seq_idx"];
  pa_metadata t : t ∈ tables →
    pg_name (td_name t) ∉ pg_metadata ∧ pg_name (crdt_table t) ∉ pg_metadata;
}.

Section multi.
Context `{!Pg_externals, !SerdeJson, !StrDebug}.

(** ** What a sync of [u] does outside the tables of [u] *)
Record elsewhere (u : TableDef) (db db' : PgDb) : Prop := {
  el_clock tenant : (db_clock tenant db ≤ db_clock tenant db')%Z ∧
    (db_clock tenant db ≤ i64_max → db_clock tenant db' ≤ i64_max)%Z;
  el_leases tenant device c : c ≠ crdt_table u →
    pg_leases db' !! (tenant, device, c) = pg_leases db !! (tenant, device, c);
  el_epoch : pg_epoch db' = pg_epoch db;
  el_audit : ∃ rows, pg_audit db' = pg_audit db ++ rows;
  el_counters : counters_le db db';
  el_now : pg_now db' = pg_now db;
}.

Lemma run_elsewhere u security p device tenant db outs db2 epoch pg r db' :
  server_run u security p device tenant db outs db2 epoch pg r db' →
  merge_crdt_states_with_security u p device tenant security db = (Ok r, db') →
  elsewhere u db db'.
Proof.
  intros Hrun Hm.
  destruct (srun_tables u Hrun) as (_ & _ & Hclock & _ & He & Hnow & Haudit & _ & token & n & _ & _ & _ & Hl & _).
  split.
  - intros other. destruct (decide (tenant = other)) as [<-|Hne].
    + pose proof (vr_next _ _ _ _ _ _ _ _ _ _ _ _ Hrun) as Hnext. rewrite Hclock.
      unfold next_clock, I64_MAX, i64_max in *. lia.
    + unfold db_clock.
      rewrite (st_state _ _ _ (merge_frame u _ _ Hne _ _ _ _ _ _ Hm)). by split.
  - intros tn d c Hc. rewrite Hl, lookup_insert_ne; [done|congruence].
  - by rewrite He, (vr_epoch _ _ _ _ _ _ _ _ _ _ _ _ Hrun).
  - destruct (sv_audit _ _ _ _ _ _ _ (srun_served u Hrun)) as (rows & Hrows & _). exists rows.
    rewrite Haudit, Hrows. done.
  - exact (frame_counters _ tenant (λ o Hne, merge_frame u _ _ Hne _ _ _) _ _ _ Hm).
  - exact Hnow.
Qed.

Lemma sync_elsewhere u security p device tenant db res db' :
  run_transaction (merge_crdt_states_with_security u p device tenant security) db = (res, db') →
  elsewhere u db db'.
Proof.
  intros [(r & -> & Hm)|(e & db1 & -> & Hm & ->)]%transaction_cases.
  - destruct (merge_server_run _ _ _ _ _ _ _ _ Hm) as (outs & db2 & epoch & pg & Hrun).
    by eapply run_elsewhere.
  - pose proof (frame_counters _ tenant (λ o Hne, merge_frame u _ _ Hne _ _ _) _ _ _ Hm) as Hc.
    split; try done; [exists []; simpl; by rewrite app_nil_r|by destruct Hc].
Qed.

(** What it is to the other tables. *)
Lemma elsewhere_sessions tables t u m db' :
  pg_apart tables → t ∈ tables → u ∈ tables →
  td_name u ≠ td_name t → elsewhere u (pg_view u m) db' →
  other_sessions t (pg_view t m) (pg_view t (pg_put u db' m)) ∧
  pg_log (pg_view t (pg_put u db' m)) = pg_log (pg_view t m).
Proof.
  intros Hapart Ht Hu Hne [Hclock Hleases He Haudit Hc Hnow].
  assert (crdt_table u ≠ crdt_table t) as Hlog by by apply other_log.
  pose proof (pa_logs _ Hapart u t Hu Ht Hne) as Hlogs.
  pose proof (pa_apps _ Hapart u t Hu Ht Hne) as Happs.
  pose proof (pa_cross _ Hapart u t Hu Ht) as Hut. pose proof (pa_cross _ Hapart t u Ht Hu) as Htu.
  assert (pg_log (pg_view t (pg_put u db' m)) = pg_log (pg_view t m)) as Hsame.
  { unfold pg_view, pg_put. cbn [pg_log mp_tables].
    by rewrite (lookup_insert_ne _ _ _ _ Hut), (lookup_insert_ne _ _ _ _ Hlogs). }
  split; [|done]. split; [|exact Hsame|exact Hclock| |exact He|exact Haudit|by destruct Hc|exact Hnow].
  - unfold pg_view, pg_put. cbn [pg_rows mp_tables].
    by rewrite (lookup_insert_ne _ _ _ _ Happs), lookup_insert_ne by by apply not_eq_sym.
  - intros tn d. apply (Hleases tn d (crdt_table t)). done.
Qed.

(** ** One tenant of it *)
Section tenant.
Variables (tenant : string) (security : SyncSecurity).

#[local] Instance pg_one t : SyncServer t PgDb := pg_server t tenant security.
#[local] Instance pg_one_live t : LiveServer t PgDb := pg_live_server t tenant.
Definition multi_server t : SyncServer t MultiPg := viewed_server t (V := PgDb).
Definition multi_live t : LiveServer t MultiPg := viewed_live t (V := PgDb).
#[local] Existing Instance multi_server.
#[local] Existing Instance multi_live.

Lemma multi_ok tables t :
  pg_apart tables → t ∈ tables → view_ok (S:=MultiPg) (V:=PgDb) t.
Proof. intros Hapart Ht. by apply (pa_cross _ Hapart). Qed.
Lemma multi_other tables t u device p m res m' :
  pg_apart tables → t ∈ tables → u ∈ tables → td_name u ≠ td_name t → srv_send (t:=u) device p m = (res, m') →
  elsewhere u (pg_view u m) (pg_view u m') ∧
  other_sessions t (pg_view t m) (pg_view t m') ∧
  pg_log (pg_view t m') = pg_log (pg_view t m).
Proof.
  intros Hapart Ht Hu Hne [Hm Hm']%(through_run u (multi_ok _ _ Hapart Hu)). apply sync_elsewhere in Hm as Hel. split; [done|].
  cbn [view put pg_table_view] in *. rewrite Hm'. by apply (elsewhere_sessions tables).
Qed.

Lemma multi_shared tables : pg_apart tables → SharedServer tables MultiPg.
Proof.
  intros Hapart. split. intros t u device p m res m' Ht Hu Hne _ Hsend.
  destruct (multi_other tables t u _ _ _ _ _ Hapart Ht Hu Hne Hsend) as (_ & Hother & Hlog).
  assert (tenant_log tenant (pg_view t m') = tenant_log tenant (pg_view t m)) as Hl
    by (unfold tenant_log; by rewrite Hlog).
  split; [|split; [|done]].
  - apply (viewed_steps t (multi_ok _ _ Hapart Ht)), rtc_once, po_quiet; [by apply step_other|exact Hl].
  - cbn. unfold tenant_cells. by rewrite Hl.
Qed.

Lemma multi_shared_live tables :
  pg_apart tables → identifier_ok tenant → SharedLive tables MultiPg.
Proof.
  intros Hapart Htenant. split.
  { intros t n device m _ [H1' H2' H3' H4' H5']. split; [done|done| |lia|done].
    etransitivity; [|exact H3']. apply seq_after_mono. lia. }
  intros t u n device p m r m' Ht Hu Hne Hreq [L1 L2 L3 L4 L5] Hsend.
  destruct (multi_other tables t u _ _ _ _ _ Hapart Ht Hu Hne Hsend) as (Hel & Hother & Hlog).
  assert (tenant_log tenant (pg_view t m') = tenant_log tenant (pg_view t m)) as Hl
    by (unfold tenant_log; by rewrite Hlog).
  pose proof (os_epoch _ _ _ Hother) as He. pose proof (os_leases _ _ _ Hother) as Hls.
  destruct (through_run u (multi_ok _ _ Hapart Hu) _ _ _ _ Hsend) as [Hm _].
  apply transaction_cases in Hm as [(a & [= <-] & Hm)|(e & db1 & [=] & _)].
  destruct (merge_server_run _ _ _ _ _ _ _ _ Hm) as (outs & db2 & epoch & pg & Hrun).
  destruct (srun_tables u Hrun) as (_ & _ & _ & _ & _ & _ & _ & _ & token & k & _ & Hk1 & Hk2 & _).
  pose proof (sublist_length _ _ (srun_sublist u Hrun)) as Hlen. rewrite length_payload_writes in Hlen.
  pose proof (wf_cell_count _ _ (cr_payload _ _ _ Hreq)) as Hcount.
  cbn [view pg_table_view] in *.
  split; [split|split].
  - change (is_Some (pg_epoch (pg_view t m'))). by rewrite He.
  - intros key row. change (tenant_log tenant (pg_view t m') !! key = Some row → no_nul (lr_value row)).
    rewrite Hl. apply L2.
  - change (seq_after (pg_view u m') (n * N.to_nat MAX_PAYLOAD_CELLS) ≤ i64_max)%Z.
    rewrite (srun_seq_after u Hrun).
    rewrite (seq_after_eq (pg_view u m) (pg_view t m)) in L3 by done.
    etransitivity; [|exact L3]. apply seq_after_mono. lia.
  - change (pg_uuids (pg_view u m') + 2 * N.of_nat n ≤ UUIDS)%N.
    change (pg_uuids (pg_view u m)) with (pg_uuids (pg_view t m)) in Hk1. lia.
  - intros l. change (pg_leases (pg_view t m') !! (tenant, device, crdt_table t) = Some l →
      identifier_ok (ls_token l)). rewrite Hls. apply L5.
  - intros z. change (pg_untold t tenant (pg_view t m') device z = pg_untold t tenant (pg_view t m) device z).
    unfold pg_untold, pg_effective. by rewrite Hl, He, Hls.
  - destruct (os_clock _ _ _ Hother tenant) as [Hle _].
    change (Z.to_N (db_clock tenant (pg_view t m)) ≤ Z.to_N (db_clock tenant (pg_view t m'))
      ≤ N.max (Z.to_N (db_clock tenant (pg_view t m))) (Z.to_N (db_clock tenant (pg_view t m'))))%N. lia.
Qed.

(** ** A device and all its tables *)
Section device.
Context `{!SqlText_externals}.
Variables (full partial : list TableDef) (device : string).
Hypotheses (Hlaws : pg_laws) (Htenant : identifier_ok tenant) (Hopen : permissive security).
Hypotheses (Htables : ∀ t, t ∈ full ++ partial → table_wf t) (Hpg : pg_apart full)
  (Hreals : ∀ t, t ∈ full → json_exact t).

Definition multi_laws t (Ht : t ∈ full) : SyncServerLaws t MultiPg :=
  viewed_server_laws t (multi_ok _ _ Hpg Ht) (laws := pg_server_laws t tenant security (pg_finite Hlaws)
    (pg_distinct Hlaws) Hopen (Hreals t Ht)).
Lemma multi_live_laws t (Ht : t ∈ full) :
  LiveServerLaws (SyncServerLaws0 := multi_laws t Ht) t MultiPg.
Proof.
  apply (viewed_live_laws t (multi_ok _ _ Hpg Ht)), (pg_live_server_laws t tenant security Hlaws); [|done].
  apply Htables. set_solver.
Qed.

(** C5: A device with several tables and a PostgreSQL database that holds
    them all. The names of tables, logs, indexes and triggers are distinct in
    SQLite and, cut to 63 bytes, in PostgreSQL ([tables_apart], [pg_apart];
    [Contract::new] does not check it, and a contract of [x] and [x_crdt] is
    excluded), the policies deny nothing ([permissive]), and the values of
    the synced columns come back from JSONB as they were ([json_exact]: no
    real drifts). Then, after any interleaving of edits, overlapping syncs
    and lost answers, when no sync is under way and the clocks, the sequence
    and the UUIDs have room for the pages of every table, syncing the tables
    one after the other succeeds - although each sync moves the clock of the
    device and of the tenant, the sequence and the generator under the
    others - and leaves every table with exactly the cells the tenant has of
    it, and nothing left to send. *)
Theorem device_returns_on_postgres bound quota top (s0 s : DeviceSys (W:=MultiPg)) st :
  f64_text_exact → tables_apart (full ++ partial) →
  (quota ≤ MAX_RESPONSE_CELLS)%N → (quota * bound ≤ MAX_RESPONSE_BYTES)%N → (1 ≤ bound)%N →
  device ≠ SERVER_DEVICE_ID → (top ≤ MAX_STORABLE_LAMPORT)%N →
  device_start full device s0 → rtc (device_step full partial device) s0 s →
  (∀ t, t ∈ full → ds_flight s !! td_name t = None) →
  clock_ready device top (length full) (ds_edge s) st →
  (∀ t, t ∈ full →
    table_ready device bound quota top (length full) t (edge_view t (ds_edge s)) (ds_server s)) →
  ∃ s', device_sync_all full device s = (Ok tt, s') ∧
    ∀ t, t ∈ full →
      client_cells t (edge_view t (ds_edge s')) ≡ tenant_cells tenant (pg_view t (ds_server s')) ∧
      dirty_writes t (edge_view t (ds_edge s')) = [].
Proof.
  intros Hfloat Hapart Hq Hqb Hb Hdev Htop Hstart Hsteps Hidle Hclock Hready.
  pose proof (multi_shared full Hpg) as Hserver.
  pose proof (multi_shared_live full Hpg Htenant) as Hshared.
  destruct (device_sync_all_synced full partial device multi_laws multi_live_laws Hfloat Htables
    Hapart bound quota top Hq Hqb Hb Hdev Htop s0 s st Hstart Hsteps Hidle Hclock Hready)
    as (s' & Hrun & Hall).
  exists s'. split; [exact Hrun|]. intros t Ht. destruct (Hall t Ht) as [Heq Hclean].
  split; [exact Heq|by apply clean_dirty].
Qed.
End device.
End tenant.
End multi.
