(* ===== verification/ServerPartial.v ===== *)
(** * Partial replicas on the PostgreSQL server (src/server.rs) *)
From S2P Require Import Prelude RustStd Error Schema Crdt Lww Payload Policy Explain Replica.
From S2P Require Import State Feed Merge Membership Postgres Server ServerFacts ServerRun.
From S2P Require Import ServerFeed ServerInv ServerSteps.

Section partial.
Context `{!Pg_externals, !SerdeJson, !StrDebug}.
Variable (t : TableDef).

(** ** The snapshot *)
Lemma server_snapshot_loop l acc snap :
  foldM server_snapshot_cell acc l = Ok snap →
  sn_rows snap = foldl (λ rows e, row_insert rows e.1.1 e.1.2 e.2) (sn_rows acc)
                   ((λ e : log_entry, (e.1, pg_column e.2)) <$> l).
Proof.
  revert acc; induction l as [|[k row] l IH]; intros acc; cbn [foldM].
  { by intros [= <-]. }
  unfold server_snapshot_cell at 1. destruct (MAX_PAYLOAD_CELLS <? _)%N; [done|].
  destruct (decode_log row) as [c|] eqn:Hc; [|done]. apply decode_log_inv in Hc as [_ ->].
  cbn [mbind result_bind]. destruct (feed_cell_bytes k (pg_column row)); [|done].
  cbn [mbind result_bind]. destruct (MAX_RESPONSE_BYTES <? _)%N; [done|].
  intros Hr. apply IH in Hr as ->. by rewrite fmap_cons.
Qed.

Lemma elem_of_select_snapshot members log k row :
  (k, row) ∈ select_snapshot members log ↔ log !! k = Some row ∧ k.1 ∈ members.
Proof.
  unfold select_snapshot. rewrite merge_sort_Permutation, list_elem_of_filter, elem_of_bt_iter.
  simpl. tauto.
Qed.
Lemma select_snapshot_keys members log : NoDup (select_snapshot members log).*1.
Proof.
  unfold select_snapshot. rewrite merge_sort_Permutation.
  eapply sublist_NoDup; [apply (NoDup_bt_keys log)|]. apply fmap_sublist, sublist_filter.
Qed.

Lemma elem_of_select_members i rows id :
  (N.of_nat (length (select_members i rows)) ≤ limit i)%N →
  id ∈ select_members i rows ↔ ∃ row, rows !! id = Some row ∧ row_selected i (id, row) = true.
Proof.
  unfold select_members. set (l := merge_sort collate_le _). intros Hlen.
  assert (take (S (N.to_nat (limit i))) l = l) as ->.
  { apply take_ge. rewrite length_take in Hlen. lia. }
  unfold l. rewrite merge_sort_Permutation, list_elem_of_fmap. split.
  - intros ([id' row] & -> & [Hsel Hin%elem_of_bt_iter]%list_elem_of_filter). by exists row.
  - intros (row & Hrow & Hsel). exists (id, row). split; [done|].
    apply list_elem_of_filter. by rewrite elem_of_bt_iter.
Qed.

(** What a partial merge answers, from the tables after its merge. *)
Lemma partial_snapshot r device tenant security db resp db' :
  merge_partial_replica_with_security t r device tenant security db = (Ok resp, db') →
  (∀ id, id ∈ member_ids resp ↔
     ∃ row, tenant_rows tenant db' !! id = Some row ∧ row_selected (interest r) (id, row) = true) ∧
  (∀ k c, (k, c) ∈ payload_writes (prs_sync resp) ↔
     k.1 ∈ member_ids resp ∧ tenant_cells tenant db' !! k = Some c) ∧
  members_wf (member_ids resp) ∧ response_validate resp t = Ok tt ∧
  evicted_row_ids resp
    = filter (λ id, binary_search (member_ids resp) id = false) (known_member_ids r).
Proof.
  intros (_ & sync & _ & Hlimit & Hids & _ & snap & Hsnap & -> & Hval)%server_partial_run.
  simpl in *. set (members := select_members _ _) in *.
  assert (sn_rows snap = group_rows ((λ e : log_entry, (e.1, pg_column e.2))
    <$> select_snapshot members (tenant_log tenant db'))) as Hrows.
  { destruct members as [|id ids] eqn:Hm; [|by apply server_snapshot_loop in Hsnap].
    injection Hsnap as <-. simpl.
    assert (select_snapshot [] (tenant_log tenant db') = []) as ->; [|done].
    apply elem_of_nil_inv. intros [k row] Hin%elem_of_select_snapshot. set_solver. }
  split_and!; [intros id; by apply elem_of_select_members| |by apply validate_member_ids_ok|done|done].
  intros k c. rewrite (grouped_writes (with_snapshot (row_changes (sn_rows snap)) sync)
    ((λ e : log_entry, (e.1, pg_column e.2)) <$> select_snapshot members (tenant_log tenant db'))).
  2:{ simpl. by rewrite Hrows. }
  2:{ rewrite <-list_fmap_compose. apply select_snapshot_keys. }
  rewrite list_elem_of_fmap, tenant_cells_lookup. split.
  - intros ([k' row] & [= -> ->] & [Hk Hin]%elem_of_select_snapshot). by rewrite Hk.
  - intros [Hin (row & Hk & ->)%fmap_Some]. exists (k, row).
    by rewrite elem_of_select_snapshot.
Qed.

(** C30: A partial sync answers exactly the scope. After its merge, the
    members are the live rows of the tenant that the interest selects, in
    ascending order; the snapshot holds every cell of these rows and no
    other; and the rows to evict are the ones the device knew that are no
    longer members. *)
Theorem server_partial_exact r device tenant security db resp db' :
  merge_partial_replica_with_security t r device tenant security db = (Ok resp, db') →
  (∀ id, id ∈ member_ids resp ↔ ∃ row, tenant_rows tenant db' !! id = Some row ∧
     row !! LIVENESS_COLUMN = Some (VBoolean false) ∧
     ∀ q, q ∈ predicates (interest r) → predicate_holds id row q) ∧
  StronglySorted key_lt (member_ids resp) ∧
  (∀ k c, (k, c) ∈ payload_writes (prs_sync resp) ↔
     k.1 ∈ member_ids resp ∧ tenant_cells tenant db' !! k = Some c) ∧
  (∀ id, id ∈ evicted_row_ids resp ↔ id ∈ known_member_ids r ∧ id ∉ member_ids resp).
Proof.
  intros (Hmem & Hcells & Hwf & _ & Hev)%partial_snapshot.
  pose proof (mw_sorted _ Hwf) as Hsorted. split_and!; [|done|done|].
  - intros id. rewrite Hmem. apply exist_proper. intros row.
    unfold row_selected, row_is_live. rewrite andb_true_iff, interest_matches_spec. simpl.
    assert (match row !! LIVENESS_COLUMN with
            | Some v => value_eqb v (VBoolean false) | None => false end = true
            ↔ row !! LIVENESS_COLUMN = Some (VBoolean false)) as ->; [|tauto].
    destruct (row !! LIVENESS_COLUMN) as [[| | | |[]|]|]; simpl; split; congruence.
  - intros id. rewrite Hev, list_elem_of_filter, binary_search_false by done. tauto.
Qed.

(** ** Rows without cells *)

(** A rejected write leaves a row behind that blocks the partial
    replicas of its tenant. Every row a merge names gets an application row,
    also when each of its cells is rejected; it then holds the defaults and
    has no cell. From then on every partial sync of the tenant whose interest
    selects these defaults fails, for every device that does not itself write
    the row. *)
Theorem rejected_row_blocks_partial p device tenant security db sync db1 rc :
  json_finite → pg_wf t db →
  merge_crdt_states_with_security t p device tenant security db = (Ok sync, db1) →
  rc ∈ changes p →
  (∀ column, tenant_log tenant db1 !! (todo_id rc, column) = None) →
  (∃ row, tenant_rows tenant db1 !! todo_id rc = Some row ∧
     ∀ column, row !! column = pg_default_row t !! column) ∧
  (∀ r device' security',
    row_selected (interest r) (todo_id rc, pg_default_row t) = true →
    (∀ rc', rc' ∈ changes (prq_sync r) → todo_id rc' ≠ todo_id rc) →
    ∃ e db2, merge_partial_replica_with_security t r device' tenant security' db1 = (Err e, db2)).
Proof.
  intros Hfin Hwf Hm Hrc Hempty. pose proof (sync_wf t _ _ _ _ _ _ _ Hfin Hwf Hm) as Hwf1.
  destruct (merge_server_run _ _ _ _ _ _ _ _ Hm) as (outs & db2 & e & pg & Hrun).
  assert (∃ row, tenant_rows tenant db1 !! todo_id rc = Some row ∧
    ∀ column, row !! column = pg_default_row t !! column) as Hghost.
  { destruct (srun_tables t Hrun) as (_ & Hrows & _). rewrite Hrows.
    destruct (proj2 (sv_dom _ _ _ _ _ _ _ (srun_served t Hrun) (todo_id rc))) as [row Hrow].
    { right. by apply list_elem_of_fmap_2. }
    exists row. split; [done|]. intros column.
    apply (tw_defaults _ _ _ (Hwf1 tenant) (todo_id rc)); [by rewrite Hrows|done]. }
  split; [done|]. intros r device' security' Hsel Hother.
  destruct (merge_partial_replica_with_security t r device' tenant security' db1)
    as [[resp|err] db3] eqn:Hp; [|by eexists _, _]. exfalso.
  destruct (partial_snapshot _ _ _ _ _ _ _ Hp) as (Hmem & Hcells & _ & Hval & _).
  apply response_validate_ok in Hval as (_ & _ & Hsync & _ & _ & _ & Hids).
  apply server_partial_run in Hp as (_ & sync' & Hm' & _).
  destruct (merge_server_run _ _ _ _ _ _ _ _ Hm') as (outs' & db2' & e' & pg' & Hrun').
  destruct (srun_tables t Hrun') as (Hlog & Hrows & _).
  assert (∀ column, tenant_log tenant db3 !! (todo_id rc, column) = None) as Hempty3.
  { intros column. rewrite Hlog, log_after_other; [done|]. intros Hin.
    apply list_elem_of_fmap in Hin as ([k c] & Hk & Hin). simpl in Hk. subst k.
    pose proof (elem_of_sublist _ _ _ Hin (srun_sublist t Hrun')) as Hw.
    apply elem_of_payload_writes in Hw as (rc' & Hrc' & Hid & _). by apply (Hother rc'). }
  destruct Hghost as (row & Hrow & Hdef).
  destruct (proj2 (sv_dom _ _ _ _ _ _ _ (srun_served t Hrun') (todo_id rc))) as [row3 Hrow3].
  { left. by exists row. }
  assert (row3 = pg_default_row t) as ->.
  { apply map_eq. intros column. pose proof (sync_wf t _ _ _ _ _ _ _ Hfin Hwf1 Hm') as Hwf3.
    apply (tw_defaults _ _ _ (Hwf3 tenant) (todo_id rc)); [by rewrite Hrows|done]. }
  assert (todo_id rc ∈ member_ids resp) as Hin.
  { apply Hmem. exists (pg_default_row t). by rewrite Hrows. }
  rewrite <-Hids in Hin. apply list_elem_of_fmap in Hin as (rc3 & Hid3 & Hrc3).
  pose proof (wf_rows _ _ (sv_payload _ _ Hsync)) as Hall. rewrite list.Forall_forall in Hall.
  destruct (Hall rc3 Hrc3) as (_ & Hne & _).
  apply map_choose in Hne as (column & c & Hc).
  assert ((todo_id rc3, column, c) ∈ payload_writes (prs_sync resp)) as Hw
    by (apply elem_of_payload_writes; by exists rc3).
  apply Hcells in Hw as [_ Hcell]. rewrite <-Hid3, tenant_cells_lookup, Hempty3 in Hcell. done.
Qed.
End partial.
