(* ===== verification/ServerLimits.v ===== *)
(** * What PostgreSQL does to a merge (src/server.rs)

    Four meetings of the protocol and the database: texts with a character
    zero, numbers that JSON does not keep, identifiers under a collation, and
    epochs. *)
From S2P Require Import Prelude RustStd Error Schema Crdt Lww Payload Policy Explain Replica.
From S2P Require Import State Feed Merge Membership Postgres Server ServerFacts ServerRun.
From S2P Require Import ServerFeed ServerInv ServerSteps ServerPartial.

Section limits.
Context `{!Pg_externals, !SerdeJson, !StrDebug}.
Variable (t : TableDef).

Lemma run_or_fail p device tenant security db :
  (∃ e db', merge_crdt_states_with_security t p device tenant security db = (Err e, db')) ∨
  (∃ r db', merge_crdt_states_with_security t p device tenant security db = (Ok r, db')).
Proof. destruct (merge_crdt_states_with_security _ _ _ _ _ _) as [[r|e] db']; eauto. Qed.

(** Under the default policies a cell is decided by its version alone. *)
Lemma default_outcome context current w :
  cell_outcome SyncSecurity_default context current w
  = (b ← should_apply current w.2; Ok (if b : bool then OWrite w else OKeep)).
Proof. done. Qed.

(** A text with a character zero blocks the sync of its device. The
    payload validation accepts it, but PostgreSQL stores it neither as text
    nor in the JSON of the log or of the audit: under the default policies a
    merge of any request that carries such a cell fails, on every database. *)
Theorem nul_text_blocks_sync p device tenant db k c s :
  (k, c) ∈ payload_writes p → value c = VText s → has_nul s = true →
  ∃ e db', merge_crdt_states t p device tenant db = (Err e, db').
Proof.
  intros Hin Hc Hnul. unfold merge_crdt_states.
  destruct (run_or_fail p device tenant SyncSecurity_default db) as [?|(r & db' & Hm)]; [done|].
  exfalso.
  destruct (merge_server_run _ _ _ _ _ _ _ _ Hm) as (outs & db2 & e & pg & Hrun).
  destruct (sv_audit _ _ _ _ _ _ _ (srun_served t Hrun)) as (rows & _ & Haudit). simpl in Haudit.
  pose proof (srun_decided t Hrun) as Hd%decide_all_ok%Forall2_length.
  apply list_elem_of_lookup in Hin as [i Hi].
  destruct (lookup_lt_is_Some_2 outs i) as [o Ho]; [apply lookup_lt_Some in Hi; lia|].
  assert (zip (payload_writes p) outs !! i = Some ((k, c), o)) as Hz
    by (apply lookup_zip_with_Some; eauto).
  destruct (Forall2_lookup_l _ _ _ _ _ Haudit Hz) as (row & _ & Hrow).
  pose proof (ae_storable _ _ _ _ _ Hrow) as Hok. simpl in Hok. rewrite Hc in Hok. simpl in Hok.
  congruence.
Qed.

(** A number that JSON does not keep cannot be synced twice. When a real
    comes back from JSONB as another number, the merge that writes it stores
    a value that differs from the one sent, under the version it was sent
    with; every later request that repeats the cell - a retry after a lost
    response, say - is refused as a conflict. *)
Theorem json_drift_blocks_replay p device tenant db r db1 k c x :
  merge_crdt_states t p device tenant db = (Ok r, db1) →
  (k, c) ∈ payload_writes p → value c = VReal x → tenant_cells tenant db !! k = None →
  f64_eqb (jsonb_real x) x = false →
  tenant_cells tenant db1 !! k = Some (stored_cell c) ∧
  ∀ p' device', (k, c) ∈ payload_writes p' →
    ∃ e db2, merge_crdt_states t p' device' tenant db1 = (Err e, db2).
Proof.
  intros Hm Hin Hc Hnone Hdrift.
  destruct (merge_server_run _ _ _ _ _ _ _ _ Hm) as (outs & db2 & e & pg & Hrun).
  assert (tenant_cells tenant db1 !! k = Some (stored_cell c)) as Hstored.
  { destruct (srun_tables t Hrun) as (Hlog & _). rewrite tenant_cells_lookup, Hlog.
    assert ((k, c) ∈ omap outcome_write outs) as [i Hi]%list_elem_of_lookup.
    { apply (decide_all_accepted _ _ _ _ _ _ (srun_decided t Hrun)). split; [done|].
      rewrite default_outcome. simpl. by rewrite Hnone. }
    rewrite (log_after_new _ _ _ _ _ (srun_accepted_distinct t Hrun) Hi : _ !! k = _).
    simpl. by rewrite pg_column_log_row. }
  split; [done|]. intros p' device' Hin'.
  destruct (run_or_fail p' device' tenant SyncSecurity_default db1) as [?|(r' & db' & Hm')]; [done|].
  exfalso.
  destruct (merge_server_run _ _ _ _ _ _ _ _ Hm') as (outs' & db2' & e' & pg' & Hrun').
  destruct (decide_all_lookup _ _ _ _ _ _ (srun_decided t Hrun') Hin') as [o Ho].
  rewrite default_outcome in Ho. simpl in Ho. rewrite Hstored in Ho. unfold should_apply in Ho.
  rewrite (proj2 (decide_lww_equal (metadata (stored_cell c)) (metadata c))) in Ho by done.
  unfold stored_cell in Ho. simpl in Ho. rewrite Hc in Ho. simpl in Ho. by rewrite Hdrift in Ho.
Qed.

(** Under a collation that does not sort like bytes, partial syncs fail.
    The members are selected in the collation of the database and then
    required to be in the order of their bytes: as soon as a scope holds two
    live rows that the two orders disagree about, every partial sync of it is
    refused. *)
Theorem collation_blocks_partial `{!Transitive collate_le, !Total collate_le}
    r device tenant security db sync db1 id1 id2 row1 row2 :
  merge_crdt_states_with_security t (prq_sync r) device tenant security db = (Ok sync, db1) →
  tenant_rows tenant db1 !! id1 = Some row1 → row_selected (interest r) (id1, row1) = true →
  tenant_rows tenant db1 !! id2 = Some row2 → row_selected (interest r) (id2, row2) = true →
  collate_le id1 id2 → ¬ collate_le id2 id1 → key_lt id2 id1 →
  ∃ e db2, merge_partial_replica_with_security t r device tenant security db = (Err e, db2).
Proof.
  intros Hm Hrow1 Hsel1 Hrow2 Hsel2 Hle Hnle Hlt.
  destruct (merge_partial_replica_with_security t r device tenant security db)
    as [[resp|err] db3] eqn:Hp; [|by eexists _, _]. exfalso.
  destruct (server_partial_run _ _ _ _ _ _ _ _ Hp) as (_ & sync' & Hm' & Hlimit & Hids & _).
  rewrite Hm in Hm'. injection Hm' as <- <-.
  apply validate_member_ids_ok, mw_sorted in Hids.
  set (members := select_members (interest r) (tenant_rows tenant db1)) in *.
  assert (id1 ∈ members) as Hin1 by (apply elem_of_select_members; eauto).
  assert (id2 ∈ members) as Hin2 by (apply elem_of_select_members; eauto).
  assert (StronglySorted collate_le members) as Hcoll.
  { unfold members, select_members. set (l := merge_sort collate_le _).
    pose proof (StronglySorted_merge_sort collate_le
      (filter (λ e, row_selected (interest r) e = true) (bt_iter (tenant_rows tenant db1))).*1) as Hs.
    fold l in Hs. rewrite <-(take_drop (S (N.to_nat (limit (interest r)))) l) in Hs.
    by apply StronglySorted_app in Hs as (_ & Hs & _). }
  apply list_elem_of_split in Hin2 as (l1 & l2 & Hsplit). rewrite Hsplit in *.
  apply elem_of_app in Hin1 as [Hin1|Hin1].
  - apply StronglySorted_app in Hids as (Hcross & _ & _).
    specialize (Hcross id1 id2 Hin1 ltac:(by left)).
    destruct (StrictOrder_Irreflexive id1). by transitivity id2.
  - apply elem_of_cons in Hin1 as [->|Hin1]; [by destruct (StrictOrder_Irreflexive id2)|].
    apply StronglySorted_app in Hcoll as (_ & _ & Hcoll).
    apply Hnle. by apply StronglySorted_cons in Hcoll as [Hall _]; rewrite list.Forall_forall in Hall; apply Hall.
Qed.

(** Rotating the epoch invalidates every cursor. After a rotation the
    first sync of any device that sends a cursor is reset, whatever protocol,
    cursor, token or epoch it sends: its page starts from the beginning of
    the log and it is told the new epoch. *)
Theorem rotation_resets p device tenant security db e db1 r db2 :
  json_finite → pg_wf t db → rotate_server_epoch db = (Ok e, db1) → cursor p ≠ 0%Z →
  merge_crdt_states_with_security t p device tenant security db1 = (Ok r, db2) →
  cursor_reset r = true ∧ server_epoch r = Some e ∧
  (∀ k c, (k, c) ∈ payload_writes r ↔
     ∃ row, tenant_log tenant db2 !! k = Some row ∧ c = pg_column row ∧
       (lr_seq row ≤ cursor r)%Z).
Proof.
  intros Hfin Hwf Hrot Hcur Hm.
  assert (pg_wf t db1) as Hwf1
    by (eapply same_tables_wf, Hwf; apply (maintenance_tables t); eauto).
  pose proof (sync_wf t _ _ _ _ _ _ _ Hfin Hwf1 Hm) as Hwf2.
  unfold rotate_server_epoch, transactional, st_bind, st_get in Hrot. simpl in Hrot.
  destruct (pg_epoch db); [|done]. injection Hrot as <- <-.
  destruct (merge_server_run _ _ _ _ _ _ _ _ Hm) as (outs & db3 & e & pg & Hrun).
  pose proof (vr_response _ _ _ _ _ _ _ _ _ _ _ _ Hrun) as (_ & _ & _ & _ & Hch & _ & Hse).
  pose proof (vr_epoch _ _ _ _ _ _ _ _ _ _ _ _ Hrun) as He. simpl in He. injection He as <-.
  assert (cursor_reset r = true) as Hreset.
  { destruct (vr_page _ _ _ _ _ _ _ _ _ _ _ _ Hrun) as [_ ->]. simpl. unfold lease_is_valid.
    rewrite lookup_empty. apply Z.eqb_neq in Hcur. by rewrite Hcur. }
  split_and!; [done|done|]. intros k c.
  rewrite (feed_exact _ _ _ (srun_numbered t Hrun (Hwf1 tenant)) (srun_page t Hrun) _ _ _ Hch).
  unfold effective_of. rewrite Hreset, <-(srun_cursor t Hrun). apply exist_proper. intros row.
  split; [naive_solver|]. intros (Hk & -> & Hle). pose proof (tw_range _ _ _ (Hwf2 tenant) _ _ Hk).
  split_and!; [done|done|lia|done].
Qed.
End limits.
