(* ===== verification/ServerDemo.v ===== *)
(** * A concrete run of the PostgreSQL server

    The two devices of Demo.v against the database, and the witnesses of the
    server's theorems. *)
From Stdlib Require Import SpecFloat.
From S2P Require Import Prelude RustStd Error Schema Crdt Lww Payload Policy Explain Replica.
From S2P Require Import State Feed Merge Demo MergeTheorems Membership Partial.
From S2P Require Import Postgres Server ServerFacts ServerRun ServerFeed ServerInv ServerSteps.
From S2P Require Import ServerSession ServerStatements ServerTheorems ServerPartial ServerLimits.

(** Driver texts as they are, numbered random values, exact JSON numbers and
    the C collation. *)
Definition demo_pg : Pg_externals :=
  {| pg_message := λ s, s;
     gen_random_uuid := λ n, pretty n;
     jsonb_real := λ r, r;
     collate_le := key_le;
     collate_le_dec := _ |}.
(** JSON numbers that come back as zero. *)
Definition drifting_pg : Pg_externals :=
  {| pg_message := λ s, s;
     gen_random_uuid := λ n, pretty n;
     jsonb_real := λ _, S754_zero false;
     collate_le := key_le;
     collate_le_dec := _ |}.
(** A collation that puts shorter identifiers first. *)
Definition short_first (a b : string) : Prop := (String.length a ≤ String.length b)%nat.
#[export] Instance short_first_dec : RelDecision short_first.
Proof. intros a b; unfold short_first; apply _. Defined.
Definition short_first_pg : Pg_externals :=
  {| pg_message := λ s, s;
     gen_random_uuid := λ n, pretty n;
     jsonb_real := λ r, r;
     collate_le := short_first;
     collate_le_dec := _ |}.

#[local] Existing Instance demo_json.
#[local] Existing Instance demo_debug.

Definition demo_tenant : string := "acme".
Definition other_tenant : string := "globex".
Definition answer_of (res : Result SyncPayload * PgDb) : SyncPayload :=
  match res.1 with Ok r => r | Err _ => request_a end.
Definition partial_of (res : Result PartialReplicaResponse * PgDb) : PartialReplicaResponse :=
  match res.1 with
  | Ok r => r
  | Err _ => {| prs_scope_id := ""; prs_scope_version := 0; member_ids := [];
                evicted_row_ids := []; prs_sync := request_a |}
  end.

Section run.
#[local] Existing Instance demo_pg.

Lemma demo_finite : json_finite.
Proof. by intros r. Qed.
Lemma demo_uuids : uuids_distinct.
Proof. intros i j. apply (inj pretty). Qed.
Lemma demo_serde : serde_total.
Proof. intros c _. by exists 64%N. Qed.

Definition pg_0 : PgDb := (initialize_server_schema_with todos_table ∅ ∅ empty_pg).2.
Definition pg_a : PgDb := (merge_crdt_states todos_table request_a "device-a" demo_tenant pg_0).2.
Definition answer_a : SyncPayload :=
  answer_of (merge_crdt_states todos_table request_a "device-a" demo_tenant pg_0).
Definition pg_ab : PgDb := (merge_crdt_states todos_table request_b "device-b" demo_tenant pg_a).2.
Definition answer_ab : SyncPayload :=
  answer_of (merge_crdt_states todos_table request_b "device-b" demo_tenant pg_a).

Lemma pg_demo_a :
  merge_crdt_states todos_table request_a "device-a" demo_tenant pg_0 = (Ok answer_a, pg_a).
Proof. vm_compute. reflexivity. Qed.
Lemma pg_demo_ab :
  merge_crdt_states todos_table request_b "device-b" demo_tenant pg_a = (Ok answer_ab, pg_ab).
Proof. vm_compute. reflexivity. Qed.

Lemma pg_demo_a' :
  merge_crdt_states_with_security todos_table request_a "device-a" demo_tenant
    SyncSecurity_default pg_0 = (Ok answer_a, pg_a).
Proof. rewrite <-pg_demo_a. unfold merge_crdt_states. reflexivity. Qed.
Lemma pg_demo_ab' :
  merge_crdt_states_with_security todos_table request_b "device-b" demo_tenant
    SyncSecurity_default pg_a = (Ok answer_ab, pg_ab).
Proof. rewrite <-pg_demo_ab. unfold merge_crdt_states. reflexivity. Qed.

Lemma pg_demo_init :
  initialize_server_schema_with todos_table ∅ ∅ empty_pg
  = ((initialize_server_schema_with todos_table ∅ ∅ empty_pg).1, pg_0).
Proof. unfold pg_0. by destruct (initialize_server_schema_with todos_table ∅ ∅ empty_pg). Qed.
Lemma pg_demo_step :
  run_transaction (merge_crdt_states todos_table request_a "device-a" demo_tenant) pg_0
  = (Ok answer_a, pg_a).
Proof. unfold run_transaction. by rewrite pg_demo_a. Qed.
Lemma pg_demo_steps : rtc (pg_step todos_table) empty_pg pg_a.
Proof.
  eapply rtc_l; [eapply step_init; exact pg_demo_init|].
  apply rtc_once. eapply step_sync. exact pg_demo_step.
Qed.

Lemma server_reachable_wf_witness : pg_wf todos_table pg_a.
Proof. exact (server_reachable_wf todos_table pg_a demo_finite pg_demo_steps). Defined.

Lemma pg_0_wf : pg_wf todos_table pg_0.
Proof.
  eapply pg_step_wf; [exact demo_finite|apply empty_pg_wf|]. eapply step_init. exact pg_demo_init.
Qed.
Lemma pg_a_wf : pg_wf todos_table pg_a.
Proof.
  eapply pg_step_wf; [exact demo_finite|exact pg_0_wf|]. eapply step_sync. exact pg_demo_step.
Qed.

Lemma answer_ab_last : has_more answer_ab = false.
Proof. vm_compute. reflexivity. Qed.
Lemma answer_ab_page : NoDup (payload_writes answer_ab).*1.
Proof. apply NoDup_payload_writes, (bool_decide_unpack _). vm_compute. reflexivity. Qed.

Lemma server_page_exact_witness :
  (N.of_nat (total_cells (changes answer_ab)) ≤ MAX_RESPONSE_CELLS)%N ∧
  cursor answer_ab = max_seq (tenant_log demo_tenant pg_ab).
Proof.
  destruct (server_page_exact todos_table request_b "device-b" demo_tenant SyncSecurity_default
    pg_a answer_ab pg_ab demo_finite pg_a_wf pg_demo_ab') as (z & _ & _ & _ & Hn & Hlast & _).
  split; [exact Hn|]. apply Hlast. exact answer_ab_last.
Defined.

Lemma pg_a_epoch : pg_epoch pg_a = Some (pretty 0%N).
Proof. vm_compute. reflexivity. Qed.
Lemma pg_a_uuids : (0 < pg_uuids pg_a)%N.
Proof. vm_compute. reflexivity. Qed.
Lemma pg_a_drawn : epoch_drawn pg_a.
Proof.
  intros e He. rewrite pg_a_epoch in He. injection He as <-. exists 0%N.
  split; [reflexivity|exact pg_a_uuids].
Qed.

Lemma server_session_covers_witness :
  cells_le (tenant_cells demo_tenant pg_ab) (cells_after ∅ (payload_writes answer_ab)).
Proof.
  refine (proj2 (server_session_covers todos_table demo_tenant "device-b" pg_a 0 None None ∅
    demo_finite demo_uuids (ps_start _ _ _ pg_a ∅ pg_a_wf pg_a_drawn))
    request_b SyncSecurity_default answer_ab pg_ab _ eq_refl eq_refl eq_refl eq_refl pg_demo_ab'
    answer_ab_last _).
  split.
  - intros k c [Hin|[_ [=]]]%cells_after_lookup; [by right|exact answer_ab_page].
  - intros k c [[=]|Hin]. exists c. split; [|done].
    apply cells_after_lookup; [exact answer_ab_page|by left].
Defined.

(** ** Tenants and audit *)
Lemma pg_demo_transaction :
  run_transaction (merge_crdt_states_with_security todos_table request_b "device-b" demo_tenant
    SyncSecurity_default) pg_a = (Ok answer_ab, pg_ab).
Proof. unfold run_transaction. by rewrite pg_demo_ab'. Qed.

(** [pg_a] without the rows of the other tenants. *)
Definition pg_a_alone : PgDb :=
  set_rows (filter (λ e, e.1 = demo_tenant) (pg_rows pg_a)) pg_a.
Lemma pg_a_alone_sees : sees demo_tenant pg_a pg_a_alone.
Proof.
  by split.
Qed.
Lemma server_tenant_isolation_witness :
  same_tenant other_tenant pg_a pg_ab ∧
  (run_transaction (merge_crdt_states_with_security todos_table request_b "device-b" demo_tenant
     SyncSecurity_default) pg_a_alone).1 = Ok answer_ab ∧
  ∀ k c, (k, c) ∈ payload_writes answer_ab → tenant_cells demo_tenant pg_ab !! k = Some c.
Proof.
  destruct (server_tenant_isolation todos_table request_b partial_todos "device-b" demo_tenant
    other_tenant SyncSecurity_default pg_a ltac:(done)) as (Hsync & _ & Halone & Hcells).
  split; [exact (Hsync _ _ pg_demo_transaction)|]. split.
  { destruct (Halone pg_a_alone pg_a_alone_sees) as (Hsame & _).
    rewrite pg_demo_transaction in Hsame. exact Hsame. }
  exact (Hcells demo_finite pg_a_wf _ _ pg_demo_ab').
Defined.

Lemma server_audit_complete_witness :
  ∃ rows, pg_audit pg_ab = pg_audit pg_a ++ rows ∧ length rows = 2%nat.
Proof.
  destruct (server_audit_complete todos_table request_b "device-b" demo_tenant SyncSecurity_default
    pg_a answer_ab pg_ab pg_demo_ab') as (outs & rows & _ & _ & Ha & _ & Hn).
  exists rows. split; [exact Ha|exact Hn].
Defined.

(** ** The reference server *)
Lemma pg_0_state : db_clock demo_tenant pg_0 = 0%Z.
Proof. vm_compute. reflexivity. Qed.
Lemma pg_0_log : tenant_log demo_tenant pg_0 = ∅.
Proof. vm_compute. reflexivity. Qed.
Lemma pg_0_simulates : simulates todos_table demo_tenant pg_0 state_0.
Proof.
  split; [reflexivity|exact pg_0_state|unfold tenant_cells; by rewrite pg_0_log|].
  intros k k' row row'. by rewrite pg_0_log, lookup_empty.
Qed.
Lemma demo_room : has_room state_0 request_a.
Proof. vm_le. Qed.

Lemma server_refines_reference_witness :
  ∃ r' s', merge_with_security request_a "device-a" SyncSecurity_default state_0 = (Ok r', s') ∧
    simulates todos_table demo_tenant pg_a s' ∧ source_lamport answer_a = source_lamport r'.
Proof.
  destruct (server_refines_reference todos_table request_a "device-a" demo_tenant
    SyncSecurity_default pg_0 state_0 answer_a pg_a demo_finite demo_serde) as
    (r' & s' & Hm & Hsim & Hl & _).
  - intros c1 c2 _ _. reflexivity.
  - intros c1 c2 _ _. reflexivity.
  - intros k c _. by destruct (value c).
  - exact pg_0_wf.
  - apply CrdtState_new_wf.
  - exact demo_room.
  - exact pg_0_simulates.
  - exact pg_demo_a'.
  - exists r', s'. split; [exact Hm|]. split; [exact Hsim|exact Hl].
Defined.

(** ** Partial replicas *)
Definition pg_p : PgDb :=
  (merge_partial_replica_with_security todos_table partial_todos "device-b" demo_tenant
     SyncSecurity_default pg_a).2.
Definition answer_p : PartialReplicaResponse :=
  partial_of (merge_partial_replica_with_security todos_table partial_todos "device-b" demo_tenant
     SyncSecurity_default pg_a).
Lemma pg_demo_p :
  merge_partial_replica_with_security todos_table partial_todos "device-b" demo_tenant
    SyncSecurity_default pg_a = (Ok answer_p, pg_p).
Proof. vm_compute. reflexivity. Qed.
Lemma answer_p_members : member_ids answer_p = ["todo-1"].
Proof. vm_compute. reflexivity. Qed.

Lemma server_partial_exact_witness :
  "todo-0" ∈ evicted_row_ids answer_p ∧
  ∃ row, tenant_rows demo_tenant pg_p !! "todo-1" = Some row ∧
    row !! LIVENESS_COLUMN = Some (VBoolean false).
Proof.
  destruct (server_partial_exact todos_table partial_todos "device-b" demo_tenant
    SyncSecurity_default pg_a answer_p pg_p pg_demo_p) as (Hmem & _ & _ & Hev).
  split.
  - apply Hev. rewrite answer_p_members. split; [by left|]. intros [=]%list_elem_of_singleton.
  - destruct (proj1 (Hmem "todo-1")) as (row & Hrow & Hlive & _); [rewrite answer_p_members; by left|].
    exists row. split; [exact Hrow|exact Hlive].
Defined.

(** A device that may only write the title completes a todo nobody wrote. *)
Definition denied_row : RowChange :=
  {| todo_id := "todo-7";
     columns := {[ "completed" := demo_cell (VBoolean true) 1 "device-b" ]} |}.
Definition request_denied : SyncPayload := demo_request "device-b" 1 [denied_row] 0.
Definition pg_denied : PgDb :=
  (merge_crdt_states_with_security todos_table request_denied "device-b" demo_tenant title_only
     pg_0).2.
Definition answer_denied : SyncPayload :=
  answer_of (merge_crdt_states_with_security todos_table request_denied "device-b" demo_tenant
     title_only pg_0).
Lemma pg_demo_denied :
  merge_crdt_states_with_security todos_table request_denied "device-b" demo_tenant title_only pg_0
  = (Ok answer_denied, pg_denied).
Proof. vm_compute. reflexivity. Qed.
Lemma pg_denied_log : tenant_log demo_tenant pg_denied = ∅.
Proof. vm_compute. reflexivity. Qed.
Definition everything : PartialReplicaRequest := partial_request [] [].
Lemma everything_selects_ghost :
  row_selected (interest everything) ("todo-7", pg_default_row todos_table) = true.
Proof. vm_compute. reflexivity. Qed.

Lemma rejected_row_blocks_partial_witness :
  ∃ e db, merge_partial_replica_with_security todos_table everything "device-b" demo_tenant
    SyncSecurity_default pg_denied = (Err e, db).
Proof.
  refine (proj2 (rejected_row_blocks_partial todos_table request_denied "device-b" demo_tenant
    title_only pg_0 answer_denied pg_denied denied_row demo_finite pg_0_wf pg_demo_denied _ _)
    everything "device-b" SyncSecurity_default everything_selects_ghost _).
  - by left.
  - intros column. by rewrite pg_denied_log.
  - intros rc Hrc. inversion Hrc.
Defined.

(** ** Limits *)
Definition nul_text : string := String (Ascii.ascii_of_nat 0) "".
Definition request_nul : SyncPayload :=
  demo_request "device-a" 1 [demo_row [("title", demo_cell (VText nul_text) 1 "device-a")]] 0.
Lemma request_nul_writes :
  payload_writes request_nul = [(("todo-1", "title"), demo_cell (VText nul_text) 1 "device-a")].
Proof. vm_compute. reflexivity. Qed.
(** The payload is one the validation lets through. *)
Lemma request_nul_valid : validate_client_request request_nul "device-a" todos_table = Ok tt.
Proof. vm_compute. reflexivity. Qed.

Lemma nul_text_blocks_sync_witness :
  ∃ e db, merge_crdt_states todos_table request_nul "device-a" demo_tenant pg_0 = (Err e, db).
Proof.
  apply (nul_text_blocks_sync todos_table request_nul "device-a" demo_tenant pg_0
    ("todo-1", "title") (demo_cell (VText nul_text) 1 "device-a") nul_text).
  - rewrite request_nul_writes. by left.
  - reflexivity.
  - reflexivity.
Defined.

Definition request_again : SyncPayload :=
  {| protocol_version := PROTOCOL_VERSION;
     schema_fingerprint := table_fingerprint todos_table;
     source_device_id := "device-b"; source_lamport := 2; changes := [];
     cursor := cursor answer_ab; has_more := false; cursor_reset := false;
     cursor_token := cursor_token answer_ab; server_epoch := server_epoch answer_ab;
     rejections := [] |}.
Definition pg_rotated : PgDb := (rotate_server_epoch pg_ab).2.
Definition new_epoch : string := pretty 3%N.
Definition answer_rotated : SyncPayload :=
  answer_of (merge_crdt_states_with_security todos_table request_again "device-b" demo_tenant
    SyncSecurity_default pg_rotated).
Definition pg_resynced : PgDb :=
  (merge_crdt_states_with_security todos_table request_again "device-b" demo_tenant
    SyncSecurity_default pg_rotated).2.
Lemma pg_demo_rotated : rotate_server_epoch pg_ab = (Ok new_epoch, pg_rotated).
Proof. vm_compute. reflexivity. Qed.
Lemma pg_demo_resynced :
  merge_crdt_states_with_security todos_table request_again "device-b" demo_tenant
    SyncSecurity_default pg_rotated = (Ok answer_rotated, pg_resynced).
Proof. vm_compute. reflexivity. Qed.
Lemma pg_ab_wf : pg_wf todos_table pg_ab.
Proof.
  eapply pg_step_wf; [exact demo_finite|exact pg_a_wf|]. eapply step_sync.
  exact pg_demo_transaction.
Qed.

Lemma rotation_resets_witness :
  cursor_reset answer_rotated = true ∧ server_epoch answer_rotated = Some new_epoch.
Proof.
  destruct (rotation_resets todos_table request_again "device-b" demo_tenant SyncSecurity_default
    pg_ab new_epoch pg_rotated answer_rotated pg_resynced demo_finite pg_ab_wf pg_demo_rotated)
    as (Hreset & Hepoch & _); [by vm_compute|exact pg_demo_resynced|].
  split; [exact Hreset|exact Hepoch].
Defined.
End run.

(** ** A database whose JSON numbers drift *)
Section drift.
#[local] Existing Instance drifting_pg.

Definition meters : TableDef :=
  {| td_name := "meters"; td_columns := [ColumnDef_new "reading" TReal] |}.
Definition half : f64 := S754_finite false 4503599627370496 (-53).
Definition half_cell : CrdtColumn := demo_cell (VReal half) 1 "device-a".
Definition request_real : SyncPayload :=
  {| protocol_version := PROTOCOL_VERSION; schema_fingerprint := table_fingerprint meters;
     source_device_id := "device-a"; source_lamport := 1;
     changes := [{| todo_id := "m-1"; columns := {[ "reading" := half_cell ]} |}];
     cursor := 0; has_more := false; cursor_reset := false; cursor_token := None;
     server_epoch := None; rejections := [] |}.

Definition pg_m : PgDb := (initialize_server_schema_with meters ∅ ∅ empty_pg).2.
Definition pg_real : PgDb := (merge_crdt_states meters request_real "device-a" demo_tenant pg_m).2.
Definition answer_real : SyncPayload :=
  answer_of (merge_crdt_states meters request_real "device-a" demo_tenant pg_m).
Lemma pg_demo_real :
  merge_crdt_states meters request_real "device-a" demo_tenant pg_m = (Ok answer_real, pg_real).
Proof. vm_compute. reflexivity. Qed.
Lemma request_real_writes : payload_writes request_real = [(("m-1", "reading"), half_cell)].
Proof. vm_compute. reflexivity. Qed.
Lemma pg_m_empty : tenant_cells demo_tenant pg_m !! ("m-1", "reading") = None.
Proof. vm_compute. reflexivity. Qed.

Lemma json_drift_blocks_replay_witness :
  ∃ e db, merge_crdt_states meters request_real "device-a" demo_tenant pg_real = (Err e, db).
Proof.
  refine (proj2 (json_drift_blocks_replay meters request_real "device-a" demo_tenant pg_m
    answer_real pg_real ("m-1", "reading") half_cell half pg_demo_real _ eq_refl pg_m_empty _)
    request_real "device-a" _).
  - rewrite request_real_writes. by left.
  - vm_compute. reflexivity.
  - rewrite request_real_writes. by left.
Defined.
End drift.

(** ** A database under another collation *)
Section collation.
#[local] Existing Instance short_first_pg.

Lemma short_first_transitive : @Transitive string collate_le.
Proof. intros a b c; cbn; unfold short_first; lia. Qed.
Lemma short_first_total : @Total string collate_le.
Proof. intros a b; cbn; unfold short_first; lia. Qed.

Definition titled (id : string) : RowChange :=
  {| todo_id := id; columns := {[ "title" := demo_cell (VText "milk") 1 "device-b" ]} |}.
Definition request_two : PartialReplicaRequest :=
  {| prq_scope_id := "inbox"; prq_scope_version := 1;
     interest := {| predicates := []; limit := 10 |}; known_member_ids := [];
     prq_sync := demo_request "device-b" 2 [titled "aa"; titled "b"] 0 |}.
Definition pg_s : PgDb := (initialize_server_schema_with todos_table ∅ ∅ empty_pg).2.
Definition pg_two : PgDb :=
  (merge_crdt_states_with_security todos_table (prq_sync request_two) "device-b" demo_tenant
    SyncSecurity_default pg_s).2.
Definition answer_two : SyncPayload :=
  answer_of (merge_crdt_states_with_security todos_table (prq_sync request_two) "device-b"
    demo_tenant SyncSecurity_default pg_s).
Lemma pg_demo_two :
  merge_crdt_states_with_security todos_table (prq_sync request_two) "device-b" demo_tenant
    SyncSecurity_default pg_s = (Ok answer_two, pg_two).
Proof. vm_compute. reflexivity. Qed.
Definition titled_row : gmap string CrdtValue :=
  <["title" := VText "milk"]> (pg_default_row todos_table).
Lemma pg_two_b : tenant_rows demo_tenant pg_two !! "b" = Some titled_row.
Proof. vm_compute. reflexivity. Qed.
Lemma pg_two_aa : tenant_rows demo_tenant pg_two !! "aa" = Some titled_row.
Proof. vm_compute. reflexivity. Qed.
Lemma short_first_b_aa : collate_le "b" "aa" ∧ ¬ collate_le "aa" "b".
Proof. split; cbn; unfold short_first; cbn; lia. Qed.

Lemma collation_blocks_partial_witness :
  ∃ e db, merge_partial_replica_with_security todos_table request_two "device-b" demo_tenant
    SyncSecurity_default pg_s = (Err e, db).
Proof.
  refine (collation_blocks_partial todos_table
    (Transitive0 := short_first_transitive) (Total0 := short_first_total)
    request_two "device-b" demo_tenant SyncSecurity_default pg_s answer_two pg_two "b" "aa"
    titled_row titled_row pg_demo_two pg_two_b _ pg_two_aa _
    (proj1 short_first_b_aa) (proj2 short_first_b_aa) _).
  - vm_compute. reflexivity.
  - vm_compute. reflexivity.
  - apply (bool_decide_unpack _). vm_compute. reflexivity.
Defined.
End collation.
