(* ===== verification/ConcurrentDemo.v ===== *)
(** * Interleaved sync requests, run

    A scheduler that plays an interleaving of ServerConcurrent, two tenants
    and three devices at once, and a rotation of the epoch in the middle of a
    merge. *)
From S2P Require Import Prelude RustStd Error Schema Crdt Lww Payload Policy Explain Replica.
From S2P Require Import State Merge Demo Postgres Server ServerRun ServerInv ServerSteps.
From S2P Require Import ServerStatements ServerConcurrent ServerSerial ServerDemo.

Section schedule.
Context `{!Pg_externals, !SerdeJson, !StrDebug}.
Variable (t : TableDef).

(** ** A scheduler *)
Inductive action :=
| Begin (i : N) (req : request) (device tenant : string) (security : SyncSecurity)
| Next (i : N) (times : nat)
| Commit (i : N).

#[local] Instance own_is_none (tx : txn) : Decision (tx_own tx = None).
Proof. destruct (tx_own tx) as [o|]; [right|left]; done. Defined.
(** The version a statement of [tx] runs on, if it is not made to wait. *)
Definition grant {X} (c : conc) (i : N) (tx : txn) (s : stmt X) : option own :=
  match tx_own tx with
  | Some o => Some o
  | None =>
    if is_clock s &&
       bool_decide (map_Forall (λ j tx', j ≠ i → tx_tenant tx' = tx_tenant tx → tx_own tx' = None)
                      (cc_txns c))
    then Some (own_start (tx_tenant tx) (cc_db c)) else None
  end.
Definition next (i : N) (c : conc) : option conc :=
  tx ← cc_txns c !! i;
  match tx_rest tx with
  | Done _ => None
  | Do s k =>
    o ← grant c i tx s;
    match exec t (tx_device tx) (tx_tenant tx) s
            (own_view t (tx_device tx) (tx_tenant tx) o (cc_db c)) with
    | (res, v) => Some (conc_stmt t i tx s k o res v c)
    end
  end.
Definition play (a : action) (s : conc * list event) : option (conc * list event) :=
  let '(c, l) := s in
  match a with
  | Begin i req device tenant security =>
    match cc_txns c !! i with
    | Some _ => None
    | None => Some ({| cc_db := cc_db c;
                       cc_txns := <[i := tx_start t req device tenant security]> (cc_txns c) |}, l)
    end
  | Next i times => c' ← Nat.iter times (λ c, c ≫= next i) (Some c); Some (c', l)
  | Commit i =>
    tx ← cc_txns c !! i;
    o ← tx_own tx;
    match tx_rest tx with
    | Done (Ok x) =>
      Some ({| cc_db := own_view t (tx_device tx) (tx_tenant tx) o (cc_db c);
               cc_txns := delete i (cc_txns c) |}, l ++ [ECommit (tx_commit tx x)])
    | _ => None
    end
  end.
Fixpoint plays (l : list action) (s : conc * list event) : option (conc * list event) :=
  match l with
  | [] => Some s
  | a :: l => play a s ≫= plays l
  end.

Lemma next_step i c c' : next i c = Some c' → conc_step t c None c'.
Proof.
  unfold next. intros (tx & Hi & Hrest)%bind_Some.
  destruct (tx_rest tx) as [|X s k] eqn:Htx; [done|].
  apply bind_Some in Hrest as (o & Hgrant & Hrest).
  destruct (exec _ _ _ s _) as [res v] eqn:Hexec. injection Hrest as <-.
  eapply cs_stmt; [done|done| |done]. unfold grant, granted in *.
  destruct (tx_own tx); [by injection Hgrant as <-|].
  destruct (is_clock s); [|done]. cbn [andb] in Hgrant. case_bool_decide as Hall; [|done].
  injection Hgrant as <-. split_and!; [done..|]. intros j tx' Hj. by apply (Hall j tx').
Qed.
Lemma run_nexts i times c0 l c c' :
  conc_run t c0 l c → Nat.iter times (λ c, c ≫= next i) (Some c) = Some c' → conc_run t c0 l c'.
Proof.
  intros Hrun. revert c'. induction times as [|times IH]; intros c'; [by intros [= <-]|].
  cbn [Nat.iter nat_rect]. intros (c1 & Hc1 & Hnext%next_step)%bind_Some.
  rewrite <-(app_nil_r l). eapply (cr_step _ _ l c1 None); [by apply IH|done].
Qed.
Lemma play_run a c0 s s' :
  play a s = Some s' → conc_run t c0 s.2 s.1 → conc_run t c0 s'.2 s'.1.
Proof.
  destruct s as [c l]. destruct a as [i req device tenant security|i times|i]; cbn.
  - destruct (cc_txns c !! i) eqn:Hi; [done|]. intros [= <-] Hrun. cbn.
    rewrite <-(app_nil_r l). eapply (cr_step _ _ l c None); [done|by apply cs_begin].
  - intros (c' & Hc' & [= <-])%bind_Some Hrun. by eapply run_nexts.
  - intros (tx & Hi & (o & Hown & Hrest)%bind_Some)%bind_Some Hrun.
    destruct (tx_rest tx) as [[x|]|] eqn:Htx; [|done..]. injection Hrest as <-. cbn.
    by eapply (cr_step _ _ l c (Some _)), cs_commit.
Qed.
Lemma plays_run l c0 s s' :
  plays l s = Some s' → conc_run t c0 s.2 s.1 → conc_run t c0 s'.2 s'.1.
Proof.
  revert s. induction l as [|a l IH]; intros s; [by intros [= <-]|].
  cbn [plays]. intros (s1 & Ha & Hl)%bind_Some Hrun. by eapply IH, play_run.
Qed.
End schedule.

Section run.
#[local] Existing Instance demo_json.
#[local] Existing Instance demo_debug.
#[local] Existing Instance demo_pg.

(** Two devices of a tenant and one of another: the second device begins at
    once and takes the lock when the first has committed; the other tenant
    runs in between. *)
Definition interleaving : list action :=
  [Begin 1 (RSync request_a) "device-a" demo_tenant SyncSecurity_default;
   Begin 2 (RSync request_b) "device-b" demo_tenant SyncSecurity_default;
   Begin 3 (RSync request_a) "device-a" other_tenant SyncSecurity_default;
   Next 1 4; Next 3 6; Next 1 12; Next 3 14; Next 1 4; Commit 1; Next 2 16; Commit 3;
   Commit 2]%N.
Definition interleaved : conc * list event :=
  default (conc_start pg_0, []) (plays todos_table interleaving (conc_start pg_0, [])).
Lemma interleaved_eq :
  plays todos_table interleaving (conc_start pg_0, []) = Some interleaved.
Proof.
  assert (bool_decide (is_Some (plays todos_table interleaving (conc_start pg_0, []))) = true)
    as [s Hs]%bool_decide_eq_true by (vm_compute; reflexivity).
  unfold interleaved. by rewrite Hs.
Qed.
Lemma interleaved_run : conc_run todos_table (conc_start pg_0) interleaved.2 interleaved.1.
Proof.
  apply (plays_run todos_table _ _ _ _ interleaved_eq). apply cr_nil.
Qed.
Definition devices_of (l : list event) : list (string * string) :=
  omap (λ e, match e with ECommit cm => Some (cm_tenant cm, cm_device cm) | _ => None end) l.
Lemma interleaved_commits :
  devices_of interleaved.2
  = [(demo_tenant, "device-a"); (other_tenant, "device-a"); (demo_tenant, "device-b")].
Proof. vm_compute. reflexivity. Qed.
(** The second device cannot begin before the first has committed. *)
Example device_b_waits :
  plays todos_table (take 3 interleaving ++ [Next 1 4; Next 2 1]%N) (conc_start pg_0, []) = None.
Proof. vm_compute. reflexivity. Qed.


(** ** A rotation in the middle of a merge

    The merge has read the epoch, the epoch is rotated, the merge issues its
    lease: it commits a lease of the epoch that is gone, and a client of
    protocol version 3 keeps the cursor issued under it. *)
Definition raced : option (conc * list event) :=
  s ← plays todos_table
        [Begin 1 (RSync request_a) "device-a" demo_tenant SyncSecurity_default; Next 1 17]%N
        (conc_start pg_0, []);
  plays todos_table [Next 1 3; Commit 1]%N
    ({| cc_db := (rotate_server_epoch (cc_db s.1)).2; cc_txns := cc_txns s.1 |}, s.2).
Definition version_3 : SyncPayload :=
  {| protocol_version := 3; schema_fingerprint := table_fingerprint todos_table;
     source_device_id := "device-a"; source_lamport := 2; changes := []; cursor := 3;
     has_more := false; cursor_reset := false; cursor_token := None; server_epoch := None;
     rejections := [] |}.
Theorem rotation_race :
  match raced with
  | Some (c, _) =>
    let key := (demo_tenant, "device-a", crdt_table todos_table) in
    match pg_epoch (cc_db c), pg_leases (cc_db c) !! key with
    | Some epoch, Some lease =>
      ls_epoch lease ≠ epoch ∧
      lease_is_valid version_3 (max_seq (tenant_log demo_tenant (cc_db c))) epoch (Some lease) = true
    | _, _ => False
    end
  | None => False
  end.
Proof. vm_compute. split; [discriminate|reflexivity]. Qed.
End run.
