(* ===== verification/Http.v ===== *)
(** * The HTTP server (src/http.rs)

    The two sync handlers over the PostgreSQL adapter: authentication, table
    authorization, the transaction around the merge, the status of every
    answer, and the counters. Routing, body limits, request timeouts and
    logging belong to axum, tower and tracing. *)
From stdpp Require Import gmap.
From S2P Require Import Prelude RustStd Error Schema Crdt Policy Explain Replica State.
From S2P Require Import Postgres Server.

Local Open Scope loom_scope.

(** A [Duration], in nanoseconds, and an instant, in seconds of Unix time. *)
Definition Duration : Type := N.
Definition Duration_from_secs (secs : N) : Duration := (secs * 1000000000)%N.
Definition as_millis (d : Duration) : N := (d / 1000000)%N.
Definition as_micros (d : Duration) : N := (d / 1000)%N.

Definition DURATION_BUCKETS : list (N * string) :=
  [(50000, "0.05"); (100000, "0.1"); (250000, "0.25"); (500000, "0.5"); (1000000, "1");
   (2500000, "2.5"); (5000000, "5"); (10000000, "10"); (30000000, "30")]%N.

Record ServerConfig := {
  body_limit_bytes : N;
  request_timeout : Duration;
  max_concurrent_requests : N;
  statement_timeout : Duration;
  lock_timeout : Duration;
}.
Definition ServerConfig_default : ServerConfig :=
  {| body_limit_bytes := N.shiftl 5 20;
     request_timeout := Duration_from_secs 30;
     max_concurrent_requests := 128;
     statement_timeout := Duration_from_secs 25;
     lock_timeout := Duration_from_secs 5 |}.

(** ** Identities *)
Record AuthenticatedDevice := {
  ad_tenant_id : string;
  ad_device_id : string;
  allowed_tables : option (gset string);
}.
#[export] Instance AuthenticatedDevice_eq_dec : EqDecision AuthenticatedDevice.
Proof. solve_decision. Defined.

Definition can_sync_table (identity : AuthenticatedDevice) (table : string) : bool :=
  match allowed_tables identity with
  | None => true
  | Some allowed => bool_decide (table ∈ allowed)
  end.

(** [headers.get(name).and_then(|value| value.to_str().ok())] *)
Definition HeaderMap : Type := string → option string.

(** [trait DeviceAuthenticator]; the first argument of a call is the time. *)
Class DeviceAuthenticator (T : Type) :=
  authenticate : T → N → HeaderMap → result string AuthenticatedDevice.

Definition required_header (headers : HeaderMap) (name : string) : result string string :=
  ok_or (match headers name with
         | Some value => if str_is_empty value then None else Some value
         | None => None
         end) ("missing or invalid " +:+ name +:+ " header").

Inductive HeaderDeviceAuthenticator := mk_HeaderDeviceAuthenticator.
#[export] Instance HeaderDeviceAuthenticator_authenticator :
    DeviceAuthenticator HeaderDeviceAuthenticator := λ _ _ headers,
  tenant ← required_header headers "x-tenant-id";
  device ← required_header headers "x-device-id";
  Ok {| ad_tenant_id := tenant; ad_device_id := device; allowed_tables := None |}.

(** ** Counters *)
Record Metrics := {
  m_requests : N;
  m_sync_ok : N;
  m_sync_rejected : N;
  m_auth_failed : N;
  m_internal_errors : N;
  m_in_flight : N;
  m_duration_micros : N;
  m_duration_count : N;
  m_duration_buckets : list N;
}.
Definition Metrics_default : Metrics :=
  {| m_requests := 0; m_sync_ok := 0; m_sync_rejected := 0; m_auth_failed := 0;
     m_internal_errors := 0; m_in_flight := 0; m_duration_micros := 0; m_duration_count := 0;
     m_duration_buckets := replicate (length DURATION_BUCKETS) 0%N |}.

(** [AtomicU64::fetch_sub] wraps. *)
Definition u64_wrapping_sub (a b : N) : N := ((a + (2 ^ 64 - b mod 2 ^ 64)) mod 2 ^ 64)%N.

Definition count_request (m : Metrics) : Metrics :=
  {| m_requests := u64_wrapping_add (m_requests m) 1; m_sync_ok := m_sync_ok m;
     m_sync_rejected := m_sync_rejected m; m_auth_failed := m_auth_failed m;
     m_internal_errors := m_internal_errors m; m_in_flight := m_in_flight m;
     m_duration_micros := m_duration_micros m; m_duration_count := m_duration_count m;
     m_duration_buckets := m_duration_buckets m |}.
Definition count_ok (m : Metrics) : Metrics :=
  {| m_requests := m_requests m; m_sync_ok := u64_wrapping_add (m_sync_ok m) 1;
     m_sync_rejected := m_sync_rejected m; m_auth_failed := m_auth_failed m;
     m_internal_errors := m_internal_errors m; m_in_flight := m_in_flight m;
     m_duration_micros := m_duration_micros m; m_duration_count := m_duration_count m;
     m_duration_buckets := m_duration_buckets m |}.
Definition count_rejected (m : Metrics) : Metrics :=
  {| m_requests := m_requests m; m_sync_ok := m_sync_ok m;
     m_sync_rejected := u64_wrapping_add (m_sync_rejected m) 1; m_auth_failed := m_auth_failed m;
     m_internal_errors := m_internal_errors m; m_in_flight := m_in_flight m;
     m_duration_micros := m_duration_micros m; m_duration_count := m_duration_count m;
     m_duration_buckets := m_duration_buckets m |}.
Definition count_auth_failed (m : Metrics) : Metrics :=
  {| m_requests := m_requests m; m_sync_ok := m_sync_ok m;
     m_sync_rejected := m_sync_rejected m; m_auth_failed := u64_wrapping_add (m_auth_failed m) 1;
     m_internal_errors := m_internal_errors m; m_in_flight := m_in_flight m;
     m_duration_micros := m_duration_micros m; m_duration_count := m_duration_count m;
     m_duration_buckets := m_duration_buckets m |}.
Definition count_internal_error (m : Metrics) : Metrics :=
  {| m_requests := m_requests m; m_sync_ok := m_sync_ok m;
     m_sync_rejected := m_sync_rejected m; m_auth_failed := m_auth_failed m;
     m_internal_errors := u64_wrapping_add (m_internal_errors m) 1; m_in_flight := m_in_flight m;
     m_duration_micros := m_duration_micros m; m_duration_count := m_duration_count m;
     m_duration_buckets := m_duration_buckets m |}.

(** [SyncObservation::start] and the four kinds of writes of its [Drop]. *)
Definition SyncObservation_start (m : Metrics) : Metrics :=
  {| m_requests := m_requests m; m_sync_ok := m_sync_ok m;
     m_sync_rejected := m_sync_rejected m; m_auth_failed := m_auth_failed m;
     m_internal_errors := m_internal_errors m; m_in_flight := u64_wrapping_add (m_in_flight m) 1;
     m_duration_micros := m_duration_micros m; m_duration_count := m_duration_count m;
     m_duration_buckets := m_duration_buckets m |}.
Definition count_micros (micros : N) (m : Metrics) : Metrics :=
  {| m_requests := m_requests m; m_sync_ok := m_sync_ok m;
     m_sync_rejected := m_sync_rejected m; m_auth_failed := m_auth_failed m;
     m_internal_errors := m_internal_errors m; m_in_flight := m_in_flight m;
     m_duration_micros := u64_wrapping_add (m_duration_micros m) micros;
     m_duration_count := m_duration_count m; m_duration_buckets := m_duration_buckets m |}.
Definition count_duration (m : Metrics) : Metrics :=
  {| m_requests := m_requests m; m_sync_ok := m_sync_ok m;
     m_sync_rejected := m_sync_rejected m; m_auth_failed := m_auth_failed m;
     m_internal_errors := m_internal_errors m; m_in_flight := m_in_flight m;
     m_duration_micros := m_duration_micros m;
     m_duration_count := u64_wrapping_add (m_duration_count m) 1;
     m_duration_buckets := m_duration_buckets m |}.
Definition count_bucket (i : nat) (m : Metrics) : Metrics :=
  {| m_requests := m_requests m; m_sync_ok := m_sync_ok m;
     m_sync_rejected := m_sync_rejected m; m_auth_failed := m_auth_failed m;
     m_internal_errors := m_internal_errors m; m_in_flight := m_in_flight m;
     m_duration_micros := m_duration_micros m; m_duration_count := m_duration_count m;
     m_duration_buckets := alter (λ bucket, u64_wrapping_add bucket 1) i (m_duration_buckets m) |}.
Definition leave_flight (m : Metrics) : Metrics :=
  {| m_requests := m_requests m; m_sync_ok := m_sync_ok m;
     m_sync_rejected := m_sync_rejected m; m_auth_failed := m_auth_failed m;
     m_internal_errors := m_internal_errors m; m_in_flight := u64_wrapping_sub (m_in_flight m) 1;
     m_duration_micros := m_duration_micros m; m_duration_count := m_duration_count m;
     m_duration_buckets := m_duration_buckets m |}.

(** The atomic operations of a request, each of which other requests and
    scrapes can come between. *)
Inductive Atomic :=
| CountRequest
| EnterFlight
| CountOk | CountRejected | CountAuthFailed | CountInternalError
| CountMicros (micros : N)
| CountDuration
| CountBucket (i : nat)
| LeaveFlight.
#[export] Instance Atomic_eq_dec : EqDecision Atomic.
Proof. solve_decision. Defined.
Definition atomic (a : Atomic) : Metrics → Metrics :=
  match a with
  | CountRequest => count_request
  | EnterFlight => SyncObservation_start
  | CountOk => count_ok
  | CountRejected => count_rejected
  | CountAuthFailed => count_auth_failed
  | CountInternalError => count_internal_error
  | CountMicros micros => count_micros micros
  | CountDuration => count_duration
  | CountBucket i => count_bucket i
  | LeaveFlight => leave_flight
  end.

(** [Drop], in the order of its writes, after the time [elapsed]. *)
Definition observed_micros (elapsed : Duration) : N := N.min (as_micros elapsed) U64_MAX.
Fixpoint bucket_atomics (micros : N) (i : nat) (buckets : list (N * string)) : list Atomic :=
  match buckets with
  | [] => []
  | (threshold, _) :: buckets =>
    (if (micros <=? threshold)%N then [CountBucket i] else []) ++
    bucket_atomics micros (S i) buckets
  end.
Definition drop_atomics (elapsed : Duration) : list Atomic :=
  let micros := observed_micros elapsed in
  [CountMicros micros; CountDuration] ++
  bucket_atomics micros 0 DURATION_BUCKETS ++ [LeaveFlight].
Definition SyncObservation_drop (elapsed : Duration) (m : Metrics) : Metrics :=
  foldl (λ m a, atomic a m) m (drop_atomics elapsed).

(** [{:06}] *)
Definition fmt_06 (n : N) : string :=
  let digits := pretty n in
  Nat.iter (6 - String.length digits) (String "0") digits.
Definition nl : string := String (ascii_of_N 10) "".
Definition dq : string := String (ascii_of_N 34) "".
Definition render_buckets (m : Metrics) : string :=
  String.concat "" (zip_with (λ '(_, label) count,
    "loomabase_sync_duration_seconds_bucket{le=" +:+ dq +:+ label +:+ dq +:+ "} " +:+
    pretty count +:+ nl) DURATION_BUCKETS (m_duration_buckets m)).
Definition Metrics_render (m : Metrics) : string :=
  let duration_seconds :=
    pretty (m_duration_micros m / 1000000)%N +:+ "." +:+ fmt_06 (m_duration_micros m mod 1000000)
  in
  "# HELP loomabase_sync_requests_total Sync requests received." +:+ nl +:+
  "# TYPE loomabase_sync_requests_total counter" +:+ nl +:+
  "loomabase_sync_requests_total " +:+ pretty (m_requests m) +:+ nl +:+
  "# HELP loomabase_sync_ok_total Sync requests that merged successfully." +:+ nl +:+
  "# TYPE loomabase_sync_ok_total counter" +:+ nl +:+
  "loomabase_sync_ok_total " +:+ pretty (m_sync_ok m) +:+ nl +:+
  "# HELP loomabase_sync_rejected_total Authenticated sync requests rejected by the merge." +:+ nl +:+
  "# TYPE loomabase_sync_rejected_total counter" +:+ nl +:+
  "loomabase_sync_rejected_total " +:+ pretty (m_sync_rejected m) +:+ nl +:+
  "# HELP loomabase_auth_failed_total Requests rejected by authentication." +:+ nl +:+
  "# TYPE loomabase_auth_failed_total counter" +:+ nl +:+
  "loomabase_auth_failed_total " +:+ pretty (m_auth_failed m) +:+ nl +:+
  "# HELP loomabase_sync_internal_errors_total Sync requests that failed internally." +:+ nl +:+
  "# TYPE loomabase_sync_internal_errors_total counter" +:+ nl +:+
  "loomabase_sync_internal_errors_total " +:+ pretty (m_internal_errors m) +:+ nl +:+
  "# HELP loomabase_sync_in_flight Sync requests currently executing." +:+ nl +:+
  "# TYPE loomabase_sync_in_flight gauge" +:+ nl +:+
  "loomabase_sync_in_flight " +:+ pretty (m_in_flight m) +:+ nl +:+
  "# HELP loomabase_sync_duration_seconds Sync request execution time." +:+ nl +:+
  "# TYPE loomabase_sync_duration_seconds histogram" +:+ nl +:+
  render_buckets m +:+
  "loomabase_sync_duration_seconds_bucket{le=" +:+ dq +:+ "+Inf" +:+ dq +:+ "} " +:+
  pretty (m_duration_count m) +:+ nl +:+
  "loomabase_sync_duration_seconds_sum " +:+ duration_seconds +:+ nl +:+
  "loomabase_sync_duration_seconds_count " +:+ pretty (m_duration_count m) +:+ nl.

(** ** Answers *)
Inductive Body :=
| JsonSync (payload : SyncPayload)
| JsonPartial (response : PartialReplicaResponse)
| TextBody (text : string).
Record Response := { rsp_status : N; rsp_body : Body }.

Definition error_response (error : SyncError) : N * string :=
  match error with
  | InvalidPayload _ | SchemaMismatch _ _ => (400%N, SyncError_to_string error)
  | _ => (500%N, "internal server error")
  end.
(** [StatusCode::is_server_error] *)
Definition is_server_error (status : N) : bool := (500 <=? status)%N && (status <? 600)%N.

Section http.
Context `{!Pg_externals, !SerdeJson, !StrDebug}.

Record AppState := {
  as_table : TableDef;
  as_authenticator : N → HeaderMap → result string AuthenticatedDevice;
  as_security : SyncSecurity;
  as_config : ServerConfig;
}.

(** What the connection pool does to a transaction: [begin] can fail; a
    [COMMIT] whose answer is lost may or may not have been executed. *)
Record PoolOutcome := {
  begin_error : option string;
  commit_error : option (string * bool);
}.
Definition pool_works : PoolOutcome := {| begin_error := None; commit_error := None |}.

(** Settings made with [set_config(.., true)] end with the transaction. *)
Definition settings : Type := gmap string string.
Definition TxM (A : Type) : Type := stM (PgDb * settings) SyncError A.
(** PostgreSQL keeps these settings in 32 bits. *)
Definition MAX_TIMEOUT_MILLIS : N := 2147483647.
Definition set_transaction_timeout (setting : string) (timeout : Duration) : TxM unit :=
  let millis := as_millis timeout in
  if (MAX_TIMEOUT_MILLIS <? millis)%N
  then st_lift (pg_err ("invalid value for parameter " +:+ setting))
  else st_modify (λ s, (s.1, <[setting := pretty millis]> s.2)).
Definition execute {A} (m : PgM A) : TxM A := λ s,
  match m s.1 with (r, db) => (r, (db, s.2)) end.
Definition in_transaction {A} (pool : PoolOutcome) (body : TxM A) : PgM A := λ db,
  match begin_error pool with
  | Some e => (Err (Postgres e), db)
  | None =>
    match run_transaction (λ db, match body (db, ∅) with (r, (db', _)) => (r, db') end) db with
    | (Ok a, db') =>
      match commit_error pool with
      | None => (Ok a, db')
      | Some (e, applied) =>
        (Err (Postgres e), if applied : bool then db'
                           else set_uuids (pg_uuids db') (set_sequence (pg_sequence db') db))
      end
    | (Err e, db') => (Err e, db')
    end
  end.

Definition run_merge (state : AppState) (pool : PoolOutcome) (payload : SyncPayload)
    (identity : AuthenticatedDevice) : PgM SyncPayload :=
  in_transaction pool (
    set_transaction_timeout "statement_timeout" (statement_timeout (as_config state)) ;;;
    set_transaction_timeout "lock_timeout" (lock_timeout (as_config state)) ;;;
    execute (merge_crdt_states_with_security (as_table state) payload (ad_device_id identity)
               (ad_tenant_id identity) (as_security state))).

Definition run_partial_merge (state : AppState) (pool : PoolOutcome)
    (request : PartialReplicaRequest) (identity : AuthenticatedDevice)
  : PgM PartialReplicaResponse :=
  in_transaction pool (
    set_transaction_timeout "statement_timeout" (statement_timeout (as_config state)) ;;;
    set_transaction_timeout "lock_timeout" (lock_timeout (as_config state)) ;;;
    execute (merge_partial_replica_with_security (as_table state) request (ad_device_id identity)
               (ad_tenant_id identity) (as_security state))).

(** ** The handlers

    [sync] and [sync_partial] between the start of their observation and its
    drop: the same guards around two merges, and on each branch the counter
    it increments. *)
Definition handle {A} (state : AppState) (now : N) (headers : HeaderMap)
    (merge : AuthenticatedDevice → PgM A) (json : A → Body) (db : PgDb)
  : (Response * Atomic) * PgDb :=
  match as_authenticator state now headers with
  | Err _ =>
    ({| rsp_status := 401; rsp_body := TextBody "unauthorized" |}, CountAuthFailed, db)
  | Ok identity =>
    if can_sync_table identity (td_name (as_table state)) then
      match merge identity db with
      | (Ok response, db') => ({| rsp_status := 200; rsp_body := json response |}, CountOk, db')
      | (Err error, db') =>
        let '(status, message) := error_response error in
        ({| rsp_status := status; rsp_body := TextBody message |},
         if is_server_error status then CountInternalError else CountRejected, db')
      end
    else ({| rsp_status := 403; rsp_body := TextBody "forbidden" |}, CountRejected, db)
  end.

Definition sync_handle (state : AppState) (now : N) (headers : HeaderMap) (pool : PoolOutcome)
    (payload : SyncPayload) : PgDb → (Response * Atomic) * PgDb :=
  handle state now headers (run_merge state pool payload) JsonSync.
Definition sync_partial_handle (state : AppState) (now : N) (headers : HeaderMap)
    (pool : PoolOutcome) (request : PartialReplicaRequest)
  : PgDb → (Response * Atomic) * PgDb :=
  handle state now headers (run_partial_merge state pool request) JsonPartial.

Definition counted (handler : PgDb → (Response * Atomic) * PgDb) (s : PgDb * Metrics)
  : Response * (PgDb * Metrics) :=
  match handler s.1 with
  | (response, outcome, db') => (response, (db', atomic outcome s.2))
  end.
Definition observed (elapsed : Duration)
    (handler : PgDb * Metrics → Response * (PgDb * Metrics)) (s : PgDb * Metrics)
  : Response * (PgDb * Metrics) :=
  let '(db, m) := s in
  match handler (db, SyncObservation_start (count_request m)) with
  | (response, (db', m')) => (response, (db', SyncObservation_drop elapsed m'))
  end.
Definition sync (state : AppState) (now : N) (headers : HeaderMap) (pool : PoolOutcome)
    (elapsed : Duration) (payload : SyncPayload) : PgDb * Metrics → Response * (PgDb * Metrics) :=
  observed elapsed (counted (sync_handle state now headers pool payload)).
Definition sync_partial (state : AppState) (now : N) (headers : HeaderMap) (pool : PoolOutcome)
    (elapsed : Duration) (request : PartialReplicaRequest)
  : PgDb * Metrics → Response * (PgDb * Metrics) :=
  observed elapsed (counted (sync_partial_handle state now headers pool request)).

(** [GET /metrics] and [GET /health], on what the catalog queries answer. *)
Definition metrics_response (m : Metrics) : Response :=
  {| rsp_status := 200; rsp_body := TextBody (Metrics_render m) |}.
Definition health (tables_query sequence_query : option bool) : Response :=
  if default false tables_query && default false sequence_query
  then {| rsp_status := 200; rsp_body := TextBody "ok" |}
  else {| rsp_status := 503; rsp_body := TextBody "database unavailable" |}.
End http.
