(* ===== verification/HttpTheorems.v ===== *)
(** * Theorems of the HTTP server (src/http.rs) *)
From stdpp Require Import gmap.
From S2P Require Import Prelude RustStd Error Schema Crdt Policy Explain Replica State.
From S2P Require Import Postgres Server ServerFacts ServerRun ServerInv ServerSteps Http.

Local Open Scope loom_scope.

(** ** Wrapping counters *)
Lemma wrap_add c d : u64_wrapping_add (c mod 2 ^ 64) d = ((c + d) mod 2 ^ 64)%N.
Proof. unfold u64_wrapping_add. by rewrite N.Div0.add_mod_idemp_l. Qed.
Lemma wrap_pred c : u64_wrapping_sub ((c + 1) mod 2 ^ 64) 1 = (c mod 2 ^ 64)%N.
Proof.
  unfold u64_wrapping_sub. rewrite N.Div0.add_mod_idemp_l.
  change (1 mod 2 ^ 64)%N with 1%N.
  replace (c + 1 + (2 ^ 64 - 1))%N with (c + 1 * 2 ^ 64)%N by lia.
  apply N.Div0.mod_add.
Qed.

Section http.
Context `{!Pg_externals, !SerdeJson, !StrDebug}.

(** ** Transactions *)

(** The database after a rollback: values drawn from the sequence or at
    random are not given back. *)
Definition only_draws (db db' : PgDb) : Prop :=
  ∃ n s, (pg_sequence db ≤ s)%Z ∧ (pg_uuids db ≤ n)%N ∧ db' = set_uuids n (set_sequence s db).
Lemma only_draws_refl db : only_draws db db.
Proof. exists (pg_uuids db), (pg_sequence db). split_and!; [lia..|by destruct db]. Qed.
Lemma only_draws_rollback db db1 : counters_le db db1 → only_draws db (rolled_back db db1).
Proof. intros [??]. by eexists _, _. Qed.
Lemma only_draws_tenant other db db' : only_draws db db' → same_tenant other db db'.
Proof. intros (n & s & ? & ? & ->). by split. Qed.

(** The two settings come first; they fail when they are out of range. *)
Lemma execute_after {A} setting1 timeout1 setting2 timeout2 (m : PgM A) db :
  ∃ after,
  (set_transaction_timeout setting1 timeout1 ;;;
   set_transaction_timeout setting2 timeout2 ;;; execute m) (db, ∅)
  = if (as_millis timeout1 <=? MAX_TIMEOUT_MILLIS)%N && (as_millis timeout2 <=? MAX_TIMEOUT_MILLIS)%N
    then match m db with (r, db') => (r, (db', after)) end
    else (pg_err ("invalid value for parameter " +:+
                  (if (as_millis timeout1 <=? MAX_TIMEOUT_MILLIS)%N then setting2 else setting1)),
          (db, after)).
Proof.
  unfold st_bind, set_transaction_timeout, st_modify, st_lift, execute.
  destruct (N.leb_spec (as_millis timeout1) MAX_TIMEOUT_MILLIS) as [H1'|H1'];
    [rewrite (proj2 (N.ltb_ge _ _)) by done|rewrite (proj2 (N.ltb_lt _ _)) by done; by eexists].
  destruct (N.leb_spec (as_millis timeout2) MAX_TIMEOUT_MILLIS) as [H2'|H2'];
    [rewrite (proj2 (N.ltb_ge _ _)) by done|rewrite (proj2 (N.ltb_lt _ _)) by done; by eexists].
  simpl. destruct (m db). by eexists.
Qed.

(** A transaction commits as a whole or is rolled back, and answers [Ok] only
    when it was committed. *)
Lemma in_transaction_cases {A} pool setting1 timeout1 setting2 timeout2 (m : PgM A) db res db' :
  st_keeps counters_le m →
  in_transaction pool (set_transaction_timeout setting1 timeout1 ;;;
    set_transaction_timeout setting2 timeout2 ;;; execute m) db = (res, db') →
  match res with
  | Ok a => m db = (Ok a, db')
  | Err e => only_draws db db' ∨ ∃ a what, m db = (Ok a, db') ∧ e = Postgres what
  end.
Proof.
  intros Hm. unfold in_transaction, run_transaction.
  destruct (execute_after setting1 timeout1 setting2 timeout2 m db) as [after ->].
  destruct (begin_error pool) as [what|].
  { intros [= <- <-]. left. apply only_draws_refl. }
  destruct (_ && _).
  2:{ intros [= <- <-]. left. by apply (only_draws_rollback db db). }
  destruct (m db) as [[a|e] db1] eqn:Hdb; pose proof (Hm _ _ _ Hdb) as Hle.
  - destruct (commit_error pool) as [[what [|]]|]; intros [= <- <-].
    + right. by exists a, what.
    + left. by apply only_draws_rollback.
    + done.
  - intros [= <- <-]. left. by apply only_draws_rollback.
Qed.

Lemma sync_counters t p device tenant security :
  st_keeps counters_le (merge_crdt_states_with_security t p device tenant security).
Proof. apply (frame_counters _ tenant). intros o Hne. by apply merge_frame. Qed.
Lemma partial_counters t r device tenant security :
  st_keeps counters_le (merge_partial_replica_with_security t r device tenant security).
Proof. apply (frame_counters _ tenant). apply merge_partial_frame. Qed.

(** ** One request *)

(** What a handler does to the database, and what it answers. *)
Definition sync_answer {A} (state : AppState) (now : N) (headers : HeaderMap)
    (merge : AuthenticatedDevice → PgM A) (json : A → Body) (db : PgDb) (resp : Response)
    (db' : PgDb) : Prop :=
  match as_authenticator state now headers with
  | Err _ => rsp_status resp = 401%N ∧ rsp_body resp = TextBody "unauthorized" ∧ db' = db
  | Ok identity =>
    if can_sync_table identity (td_name (as_table state)) then
      (∃ a, rsp_status resp = 200%N ∧ rsp_body resp = json a ∧ merge identity db = (Ok a, db')) ∨
      (∃ e, (rsp_status resp, rsp_body resp) = prod_map id TextBody (error_response e) ∧
         (only_draws db db' ∨
          rsp_status resp = 500%N ∧ ∃ a, merge identity db = (Ok a, db')))
    else rsp_status resp = 403%N ∧ rsp_body resp = TextBody "forbidden" ∧ db' = db
  end.

Definition transaction_of {A} (state : AppState) (pool : PoolOutcome)
    (merge : AuthenticatedDevice → PgM A) (identity : AuthenticatedDevice) : PgM A :=
  in_transaction pool (
    set_transaction_timeout "statement_timeout" (statement_timeout (as_config state)) ;;;
    set_transaction_timeout "lock_timeout" (lock_timeout (as_config state)) ;;;
    execute (merge identity)).
Definition full_merge (state : AppState) (payload : SyncPayload) (identity : AuthenticatedDevice)
  : PgM SyncPayload :=
  merge_crdt_states_with_security (as_table state) payload (ad_device_id identity)
    (ad_tenant_id identity) (as_security state).
Definition partial_merge (state : AppState) (request : PartialReplicaRequest)
    (identity : AuthenticatedDevice) : PgM PartialReplicaResponse :=
  merge_partial_replica_with_security (as_table state) request (ad_device_id identity)
    (ad_tenant_id identity) (as_security state).

Lemma handle_answer {A} state now headers pool (merge : AuthenticatedDevice → PgM A) json db resp
    outcome db' :
  (∀ identity, st_keeps counters_le (merge identity)) →
  handle state now headers (transaction_of state pool merge) json db = (resp, outcome, db') →
  sync_answer state now headers merge json db resp db'.
Proof.
  intros Hle. unfold handle, sync_answer, transaction_of.
  destruct (as_authenticator state now headers) as [identity|]; [|by intros [= <- _ <-]].
  destruct (can_sync_table _ _); [|by intros [= <- _ <-]].
  destruct (in_transaction _ _ _) as [res db1] eqn:Hrun.
  apply in_transaction_cases in Hrun; [|apply Hle].
  destruct res as [a|e].
  - intros [= <- _ <-]. left. by exists a.
  - destruct (error_response e) as [status message] eqn:He. intros [= <- _ <-]. right.
    exists e. rewrite He. split; [done|].
    destruct Hrun as [Hrun|(a & what & Ha & ->)]; [by left|right].
    simpl in *. split; [congruence|eauto].
Qed.

(** The counter a status belongs to. *)
Definition outcome_of (status : N) (outcome : Atomic) : Prop :=
  status = 200%N ∧ outcome = CountOk ∨ status = 401%N ∧ outcome = CountAuthFailed ∨
  status ∈ [400; 403]%N ∧ outcome = CountRejected ∨ status = 500%N ∧ outcome = CountInternalError.
Lemma handle_outcome {A} state now headers (merge : AuthenticatedDevice → PgM A) json db resp
    outcome db' :
  handle state now headers merge json db = (resp, outcome, db') →
  outcome_of (rsp_status resp) outcome.
Proof.
  unfold handle, outcome_of.
  destruct (as_authenticator state now headers) as [identity|];
    [|intros [= <- <- <-]; simpl; set_solver].
  destruct (can_sync_table _ _); [|intros [= <- <- <-]; simpl; set_solver].
  destruct (merge identity db) as [[a|e] db1]; [intros [= <- <- <-]; simpl; set_solver|].
  destruct e; simpl; intros [= <- <- <-]; simpl; set_solver.
Qed.

Lemma observed_cases elapsed handler s resp s' :
  observed elapsed handler s = (resp, s') →
  ∃ s1, handler (s.1, SyncObservation_start (count_request s.2)) = (resp, s1) ∧
    s'.1 = s1.1 ∧ s'.2 = SyncObservation_drop elapsed s1.2.
Proof.
  destruct s as [db m]. unfold observed. destruct (handler _) as [resp' [db1 m1]].
  intros [= <- <-]. by exists (db1, m1).
Qed.

Lemma counted_cases handler s resp s' :
  counted handler s = (resp, s') →
  ∃ outcome, handler s.1 = (resp, outcome, s'.1) ∧ s'.2 = atomic outcome s.2.
Proof.
  unfold counted. destruct (handler s.1) as [[resp' outcome] db'].
  intros [= <- <-]. by exists outcome.
Qed.
Lemma sync_handle_answer state now headers pool payload db resp outcome db' :
  sync_handle state now headers pool payload db = (resp, outcome, db') →
  sync_answer state now headers (full_merge state payload) JsonSync db resp db'.
Proof. apply handle_answer. intros identity. apply sync_counters. Qed.
Lemma sync_partial_handle_answer state now headers pool request db resp outcome db' :
  sync_partial_handle state now headers pool request db = (resp, outcome, db') →
  sync_answer state now headers (partial_merge state request) JsonPartial db resp db'.
Proof. apply handle_answer. intros identity. apply partial_counters. Qed.

(** All a request can do to the database is to draw values, or to commit the
    merge of an identity. *)
Lemma answer_cases {A} state now headers (merge : AuthenticatedDevice → PgM A) json db resp db' :
  sync_answer state now headers merge json db resp db' →
  only_draws db db' ∨
  ∃ identity a, as_authenticator state now headers = Ok identity ∧ merge identity db = (Ok a, db').
Proof.
  unfold sync_answer.
  destruct (as_authenticator state now headers) as [identity|];
    [|intros (_ & _ & ->); left; apply only_draws_refl].
  destruct (can_sync_table _ _); [|intros (_ & _ & ->); left; apply only_draws_refl].
  intros [(a & _ & _ & Hm)|(e & _ & [Hdraw|(_ & a & Hm)])]; [right|by left|right];
    by exists identity, a.
Qed.

(** C11: The HTTP server is safe and truthful. A sync reaches the database only
    with an identity its authenticator vouches for, on a table that identity
    may sync, and touches only the tenant of that identity; it is committed
    as a whole or leaves no trace but drawn sequence numbers; [200] carries
    the response of a committed merge, and an error other than [500] means
    that nothing was committed. Errors that are not the client's are answered
    without their text. *)
Theorem http_sync_safe state now headers pool elapsed payload request db m :
  (∀ resp s', sync state now headers pool elapsed payload (db, m) = (resp, s') →
     sync_answer state now headers (full_merge state payload) JsonSync db resp s'.1) ∧
  (∀ resp s', sync_partial state now headers pool elapsed request (db, m) = (resp, s') →
     sync_answer state now headers (partial_merge state request) JsonPartial db resp s'.1) ∧
  (∀ other resp s',
     (∀ identity, as_authenticator state now headers = Ok identity →
        ad_tenant_id identity ≠ other) →
     sync state now headers pool elapsed payload (db, m) = (resp, s') ∨
     sync_partial state now headers pool elapsed request (db, m) = (resp, s') →
     same_tenant other db s'.1).
Proof.
  assert (∀ resp s', sync state now headers pool elapsed payload (db, m) = (resp, s') →
    sync_answer state now headers (full_merge state payload) JsonSync db resp s'.1) as Hsync.
  { unfold sync. intros resp s' (s1 & (outcome & Hs & _)%counted_cases & -> & _)%observed_cases.
    by apply sync_handle_answer in Hs. }
  assert (∀ resp s', sync_partial state now headers pool elapsed request (db, m) = (resp, s') →
    sync_answer state now headers (partial_merge state request) JsonPartial db resp s'.1)
    as Hpartial.
  { unfold sync_partial. intros resp s' (s1 & (outcome & Hs & _)%counted_cases & -> & _)%observed_cases.
    by apply sync_partial_handle_answer in Hs. }
  split_and!; [done|done|]. intros other resp s' Hid [Hs%Hsync%answer_cases|Hs%Hpartial%answer_cases];
    destruct Hs as [?|(identity & a & Hne%Hid & Hm)];
    [by apply only_draws_tenant|by apply (merge_frame _ _ _ Hne _ _ _ _ _ _ Hm)
    |by apply only_draws_tenant|by apply (merge_partial_frame _ _ _ _ _ _ Hne _ _ _ Hm)].
Qed.

(** ** The process

    Requests run at the same time, and each writes the counters one atomic
    operation at a time. A request is counted, enters the flight, is handled
    at some point of its life - its transaction takes effect - is counted
    under its outcome, and is dropped; a timeout or a lost connection cancels
    it before its outcome is counted, whether its transaction took effect or
    not. *)
Inductive Stage :=
| Received
| Observing
| Handled (status : N) (outcome : Atomic)
| Answered (status : N)
| Dropping (answer : option N) (elapsed : Duration) (pending : list Atomic).

(** The write a request makes next. *)
Definition next_atomic (x : Stage) : option (Atomic * Stage) :=
  match x with
  | Received => Some (EnterFlight, Observing)
  | Handled status outcome => Some (outcome, Answered status)
  | Dropping answer elapsed (a :: pending) => Some (a, Dropping answer elapsed pending)
  | Observing | Answered _ | Dropping _ _ [] => None
  end.

Record Process := {
  pr_db : PgDb;
  pr_metrics : Metrics;
  pr_requests : gmap N Stage;
}.
Inductive http_step (state : AppState) (s : Process) : Process → Prop :=
| http_receive i :
    pr_requests s !! i = None →
    http_step state s
      {| pr_db := pr_db s; pr_metrics := atomic CountRequest (pr_metrics s);
         pr_requests := <[i := Received]> (pr_requests s) |}
| http_atomic i x a y :
    pr_requests s !! i = Some x → next_atomic x = Some (a, y) →
    http_step state s
      {| pr_db := pr_db s; pr_metrics := atomic a (pr_metrics s);
         pr_requests := <[i := y]> (pr_requests s) |}
| http_sync i now headers pool payload resp outcome db' :
    pr_requests s !! i = Some Observing →
    sync_handle state now headers pool payload (pr_db s) = (resp, outcome, db') →
    http_step state s
      {| pr_db := db'; pr_metrics := pr_metrics s;
         pr_requests := <[i := Handled (rsp_status resp) outcome]> (pr_requests s) |}
| http_sync_partial i now headers pool request resp outcome db' :
    pr_requests s !! i = Some Observing →
    sync_partial_handle state now headers pool request (pr_db s) = (resp, outcome, db') →
    http_step state s
      {| pr_db := db'; pr_metrics := pr_metrics s;
         pr_requests := <[i := Handled (rsp_status resp) outcome]> (pr_requests s) |}
| http_drop i status elapsed :
    pr_requests s !! i = Some (Answered status) →
    http_step state s
      {| pr_db := pr_db s; pr_metrics := pr_metrics s;
         pr_requests :=
           <[i := Dropping (Some status) elapsed (drop_atomics elapsed)]> (pr_requests s) |}
| http_cancel i x elapsed :
    pr_requests s !! i = Some x →
    match x with Observing | Handled _ _ => True | _ => False end →
    http_step state s
      {| pr_db := pr_db s; pr_metrics := pr_metrics s;
         pr_requests := <[i := Dropping None elapsed (drop_atomics elapsed)]> (pr_requests s) |}
| http_database db' :
    pg_step (as_table state) (pr_db s) db' →
    http_step state s
      {| pr_db := db'; pr_metrics := pr_metrics s; pr_requests := pr_requests s |}.
Definition process_start (db : PgDb) : Process :=
  {| pr_db := db; pr_metrics := Metrics_default; pr_requests := ∅ |}.

(** ** What there is to count

    Every request since the start, and those of which a property holds. *)
Definition stages (s : Process) : list Stage := (map_to_list (pr_requests s)).*2.
Definition number (p : Stage → bool) (l : list Stage) : N :=
  N.of_nat (length (filter (λ x, p x = true) l)).

(** Counted under an outcome, with a status of the list. *)
Definition answered_in (statuses : list N) (x : Stage) : bool :=
  match x with
  | Answered status | Dropping (Some status) _ _ => bool_decide (status ∈ statuses)
  | _ => false
  end.
(** No outcome was counted, or none yet. *)
Definition unanswered (x : Stage) : bool :=
  match x with Answered _ | Dropping (Some _) _ _ => false | _ => true end.
Definition is_in_flight (x : Stage) : bool :=
  match x with
  | Received => false
  | Dropping _ _ pending => bool_decide (LeaveFlight ∈ pending)
  | _ => true
  end.
(** The drop is past the write [a]. *)
Definition past (a : Duration → Atomic) (x : Stage) : bool :=
  match x with Dropping _ elapsed pending => bool_decide (a elapsed ∉ pending) | _ => false end.
(** It took no more than [threshold] microseconds. *)
Definition within (threshold : N) (x : Stage) : bool :=
  match x with Dropping _ elapsed _ => (elapsed / 1000 <=? threshold)%N | _ => false end.
Definition finished (x : Stage) : bool :=
  match x with Dropping _ _ [] => true | _ => false end.
Definition micros_of (x : Stage) : N :=
  match x with
  | Dropping _ elapsed pending =>
    if bool_decide (CountMicros (observed_micros elapsed) ∈ pending) then 0%N
    else observed_micros elapsed
  | _ => 0%N
  end.
Definition sum_micros (l : list Stage) : N := foldr (λ x acc, (micros_of x + acc)%N) 0%N l.

Lemma number_perm p l l' : l ≡ₚ l' → number p l = number p l'.
Proof. intros Hp. unfold number. by rewrite Hp. Qed.
Lemma number_cons p x l : number p (x :: l) = (number p l + (if p x then 1 else 0))%N.
Proof.
  unfold number. rewrite filter_cons.
  destruct (p x); [rewrite decide_True by done|rewrite decide_False by done]; cbn [length]; lia.
Qed.
Lemma number_le p l : (number p l ≤ N.of_nat (length l))%N.
Proof. unfold number. pose proof (length_filter (λ x : Stage, p x = true) l). lia. Qed.
Lemma number_mono (p q : Stage → bool) l :
  (∀ x, p x = true → q x = true) → (number p l ≤ number q l)%N.
Proof.
  intros Hpq. induction l as [|x l IH]; [done|]. rewrite !number_cons.
  specialize (Hpq x). destruct (p x), (q x); lia.
Qed.
Lemma number_all (p q : Stage → bool) l :
  Forall (λ x, p x = q x) l → number p l = number q l.
Proof. induction 1 as [|x l Hx _ IH]; [done|]. by rewrite !number_cons, IH, Hx. Qed.
Lemma number_true l : number (λ _, true) l = N.of_nat (length l).
Proof. induction l as [|x l IH]; [done|]. rewrite number_cons, IH. cbn [length]. lia. Qed.
Lemma sum_micros_perm l l' : l ≡ₚ l' → sum_micros l = sum_micros l'.
Proof. unfold sum_micros. induction 1; simpl; lia. Qed.

Lemma stages_fresh (requests : gmap N Stage) i x :
  requests !! i = None → (map_to_list (<[i := x]> requests)).*2 ≡ₚ x :: (map_to_list requests).*2.
Proof. intros Hi. by rewrite map_to_list_insert. Qed.
Lemma stages_taken (requests : gmap N Stage) i x :
  requests !! i = Some x →
  (map_to_list requests).*2 ≡ₚ x :: (map_to_list (delete i requests)).*2.
Proof.
  intros Hi. rewrite <-(insert_delete_id requests i x Hi) at 1.
  apply stages_fresh, lookup_delete_eq.
Qed.
Lemma stages_updated (requests : gmap N Stage) i y :
  (map_to_list (<[i := y]> requests)).*2 ≡ₚ y :: (map_to_list (delete i requests)).*2.
Proof. rewrite <-insert_delete_eq. apply stages_fresh, lookup_delete_eq. Qed.

(** ** The writes of a drop *)
Lemma elem_of_bucket_atomics micros i buckets a :
  a ∈ bucket_atomics micros i buckets ↔
  ∃ j b, buckets !! j = Some b ∧ (micros ≤ b.1)%N ∧ a = CountBucket (i + j).
Proof.
  revert i. induction buckets as [|[t label] buckets IH]; intros i; simpl.
  { rewrite elem_of_nil. split; [done|]. intros (j & b & Hj & _). done. }
  rewrite elem_of_app, IH. split.
  - intros [Ha|(j & b & Hj & Hle & ->)].
    + destruct (N.leb_spec micros t); [|by apply elem_of_nil in Ha].
      apply list_elem_of_singleton in Ha as ->. exists 0, (t, label). by rewrite Nat.add_0_r.
    + exists (S j), b. by rewrite Nat.add_succ_r.
  - intros ([|j] & b & Hj & Hle & ->).
    + left. injection Hj as <-. simpl in Hle. rewrite (proj2 (N.leb_le _ _) Hle), Nat.add_0_r.
      by apply list_elem_of_singleton.
    + right. exists j, b. by rewrite Nat.add_succ_r.
Qed.
Lemma NoDup_bucket_atomics micros i buckets : NoDup (bucket_atomics micros i buckets).
Proof.
  revert i. induction buckets as [|[t label] buckets IH]; intros i; simpl; [constructor|].
  destruct (_ <=? _)%N; [|apply IH]. apply list.NoDup_cons. split; [|apply IH].
  intros (j & b & _ & _ & [=])%elem_of_bucket_atomics. lia.
Qed.
Lemma elem_of_drop_atomics elapsed a :
  a ∈ drop_atomics elapsed ↔
  a = CountMicros (observed_micros elapsed) ∨ a = CountDuration ∨ a = LeaveFlight ∨
  ∃ j b, DURATION_BUCKETS !! j = Some b ∧ (elapsed / 1000 ≤ b.1)%N ∧ a = CountBucket j.
Proof.
  unfold drop_atomics. rewrite !elem_of_app, elem_of_bucket_atomics, !elem_of_cons, !elem_of_nil.
  assert (∀ j b, DURATION_BUCKETS !! j = Some b →
    ((observed_micros elapsed ≤ b.1)%N ↔ (elapsed / 1000 ≤ b.1)%N)) as Hle.
  { intros j b Hb. unfold observed_micros, as_micros, U64_MAX.
    assert (b.1 < 2 ^ 64 - 1)%N; [|lia].
    apply (Forall_lookup_1 (λ b, (b.1 < 2 ^ 64 - 1)%N) _ _ _) in Hb; [done|].
    repeat constructor. }
  split.
  - intros [[?|[?|[]]]|[(j & b & Hj & Hu%(Hle _ _ Hj) & ->)|[?|[]]]]; [auto..|do 3 right; eauto|auto].
  - intros [?|[?|[?|(j & b & Hj & Hu%(Hle _ _ Hj) & ->)]]]; [auto..|eauto 10].
Qed.
Lemma NoDup_drop_atomics elapsed : NoDup (drop_atomics elapsed).
Proof.
  unfold drop_atomics. apply list.NoDup_app. split_and!.
  - repeat (apply list.NoDup_cons; split; [set_solver|]). constructor.
  - intros a Ha [Hb|Hb]%elem_of_app.
    + apply elem_of_bucket_atomics in Hb as (j & b & _ & _ & ->). set_solver.
    + set_solver.
  - apply list.NoDup_app. split_and!; [apply NoDup_bucket_atomics| |apply list.NoDup_singleton].
    intros a (j & b & _ & _ & ->)%elem_of_bucket_atomics. set_solver.
Qed.

(** ** The invariant: every counter is a number of requests, modulo its width *)
Definition stage_ok (x : Stage) : Prop :=
  match x with
  | Handled status outcome => outcome_of status outcome
  | Answered status => status ∈ [200; 400; 401; 403; 500]%N
  | Dropping answer elapsed pending =>
    NoDup pending ∧ pending ⊆ drop_atomics elapsed ∧
    match answer with Some status => status ∈ [200; 400; 401; 403; 500]%N | None => True end
  | _ => True
  end.
Record metered (m : Metrics) (l : list Stage) : Prop := {
  mt_requests : m_requests m = (number (λ _, true) l mod 2 ^ 64)%N;
  mt_ok : m_sync_ok m = (number (answered_in [200]) l mod 2 ^ 64)%N;
  mt_auth : m_auth_failed m = (number (answered_in [401]) l mod 2 ^ 64)%N;
  mt_rejected : m_sync_rejected m = (number (answered_in [400; 403]) l mod 2 ^ 64)%N;
  mt_internal : m_internal_errors m = (number (answered_in [500]) l mod 2 ^ 64)%N;
  mt_in_flight : m_in_flight m = (number is_in_flight l mod 2 ^ 64)%N;
  mt_micros : m_duration_micros m = (sum_micros l mod 2 ^ 64)%N;
  mt_count : m_duration_count m = (number (past (λ _, CountDuration)) l mod 2 ^ 64)%N;
  mt_buckets i b :
    DURATION_BUCKETS !! i = Some b →
    m_duration_buckets m !! i
    = Some (number (λ x, past (λ _, CountBucket i) x && within b.1 x) l mod 2 ^ 64)%N;
  mt_width : length (m_duration_buckets m) = length DURATION_BUCKETS;
}.

Lemma metered_perm m l l' : l ≡ₚ l' → metered m l → metered m l'.
Proof.
  intros Hp [H1' H2' H3' H4' H5' H6' H7' H8' H9' H10'].
  split; rewrite <-?(number_perm _ _ _ Hp), <-?(sum_micros_perm _ _ Hp); try done.
  intros i b Hb. by rewrite <-(number_perm _ _ _ Hp), (H9' i b Hb).
Qed.

(** A counter follows the weight [w] of a request that goes from [x] to [y]. *)
Definition follows (w : Stage → N) (x y : Stage) (before after : N) : Prop :=
  ∀ n, before = ((n + w x) mod 2 ^ 64)%N → after = ((n + w y) mod 2 ^ 64)%N.
Definition one_if (p : Stage → bool) (x : Stage) : N := if p x then 1%N else 0%N.
Lemma follows_same w x y n : w x = w y → follows w x y n n.
Proof. by intros Hw k ->; rewrite Hw. Qed.
Lemma follows_add w x y n d : (w y = w x + d)%N → follows w x y n (u64_wrapping_add n d).
Proof. intros Hw k ->. rewrite wrap_add, Hw. f_equal. lia. Qed.
Lemma follows_sub w x y n : (w x = w y + 1)%N → follows w x y n (u64_wrapping_sub n 1).
Proof. intros Hw k ->. rewrite Hw, N.add_assoc. apply wrap_pred. Qed.

Definition bucket_count (i : nat) (b : N * string) (x : Stage) : bool :=
  past (λ _, CountBucket i) x && within b.1 x.
Record advances (m : Metrics) (x : Stage) (m' : Metrics) (y : Stage) : Prop := {
  av_requests : follows (one_if (λ _, true)) x y (m_requests m) (m_requests m');
  av_ok : follows (one_if (answered_in [200%N])) x y (m_sync_ok m) (m_sync_ok m');
  av_auth : follows (one_if (answered_in [401%N])) x y (m_auth_failed m) (m_auth_failed m');
  av_rejected :
    follows (one_if (answered_in [400%N; 403%N])) x y (m_sync_rejected m) (m_sync_rejected m');
  av_internal :
    follows (one_if (answered_in [500%N])) x y (m_internal_errors m) (m_internal_errors m');
  av_in_flight : follows (one_if is_in_flight) x y (m_in_flight m) (m_in_flight m');
  av_micros : follows micros_of x y (m_duration_micros m) (m_duration_micros m');
  av_count :
    follows (one_if (past (λ _, CountDuration))) x y (m_duration_count m) (m_duration_count m');
  av_buckets i b v :
    DURATION_BUCKETS !! i = Some b → m_duration_buckets m !! i = Some v →
    ∃ v', m_duration_buckets m' !! i = Some v' ∧ follows (one_if (bucket_count i b)) x y v v';
  av_width : length (m_duration_buckets m') = length (m_duration_buckets m);
}.
Lemma metered_advances m x m' y l :
  advances m x m' y → metered m (x :: l) → metered m' (y :: l).
Proof.
  intros [] [H1' H2' H3' H4' H5' H6' H7' H8' H9' H10'].
  rewrite number_cons in H1', H2', H3', H4', H5', H6', H8'.
  split; rewrite ?number_cons; [eauto..| |eauto| |congruence].
  - cbn [sum_micros foldr] in *. fold (sum_micros l) in *. rewrite N.add_comm in *. eauto.
  - intros i b Hb. specialize (H9' i b Hb).
    destruct (av_buckets0 i b _ Hb H9') as (v' & -> & Hv). rewrite number_cons in *.
    f_equal. by apply Hv.
Qed.

Lemma advances_same m x y :
  is_in_flight x = is_in_flight y → micros_of x = micros_of y →
  (∀ statuses, answered_in statuses x = answered_in statuses y) →
  past (λ _, CountDuration) x = past (λ _, CountDuration) y →
  (∀ i b, DURATION_BUCKETS !! i = Some b → bucket_count i b x = bucket_count i b y) →
  advances m x m y.
Proof.
  intros Hf Hm Ha Hc Hb.
  split; try (apply follows_same; unfold one_if; by rewrite ?Hf, ?Ha, ?Hc);
    [|done].
  intros i b v Hi Hv. exists v. split; [done|]. apply follows_same. unfold one_if. by rewrite (Hb i b).
Qed.

Lemma bucket_entry elapsed i b :
  DURATION_BUCKETS !! i = Some b →
  CountBucket i ∈ drop_atomics elapsed ↔ (elapsed / 1000 ≤ b.1)%N.
Proof.
  intros Hi. rewrite elem_of_drop_atomics. split.
  - intros [?|[?|[?|(j & b' & Hj & Hle & [= <-])]]]; [done..|]. by simplify_eq.
  - eauto 10.
Qed.

(** Entering the drop counts for nothing yet. *)
Lemma advances_drop m x answer elapsed :
  is_in_flight x = true → micros_of x = 0%N →
  (∀ statuses, answered_in statuses x = match answer with
                                        | Some status => bool_decide (status ∈ statuses)
                                        | None => false end) →
  past (λ _, CountDuration) x = false → (∀ i b, bucket_count i b x = false) →
  advances m x m (Dropping answer elapsed (drop_atomics elapsed)).
Proof.
  intros Hf Hm Ha Hc Hb.
  apply advances_same; cbn [is_in_flight micros_of answered_in past].
  - rewrite bool_decide_eq_true_2; [done|]. apply elem_of_drop_atomics. auto.
  - rewrite bool_decide_eq_true_2; [done|]. apply elem_of_drop_atomics. auto.
  - intros statuses. rewrite Ha. by destruct answer.
  - rewrite bool_decide_eq_false_2; [done|]. intros []. apply elem_of_drop_atomics. auto.
  - intros i b Hi. rewrite Hb. unfold bucket_count. cbn [past within]. symmetry. apply andb_false_iff.
    destruct (N.leb_spec (elapsed / 1000) b.1) as [Hle|]; [left|by right].
    rewrite bool_decide_eq_false_2; [done|]. intros []. by apply (bucket_entry _ _ b).
Qed.

(** Every write moves exactly the counter it belongs to. *)
Lemma past_next (a : Atomic) pending (b : Atomic) :
  b ≠ a → bool_decide (b ∉ a :: pending) = bool_decide (b ∉ pending).
Proof. intros Hb. apply bool_decide_ext. rewrite not_elem_of_cons. naive_solver. Qed.
Lemma pending_next (a : Atomic) pending (b : Atomic) :
  b ≠ a → bool_decide (b ∈ a :: pending) = bool_decide (b ∈ pending).
Proof. intros Hb. apply bool_decide_ext. rewrite elem_of_cons. naive_solver. Qed.

Lemma advances_outcome m status outcome :
  outcome_of status outcome →
  advances m (Handled status outcome) (atomic outcome m) (Answered status).
Proof.
  intros [[-> ->]|[[-> ->]|[[Hst ->]|[-> ->]]]];
    [| |repeat (apply elem_of_cons in Hst as [->|Hst]); [..|by apply elem_of_nil in Hst]|];
    (split; try (by apply follows_same); try (by apply follows_add); try done;
     intros i b v _ Hv; exists v; (split; [done|by apply follows_same])).
Qed.

Lemma advances_pending m answer elapsed a pending :
  NoDup (a :: pending) → a ∈ drop_atomics elapsed →
  advances m (Dropping answer elapsed (a :: pending)) (atomic a m)
    (Dropping answer elapsed pending).
Proof.
  intros [Ha _]%list.NoDup_cons Hin.
  assert (∀ statuses, one_if (answered_in statuses) (Dropping answer elapsed (a :: pending))
    = one_if (answered_in statuses) (Dropping answer elapsed pending)) as Hans
    by (by destruct answer).
  assert (bool_decide (a ∈ a :: pending) = true) as Hhead
    by (apply bool_decide_eq_true; set_solver).
  assert (bool_decide (a ∈ pending) = false) as Htail by (by apply bool_decide_eq_false).
  assert (bool_decide (a ∉ a :: pending) = false) as Hhead'
    by (apply bool_decide_eq_false; set_solver).
  assert (bool_decide (a ∉ pending) = true) as Htail' by (by apply bool_decide_eq_true).
  apply elem_of_drop_atomics in Hin as [->|[->|[->|(j & b & Hj & Hle & ->)]]];
    (split; [by apply follows_same|by apply follows_same, Hans..| | | | |simpl; by rewrite ?length_alter]);
    try (apply follows_same; unfold one_if; simpl;
         rewrite ?past_next, ?pending_next by (intros [=]; lia); done);
    try (apply follows_add; unfold one_if; simpl;
         rewrite ?Hhead, ?Htail, ?Hhead', ?Htail'; done);
    try (apply follows_sub; unfold one_if; simpl;
         rewrite ?Hhead, ?Htail, ?Hhead', ?Htail'; done).
  all: intros i b' v Hi Hv; simpl.
  1-3: exists v; (split; [done|]); apply follows_same; unfold one_if, bucket_count; simpl;
       by rewrite past_next by done.
  destruct (decide (i = j)) as [->|Hne].
  - simplify_eq. rewrite list_lookup_alter_eq, Hv. eexists. split; [done|].
    apply follows_add. unfold one_if, bucket_count. simpl. rewrite Hhead', Htail'.
    by rewrite (proj2 (N.leb_le _ _) Hle).
  - exists v. rewrite list_lookup_alter_ne by done. split; [done|].
    apply follows_same. unfold one_if, bucket_count. simpl. by rewrite past_next by congruence.
Qed.

Lemma metered_received m l : metered m l → metered (atomic CountRequest m) (Received :: l).
Proof.
  intros [H1' H2' H3' H4' H5' H6' H7' H8' H9' H10'].
  split; [|..|intros i b Hb|done]; rewrite ?number_cons; cbn -[number N.modulo N.pow];
    rewrite ?N.add_0_r; [|done..|by apply H9'].
  by rewrite H1', wrap_add.
Qed.
Lemma metered_update m m' (requests : gmap N Stage) i x y :
  requests !! i = Some x → advances m x m' y →
  metered m (map_to_list requests).*2 → metered m' (map_to_list (<[i := y]> requests)).*2.
Proof.
  intros Hi Hadv Hm. eapply metered_perm; [symmetry; apply stages_updated|].
  apply (metered_advances _ _ _ _ _ Hadv). eapply metered_perm, Hm. by apply stages_taken.
Qed.

Record process_ok (s : Process) : Prop := {
  pk_metered : metered (pr_metrics s) (stages s);
  pk_stages : map_Forall (λ _, stage_ok) (pr_requests s);
}.
Lemma next_advances m x a y :
  stage_ok x → next_atomic x = Some (a, y) → advances m x (atomic a m) y ∧ stage_ok y.
Proof.
  destruct x as [| |status outcome|status|answer elapsed [|a' pending]]; simpl;
    intros Hok [= <- <-].
  - split; [|done]. split; try (by apply follows_same); try (by apply follows_add); try done.
    intros i b v _ Hv. exists v. split; [done|by apply follows_same].
  - split; [by apply advances_outcome|]. unfold outcome_of in Hok. set_solver.
  - destruct Hok as (Hnd & Hsub & Hans). split; [apply advances_pending; [done|set_solver]|].
    apply list.NoDup_cons in Hnd as [_ ?]. split_and!; [done|set_solver|done].
Qed.
Lemma http_step_ok state s s' : http_step state s s' → process_ok s → process_ok s'.
Proof.
  assert (∀ answer elapsed,
    match answer with Some status => status ∈ [200; 400; 401; 403; 500]%N | None => True end →
    stage_ok (Dropping answer elapsed (drop_atomics elapsed))) as Hdrop
    by (intros; split; [apply NoDup_drop_atomics|done]).
  intros Hstep [Hm Hall]. unfold stages in *.
  destruct Hstep as [i Hi|i x a y Hi Hnext|i now headers pool payload resp outcome db' Hi Hs
    |i now headers pool request resp outcome db' Hi Hs|i status elapsed Hi|i x elapsed Hi Hx|db' _];
    [..|by split].
  - split; [|by apply map_Forall_insert_2].
    eapply metered_perm; [symmetry; by apply stages_fresh|]. by apply metered_received.
  - destruct (next_advances (pr_metrics s) x a y (Hall _ _ Hi) Hnext) as [Hadv Hy].
    split; [by apply (metered_update _ _ _ _ _ _ Hi Hadv)|by apply map_Forall_insert_2].
  - split; [|apply map_Forall_insert_2; [by apply handle_outcome in Hs|done]].
    apply (metered_update (pr_metrics s) _ _ _ _ _ Hi); [|done]. by apply advances_same.
  - split; [|apply map_Forall_insert_2; [by apply handle_outcome in Hs|done]].
    apply (metered_update (pr_metrics s) _ _ _ _ _ Hi); [|done]. by apply advances_same.
  - split; [|apply map_Forall_insert_2; [apply Hdrop, (Hall _ _ Hi)|done]].
    apply (metered_update (pr_metrics s) _ _ _ _ _ Hi); [|done]. by apply advances_drop.
  - split; [|apply map_Forall_insert_2; [by apply Hdrop|done]].
    apply (metered_update (pr_metrics s) _ _ _ _ _ Hi); [|done]. destruct x; try done; by apply advances_drop.
Qed.
Lemma process_start_ok db : process_ok (process_start db).
Proof.
  split; [|done]. unfold stages. simpl. rewrite map_to_list_empty.
  split; try done. intros i b Hi. apply lookup_replicate_2. by apply lookup_lt_Some in Hi.
Qed.
Lemma process_reachable_ok state db s :
  rtc (http_step state) (process_start db) s → process_ok s.
Proof.
  intros Hsteps. pose proof (process_start_ok db) as Hok.
  induction Hsteps as [s|s1 s2 s3 Hstep _ IH]; [done|]. by eapply IH, http_step_ok.
Qed.

(** Every request is counted under one outcome, or under none. *)
Lemma stages_partition l :
  Forall stage_ok l →
  N.of_nat (length l)
  = (number (answered_in [200]) l + number (answered_in [401]) l +
     number (answered_in [400; 403]) l + number (answered_in [500]) l + number unanswered l)%N.
Proof.
  induction 1 as [|x l Hx _ IH]; [done|]. rewrite !number_cons. cbn [length].
  assert (((if answered_in [200%N] x then 1 else 0) + (if answered_in [401%N] x then 1 else 0) +
    (if answered_in [400%N; 403%N] x then 1 else 0) + (if answered_in [500%N] x then 1 else 0) +
    (if unanswered x then 1 else 0) = 1)%N); [|lia].
  assert (∀ status, status ∈ [200; 400; 401; 403; 500]%N →
    ((if bool_decide (status ∈ [200%N]) then 1 else 0)
     + (if bool_decide (status ∈ [401%N]) then 1 else 0) +
    (if bool_decide (status ∈ [400%N; 403%N]) then 1 else 0)
    + (if bool_decide (status ∈ [500%N]) then 1 else 0) + 0 = 1)%N) as Hst.
  { intros status Hin.
    repeat (apply elem_of_cons in Hin as [->|Hin]); [done..|by apply elem_of_nil in Hin]. }
  destruct x as [| | |status|[status|] elapsed pending]; [done|done|done|by apply Hst| |done].
  by apply Hst, Hx.
Qed.

Lemma within_mono t1 t2 l : (t1 ≤ t2)%N → (number (within t1) l ≤ number (within t2) l)%N.
Proof. intros Hle. apply number_mono. intros [] Hx; simpl in *; try done. apply N.leb_le in Hx. apply N.leb_le. by etrans. Qed.

(** ** The handlers are runs of the process *)
Definition with_request (db : PgDb) (m : Metrics) (i : N) (x : Stage) (s : Process) : Process :=
  {| pr_db := db; pr_metrics := m; pr_requests := <[i := x]> (pr_requests s) |}.
Lemma with_request_again db m i x db' m' y s :
  with_request db' m' i y (with_request db m i x s) = with_request db' m' i y s.
Proof. unfold with_request. cbn. by rewrite insert_insert_eq. Qed.
Lemma with_request_lookup db m i x s : pr_requests (with_request db m i x s) !! i = Some x.
Proof. apply lookup_insert_eq. Qed.
Lemma request_writes state db m i x a y s :
  next_atomic x = Some (a, y) →
  http_step state (with_request db m i x s) (with_request db (atomic a m) i y s).
Proof.
  intros Hnext. pose proof (http_atomic state _ i x a y (with_request_lookup db m i x s) Hnext) as H'.
  cbn in H'. by rewrite insert_insert_eq in H'.
Qed.
Lemma request_dropping state db m i status elapsed s :
  http_step state (with_request db m i (Answered status) s)
    (with_request db m i (Dropping (Some status) elapsed (drop_atomics elapsed)) s).
Proof.
  pose proof (http_drop state _ i status elapsed (with_request_lookup db m i _ s)) as H'.
  cbn in H'. by rewrite insert_insert_eq in H'.
Qed.
Lemma request_drops state db m i answer elapsed pending s :
  rtc (http_step state) (with_request db m i (Dropping answer elapsed pending) s)
    (with_request db (foldl (λ m a, atomic a m) m pending) i (Dropping answer elapsed []) s).
Proof.
  revert m. induction pending as [|a pending IH]; intros m; [apply rtc_refl|].
  eapply rtc_l; [by apply request_writes|]. apply IH.
Qed.
Lemma request_runs state elapsed handler i s resp db' m' :
  (∀ db m resp outcome db', handler db = (resp, outcome, db') →
     http_step state (with_request db m i Observing s)
       (with_request db' m i (Handled (rsp_status resp) outcome) s)) →
  pr_requests s !! i = None →
  observed elapsed (counted handler) (pr_db s, pr_metrics s) = (resp, (db', m')) →
  rtc (http_step state) s
    (with_request db' m' i (Dropping (Some (rsp_status resp)) elapsed []) s).
Proof.
  intros Hhandle Hi Hrun. unfold observed, counted in Hrun. cbn [fst snd] in Hrun.
  destruct (handler (pr_db s)) as [[resp1 outcome] db1] eqn:Hh. injection Hrun as <- <- <-.
  eapply rtc_l; [by apply (http_receive state s i)|].
  eapply rtc_l; [by apply (request_writes state _ _ _ Received)|].
  eapply rtc_l; [by apply Hhandle|]. eapply rtc_l; [by apply request_writes|].
  eapply rtc_l; [by apply (request_dropping _ _ _ _ _ elapsed)|]. apply (request_drops state).
Qed.
Lemma sync_runs state now headers pool elapsed payload i s resp db' m' :
  pr_requests s !! i = None →
  sync state now headers pool elapsed payload (pr_db s, pr_metrics s) = (resp, (db', m')) →
  rtc (http_step state) s
    (with_request db' m' i (Dropping (Some (rsp_status resp)) elapsed []) s).
Proof.
  apply request_runs. intros db m resp1 outcome db1 Hh.
  pose proof (http_sync state _ i now headers pool payload resp1 outcome db1
    (with_request_lookup db m i Observing s) Hh) as H'. cbn in H'. by rewrite insert_insert_eq in H'.
Qed.
Lemma sync_partial_runs state now headers pool elapsed request i s resp db' m' :
  pr_requests s !! i = None →
  sync_partial state now headers pool elapsed request (pr_db s, pr_metrics s) = (resp, (db', m')) →
  rtc (http_step state) s
    (with_request db' m' i (Dropping (Some (rsp_status resp)) elapsed []) s).
Proof.
  apply request_runs. intros db m resp1 outcome db1 Hh.
  pose proof (http_sync_partial state _ i now headers pool request resp1 outcome db1
    (with_request_lookup db m i Observing s) Hh) as H'. cbn in H'. by rewrite insert_insert_eq in H'.
Qed.

(** C25: The metrics are exact. Whatever the interleaving of the requests'
    single atomic operations, of their transactions, of timeouts and lost
    connections and of everything else that happens to the database, at every
    moment - that is, for every load of a scrape, also one between two writes
    of the same request - each counter is the number of the requests it stands
    for, as long as fewer than 2^64 were received: the requests received; the
    requests past the start of their observation and not past its end; those
    answered 200, 401, 400 or 403, and 500; the observed durations, in total
    and, for each threshold, those of at most so many microseconds. So the
    outcomes and the unanswered requests add up to the requests received, and
    when no request is running the gauge is zero, every request has a
    duration, and the histogram is cumulative - which it need not be while a
    drop is writing it. The handlers [sync] and [sync_partial] are such runs:
    of one new request that nothing comes in between. *)
Theorem http_metrics_account state db s :
  rtc (http_step state) (process_start db) s →
  (N.of_nat (length (stages s)) < 2 ^ 64)%N →
  let m := pr_metrics s in
  let l := stages s in
  m_requests m = N.of_nat (length l) ∧
  m_in_flight m = number is_in_flight l ∧
  m_sync_ok m = number (answered_in [200%N]) l ∧
  m_auth_failed m = number (answered_in [401%N]) l ∧
  m_sync_rejected m = number (answered_in [400%N; 403%N]) l ∧
  m_internal_errors m = number (answered_in [500%N]) l ∧
  m_duration_count m = number (past (λ _, CountDuration)) l ∧
  m_duration_micros m = (sum_micros l mod 2 ^ 64)%N ∧
  (∀ i t, [50000; 100000; 250000; 500000; 1000000; 2500000; 5000000; 10000000; 30000000]%N !! i
          = Some t →
     m_duration_buckets m !! i
     = Some (number (λ x, past (λ _, CountBucket i) x && within t x) l)) ∧
  m_requests m = (m_sync_ok m + m_auth_failed m + m_sync_rejected m + m_internal_errors m +
                  number unanswered l)%N ∧
  (Forall (λ x, finished x = true) l →
     m_in_flight m = 0%N ∧ m_duration_count m = m_requests m ∧
     StronglySorted N.le (m_duration_buckets m ++ [m_duration_count m])) ∧
  (∀ now headers pool elapsed payload request i resp db' m',
     pr_requests s !! i = None →
     sync state now headers pool elapsed payload (pr_db s, m) = (resp, (db', m')) ∨
     sync_partial state now headers pool elapsed request (pr_db s, m) = (resp, (db', m')) →
     rtc (http_step state) s
       {| pr_db := db'; pr_metrics := m';
          pr_requests :=
            <[i := Dropping (Some (rsp_status resp)) elapsed []]> (pr_requests s) |}).
Proof.
  intros [Hm Hall]%process_reachable_ok Hroom m l. fold m l in Hm. fold l in Hroom.
  assert (Forall stage_ok l) as Hok.
  { apply Forall_fmap, list.Forall_forall. intros [i x] Hix%elem_of_map_to_list. by apply (Hall i x). }
  assert (∀ p, (number p l mod 2 ^ 64 = number p l)%N) as Hmod
    by (intros p; apply N.mod_small; pose proof (number_le p l); lia).
  destruct Hm as [Hreq Hans Hauth Hrej Hint Hfly Hmic Hcount Hbuckets Hwidth].
  rewrite Hmod in Hreq, Hans, Hauth, Hrej, Hint, Hfly, Hcount. rewrite number_true in Hreq.
  split_and!; [done..| | | |].
  4: { intros now headers pool elapsed payload request i resp db' m' Hi [Hs|Hs];
       [by apply (sync_runs state now headers pool elapsed payload)
       |by apply (sync_partial_runs state now headers pool elapsed request)]. }
  - intros i t Ht. change [50000; 100000; 250000; 500000; 1000000; 2500000; 5000000; 10000000;
      30000000]%N with (fst <$> DURATION_BUCKETS) in Ht.
    apply list_lookup_fmap_Some in Ht as (b & -> & Hb). by rewrite (Hbuckets i b Hb), Hmod.
  - rewrite Hreq, Hans, Hauth, Hrej, Hint. by apply stages_partition.
  - intros Hfin. rewrite Hfly, Hcount, Hreq, <-number_true.
    assert (m_duration_buckets m = (λ b : N * string, number (within b.1) l) <$> DURATION_BUCKETS)
      as ->.
    { apply list_eq_same_length with (n := length DURATION_BUCKETS);
        [by rewrite length_fmap|done|].
      intros i x y Hlt Hx Hy. apply list_lookup_fmap_Some in Hy as (b & -> & Hb).
      rewrite (Hbuckets i b Hb), Hmod in Hx. injection Hx as <-.
      apply number_all. eapply list.Forall_impl; [exact Hfin|].
      by intros [| | | |? ? []]. }
    assert (number (past (λ _, CountDuration)) l = number (λ _, true) l) as ->.
    { apply number_all. eapply list.Forall_impl; [exact Hfin|]. by intros [| | | |? ? []]. }
    split_and!; [|done|].
    + rewrite (number_all _ (λ _, false)).
      * clear. induction l as [|x l IH]; [done|]. by rewrite number_cons, IH.
      * eapply list.Forall_impl; [exact Hfin|]. by intros [| | | |? ? []].
    + unfold DURATION_BUCKETS. rewrite !fmap_cons, fmap_nil. cbn [app fst].
      repeat (constructor; [|repeat constructor; first
        [apply within_mono; lia|by apply number_mono]]).
      constructor.
Qed.
End http.
