(* ===== verification/Auth.v ===== *)
(** * Device authentication (src/auth.rs)

    The three authenticators that verify a signed bearer token, and the
    encoders of the reference clients. Base64, HMAC, RSA, JSON and the
    jsonwebtoken crate are parameters. *)
From stdpp Require Import gmap.
From S2P Require Import Prelude RustStd Error Crdt Http.

(** [Result<T, String>] *)
Abbreviation AuthResult := (result string).

Definition MAX_BEARER_TOKEN_BYTES : N := 16 * 1024.

(** ** [str] *)

(** [s.split(sep)], [s.rsplit_once(sep)], [s.strip_prefix(prefix)] *)
Fixpoint str_split (sep : ascii) (s : string) : list string :=
  match s with
  | EmptyString => [EmptyString]
  | String c s =>
    if Ascii.eqb c sep then EmptyString :: str_split sep s
    else match str_split sep s with
         | part :: parts => String c part :: parts
         | [] => [String c EmptyString]
         end
  end.
Fixpoint str_rsplit_once (sep : ascii) (s : string) : option (string * string) :=
  match s with
  | EmptyString => None
  | String c s =>
    match str_rsplit_once sep s with
    | Some (before, after) => Some (String c before, after)
    | None => if Ascii.eqb c sep then Some (EmptyString, s) else None
    end
  end.
Fixpoint str_strip_prefix (prefix s : string) : option string :=
  match prefix, s with
  | EmptyString, _ => Some s
  | String p prefix, String c s => if Ascii.eqb p c then str_strip_prefix prefix s else None
  | String _ _, EmptyString => None
  end.

(** ** Tokens *)
Record Claims := {
  cl_tenant_id : string;
  cl_device_id : string;
  cl_exp : N;
  cl_nbf : option N;
  cl_aud : option string;
  cl_iss : option string;
  cl_allowed_tables : option (gset string);
}.
Record ClaimPolicy := { cp_audience : option string; cp_issuer : option string }.
Definition ClaimPolicy_default : ClaimPolicy := {| cp_audience := None; cp_issuer := None |}.

Inductive Algorithm := HS256 | RS256 | ES256 | EdDSA | OtherAlgorithm (name : string).

(** [serde_json::Value]; a number is kept as its text, an object as its
    entries. *)
Inductive JsonValue :=
| JNull
| JBool (b : bool)
| JNumber (text : string)
| JString (s : string)
| JArray (l : list JsonValue)
| JObject (entries : list (string * JsonValue)).

(** What [SupabaseJwtAuthenticator] asks of [Validation::new(alg)]. *)
Record Validation := {
  vd_algorithm : Algorithm;
  vd_validate_nbf : bool;
  vd_issuer : list string;
  vd_required_spec_claims : list string;
  vd_audience : option (list string);
  vd_validate_aud : bool;
}.

Class Jwt_externals := {
  (** [URL_SAFE_NO_PAD] *)
  b64_encode : list N → string;
  b64_decode : string → option (list N);
  (** [HmacSha256::new_from_slice], then [update] and [finalize] *)
  hmac_sha256 : list N → option (list N → list N);
  (** [serde_json] on [TokenHeader] and [Claims] *)
  json_header_alg : list N → option string;
  json_to_claims : list N → option Claims;
  claims_to_json : Claims → option (list N);
  (** jsonwebtoken *)
  DecodingKey : Type;
  EncodingKey : Type;
  Jwk : Type;
  JwkSet : Type;
  key_from_rsa_pem : string → result string DecodingKey;
  private_key_from_rsa_pem : string → result string EncodingKey;
  crypto_verify : string → list N → DecodingKey → Algorithm → option bool;
  jwt_encode : Algorithm → Claims → EncodingKey → result string string;
  jwt_decode_header : string → option (Algorithm * option string);
  jwks_from_json : string → option JwkSet;
  jwks_keys : JwkSet → list Jwk;
  jwks_find : JwkSet → string → option Jwk;
  key_from_jwk : Jwk → option DecodingKey;
  (** at a time: it compares [exp] and [nbf] with the clock *)
  jwt_decode : N → string → DecodingKey → Validation → option JsonValue;
}.

(** ** Shared envelope helpers *)
Definition bearer_token (headers : HeaderMap) : AuthResult string :=
  header ← ok_or (headers "authorization") "missing authorization header";
  token ← ok_or (str_strip_prefix "Bearer " header)
            "authorization header must be a Bearer token";
  if (MAX_BEARER_TOKEN_BYTES <? str_len token)%N then Err "bearer token is too large"
  else Ok token.

Section auth.
Context `{!Jwt_externals}.

Definition split_token (token : string) : AuthResult (string * string * list N) :=
  match str_split "." token with
  | [header_b64; payload_b64; signature_b64] =>
    signature ← ok_or (b64_decode signature_b64) "invalid token signature encoding";
    Ok (header_b64, payload_b64, signature)
  | _ => Err "malformed token"
  end.

Definition decode_segment {A} (from_slice : list N → option A) (segment : string)
  : AuthResult A :=
  bytes ← ok_or (b64_decode segment) "invalid token encoding";
  ok_or (from_slice bytes) "invalid token claims".

Definition expect_alg (header_b64 expected : string) : AuthResult unit :=
  alg ← decode_segment json_header_alg header_b64;
  if decide (alg = expected) then Ok tt else Err "unsupported token algorithm".

(** [validate_identifier(field, value).map_err(|_| message)] *)
Definition identifier_or (field value message : string) : AuthResult unit :=
  match validate_identifier field value with Ok _ => Ok tt | Err _ => Err message end.

Definition validated_identity (now : N) (payload_b64 : string) (policy : ClaimPolicy)
  : AuthResult AuthenticatedDevice :=
  claims ← decode_segment json_to_claims payload_b64;
  if (cl_exp claims <=? now)%N then Err "token expired"
  else if match cl_nbf claims with Some nbf => (now <? nbf)%N | None => false end
  then Err "token is not yet valid"
  else if match cp_audience policy with
          | Some expected => bool_decide (cl_aud claims ≠ Some expected) | None => false end
  then Err "token audience mismatch"
  else if match cp_issuer policy with
          | Some expected => bool_decide (cl_iss claims ≠ Some expected) | None => false end
  then Err "token issuer mismatch"
  else
    _ ← identifier_or "token tenant_id" (cl_tenant_id claims) "token contains an invalid tenant";
    _ ← identifier_or "token device_id" (cl_device_id claims) "token contains an invalid device";
    Ok {| ad_tenant_id := cl_tenant_id claims; ad_device_id := cl_device_id claims;
          allowed_tables := cl_allowed_tables claims |}.

(** ** [HS256] *)
Record JwtDeviceAuthenticator := { jwt_secret : list N; jwt_policy : ClaimPolicy }.
Definition JwtDeviceAuthenticator_new (secret : list N) : JwtDeviceAuthenticator :=
  {| jwt_secret := secret; jwt_policy := ClaimPolicy_default |}.
Definition jwt_with_audience (audience : string) (a : JwtDeviceAuthenticator)
  : JwtDeviceAuthenticator :=
  {| jwt_secret := jwt_secret a;
     jwt_policy := {| cp_audience := Some audience; cp_issuer := cp_issuer (jwt_policy a) |} |}.
Definition jwt_with_issuer (issuer : string) (a : JwtDeviceAuthenticator)
  : JwtDeviceAuthenticator :=
  {| jwt_secret := jwt_secret a;
     jwt_policy := {| cp_audience := cp_audience (jwt_policy a); cp_issuer := Some issuer |} |}.

#[export] Instance JwtDeviceAuthenticator_authenticator :
    DeviceAuthenticator JwtDeviceAuthenticator := λ a now headers,
  token ← bearer_token headers;
  '(header_b64, payload_b64, signature) ← split_token token;
  _ ← expect_alg header_b64 "HS256";
  let signing_input := header_b64 +:+ "." +:+ payload_b64 in
  mac ← ok_or (hmac_sha256 (jwt_secret a)) "invalid signing key";
  if decide (signature = mac (str_bytes signing_input))
  then validated_identity now payload_b64 (jwt_policy a)
  else Err "invalid token signature".

(** ** [RS256] *)
Record RsaJwtDeviceAuthenticator := { rsa_decoding_key : DecodingKey; rsa_policy : ClaimPolicy }.
Definition from_public_key_pem (pem : string) : AuthResult RsaJwtDeviceAuthenticator :=
  match key_from_rsa_pem pem with
  | Ok key => Ok {| rsa_decoding_key := key; rsa_policy := ClaimPolicy_default |}
  | Err error => Err ("invalid RSA public key: " +:+ error)
  end.
Definition rsa_with_audience (audience : string) (a : RsaJwtDeviceAuthenticator)
  : RsaJwtDeviceAuthenticator :=
  {| rsa_decoding_key := rsa_decoding_key a;
     rsa_policy := {| cp_audience := Some audience; cp_issuer := cp_issuer (rsa_policy a) |} |}.
Definition rsa_with_issuer (issuer : string) (a : RsaJwtDeviceAuthenticator)
  : RsaJwtDeviceAuthenticator :=
  {| rsa_decoding_key := rsa_decoding_key a;
     rsa_policy := {| cp_audience := cp_audience (rsa_policy a); cp_issuer := Some issuer |} |}.

#[export] Instance RsaJwtDeviceAuthenticator_authenticator :
    DeviceAuthenticator RsaJwtDeviceAuthenticator := λ a now headers,
  token ← bearer_token headers;
  '(header_b64, payload_b64, _) ← split_token token;
  _ ← expect_alg header_b64 "RS256";
  '(signing_input, signature_b64) ← ok_or (str_rsplit_once "." token) "malformed token";
  valid ← ok_or (crypto_verify signature_b64 (str_bytes signing_input) (rsa_decoding_key a) RS256)
            "invalid token signature";
  if valid : bool then validated_identity now payload_b64 (rsa_policy a)
  else Err "invalid token signature".

(** ** Supabase *)

(** [Arc<RwLock<JwkSet>>]: the keys, and whether a panic poisoned the lock. *)
Record SupabaseJwtAuthenticator := {
  sb_jwks : JwkSet;
  sb_poisoned : bool;
  sb_issuer : string;
  sb_audience : option string;
  sb_tenant_claim : string;
  sb_tables_claim : string;
}.
Definition trusted_jwks (jwks_json : string) : AuthResult JwkSet :=
  jwks ← ok_or (jwks_from_json jwks_json) "invalid JWKS JSON";
  match jwks_keys jwks with
  | [] => Err "JWKS does not contain verification keys"
  | _ => Ok jwks
  end.
Definition from_jwks_json (jwks_json issuer : string) : AuthResult SupabaseJwtAuthenticator :=
  jwks ← trusted_jwks jwks_json;
  Ok {| sb_jwks := jwks; sb_poisoned := false; sb_issuer := issuer;
        sb_audience := Some "authenticated"; sb_tenant_claim := "app_metadata.tenant_id";
        sb_tables_claim := "app_metadata.loomabase_tables" |}.
Definition supabase_with_audience (audience : option string) (a : SupabaseJwtAuthenticator)
  : SupabaseJwtAuthenticator :=
  {| sb_jwks := sb_jwks a; sb_poisoned := sb_poisoned a; sb_issuer := sb_issuer a;
     sb_audience := audience; sb_tenant_claim := sb_tenant_claim a;
     sb_tables_claim := sb_tables_claim a |}.
Definition with_tenant_claim (path : string) (a : SupabaseJwtAuthenticator)
  : SupabaseJwtAuthenticator :=
  {| sb_jwks := sb_jwks a; sb_poisoned := sb_poisoned a; sb_issuer := sb_issuer a;
     sb_audience := sb_audience a; sb_tenant_claim := path;
     sb_tables_claim := sb_tables_claim a |}.
Definition with_tables_claim (path : string) (a : SupabaseJwtAuthenticator)
  : SupabaseJwtAuthenticator :=
  {| sb_jwks := sb_jwks a; sb_poisoned := sb_poisoned a; sb_issuer := sb_issuer a;
     sb_audience := sb_audience a; sb_tenant_claim := sb_tenant_claim a;
     sb_tables_claim := path |}.
Definition replace_jwks_json (jwks_json : string)
  : stM SupabaseJwtAuthenticator string unit := λ a,
  match trusted_jwks jwks_json with
  | Err e => (Err e, a)
  | Ok replacement =>
    if sb_poisoned a then (Err "JWKS lock is poisoned", a)
    else (Ok tt, {| sb_jwks := replacement; sb_poisoned := sb_poisoned a;
                    sb_issuer := sb_issuer a; sb_audience := sb_audience a;
                    sb_tenant_claim := sb_tenant_claim a; sb_tables_claim := sb_tables_claim a |})
  end.

(** [Value::get] on a string key, [as_str], [as_array] *)
Definition json_get (segment : string) (v : JsonValue) : option JsonValue :=
  match v with
  | JObject entries => (list_find (λ e, e.1 = segment) entries) ≫= λ e, Some e.2.2
  | _ => None
  end.
Definition json_as_str (v : JsonValue) : option string :=
  match v with JString s => Some s | _ => None end.
Definition json_as_array (v : JsonValue) : option (list JsonValue) :=
  match v with JArray l => Some l | _ => None end.

Definition claim_value (claims : JsonValue) (path : string) : option JsonValue :=
  foldl (λ value segment, value ≫= json_get segment) (Some claims) (str_split "." path).
Definition claim_string (claims : JsonValue) (path : string) : option string :=
  claim_value claims path ≫= json_as_str.
Definition claim_table (tables : gset string) (v : JsonValue) : AuthResult (gset string) :=
  table ← ok_or (json_as_str v) "table authorization claim must contain strings";
  _ ← identifier_or "authorized table" table
        "table authorization claim contains an invalid table";
  Ok ({[ table ]} ∪ tables).
Definition claim_string_set (claims : JsonValue) (path : string)
  : AuthResult (option (gset string)) :=
  match claim_value claims path with
  | None => Ok None
  | Some v =>
    values ← ok_or (json_as_array v) "table authorization claim must be an array";
    tables ← foldM claim_table ∅ values;
    Ok (Some tables)
  end.

Definition supabase_validation (alg : Algorithm) (a : SupabaseJwtAuthenticator) : Validation :=
  {| vd_algorithm := alg; vd_validate_nbf := true; vd_issuer := [sb_issuer a];
     vd_required_spec_claims :=
       ["exp"; "iss"; "sub"] ++ (if sb_audience a is Some _ then ["aud"] else []);
     vd_audience := (λ audience, [audience]) <$> sb_audience a;
     vd_validate_aud := if sb_audience a is Some _ then true else false |}.

Definition supabase_identity (a : SupabaseJwtAuthenticator) (headers : HeaderMap)
    (claims : JsonValue) : AuthResult AuthenticatedDevice :=
  sub ← ok_or (claim_string claims "sub") "token is missing a valid sub";
  _ ← identifier_or "token sub" sub "token contains an invalid sub";
  let tenant := default sub (claim_string claims (sb_tenant_claim a)) in
  _ ← identifier_or "token tenant_id" tenant "token contains an invalid tenant";
  device_suffix ← required_header headers "x-device-id";
  _ ← identifier_or "x-device-id" device_suffix "invalid x-device-id header";
  let device := sub +:+ "/" +:+ device_suffix in
  _ ← identifier_or "device_id" device "combined device identity is too long";
  tables ← claim_string_set claims (sb_tables_claim a);
  Ok {| ad_tenant_id := tenant; ad_device_id := device; allowed_tables := tables |}.

#[export] Instance SupabaseJwtAuthenticator_authenticator :
    DeviceAuthenticator SupabaseJwtAuthenticator := λ a now headers,
  token ← bearer_token headers;
  '(alg, key_id) ← ok_or (jwt_decode_header token) "invalid token header";
  kid ← ok_or key_id "token is missing kid";
  if match alg with RS256 | ES256 | EdDSA => true | _ => false end then
    if sb_poisoned a then Err "JWKS lock is poisoned"
    else
      jwk ← ok_or (jwks_find (sb_jwks a) kid) "token kid is not trusted";
      key ← ok_or (key_from_jwk jwk) "invalid JWK";
      claims ← ok_or (jwt_decode now token key (supabase_validation alg a)) "invalid token";
      supabase_identity a headers claims
  else Err "unsupported token algorithm".

(** ** Reference encoders; [None] is a panic *)
Definition mk_claims (tenant device : string) (exp : N) : Claims :=
  {| cl_tenant_id := tenant; cl_device_id := device; cl_exp := exp; cl_nbf := None;
     cl_aud := None; cl_iss := None; cl_allowed_tables := None |}.
Definition HS256_HEADER : string :=
  "{" +:+ dq +:+ "alg" +:+ dq +:+ ":" +:+ dq +:+ "HS256" +:+ dq +:+ "," +:+
  dq +:+ "typ" +:+ dq +:+ ":" +:+ dq +:+ "JWT" +:+ dq +:+ "}".
Definition encode_token_with_claims (secret : list N) (tenant device : string) (exp : N)
    (not_before : option N) (audience issuer : option string) : option string :=
  let claims := {| cl_tenant_id := tenant; cl_device_id := device; cl_exp := exp;
                   cl_nbf := not_before; cl_aud := audience; cl_iss := issuer;
                   cl_allowed_tables := None |} in
  let header := b64_encode (str_bytes HS256_HEADER) in
  json ← claims_to_json claims;
  let signing_input := header +:+ "." +:+ b64_encode json in
  mac ← hmac_sha256 secret;
  Some (signing_input +:+ "." +:+ b64_encode (mac (str_bytes signing_input))).
Definition encode_token (secret : list N) (tenant device : string) (exp : N) : option string :=
  encode_token_with_claims secret tenant device exp None None None.
Definition encode_token_rs256 (private_key_pem tenant device : string) (exp : N)
  : AuthResult string :=
  match private_key_from_rsa_pem private_key_pem with
  | Err error => Err ("invalid RSA private key: " +:+ error)
  | Ok private_key =>
    match jwt_encode RS256 (mk_claims tenant device exp) private_key with
    | Err error => Err ("failed to sign RSA token: " +:+ error)
    | Ok token => Ok token
    end
  end.
End auth.
