(* ===== verification/AuthTheorems.v ===== *)
(** * Theorems of device authentication (src/auth.rs) *)
From stdpp Require Import gmap.
From S2P Require Import Prelude RustStd Error Crdt Http Auth.

(** ** [str] *)
Definition lacks (sep : ascii) (s : string) : Prop := sep ∉ String.list_ascii_of_string s.
Lemma lacks_cons sep c s : lacks sep (String c s) ↔ c ≠ sep ∧ lacks sep s.
Proof. unfold lacks. simpl. rewrite not_elem_of_cons. split; intros []; auto. Qed.

Lemma str_split_nonempty sep s : str_split sep s ≠ [].
Proof.
  induction s as [|c s IH]; simpl; [done|]. destruct (Ascii.eqb c sep); [done|].
  by destruct (str_split sep s).
Qed.
Lemma str_split_lacks sep s : lacks sep s → str_split sep s = [s].
Proof.
  induction s as [|c s IH]; [done|]. intros [Hc Hs]%lacks_cons. simpl.
  rewrite (proj2 (Ascii.eqb_neq c sep)) by done. by rewrite IH.
Qed.
Lemma str_split_app sep a b :
  lacks sep a → str_split sep (a +:+ String sep b) = a :: str_split sep b.
Proof.
  induction a as [|c a IH].
  - intros _. simpl. by rewrite Ascii.eqb_refl.
  - intros [Hc Ha]%lacks_cons. simpl. rewrite (proj2 (Ascii.eqb_neq c sep)) by done.
    change (String.append a (String sep b)) with (a +:+ String sep b). by rewrite IH.
Qed.
Lemma str_split_cons sep s part parts :
  str_split sep s = part :: parts →
  lacks sep part ∧ (parts = [] ∧ s = part ∨
                    ∃ rest, s = part +:+ String sep rest ∧ str_split sep rest = parts).
Proof.
  revert part. induction s as [|c s IH]; intros part; simpl.
  - intros [= <- <-]. split; [unfold lacks; simpl; set_solver|by left].
  - destruct (Ascii.eqb_spec c sep) as [->|Hc].
    + intros [= <- <-]. split; [unfold lacks; simpl; set_solver|]. right. by exists s.
    + destruct (str_split sep s) as [|p ps] eqn:Hs; [by apply str_split_nonempty in Hs|].
      intros [= <- <-]. destruct (IH p eq_refl) as [Hp Hcase].
      split; [by apply lacks_cons|]. destruct Hcase as [[-> ->]|(rest & -> & <-)]; [by left|right].
      by exists rest.
Qed.
(** A string splits in three exactly when it is two separators apart. *)
Lemma str_split_three sep s a b c :
  str_split sep s = [a; b; c] ↔
  lacks sep a ∧ lacks sep b ∧ lacks sep c ∧ s = a +:+ String sep (b +:+ String sep c).
Proof.
  split.
  - intros [Ha [[? _]|(r1 & -> & [Hb [[? _]|(r2 & -> & [Hc [[_ ->]|(r3 & _ & Hr)]]%str_split_cons)]]%str_split_cons)]]%str_split_cons;
      [done|done|done|]. by apply str_split_nonempty in Hr.
  - intros (Ha & Hb & Hc & ->). by rewrite !str_split_app, str_split_lacks.
Qed.

Lemma str_rsplit_once_lacks sep s : lacks sep s → str_rsplit_once sep s = None.
Proof.
  induction s as [|c s IH]; [done|]. intros [Hc Hs]%lacks_cons. simpl. rewrite IH by done.
  by rewrite (proj2 (Ascii.eqb_neq c sep)).
Qed.
Lemma str_rsplit_once_app sep a b :
  lacks sep b → str_rsplit_once sep (a +:+ String sep b) = Some (a, b).
Proof.
  intros Hb. induction a as [|c a IH]; simpl.
  - by rewrite str_rsplit_once_lacks, Ascii.eqb_refl.
  - change (String.append a (String sep b)) with (a +:+ String sep b). by rewrite IH.
Qed.
Lemma str_strip_prefix_ok prefix s rest : str_strip_prefix prefix s = Some rest ↔ s = prefix +:+ rest.
Proof.
  revert s. induction prefix as [|p prefix IH]; intros s.
  - simpl. split; [by intros [= ->]|]. intros ->. done.
  - destruct s as [|c s]; [done|]. simpl. destruct (Ascii.eqb_spec p c) as [->|Hne].
    + rewrite IH. split; [by intros ->|]. intros Heq. by injection Heq.
    + split; [done|]. intros Heq. by injection Heq as ??.
Qed.

Section auth.
Context `{!Jwt_externals}.

Lemma bearer_token_ok headers token :
  bearer_token headers = Ok token ↔
  headers "authorization" = Some ("Bearer " +:+ token) ∧ (str_len token ≤ MAX_BEARER_TOKEN_BYTES)%N.
Proof.
  unfold bearer_token. rewrite bind_ok. setoid_rewrite bind_ok. setoid_rewrite ok_or_ok.
  setoid_rewrite str_strip_prefix_ok. split.
  - intros (header & Hh & token' & -> & Hlen). destruct (N.ltb_spec MAX_BEARER_TOKEN_BYTES (str_len token')); [done|].
    injection Hlen as ->. by split.
  - intros [Hh Hlen]. exists ("Bearer " +:+ token). split; [done|]. exists token. split; [done|].
    by rewrite (proj2 (N.ltb_ge _ _)).
Qed.

Lemma split_token_ok token h p signature :
  split_token token = Ok (h, p, signature) ↔
  ∃ s, b64_decode s = Some signature ∧ lacks "." h ∧ lacks "." p ∧ lacks "." s ∧
    token = h +:+ String "." (p +:+ String "." s).
Proof.
  unfold split_token. split.
  - intros Ht. destruct (str_split "." token) as [|a [|b [|c [|]]]] eqn:Hs; try done.
    apply bind_ok in Ht as (sig & Hsig%ok_or_ok & [= -> -> ->]).
    apply str_split_three in Hs as (? & ? & ? & ?). by exists c.
  - intros (s & Hs & Hh & Hp & Hls & Heq).
    rewrite (proj2 (str_split_three "." token h p s)) by done. by rewrite Hs.
Qed.

Lemma decode_segment_ok {A} (from_slice : list N → option A) segment a :
  decode_segment from_slice segment = Ok a ↔
  ∃ bytes, b64_decode segment = Some bytes ∧ from_slice bytes = Some a.
Proof. unfold decode_segment. rewrite bind_ok. by setoid_rewrite ok_or_ok. Qed.

Lemma expect_alg_ok h expected :
  expect_alg h expected = Ok tt ↔ decode_segment json_header_alg h = Ok expected.
Proof.
  unfold expect_alg. rewrite bind_ok. split.
  - intros (alg & Hd & Hc). by case_decide; subst.
  - intros Hd. exists expected. by rewrite decide_True.
Qed.

Lemma identifier_or_ok field value message :
  identifier_or field value message = Ok tt ↔ validate_identifier field value = Ok tt.
Proof. unfold identifier_or. destruct (validate_identifier field value) as [[]|]; naive_solver. Qed.

(** ** What a verified claim set must satisfy *)
Record claims_hold (now : N) (policy : ClaimPolicy) (claims : Claims) : Prop := {
  ch_exp : (now < cl_exp claims)%N;
  ch_nbf nbf : cl_nbf claims = Some nbf → (nbf ≤ now)%N;
  ch_aud expected : cp_audience policy = Some expected → cl_aud claims = Some expected;
  ch_iss expected : cp_issuer policy = Some expected → cl_iss claims = Some expected;
  ch_tenant : validate_identifier "token tenant_id" (cl_tenant_id claims) = Ok tt;
  ch_device : validate_identifier "token device_id" (cl_device_id claims) = Ok tt;
}.
Definition claims_identity (claims : Claims) : AuthenticatedDevice :=
  {| ad_tenant_id := cl_tenant_id claims; ad_device_id := cl_device_id claims;
     allowed_tables := cl_allowed_tables claims |}.

Lemma validated_identity_ok now payload policy identity :
  validated_identity now payload policy = Ok identity ↔
  ∃ claims, decode_segment json_to_claims payload = Ok claims ∧ claims_hold now policy claims ∧
    identity = claims_identity claims.
Proof.
  unfold validated_identity. rewrite bind_ok. apply exist_proper. intros claims.
  apply and_iff_compat_l. split.
  - destruct (N.leb_spec (cl_exp claims) now); [done|].
    destruct (match cl_nbf claims with Some _ => _ | None => _ end) eqn:Hnbf; [done|].
    destruct (match cp_audience policy with Some _ => _ | None => _ end) eqn:Haud; [done|].
    destruct (match cp_issuer policy with Some _ => _ | None => _ end) eqn:Hiss; [done|].
    intros ([] & Ht%identifier_or_ok & ([] & Hd%identifier_or_ok & [= <-])%bind_ok)%bind_ok.
    split; [|done]. split; try done.
    + intros nbf Heq. rewrite Heq in Hnbf. by apply N.ltb_ge.
    + intros e Heq. rewrite Heq in Haud. apply bool_decide_eq_false in Haud.
      by destruct (decide (cl_aud claims = Some e)).
    + intros e Heq. rewrite Heq in Hiss. apply bool_decide_eq_false in Hiss.
      by destruct (decide (cl_iss claims = Some e)).
  - intros [[Hexp Hnbf Haud Hiss Ht Hd] ->]. rewrite (proj2 (N.leb_gt _ _)) by done.
    assert (match cl_nbf claims with Some nbf => (now <? nbf)%N | None => false end = false) as ->
      by (destruct (cl_nbf claims); [apply N.ltb_ge; auto|done]).
    assert (match cp_audience policy with
            | Some expected => bool_decide (cl_aud claims ≠ Some expected) | None => false end
            = false) as ->
      by (destruct (cp_audience policy); [apply bool_decide_eq_false; intros Hne; by apply Hne, Haud|done]).
    assert (match cp_issuer policy with
            | Some expected => bool_decide (cl_iss claims ≠ Some expected) | None => false end
            = false) as ->
      by (destruct (cp_issuer policy); [apply bool_decide_eq_false; intros Hne; by apply Hne, Hiss|done]).
    unfold identifier_or. by rewrite Ht, Hd.
Qed.

(** ** Signed tokens *)

(** A header, payload and signature that [Authorization] carries. *)
Record bears (headers : HeaderMap) (h p s : string) (signature : list N) : Prop := {
  be_header : headers "authorization"
              = Some ("Bearer " +:+ (h +:+ String "." (p +:+ String "." s)));
  be_size : (str_len (h +:+ String "." (p +:+ String "." s)) ≤ MAX_BEARER_TOKEN_BYTES)%N;
  be_signature : b64_decode s = Some signature;
  be_dots : lacks "." h ∧ lacks "." p ∧ lacks "." s;
}.
Lemma bears_iff headers h p signature :
  (∃ token, bearer_token headers = Ok token ∧ split_token token = Ok (h, p, signature)) ↔
  ∃ s, bears headers h p s signature.
Proof.
  split.
  - intros (token & [Ha Hlen]%bearer_token_ok & (s & Hs & Hh & Hp & Hd & ->)%split_token_ok).
    exists s. by split.
  - intros (s & [Ha Hlen Hs (Hh & Hp & Hd)]). eexists. rewrite bearer_token_ok, split_token_ok.
    split; [by split|]. by exists s.
Qed.
Lemma bears_unique headers h p s signature h' p' s' signature' :
  bears headers h p s signature → bears headers h' p' s' signature' →
  h = h' ∧ p = p' ∧ s = s' ∧ signature = signature'.
Proof.
  intros [H1' _ H2' (H3' & H4' & H5')] [H1'' _ H2'' (H3'' & H4'' & H5'')].
  rewrite H1' in H1''.
  apply (inj Some), (inj (String.append "Bearer ")) in H1'' as Heq.
  assert (str_split "." (h +:+ String "." (p +:+ String "." s)) = [h'; p'; s']) as Hsplit
    by (rewrite Heq; by apply str_split_three).
  rewrite (proj2 (str_split_three _ _ h p s)) in Hsplit by done. injection Hsplit as -> -> ->.
  split_and!; congruence.
Qed.

(** C12: An HS256 token is accepted exactly when it is authentic. The
    authenticator answers an identity if and only if the request carries a
    bearer token of at most 16 KiB and three parts, whose header names HS256,
    whose signature is the HMAC of header and payload under the secret, and
    whose payload holds claims that are in force, meant for this audience and
    from this issuer, and names a valid tenant and device; the identity is
    then that of the claims. An RS256 authenticator never accepts such a
    token, whatever its key: the algorithm is fixed by the verifier. *)
Theorem jwt_accepts_exactly secret policy now headers identity :
  (authenticate {| jwt_secret := secret; jwt_policy := policy |} now headers = Ok identity ↔
   ∃ h p s mac claims,
     hmac_sha256 secret = Some mac ∧
     bears headers h p s (mac (str_bytes (h +:+ "." +:+ p))) ∧
     decode_segment json_header_alg h = Ok "HS256" ∧
     decode_segment json_to_claims p = Ok claims ∧
     claims_hold now policy claims ∧ identity = claims_identity claims) ∧
  (authenticate {| jwt_secret := secret; jwt_policy := policy |} now headers = Ok identity →
   ∀ rsa identity', authenticate (rsa : RsaJwtDeviceAuthenticator) now headers ≠ Ok identity').
Proof.
  assert (authenticate {| jwt_secret := secret; jwt_policy := policy |} now headers = Ok identity ↔
   ∃ h p s mac claims,
     hmac_sha256 secret = Some mac ∧
     bears headers h p s (mac (str_bytes (h +:+ "." +:+ p))) ∧
     decode_segment json_header_alg h = Ok "HS256" ∧
     decode_segment json_to_claims p = Ok claims ∧
     claims_hold now policy claims ∧ identity = claims_identity claims) as Hiff.
  { unfold authenticate, JwtDeviceAuthenticator_authenticator. simpl. split.
    - intros (token & Ht & ([[h p] signature] & Hsp & Hrest)%bind_ok)%bind_ok.
      apply bind_ok in Hrest as ([] & Halg%expect_alg_ok & Hrest).
      apply bind_ok in Hrest as (mac & Hmac%ok_or_ok & Hrest).
      case_decide as Hsig; [|done]. subst signature.
      apply validated_identity_ok in Hrest as (claims & Hcl & Hhold & ->).
      destruct (proj1 (bears_iff headers h p (mac (str_bytes (h +:+ "." +:+ p))))) as [s Hs];
        [by eexists|]. by exists h, p, s, mac, claims.
    - intros (h & p & s & mac & claims & Hmac & Hs & Halg & Hcl & Hhold & ->).
      destruct (proj2 (bears_iff headers h p _) (ex_intro _ s Hs)) as (token & Ht & Hsp).
      rewrite Ht. simpl. rewrite Hsp. simpl. rewrite (proj2 (expect_alg_ok h "HS256")) by done.
      simpl. rewrite Hmac. simpl. rewrite decide_True by done.
      apply validated_identity_ok. eauto. }
  split; [exact Hiff|].
  intros (h & p & s & mac & claims & _ & Hs & Halg & _)%Hiff rsa identity' Hrsa.
  unfold authenticate, RsaJwtDeviceAuthenticator_authenticator in Hrsa.
  apply bind_ok in Hrsa as (token & Ht & ([[h' p'] signature] & Hsp & Hrest)%bind_ok).
  apply bind_ok in Hrest as ([] & Halg'%expect_alg_ok & _).
  destruct (proj1 (bears_iff headers h' p' signature)) as [s' Hs']; [by eexists|].
  destruct (bears_unique _ _ _ _ _ _ _ _ _ Hs Hs') as (-> & _). congruence.
Qed.

(** ** Round trip *)

(** Base64 and JSON decode what they encode, base64 has no dot in its
    alphabet, and HMAC takes keys of any length. *)
Record jwt_laws : Prop := {
  jl_base64 bytes : b64_decode (b64_encode bytes) = Some bytes;
  jl_alphabet bytes : lacks "." (b64_encode bytes);
  jl_claims claims : ∃ json, claims_to_json claims = Some json ∧ json_to_claims json = Some claims;
  jl_header : json_header_alg (str_bytes HS256_HEADER) = Some "HS256";
  jl_key secret : is_Some (hmac_sha256 secret);
}.
Definition bearer_headers (token : string) : HeaderMap := λ name,
  if String.eqb name "authorization" then Some ("Bearer " +:+ token) else None.

(** What the reference encoder writes, and what an authenticator makes of it. *)
Lemma encoded_token_verdict secret tenant device exp nbf aud iss :
  jwt_laws →
  ∃ token, encode_token_with_claims secret tenant device exp nbf aud iss = Some token ∧
  ∀ other policy now, (str_len token ≤ MAX_BEARER_TOKEN_BYTES)%N →
  let claims := {| cl_tenant_id := tenant; cl_device_id := device; cl_exp := exp; cl_nbf := nbf;
                   cl_aud := aud; cl_iss := iss; cl_allowed_tables := None |} in
  let verdict := authenticate {| jwt_secret := other; jwt_policy := policy |} now
                   (bearer_headers token) in
  ∃ signing_input mac mac',
    hmac_sha256 secret = Some mac ∧ hmac_sha256 other = Some mac' ∧
    (mac' (str_bytes signing_input) ≠ mac (str_bytes signing_input) →
     verdict = Err "invalid token signature") ∧
    (mac' (str_bytes signing_input) = mac (str_bytes signing_input) →
     ∀ identity, verdict = Ok identity ↔
       claims_hold now policy claims ∧ identity = claims_identity claims).
Proof.
  intros [Hb64 Hdots Hjson Hheader Hkey].
  destruct (Hkey secret) as [mac Hmac].
  set (claims := {| cl_tenant_id := tenant; cl_device_id := device; cl_exp := exp; cl_nbf := nbf;
                    cl_aud := aud; cl_iss := iss; cl_allowed_tables := None |}).
  destruct (Hjson claims) as (json & Hto & Hfrom).
  set (h := b64_encode (str_bytes HS256_HEADER)). set (p := b64_encode json).
  set (s := b64_encode (mac (str_bytes (h +:+ "." +:+ p)))).
  exists ((h +:+ "." +:+ p) +:+ "." +:+ s). split.
  { unfold encode_token_with_claims. fold claims. rewrite Hto. simpl. by rewrite Hmac. }
  intros other policy now Hlen claims' verdict. destruct (Hkey other) as [mac' Hmac'].
  exists (h +:+ "." +:+ p), mac, mac'. split_and!; [done|done| |].
  all: assert (((h +:+ "." +:+ p) +:+ "." +:+ s) = h +:+ String "." (p +:+ String "." s)) as Htoken
    by (by rewrite <-str_app_assoc).
  all: assert (bears (bearer_headers ((h +:+ "." +:+ p) +:+ "." +:+ s)) h p s
                 (mac (str_bytes (h +:+ "." +:+ p)))) as Hbears
    by (split; [by rewrite Htoken|by rewrite <-Htoken|apply Hb64|split_and!; apply Hdots]).
  all: destruct (proj2 (bears_iff _ h p _) (ex_intro _ s Hbears)) as (token & Ht & Hsp).
  all: assert (decode_segment json_header_alg h = Ok "HS256") as Halg
    by (apply decode_segment_ok; exists (str_bytes HS256_HEADER); split; [apply Hb64|done]).
  all: unfold verdict, authenticate, JwtDeviceAuthenticator_authenticator;
    rewrite Ht; simpl; rewrite Hsp; simpl; rewrite (proj2 (expect_alg_ok h "HS256")) by done;
    simpl; rewrite Hmac'; simpl.
  - intros Hne. by rewrite decide_False.
  - intros Heq identity. rewrite decide_True, validated_identity_ok by done.
    assert (decode_segment json_to_claims p = Ok claims) as Hdec
      by (apply decode_segment_ok; exists json; split; [apply Hb64|done]).
    rewrite Hdec. split; [by intros (c & [= <-] & Hc & ->)|]. intros [Hc ->]. by exists claims.
Qed.

(** Nobody but the claimed identity comes out of a token. *)
Lemma encoded_token_identity secret tenant device exp nbf aud iss policy token now identity :
  jwt_laws → encode_token_with_claims secret tenant device exp nbf aud iss = Some token →
  authenticate {| jwt_secret := secret; jwt_policy := policy |} now (bearer_headers token)
    = Ok identity →
  ad_tenant_id identity = tenant ∧ ad_device_id identity = device.
Proof.
  intros Hlaws Htoken Hok.
  destruct (encoded_token_verdict secret tenant device exp nbf aud iss Hlaws)
    as (token' & Htoken' & Hverdict).
  rewrite Htoken in Htoken'. injection Htoken' as <-.
  assert (str_len token ≤ MAX_BEARER_TOKEN_BYTES)%N as Hlen.
  { pose proof Hok as (token0 & [Hh Hlen]%bearer_token_ok & _)%bind_ok.
    unfold bearer_headers in Hh. rewrite String.eqb_refl in Hh. injection Hh as Hh.
    change (token = token0) in Hh. by rewrite Hh. }
  destruct (Hverdict secret policy now Hlen) as (input & mac & mac' & Hm & Hm' & _ & Hsame).
  rewrite Hm in Hm'. injection Hm' as <-.
  by apply (Hsame eq_refl) in Hok as [_ ->].
Qed.

(** C28: Tokens round trip. The reference encoder never panics, and the
    authenticator that holds its secret reads back exactly the claims it was
    given: the identity when they are in force at [now] and match its policy,
    an error otherwise. An authenticator with another secret rejects the
    token unless the two secrets give this very token the same HMAC. *)
Theorem jwt_token_roundtrip secret tenant device exp nbf aud iss :
  jwt_laws →
  ∃ token, encode_token_with_claims secret tenant device exp nbf aud iss = Some token ∧
  ∀ other policy now, (str_len token ≤ MAX_BEARER_TOKEN_BYTES)%N →
  let claims := {| cl_tenant_id := tenant; cl_device_id := device; cl_exp := exp; cl_nbf := nbf;
                   cl_aud := aud; cl_iss := iss; cl_allowed_tables := None |} in
  let verdict := authenticate {| jwt_secret := other; jwt_policy := policy |} now
                   (bearer_headers token) in
  ∃ signing_input mac mac',
    hmac_sha256 secret = Some mac ∧ hmac_sha256 other = Some mac' ∧
    (mac' (str_bytes signing_input) ≠ mac (str_bytes signing_input) →
     verdict = Err "invalid token signature") ∧
    (mac' (str_bytes signing_input) = mac (str_bytes signing_input) →
     ∀ identity, verdict = Ok identity ↔
       claims_hold now policy claims ∧ identity = claims_identity claims).
Proof. exact (encoded_token_verdict secret tenant device exp nbf aud iss). Qed.

(** ** Supabase *)
Lemma str_split_once_inj sep a b a' b' :
  lacks sep a → lacks sep a' → a +:+ String sep b = a' +:+ String sep b' → a = a' ∧ b = b'.
Proof.
  revert a'. induction a as [|c a IH]; intros a' Ha Ha' Heq; destruct a' as [|c' a'].
  - by injection Heq.
  - apply lacks_cons in Ha' as [Hc _]. by injection Heq.
  - apply lacks_cons in Ha as [Hc _]. injection Heq as ? _. done.
  - apply lacks_cons in Ha as [_ Ha]. apply lacks_cons in Ha' as [_ Ha'].
    injection Heq as -> Heq. destruct (IH a' Ha Ha' Heq) as [-> ->]. done.
Qed.

(** The tables a claim allows: an array of valid names, all tables when there
    is no claim. *)
Definition claimed_tables (claim : option JsonValue) (tables : option (gset string)) : Prop :=
  match claim with
  | None => tables = None
  | Some v => ∃ names : list string,
      v = JArray (JString <$> names) ∧
      Forall (λ name, validate_identifier "authorized table" name = Ok tt) names ∧
      tables = Some (list_to_set names)
  end.
Lemma claim_table_ok tables v tables' :
  claim_table tables v = Ok tables' ↔
  ∃ name, v = JString name ∧ validate_identifier "authorized table" name = Ok tt ∧
    tables' = {[ name ]} ∪ tables.
Proof.
  unfold claim_table. rewrite bind_ok. split.
  - intros (name & Hv%ok_or_ok & ([] & Hid%identifier_or_ok & [= <-])%bind_ok).
    exists name. by destruct v; simplify_eq/=.
  - intros (name & -> & Hid & ->). exists name. split; [done|]. apply bind_ok. exists tt.
    by rewrite identifier_or_ok.
Qed.
Lemma claim_tables_ok values tables tables' :
  foldM claim_table tables values = Ok tables' ↔
  ∃ names, values = JString <$> names ∧
    Forall (λ name, validate_identifier "authorized table" name = Ok tt) names ∧
    tables' = list_to_set names ∪ tables.
Proof.
  revert tables. induction values as [|v values IH]; intros tables; cbn [foldM].
  { split.
    - intros [= <-]. exists []. split_and!; [done|constructor|set_solver].
    - intros ([|] & ? & _ & ->); [f_equal; set_solver|done]. }
  split.
  - destruct (claim_table tables v) as [tables1|e] eqn:Hv; [|done].
    apply claim_table_ok in Hv as (name & -> & Hname & ->).
    intros (names & -> & Hall & ->)%IH.
    exists (name :: names). split_and!; [done|by constructor|set_solver].
  - intros ([|name names] & Hv & Hall & ->); [done|]. injection Hv as -> ->.
    apply list.Forall_cons in Hall as [Hname Hall].
    rewrite (proj2 (claim_table_ok tables (JString name) ({[ name ]} ∪ tables))) by eauto.
    apply IH. exists names.
    split_and!; [done|done|set_solver].
Qed.
Lemma claim_string_set_ok claims path tables :
  claim_string_set claims path = Ok tables ↔ claimed_tables (claim_value claims path) tables.
Proof.
  unfold claim_string_set, claimed_tables.
  destruct (claim_value claims path) as [v|]; [|split; [by intros [= <-]|by intros ->]].
  rewrite bind_ok. split.
  - intros (values & Hv%ok_or_ok & (t' & (names & -> & Hall & ->)%claim_tables_ok & [= <-])%bind_ok).
    exists names. split_and!; [by destruct v; simplify_eq/=|done|f_equal; set_solver].
  - intros (names & -> & Hall & ->). exists (JString <$> names). split; [done|].
    apply bind_ok. exists (list_to_set names). split; [|done]. apply claim_tables_ok.
    exists names. split_and!; [done|done|set_solver].
Qed.

(** The user and the device a verified claim set stands for, in the request
    with these headers. *)
Record supabase_user (a : SupabaseJwtAuthenticator) (headers : HeaderMap) (claims : JsonValue)
    (sub suffix : string) (identity : AuthenticatedDevice) : Prop := {
  su_sub : claim_string claims "sub" = Some sub;
  su_suffix : headers "x-device-id" = Some suffix;
  su_suffix_nonempty : suffix ≠ "";
  su_tenant : ad_tenant_id identity = default sub (claim_string claims (sb_tenant_claim a));
  su_device : ad_device_id identity = sub +:+ String "/" suffix;
  su_tables : claimed_tables (claim_value claims (sb_tables_claim a)) (allowed_tables identity);
  su_valid_sub : validate_identifier "token sub" sub = Ok tt;
  su_valid_tenant : validate_identifier "token tenant_id" (ad_tenant_id identity) = Ok tt;
  su_valid_suffix : validate_identifier "x-device-id" suffix = Ok tt;
  su_valid_device : validate_identifier "device_id" (ad_device_id identity) = Ok tt;
}.
Lemma required_header_ok headers name value :
  required_header headers name = Ok value ↔ headers name = Some value ∧ value ≠ "".
Proof.
  unfold required_header. rewrite ok_or_ok.
  destruct (headers name) as [v|]; [|naive_solver]. destruct v; simpl; naive_solver.
Qed.
Lemma supabase_identity_user a headers claims identity :
  supabase_identity a headers claims = Ok identity ↔
  ∃ sub suffix, supabase_user a headers claims sub suffix identity.
Proof.
  unfold supabase_identity. rewrite bind_ok. split.
  - intros (sub & Hsub%ok_or_ok & ([] & Hvs%identifier_or_ok & Hrest)%bind_ok).
    apply bind_ok in Hrest as ([] & Ht%identifier_or_ok & Hrest).
    apply bind_ok in Hrest as (suffix & [Hsuffix Hne]%required_header_ok & Hrest).
    apply bind_ok in Hrest as ([] & Hx%identifier_or_ok & Hrest).
    apply bind_ok in Hrest as ([] & Hd%identifier_or_ok & Hrest).
    apply bind_ok in Hrest as (tables & Htables%claim_string_set_ok & [= <-]).
    by exists sub, suffix.
  - intros (sub & suffix & [Hsub Hsuffix Hne Ht Hd Htables Hvs Hvt Hvx Hvd]). exists sub.
    rewrite Hsub. split; [done|]. apply bind_ok. exists tt. rewrite identifier_or_ok.
    split; [done|]. rewrite <-Ht. apply bind_ok. exists tt. rewrite identifier_or_ok.
    split; [done|]. apply bind_ok. exists suffix. rewrite required_header_ok.
    split; [done|]. apply bind_ok. exists tt. rewrite identifier_or_ok. split; [done|].
    change (sub +:+ "/" +:+ suffix) with (sub +:+ String "/" suffix). rewrite <-Hd.
    apply bind_ok. exists tt. rewrite identifier_or_ok. split; [done|]. apply bind_ok.
    exists (allowed_tables identity). rewrite claim_string_set_ok. split; [done|].
    by destruct identity.
Qed.

(** C26: Supabase identities are exactly those of verified tokens. A request is
    accepted if and only if it carries a bearer token of at most 16 KiB that
    names an asymmetric algorithm and the kid of a trusted key, and that
    jsonwebtoken verifies at this time with that key under that algorithm
    alone, with the configured issuer, with [nbf] checked, with expiry, issuer
    and subject required and - unless the audience is disabled - with the
    audience required and equal to the configured one; its subject, tenant
    (the tenant claim, or else the subject), [x-device-id] header and their
    joined device are valid; and its table claim is absent or an array of
    valid names. Among subjects without a slash - and only among those, see
    [supabase_device_collision] - a device belongs to one user: two
    identities with the same device have the same subject and header. *)
Theorem supabase_identity_safe a now headers identity :
  (authenticate a now headers = Ok identity ↔
   sb_poisoned a = false ∧
   ∃ token alg kid jwk key claims sub suffix,
     headers "authorization" = Some ("Bearer " +:+ token) ∧ (str_len token ≤ 16384)%N ∧
     jwt_decode_header token = Some (alg, Some kid) ∧
     (alg = RS256 ∨ alg = ES256 ∨ alg = EdDSA) ∧
     jwks_find (sb_jwks a) kid = Some jwk ∧ key_from_jwk jwk = Some key ∧
     jwt_decode now token key
       match sb_audience a with
       | Some audience =>
         {| vd_algorithm := alg; vd_validate_nbf := true; vd_issuer := [sb_issuer a];
            vd_required_spec_claims := ["exp"; "iss"; "sub"; "aud"];
            vd_audience := Some [audience]; vd_validate_aud := true |}
       | None =>
         {| vd_algorithm := alg; vd_validate_nbf := true; vd_issuer := [sb_issuer a];
            vd_required_spec_claims := ["exp"; "iss"; "sub"];
            vd_audience := None; vd_validate_aud := false |}
       end = Some claims ∧
     supabase_user a headers claims sub suffix identity) ∧
  (∀ claims sub suffix a' headers' claims' sub' suffix' identity',
     supabase_user a headers claims sub suffix identity →
     supabase_user a' headers' claims' sub' suffix' identity' →
     ad_device_id identity' = ad_device_id identity → lacks "/" sub → lacks "/" sub' →
     sub' = sub ∧ suffix' = suffix).
Proof.
  split.
  - unfold authenticate, SupabaseJwtAuthenticator_authenticator. rewrite bind_ok.
    setoid_rewrite bearer_token_ok. split.
    + intros (token & [Ht Hlen] & ([alg key_id] & Hh%ok_or_ok & Hrest)%bind_ok).
      apply bind_ok in Hrest as (kid & ->%ok_or_ok & Hrest).
      destruct (match alg with RS256 | ES256 | EdDSA => true | _ => false end) eqn:Halg; [|done].
      destruct (sb_poisoned a); [done|]. split; [done|].
      apply bind_ok in Hrest as (jwk & Hjwk%ok_or_ok & Hrest).
      apply bind_ok in Hrest as (key & Hkey%ok_or_ok & Hrest).
      apply bind_ok in Hrest as (claims & Hclaims%ok_or_ok & Hid).
      apply supabase_identity_user in Hid as (sub & suffix & Huser).
      exists token, alg, kid, jwk, key, claims, sub, suffix. split_and!; try done.
      * destruct alg; auto; done.
      * rewrite <-Hclaims. unfold supabase_validation. by destruct (sb_audience a).
    + intros (Hpoison & token & alg & kid & jwk & key & claims & sub & suffix & Ht & Hlen & Hh &
        Halg & Hjwk & Hkey & Hclaims & Huser).
      exists token. split; [done|]. apply bind_ok. exists (alg, Some kid). rewrite ok_or_ok.
      split; [done|]. apply bind_ok. exists kid. split; [done|].
      replace (match alg with RS256 | ES256 | EdDSA => true | _ => false end) with true
        by (by destruct Halg as [-> | [-> | ->]]).
      rewrite Hpoison. apply bind_ok. exists jwk. rewrite ok_or_ok. split; [done|].
      apply bind_ok. exists key. rewrite ok_or_ok. split; [done|]. apply bind_ok. exists claims.
      rewrite ok_or_ok. split.
      * rewrite <-Hclaims. unfold supabase_validation. by destruct (sb_audience a).
      * apply supabase_identity_user. eauto.
  - intros claims sub suffix a' headers' claims' sub' suffix' identity' Huser Huser' Heq Hs Hs'.
    rewrite (su_device _ _ _ _ _ _ Huser), (su_device _ _ _ _ _ _ Huser') in Heq.
    by apply (str_split_once_inj "/").
Qed.

(** With a slash in a subject two users can share a device: the user [u]
    with the header [a/b], and the user [u/a] with the header [b]. *)
Theorem supabase_device_collision jwks issuer :
  let a := {| sb_jwks := jwks; sb_poisoned := false; sb_issuer := issuer;
              sb_audience := Some "authenticated"; sb_tenant_claim := "app_metadata.tenant_id";
              sb_tables_claim := "app_metadata.loomabase_tables" |} in
  let user sub := JObject [("sub", JString sub)] in
  let device suffix := (λ name, if String.eqb name "x-device-id" then Some suffix else None)
    : HeaderMap in
  ∃ identity identity',
    supabase_identity a (device "a/b") (user "u") = Ok identity ∧
    supabase_identity a (device "b") (user "u/a") = Ok identity' ∧
    ad_device_id identity = ad_device_id identity' ∧
    ad_tenant_id identity ≠ ad_tenant_id identity'.
Proof.
  eexists _, _. split_and!; [vm_compute; reflexivity|vm_compute; reflexivity|done|done].
Qed.
End auth.
