(* ===== verification/HttpClient.v ===== *)
(** * Clients over HTTP (src/examples/http_offline_roundtrip.rs,
    src/examples/http_partial_replica.rs)

    A [SqliteClient] whose transport posts JSON with a bearer token to the
    HTTP server: what reqwest and serde_json do are parameters, the network
    and the layers in front of the handlers are an environment that decides
    the fate of every request. *)
From S2P Require Import Prelude RustStd Error Schema Crdt Policy Explain Replica State.
From S2P Require Import Sqlite Client Postgres Server Http Auth AuthTheorems.

Local Open Scope loom_scope.

(** ** JSON

    serde_json prints and parses everything but reals as it was. *)
Inductive RequestFailure :=
| SendFailed (detail : string)
| StatusError (status : N)
| DecodeFailed.
Class Reqwest_externals := {
  json_real : f64 → f64;
  reqwest_message : RequestFailure → string;
  error_for_status : Response → result RequestFailure Response;
  response_json_sync : Response → result RequestFailure SyncPayload;
  response_json_partial : Response → result RequestFailure PartialReplicaResponse;
}.

Section wire.
Context `{!Reqwest_externals}.

Definition wire_value (v : CrdtValue) : CrdtValue :=
  match v with VReal r => VReal (json_real r) | _ => v end.
Definition wire_column (c : CrdtColumn) : CrdtColumn :=
  {| value := wire_value (value c); metadata := metadata c |}.
Definition wire_row (row : RowChange) : RowChange :=
  {| todo_id := todo_id row; columns := wire_column <$> columns row |}.
Definition wire_rejection (x : SyncRejection) : SyncRejection :=
  {| sr_todo_id := sr_todo_id x; sr_column_name := sr_column_name x; sr_kind := sr_kind x;
     sr_reason := sr_reason x; sr_value := wire_value (sr_value x);
     sr_metadata := sr_metadata x |}.
Definition wire_payload (p : SyncPayload) : SyncPayload :=
  {| protocol_version := protocol_version p; schema_fingerprint := schema_fingerprint p;
     source_device_id := source_device_id p; source_lamport := source_lamport p;
     changes := wire_row <$> changes p; cursor := cursor p; has_more := has_more p;
     cursor_reset := cursor_reset p; cursor_token := cursor_token p;
     server_epoch := server_epoch p; rejections := wire_rejection <$> rejections p |}.
Definition wire_predicate (x : ReplicaPredicate) : ReplicaPredicate :=
  match x with ColumnEquals column v => ColumnEquals column (wire_value v) | _ => x end.
Definition wire_request (r : PartialReplicaRequest) : PartialReplicaRequest :=
  {| prq_scope_id := prq_scope_id r; prq_scope_version := prq_scope_version r;
     interest := {| predicates := wire_predicate <$> predicates (interest r);
                    limit := limit (interest r) |};
     known_member_ids := known_member_ids r; prq_sync := wire_payload (prq_sync r) |}.
Definition wire_response (r : PartialReplicaResponse) : PartialReplicaResponse :=
  {| prs_scope_id := prs_scope_id r; prs_scope_version := prs_scope_version r;
     member_ids := member_ids r; evicted_row_ids := evicted_row_ids r;
     prs_sync := wire_payload (prs_sync r) |}.
End wire.

(** ** One request

    What happens around the handler: the time, the connection pool, how long
    it takes, and the network - a request may get lost, be answered by a layer
    in front of the handler, or lose its answer after it was served. *)
Inductive Network :=
| Delivered
| RequestLost (detail : string)
| Intercepted (status : N)
| ResponseLost (detail : string).
Record Exchange := {
  ex_now : N;
  ex_pool : PoolOutcome;
  ex_elapsed : Duration;
  ex_network : Network;
}.

(** The server, and how many requests the client sent it. *)
Record HttpWorld := { hw_server : PgDb * Metrics; hw_sent : N }.
Definition hw_db (w : HttpWorld) : PgDb := (hw_server w).1.

Definition map_err {E E' A} (f : E → E') (r : result E A) : result E' A :=
  match r with Ok a => Ok a | Err e => Err (f e) end.

(** What is documented of reqwest: [error_for_status] hands the response on or
    fails, and [json] succeeds on the JSON of the type only. *)
Record reqwest_laws `{!Reqwest_externals} : Prop := {
  rl_status response response' : error_for_status response = Ok response' → response' = response;
  rl_sync response p : response_json_sync response = Ok p →
    ∃ p0, rsp_body response = JsonSync p0 ∧ p = wire_payload p0;
  rl_partial response r : response_json_partial response = Ok r →
    ∃ r0, rsp_body response = JsonPartial r0 ∧ r = wire_response r0;
}.

Section client.
Context `{!Pg_externals, !SerdeJson, !StrDebug, !SqlText_externals, !Reqwest_externals}.

(** [http.post(endpoint).bearer_auth(token).json(&body).send()] *)
Definition http_send (env : N → Exchange)
    (handler : Exchange → PgDb * Metrics → Response * (PgDb * Metrics))
  : stM HttpWorld RequestFailure Response := λ w,
  let x := env (hw_sent w) in
  let after s := {| hw_server := s; hw_sent := hw_sent w + 1 |} in
  match ex_network x with
  | RequestLost detail => (Err (SendFailed detail), after (hw_server w))
  | Intercepted status =>
    (Ok {| rsp_status := status; rsp_body := TextBody "" |}, after (hw_server w))
  | Delivered => let '(response, s) := handler x (hw_server w) in (Ok response, after s)
  | ResponseLost detail =>
    let '(_, s) := handler x (hw_server w) in (Err (SendFailed detail), after s)
  end.

Definition transport_error (context : string) (error : RequestFailure) : SyncError :=
  InvalidPayload (context +:+ ": " +:+ reqwest_message error).

(** The transports: [send], [error_for_status] and [json], each with the text
    its failure gets. *)
Definition http_answer {A} (refused unreadable : string)
    (json : Response → result RequestFailure A)
    (sent : stM HttpWorld RequestFailure Response) : stM HttpWorld SyncError A := λ w,
  let '(sent, w') := sent w in
  (response ← map_err (transport_error "HTTP transport failed") sent;
   response ← map_err (transport_error refused) (error_for_status response);
   map_err (transport_error unreadable) (json response), w').

Section connection.
Variables (state : AppState) (env : N → Exchange) (token : string).

Definition post_sync (payload : SyncPayload) : stM HttpWorld RequestFailure Response :=
  http_send env (λ x, sync state (ex_now x) (bearer_headers token) (ex_pool x) (ex_elapsed x)
                        (wire_payload payload)).
Definition post_partial (request : PartialReplicaRequest)
  : stM HttpWorld RequestFailure Response :=
  http_send env (λ x, sync_partial state (ex_now x) (bearer_headers token) (ex_pool x)
                        (ex_elapsed x) (wire_request request)).

Definition payload_transport (refused unreadable : string) (payload : SyncPayload)
  : stM HttpWorld SyncError SyncPayload :=
  http_answer refused unreadable response_json_sync (post_sync payload).
Definition sync_transport : SyncPayload → stM HttpWorld SyncError SyncPayload :=
  payload_transport "Loomabase server rejected synchronization"
    "invalid Loomabase server response".
Definition full_transport : SyncPayload → stM HttpWorld SyncError SyncPayload :=
  payload_transport "server rejected full sync" "invalid full sync response".
Definition partial_transport (request : PartialReplicaRequest)
  : stM HttpWorld SyncError PartialReplicaResponse :=
  http_answer "server rejected partial sync" "invalid partial sync response"
    response_json_partial (post_partial request).

Definition sync_http (t : TableDef) : stM (ClientDb * HttpWorld) SyncError unit :=
  sync_with t sync_transport ;;; st_ret tt.
Definition sync_full (t : TableDef) : stM (ClientDb * HttpWorld) SyncError unit :=
  sync_with t full_transport ;;; st_ret tt.
Definition http_sync_partial (t : TableDef) (i : ReplicaInterest)
  : stM (ClientDb * HttpWorld) SyncError PartialReplicaResponse :=
  sync_partial_with t partial_transport "incomplete" i.
End connection.
End client.
