(* ===== verification/HttpSync.v ===== *)
(** * The HTTP service as a [SyncServer], and the whole stack

    A device syncs through reqwest, the network, the HTTP handlers, an
    authenticator and a PostgreSQL transaction. That service, for one tenant,
    meets the interface of SyncServer; with ClientSync this gives the theorem
    about the product as it is deployed. *)
From S2P Require Import Prelude RustStd Error Schema SchemaFacts Crdt Lww Payload Policy Explain.
From S2P Require Import Replica State Feed Merge MergeTheorems Sqlite Client ClientFacts ClientInv.
From S2P Require Import ClientTheorems SyncServer ClientSync.
From S2P Require Import Postgres Server ServerFacts ServerRun ServerInv ServerSteps ServerSession.
From S2P Require Import ServerSync Http HttpTheorems Auth AuthTheorems HttpClient.

(** ** JSON and tables without reals *)
Definition no_reals (t : TableDef) : Prop := ∀ name, column_type t name ≠ Some TReal.

Section wire.
Context `{!Reqwest_externals}.
Variable (t : TableDef).
Hypothesis (Hreals : no_reals t).

(** A payload is carried over as it is when its cells are. *)
Lemma wire_payload_same p :
  (∀ x, x ∈ rejections p → wire_value (sr_value x) = sr_value x) →
  (∀ k c, (k, c) ∈ payload_writes p → wire_value (value c) = value c) →
  wire_payload p = p.
Proof.
  intros Hrej Hcells.
  assert (∀ row name c, row ∈ changes p → columns row !! name = Some c →
    wire_value (value c) = value c) as Hrows.
  { intros row name c Hrow Hc. apply (Hcells (todo_id row, name) c).
    apply elem_of_payload_writes. by exists row. }
  assert (wire_row <$> changes p = changes p) as Hch.
  { clear -Hrows. induction (changes p) as [|row ch IH]; [done|]. rewrite fmap_cons.
    rewrite IH by (intros; by eapply Hrows; [right|]). f_equal.
    destruct row as [id cols]. unfold wire_row. cbn [todo_id columns]. f_equal.
    apply map_eq. intros name. rewrite lookup_fmap. destruct (cols !! name) as [c|] eqn:Hc; [|done].
    simpl. f_equal. unfold wire_column.
    rewrite (Hrows _ name c (list_elem_of_here _ _) Hc). by destruct c. }
  assert (wire_rejection <$> rejections p = rejections p) as Hre.
  { clear -Hrej. induction (rejections p) as [|x l IH]; [done|]. rewrite fmap_cons.
    rewrite IH by (intros; apply Hrej; by right). f_equal. unfold wire_rejection.
    rewrite Hrej by left. by destruct x. }
  unfold wire_payload. rewrite Hch, Hre. by destruct p.
Qed.

Lemma wire_value_accepted name v : column_accepts t name v → wire_value v = v.
Proof.
  intros (ty & Hty & Hacc). destruct v; try done. destruct ty; try done. by destruct (Hreals name).
Qed.
Lemma wire_accepts name v : column_accepts t name (wire_value v) → column_accepts t name v.
Proof.
  intros (ty & Hty & Hacc). exists ty. split; [done|].
  destruct v; try done. destruct ty; try done. by destruct (Hreals name).
Qed.

Lemma wire_writes p k c :
  (k, c) ∈ payload_writes p → (k, wire_column c) ∈ payload_writes (wire_payload p).
Proof.
  intros (row & Hrow & Hid & Hc)%elem_of_payload_writes. apply elem_of_payload_writes.
  exists (wire_row row). split; [by apply list_elem_of_fmap_2|]. split; [done|].
  simpl. by rewrite lookup_fmap, Hc.
Qed.
(** So is every request the server accepts, and every page of cells. *)
Lemma wire_request_same p device :
  client_request_wf (wire_payload p) device t → wire_payload p = p.
Proof.
  intros Hreq. apply wire_payload_same.
  - pose proof (cr_rejections _ _ _ Hreq) as Hrej. simpl in Hrej. apply fmap_nil_inv in Hrej.
    rewrite Hrej. by intros x ?%not_elem_of_nil.
  - intros k c Hin%wire_writes. apply (wire_value_accepted k.2), wire_accepts.
    by destruct (payload_write_wf _ _ _ _ (cr_payload _ _ _ Hreq) Hin) as [_ [? _]].
Qed.
End wire.

Lemma wire_typed `{!Reqwest_externals} p : payload_typed p → payload_typed (wire_payload p).
Proof.
  intros Hp k c (row & Hrow & Hid & Hc)%elem_of_payload_writes. simpl in Hrow.
  apply list_elem_of_fmap in Hrow as (row0 & -> & Hrow). simpl in Hid, Hc.
  rewrite lookup_fmap in Hc. apply fmap_Some in Hc as (c0 & Hc & ->).
  assert (value_typed (value c0)) as Hv.
  { apply (Hp k). apply elem_of_payload_writes. by exists row0. }
  unfold wire_column. simpl. by destruct (value c0).
Qed.

(** ** One exchange *)
Section http.
Context `{!Pg_externals, !SerdeJson, !StrDebug, !SqlText_externals, !Reqwest_externals}.
Hypothesis (Hreqwest : reqwest_laws).
Variables (state : AppState) (env : N → Exchange).
#[local] Abbreviation t := (as_table state).

Section exchange.
Variables (token refused unreadable : string).

Lemma sync_answered_as headers now pool elapsed payload s resp s' :
  sync state now headers pool elapsed payload s = (resp, s') →
  sync_answer state now headers (full_merge state payload) JsonSync s.1 resp s'.1.
Proof.
  destruct s as [db m]. unfold sync. intros (s1 & (outcome & Hs & _)%counted_cases & -> & _)%observed_cases.
  by apply sync_handle_answer in Hs.
Qed.

(** A successful exchange is a committed merge of the identity the token
    stands for, and its answer is the one of that merge; a failed one either
    left the tables alone or is a committed merge whose answer was lost. *)
Lemma transport_cases p w res w' :
  payload_transport state env token refused unreadable p w = (res, w') →
  let headers := bearer_headers token in
  match res with
  | Ok r => ∃ now identity answer, as_authenticator state now headers = Ok identity ∧
      full_merge state (wire_payload p) identity (hw_db w) = (Ok answer, hw_db w') ∧
      r = wire_payload answer
  | Err _ => only_draws (hw_db w) (hw_db w') ∨
      ∃ now identity answer, as_authenticator state now headers = Ok identity ∧
        full_merge state (wire_payload p) identity (hw_db w) = (Ok answer, hw_db w')
  end.
Proof.
  unfold payload_transport, http_answer, post_sync, http_send, hw_db. cbv zeta.
  set (x := env (hw_sent w)). destruct w as [[db m] sent]. cbn [hw_server hw_sent fst] in *.
  destruct (ex_network x) as [|detail|status|detail].
  - destruct (sync _ _ _ _ _ _ _) as [resp s'] eqn:Hs.
    apply sync_answered_as in Hs. cbn [fst] in Hs. simpl. intros [= <- <-]. cbn [hw_server].
    destruct (error_for_status resp) as [resp'|e] eqn:Hstatus; simpl;
      [apply (rl_status Hreqwest) in Hstatus as ->; destruct (response_json_sync resp) as [r|e] eqn:Hjson|];
      simpl; [|apply answer_cases in Hs as [?|(identity & a & Hid & Hm)];
               [by left|right; by exists (ex_now x), identity, a]..].
    apply (rl_sync Hreqwest) in Hjson as (p0 & Hbody & ->). unfold sync_answer in Hs.
    rewrite Hbody in Hs.
    destruct (as_authenticator state (ex_now x) (bearer_headers token)) as [identity|] eqn:Hid;
      [|by destruct Hs as (_ & ? & _)].
    destruct (can_sync_table _ _); [|by destruct Hs as (_ & ? & _)].
    destruct Hs as [(a & _ & [= ->] & Hm)|(e & Heq & _)]; [by exists (ex_now x), identity, a|].
    by destruct (error_response e).
  - intros [= <- <-]. left. apply only_draws_refl.
  - intros [= <- <-]. cbn [hw_server fst].
    destruct (error_for_status _) as [resp|e] eqn:Hstatus; simpl; [|left; apply only_draws_refl].
    apply (rl_status Hreqwest) in Hstatus as ->.
    destruct (response_json_sync _) as [r|e] eqn:Hjson; simpl; [|left; apply only_draws_refl].
    by apply (rl_sync Hreqwest) in Hjson as (p0 & ? & _).
  - destruct (sync _ _ _ _ _ _ _) as [resp s'] eqn:Hs.
    apply sync_answered_as in Hs. cbn [fst] in Hs. intros [= <- <-]. cbn [hw_server].
    apply answer_cases in Hs as [?|(identity & a & Hid & Hm)]; [by left|right].
    by exists (ex_now x), identity, a.
Qed.
End exchange.

(** ** The service of one tenant *)
Variables (tenant : string) (tokens : string → string) (refused unreadable : string).

(** The tokens are of this tenant. *)
Definition tokens_of_tenant : Prop := ∀ device now identity,
  as_authenticator state now (bearer_headers (tokens device)) = Ok identity →
  ad_tenant_id identity = tenant.

Definition http_other (w w' : HttpWorld) : Prop :=
  hw_db w' = hw_db w ∨ pg_other t tenant (hw_db w) (hw_db w').
Definition http_server : SyncServer t HttpWorld := {|
  srv_cells w := tenant_cells tenant (hw_db w);
  srv_step := http_other;
  srv_send device := payload_transport state env (tokens device) refused unreadable;
  srv_room _ _ := True;
  srv_pages _ _ := True;
  srv_ready w := pg_ready t tenant (hw_db w);
|}.
Definition http_session (w : HttpWorld) : CursorRow → cell_map → Prop :=
  pg_server_session t tenant (hw_db w).

Lemma draws_other db db' : only_draws db db' → pg_other t tenant db db'.
Proof. intros (n & s & Hs & Hn & ->). apply po_quiet; [|done]. by apply step_other, drawn_sessions. Qed.

Lemma merge_other p identity db r db' :
  payload_typed p → full_merge state p identity db = (Ok r, db') → pg_other t tenant db db'.
Proof.
  intros Hp Hm. eapply (po_sync _ _ _ _ p _ _ _ (Ok r)); [done|]. unfold run_transaction.
  unfold full_merge in Hm. by rewrite Hm.
Qed.

Lemma http_answered w z m p device r w' :
  json_finite → uuids_distinct → permissive (as_security state) → no_reals t → tokens_of_tenant →
  http_session w z m → payload_typed p → protocol_version p = PROTOCOL_VERSION →
  payload_position p = z →
  payload_transport state env (tokens device) refused unreadable p w = (Ok r, w') →
  sync_answered (SyncServer0 := http_server) http_session m w p r w'.
Proof.
  intros Hfin Huuid Hopen Hreals Htok Hs Hp Hv Hz Hsend.
  apply transport_cases in Hsend as (now & identity & answer & Hid & Hm & ->).
  apply Htok in Hid. unfold full_merge in Hm. rewrite Hid in Hm.
  destruct (merge_server_run _ _ _ _ _ _ _ _ Hm) as (outs & db2 & e & pg & Hrun).
  rewrite (wire_request_same t Hreals p (ad_device_id identity)) in Hm
    by apply (vr_request _ _ _ _ _ _ _ _ _ _ _ _ Hrun).
  pose proof (no_reals_json_exact t Hreals) as Hexact.
  pose proof (pg_answered t tenant _ _ _ _ _ _ _ _ Hfin Huuid Hopen Hexact Hs Hp Hv Hz Hm) as Hans.
  assert (pg_wf t (hw_db w')) as Hwf'.
  { destruct Hs as [Hok _]. by apply (sync_wf t _ _ _ _ _ _ _ Hfin (so_wf _ _ _ _ _ _ Hok) Hm). }
  assert (wire_payload answer = answer) as Hwire.
  { apply wire_payload_same; [rewrite (sa_rejections _ _ _ _ _ _ Hans); by intros x ?%not_elem_of_nil|].
    intros k c Hin%(sa_page _ _ _ _ _ _ Hans).
    cbn [srv_cells pg_server] in Hin. rewrite tenant_cells_lookup in Hin.
    apply fmap_Some in Hin as (row & Hk & ->). apply (wire_value_accepted t Hreals k.2).
    by destruct (tw_cells _ _ _ (Hwf' tenant) _ _ Hk) as [_ [? _]]. }
  rewrite Hwire. destruct Hans as [H1' H2' H3' H4' H5' H6']. by split.
Qed.

#[refine] Definition http_server_laws (Hfin : json_finite) (Huuid : uuids_distinct)
    (Hopen : permissive (as_security state)) (Hreals : no_reals t) (Htok : tokens_of_tenant) :
  SyncServerLaws (SyncServer0 := http_server) t HttpWorld := {| srv_session := http_session |}.
Proof.
  - intros w m (Hwf & Hdrawn & Hty). split; [by apply session_ok_start|done].
  - by intros w z m [_ ?].
  - intros w w' z m Hs [Heq|Hstep].
    + unfold http_session, srv_cells. simpl. by rewrite Heq.
    + by apply pg_other_session.
  - intros w z m m' [Hok Hty] Hle. split; [by eapply session_ok_local|done].
  - intros w z m device p r w' Hs Hp Hv Hz _ Hsend. by apply (http_answered w z m p device r w').
  - intros w z m device p res w' _ Hp _ Hsend. apply rtc_once. right.
    apply transport_cases in Hsend. destruct res as [r|e].
    + destruct Hsend as (now & identity & answer & _ & Hm & _).
      eapply merge_other; [by apply wire_typed|exact Hm].
    + destruct Hsend as [?|(now & identity & answer & _ & Hm)]; [by apply draws_other|].
      eapply merge_other; [by apply wire_typed|exact Hm].
  - done.
Defined.

(** ** Other tenants *)
Definition leaves_tenant (other : string) (s s' : ClientDb * HttpWorld) : Prop :=
  same_tenant other (hw_db s.2) (hw_db s'.2).
#[local] Instance leaves_tenant_preorder other : PreOrder (leaves_tenant other).
Proof. split; [intros s|intros s1 s2 s3]; unfold leaves_tenant; [done|by etransitivity]. Qed.

Lemma transport_frame other device p w res w' :
  tokens_of_tenant → tenant ≠ other →
  payload_transport state env (tokens device) refused unreadable p w = (res, w') →
  same_tenant other (hw_db w) (hw_db w').
Proof.
  intros Htok Hne Hsend%transport_cases.
  assert (∀ now identity a, as_authenticator state now (bearer_headers (tokens device)) = Ok identity →
    full_merge state (wire_payload p) identity (hw_db w) = (Ok a, hw_db w') →
    same_tenant other (hw_db w) (hw_db w')) as Hmerge.
  { intros now identity a Hid Hm. apply Htok in Hid. rewrite <-Hid in Hne.
    by apply (merge_frame t _ _ Hne _ _ _ _ _ _ Hm). }
  destruct res as [r|e].
  - destruct Hsend as (now & identity & a & Hid & Hm & _). by eapply Hmerge.
  - destruct Hsend as [?|(now & identity & a & Hid & Hm)]; [by apply only_draws_tenant|].
    by eapply Hmerge.
Qed.

Lemma sync_with_frame other device :
  tokens_of_tenant → tenant ≠ other →
  st_keeps (leaves_tenant other)
    (sync_with t (payload_transport state env (tokens device) refused unreadable)).
Proof.
  intros Htok Hne [db w] res [db' w'] [(e & _ & _ & ->)|(p & answer & _ & Hm & _)]%sync_with_cases;
    [done|]. by eapply (transport_frame other device p).
Qed.
Lemma sync_pages_frame other device pages :
  tokens_of_tenant → tenant ≠ other →
  st_keeps (leaves_tenant other)
    (sync_pages t (payload_transport state env (tokens device) refused unreadable) pages).
Proof.
  intros Htok Hne. induction pages as [|pages IH]; [apply st_keeps_lift; apply _|].
  cbn [sync_pages]. apply st_keeps_bind; [apply _|by apply sync_with_frame|]. intros r.
  destruct (has_more r); [done|apply st_keeps_ret; apply _].
Qed.

(** ** The application tables *)

(** The two show [v] in the cell. *)
Definition both_show (db : ClientDb) (pg : PgDb) (k : string * string) (v : CrdtValue) : Prop :=
  (∃ row sv, app_rows db !! k.1 = Some row ∧ row !! k.2 = Some sv ∧
     decode_sqlite_value t k.2 (sql_to_text sv) = Ok v) ∧
  (∃ values, tenant_rows tenant pg !! k.1 = Some values ∧ values !! k.2 = Some v).

Lemma equal_cells_shown db pg k c :
  no_reals t → client_wf t db → tenant_wf t tenant pg →
  client_cells t db ≡ tenant_cells tenant pg → tenant_cells tenant pg !! k = Some c →
  both_show db pg k (value c).
Proof.
  intros Hreals Hwf Hpg Heq Hc.
  assert (∃ c0, client_cells t db !! k = Some c0 ∧ value c0 = value c) as (c0 & Hc0 & Hv).
  { specialize (Heq k). rewrite Hc in Heq. inversion Heq as [c0 c' [_ Hv] Hc0 Hc'|]. subst.
    exists c0. split; [done|]. destruct Hv as [?|(r & s & Hr & Hs & _)]; [done|].
    exfalso. rewrite tenant_cells_lookup in Hc. apply fmap_Some in Hc as (row & Hk & ->).
    destruct (tw_cells _ _ _ Hpg _ _ Hk) as (_ & (ty & Hty & Hacc) & _).
    rewrite Hs in Hacc. destruct ty; try done. by destruct (Hreals k.2). }
  rewrite tenant_cells_lookup in Hc. apply fmap_Some in Hc as (row & Hk & ->).
  destruct (tw_cells _ _ _ Hpg _ _ Hk) as (_ & Hacc & _). pose proof Hacc as (ty & Hty & _).
  split.
  - rewrite <-Hv. apply (cell_materialized t db k c0 ty Hwf Hc0 Hty).
    destruct ty; try done. by destruct (Hreals k.2).
  - destruct (tw_values _ _ _ Hpg _ _ Hk) as (values & v & Hvalues & Hcol & Hstored).
    exists values. split; [done|]. rewrite Hcol. f_equal. simpl. rewrite Hstored.
    destruct v as [| |r| | |]; try done. simpl in Hstored. destruct Hacc as (ty' & Hty' & Hacc).
    simpl in Hacc. rewrite Hstored in Hacc. destruct ty'; try done. by destruct (Hreals k.2).
Qed.

(** C1: The deployed system converges. A device has edited offline, synced,
    failed to sync and lost answers, through the network, the HTTP handlers,
    the authenticator and PostgreSQL transactions, while devices of all
    tenants synced, requests failed, leases expired and the epoch was rotated.
    The table has no real column ([no_reals]: reals drift through JSON, see
    [json_drift_blocks_replay]) and the policies of the server deny nothing
    ([permissive]: a denied cell stays with the device until its version is
    reported rejected, and the two sides differ in it). When
    [sync_until_caught_up] returns, the device and its tenant on the
    server hold the same cells, both application tables show the value of
    every one of them, the device has nothing left to send, and no other
    tenant was touched. *)
Theorem stack_converges device db w r db' w' :
  json_finite → uuids_distinct → f64_text_exact → table_wf t → no_reals t →
  permissive (as_security state) → tokens_of_tenant →
  execution t (SyncServer0 := http_server) db w →
  sync_until_caught_up t (payload_transport state env (tokens device) refused unreadable) (db, w)
    = (Ok r, (db', w')) →
  has_more r = false ∧ client_cells t db' ≡ tenant_cells tenant (hw_db w') ∧
  (∀ k c, tenant_cells tenant (hw_db w') !! k = Some c → both_show db' (hw_db w') k (value c)) ∧
  (∀ k cell, crdt_rows db' !! k = Some cell → cr_dirty cell = false) ∧
  (∀ other, tenant ≠ other → same_tenant other (hw_db w) (hw_db w')) ∧
  execution t (SyncServer0 := http_server) db' w'.
Proof.
  intros Hfin Huuid Hfloat Ht Hreals Hopen Htok Hex Hsync.
  pose (laws := http_server_laws Hfin Huuid Hopen Hreals Htok).
  destruct (sync_pages_converge t (SyncServer0 := http_server) MAX_SYNC_PAGES_PER_CALL device
    db w r db' w' Hfloat Ht Hex I Hsync) as (Hex' & Hmore & Heq & Hclean).
  split_and!; [done|done| |done| |done].
  - pose proof (execution_linked t (SyncServer0 := http_server) db' w' Hfloat Ht Hex') as Hlinked.
    intros k c Hc. apply equal_cells_shown; [done|apply (lk_wf _ _ _ Hlinked)| |done|done].
    destruct (lk_session _ _ _ Hlinked) as [Hok _]. apply (so_wf _ _ _ _ _ _ Hok).
  - intros other Hne.
    by apply (sync_pages_frame other device MAX_SYNC_PAGES_PER_CALL Htok Hne _ _ _ Hsync).
Qed.
End http.

(** Tokens the reference encoder writes with the secret of the server are of
    the tenant they name. *)
Lemma encoded_tokens_of_tenant `{!Jwt_externals} state tenant tokens secret policy exp :
  jwt_laws →
  as_authenticator state = authenticate {| jwt_secret := secret; jwt_policy := policy |} →
  (∀ device, encode_token secret tenant device exp = Some (tokens device)) →
  tokens_of_tenant state tenant tokens.
Proof.
  intros Hlaws Hauth Htokens device now identity Hid. rewrite Hauth in Hid.
  by destruct (encoded_token_identity _ _ _ _ _ _ _ _ _ _ _ Hlaws (Htokens device) Hid).
Qed.
