(* ===== verification/HttpLive.v ===== *)
(** * The whole stack returns

    When the exchanges of a sync are delivered, with a token the server knows,
    the HTTP service answers every request of the device; so a client that
    syncs until caught up returns, with what the tenant holds. *)
From S2P Require Import Prelude RustStd Error Schema SchemaFacts Crdt Lww Payload Policy Explain.
From S2P Require Import Replica State Feed Merge MergeTheorems Sqlite Client ClientFacts ClientInv.
From S2P Require Import ClientDelta ClientTheorems ClientProgress SyncServer LiveServer ClientSync ClientTermination.
From S2P Require Import Postgres Server ServerFacts ServerRun ServerInv ServerSteps ServerSession.
From S2P Require Import ServerTotal ServerAnswers ServerSync ServerLive.
From S2P Require Import Http HttpTheorems Auth AuthTheorems HttpClient HttpSync.

Section http.
Context `{!Pg_externals, !SerdeJson, !StrDebug, !SqlText_externals, !Reqwest_externals}.
Variables (state : AppState) (env : N → Exchange).
#[local] Abbreviation t := (as_table state).

(** What is documented of reqwest when nothing fails: [error_for_status] keeps
    a response of status 200, and [json] reads the JSON of a payload back. *)
Record reqwest_reads : Prop := {
  rr_status response : rsp_status response = 200%N → error_for_status response = Ok response;
  rr_sync response p : rsp_body response = JsonSync p → rejections p = [] →
    (∀ k c x, (k, c) ∈ payload_writes p → value c ≠ VReal x) →
    response_json_sync response = Ok (wire_payload p);
}.

(** The timeouts of the configuration are settings PostgreSQL takes. *)
Definition timeouts_ok : Prop :=
  (as_millis (statement_timeout (as_config state)) ≤ MAX_TIMEOUT_MILLIS)%N ∧
  (as_millis (lock_timeout (as_config state)) ≤ MAX_TIMEOUT_MILLIS)%N.

Lemma run_merge_ok p identity db r db' :
  timeouts_ok → full_merge state p identity db = (Ok r, db') →
  run_merge state pool_works p identity db = (Ok r, db').
Proof.
  intros [Hs Hl] Hm. unfold run_merge, in_transaction, run_transaction. cbn [begin_error pool_works].
  unfold set_transaction_timeout, execute, st_bind.
  rewrite (proj2 (N.ltb_ge _ _) Hs), (proj2 (N.ltb_ge _ _) Hl). cbn [st_modify fst snd].
  unfold full_merge in Hm. by rewrite Hm.
Qed.

Lemma sync_ok now headers elapsed p identity s r db' :
  timeouts_ok → as_authenticator state now headers = Ok identity →
  can_sync_table identity (td_name t) = true →
  full_merge state p identity s.1 = (Ok r, db') →
  ∃ m', sync state now headers pool_works elapsed p s
    = ({| rsp_status := 200; rsp_body := JsonSync r |}, (db', m')).
Proof.
  intros Htime Hid Htable Hm. destruct s as [db m]. cbn [fst] in Hm.
  unfold sync, observed, counted, sync_handle, handle. cbn [fst snd]. rewrite Hid, Htable.
  rewrite (run_merge_ok _ _ _ _ _ Htime Hm). by eexists.
Qed.

(** ** One exchange *)
Variables (tenant : string) (tokens : string → string) (refused unreadable : string).

(** The exchange works, and the token stands for the device. *)
Record delivered (device : string) (x : Exchange) : Prop := {
  dl_network : ex_network x = Delivered;
  dl_pool : ex_pool x = pool_works;
  dl_token : ∃ identity,
    as_authenticator state (ex_now x) (bearer_headers (tokens device)) = Ok identity ∧
    ad_device_id identity = device ∧ can_sync_table identity (td_name t) = true;
}.
Record http_live (n : nat) (device : string) (w : HttpWorld) : Prop := {
  hl_db : pg_live t tenant n device (hw_db w);
  hl_exchanges i : (hw_sent w ≤ i < hw_sent w + N.of_nat n)%N → delivered device (env i);
}.

Abbreviation service := (http_server state env tenant tokens refused unreadable).
Definition http_live_server : LiveServer t HttpWorld := {|
  srv_clock w := Z.to_N (db_clock tenant (hw_db w));
  srv_untold w := pg_untold t tenant (hw_db w);
  srv_takes c := no_nul (value c);
  srv_cell_le := feed_cell_le;
  srv_live := http_live;
|}.

Section exchange.
Hypotheses (Hreads : reqwest_reads) (Htime : timeouts_ok) (Hreals : no_reals t).
Hypothesis (Htok : tokens_of_tenant state tenant tokens).

(** A committed merge whose cells are of the table comes back as it is. *)
Lemma delivered_answer device w p r db' :
  delivered device (env (hw_sent w)) →
  wire_payload p = p → rejections r = [] →
  (∀ k c, (k, c) ∈ payload_writes r → column_accepts t k.2 (value c)) →
  merge_crdt_states_with_security t p device tenant (as_security state) (hw_db w) = (Ok r, db') →
  ∃ w', payload_transport state env (tokens device) refused unreadable p w = (Ok r, w') ∧
    hw_db w' = db' ∧ hw_sent w' = (hw_sent w + 1)%N.
Proof.
  intros [Hnet Hpool (identity & Hid & Hdevice & Htable)] Hp Hrej Hcells Hm.
  destruct (sync_ok (ex_now (env (hw_sent w))) (bearer_headers (tokens device))
    (ex_elapsed (env (hw_sent w))) p identity (hw_server w) r db' Htime Hid Htable) as [m' Hs].
  { unfold full_merge. rewrite (Htok _ _ _ Hid), Hdevice. exact Hm. }
  exists {| hw_server := (db', m'); hw_sent := hw_sent w + 1 |}. split; [|done].
  unfold payload_transport, http_answer, post_sync, http_send. rewrite Hnet, Hpool, Hp, Hs.
  cbn [map_err mbind result_bind]. rewrite (rr_status Hreads) by done. cbn [map_err mbind result_bind].
  rewrite (rr_sync Hreads _ r); [|done|done|].
  - cbn [map_err]. rewrite wire_payload_same; [done|rewrite Hrej; by intros x ?%not_elem_of_nil|].
    intros k c Hin. by apply (wire_value_accepted t Hreals k.2), Hcells.
  - intros k c x Hin Hv. destruct (Hcells _ _ Hin) as (ty & Hty & Hacc). rewrite Hv in Hacc.
    destruct ty; try done. by destruct (Hreals k.2).
Qed.

Hypotheses (Hlaws : pg_laws) (Ht : table_wf t) (Htenant : identifier_ok tenant).
Hypothesis (Hopen : permissive (as_security state)).

Lemma http_serves n device w p :
  pg_wf t (hw_db w) → epoch_drawn (hw_db w) → http_live (S n) device w →
  servable (SyncServer0 := service) (LiveServer0 := http_live_server) w device p →
  ∃ r w', payload_transport state env (tokens device) refused unreadable p w = (Ok r, w') ∧
    served_page (SyncServer0 := service) (LiveServer0 := http_live_server) n device w p r w'.
Proof.
  intros Hwf Hdrawn [Hlive Hex] [Hreq Hty Hv Hadv Hclock Htakes Hagree].
  assert (servable (SyncServer0 := pg_server t tenant (as_security state))
    (LiveServer0 := pg_live_server t tenant) (hw_db w) device p) as Hp by by split.
  destruct (live_merges t tenant (as_security state) Hlaws Ht Htenant Hopen n device (hw_db w) p
    (Hwf tenant) Hlive Hp) as (r & db' & Hm).
  pose proof (live_served t tenant (as_security state) Hlaws Hopen n device (hw_db w) p (Hwf tenant) Hlive Hp
    r db' Hdrawn Hm) as Hserved.
  destruct (merge_server_run _ _ _ _ _ _ _ _ Hm) as (outs & db2 & e & pg & Hrun).
  destruct (delivered_answer device w p r db') as (w' & Hsend & Hdb & Hsent).
  - apply Hex. lia.
  - apply wire_payload_same; [rewrite (cr_rejections _ _ _ Hreq); by intros x ?%not_elem_of_nil|].
    intros k c Hin. apply (wire_value_accepted t Hreals k.2).
    by destruct (payload_write_wf _ _ _ _ (cr_payload _ _ _ Hreq) Hin) as [_ [? _]].
  - by apply (srun_no_rejections t tenant Hrun).
  - intros k c Hin. pose proof (sv_payload _ _ (sg_valid _ _ _ _ _ _ Hserved)) as Hpay.
    by destruct (payload_write_wf _ _ _ _ Hpay Hin) as [_ [? _]].
  - exact Hm.
  - exists r, w'. split; [exact Hsend|]. subst db'.
    destruct Hserved as [H1' H2' H3' H4' H5' H6']. split; try done.
    split; [done|]. intros i Hi. apply Hex. lia.
Qed.
End exchange.

(** ** The instance *)
Section instance.
Hypotheses (Hlaws : pg_laws) (Hreqwest : reqwest_laws) (Hreads : reqwest_reads).
Hypotheses (Ht : table_wf t) (Hreals : no_reals t) (Htenant : identifier_ok tenant).
Hypotheses (Hopen : permissive (as_security state)) (Htok : tokens_of_tenant state tenant tokens).
Hypothesis (Htime : timeouts_ok).

Definition http_live_laws :
  LiveServerLaws (SyncServer0 := service) (LiveServer0 := http_live_server)
    (SyncServerLaws0 := http_server_laws Hreqwest state env tenant tokens refused unreadable
       (pg_finite Hlaws) (pg_distinct Hlaws) Hopen Hreals Htok) t HttpWorld.
Proof.
  split. intros w z m n device p [Hok _] Hlive _ Hp.
  by apply (http_serves Hreads Htime Hreals Htok Hlaws Ht Htenant Hopen);
    [apply (so_wf _ _ _ _ _ _ Hok)|apply (so_drawn _ _ _ _ _ _ Hok)|..].
Defined.
End instance.

(** C2: The deployed system returns, with everything, for a table without real
    columns ([no_reals]) and a server whose policies deny nothing
    ([permissive]): when the exchanges of a
    sync are delivered and the token of the device is accepted, the offline
    edits fit one request, hold no character zero and reuse no clock, clocks
    and sequence have room, and a page can carry [quota] cells, then syncing
    until caught up comes to its end for a device with fewer than a hundred
    quotas of cells to exchange - through the network, the HTTP handlers,
    authentication, the PostgreSQL transaction with its audit, and the client
    database, no step fails -, and the device then holds the cells of its
    tenant, with nothing left to send. *)
Theorem stack_returns bound quota device db w st :
  pg_laws → reqwest_laws → reqwest_reads → f64_text_exact → table_wf t → no_reals t →
  identifier_ok tenant → permissive (as_security state) → tokens_of_tenant state tenant tokens →
  timeouts_ok → execution t (SyncServer0 := service) db w →
  (quota ≤ MAX_RESPONSE_CELLS)%N → (quota * bound ≤ MAX_RESPONSE_BYTES)%N → (1 ≤ bound)%N →
  sync_ready t (SyncServer0 := service) (LiveServer0 := http_live_server) bound device
    MAX_SYNC_PAGES_PER_CALL db w st →
  (pg_untold t tenant (hw_db w) device (read_cursor t db) + length (dirty_writes t db)
   < MAX_SYNC_PAGES_PER_CALL * N.to_nat quota)%nat →
  ∃ r db' w',
    sync_until_caught_up t (payload_transport state env (tokens device) refused unreadable) (db, w)
      = (Ok r, (db', w')) ∧
    has_more r = false ∧ client_cells t db' ≡ tenant_cells tenant (hw_db w') ∧
    (∀ k c, tenant_cells tenant (hw_db w') !! k = Some c →
       both_show state tenant db' (hw_db w') k (value c)) ∧
    dirty_writes t db' = [].
Proof.
  intros Hlaws Hreqwest Hreads Hfloat Ht Hreals Htenant Hopen Htok Htime Hex Hq Hqb Hb Hready Hrem.
  pose (laws := http_server_laws Hreqwest state env tenant tokens refused unreadable
    (pg_finite Hlaws) (pg_distinct Hlaws) Hopen Hreals Htok).
  pose (live := http_live_laws Hlaws Hreqwest Hreads Ht Hreals Htenant Hopen Htok Htime).
  destruct (sync_pages_total t (SyncServer0 := service) (LiveServerLaws0 := live)
    bound quota device MAX_SYNC_PAGES_PER_CALL db w st Hfloat Ht Hex I Hq Hqb Hb Hready Hrem)
    as (r & db' & w' & Hrun & (Hex' & Hmore & Heq & Hclean) & _).
  exists r, db', w'. split_and!; [exact Hrun|done|done| |done].
  pose proof (execution_linked t (SyncServer0 := service) db' w' Hfloat Ht Hex') as Hlinked.
  intros k c Hc. apply (equal_cells_shown state tenant); [done|apply (lk_wf _ _ _ Hlinked)| |done|done].
  destruct (lk_session _ _ _ Hlinked) as [Hok _]. apply (so_wf _ _ _ _ _ _ Hok).
Qed.
End http.
