(* ===== verification/Examples.v ===== *)
(** * The example programs (src/examples/offline_roundtrip.rs,
    src/examples/http_offline_roundtrip.rs, src/examples/http_partial_replica.rs)

    Each main as a computation over the databases of its two devices and the
    server they talk to. An error it returns and a panic - an assertion that
    does not hold - are told apart. *)
From S2P Require Import Prelude RustStd Error Schema Crdt Policy Explain Replica State.
From S2P Require Import Sqlite Client Postgres Server Http Auth AuthTheorems HttpClient.

Local Open Scope loom_scope.

Inductive Failure := Returned (error : SyncError) | Panicked.

(** ** Two devices and a server *)
Section devices.
Context {W : Type}.

Definition Devices : Type := (ClientDb * ClientDb) * W.
Definition ExampleM (A : Type) : Type := stM Devices Failure A.

Definition first_device {A} (m : stM (ClientDb * W) SyncError A) : ExampleM A := λ s,
  let '((a, b), w) := s in
  let '(r, (a', w')) := m (a, w) in (map_err Returned r, ((a', b), w')).
Definition second_device {A} (m : stM (ClientDb * W) SyncError A) : ExampleM A := λ s,
  let '((a, b), w) := s in
  let '(r, (b', w')) := m (b, w) in (map_err Returned r, ((a, b'), w')).
Definition alone {A} (m : ClientM A) : stM (ClientDb * W) SyncError A := on_client m.
Definition query {A} (q : ClientDb → Result A) : stM (ClientDb * W) SyncError A :=
  on_client (λ db, (q db, db)).

(** [expect] and [assert]: a panic otherwise. *)
Definition expect_some {A} (o : option A) : ExampleM A := st_lift (ok_or o Panicked).
Definition assert_that (b : bool) : ExampleM unit := st_lift (if b then Ok tt else Err Panicked).
(** The databases are new files. *)
Definition remove_files : ExampleM unit := st_modify (λ s, ((empty_db, empty_db), s.2)).
End devices.
Arguments Devices : clear implicits.
Arguments ExampleM : clear implicits.

#[export] Instance Todo_eq_dec : EqDecision Todo.
Proof. solve_decision. Defined.

Section examples.
Context `{!Pg_externals, !SerdeJson, !StrDebug, !SqlText_externals, !Reqwest_externals}.
Context {jwt : Jwt_externals}.

(** ** offline_roundtrip.rs

    The transport locks the server and merges for the device that sent. *)
Definition memory_transport (payload : SyncPayload) : stM CrdtState SyncError SyncPayload :=
  merge payload (source_device_id payload).
Definition memory_sync : stM (ClientDb * CrdtState) SyncError unit :=
  sync_with todos_table memory_transport ;;; st_ret tt.

Definition offline_main : ExampleM CrdtState unit :=
  first_device (alone (bind_device "device-a")) ;;;
  second_device (alone (bind_device "device-b")) ;;;
  first_device (alone (create_todo "todo-1" "Initial title" false)) ;;;
  first_device memory_sync ;;;
  second_device memory_sync ;;;
  first_device (alone (update_title "todo-1" "Edited offline on A")) ;;;
  second_device (alone (update_completed "todo-1" true)) ;;;
  first_device memory_sync ;;;
  second_device memory_sync ;;;
  first_device memory_sync ;;;
  let expected := {| todo_row_id := "todo-1"; todo_title := "Edited offline on A";
                     todo_completed := true |} in
  on_a <-- first_device (query (get_todo "todo-1")) ;;
  assert_that (bool_decide (on_a = Some expected)) ;;;
  on_b <-- second_device (query (get_todo "todo-1")) ;;
  assert_that (bool_decide (on_b = Some expected)).
Definition offline_start : Devices CrdtState := ((empty_db, empty_db), CrdtState_default).

(** ** http_offline_roundtrip.rs *)
Section http.
Variables (state : AppState) (env : N → Exchange).
(** [LOOMABASE_JWT_SECRET], and what [now_unix] answers to its two calls. *)
Variables (jwt_secret : option string) (now_a now_b : N).

Definition secret_or_error : ExampleM HttpWorld string :=
  st_lift (ok_or jwt_secret (Returned (InvalidPayload
    "LOOMABASE_JWT_SECRET must match the running Loomabase server"))).

Definition http_roundtrip_main : ExampleM HttpWorld unit :=
  secret <-- secret_or_error ;;
  let tenant := "http-example-tenant" in
  remove_files ;;;
  token_a <-- expect_some (encode_token (str_bytes secret) tenant "device-a" (now_a + 3600)) ;;
  token_b <-- expect_some (encode_token (str_bytes secret) tenant "device-b" (now_b + 3600)) ;;
  let sync_a := first_device (sync_http state env token_a todos_table) in
  let sync_b := second_device (sync_http state env token_b todos_table) in
  first_device (alone (bind_device "device-a")) ;;;
  second_device (alone (bind_device "device-b")) ;;;
  first_device (alone (create_todo "todo-http-1" "Initial title" false)) ;;;
  sync_a ;;;
  sync_b ;;;
  first_device (alone (update_title "todo-http-1" "Edited offline on A")) ;;;
  second_device (alone (update_completed "todo-http-1" true)) ;;;
  sync_b ;;;
  sync_a ;;;
  first_device (alone (bind_device "device-a")) ;;;
  sync_a ;;;
  sync_b ;;;
  let expected := {| todo_row_id := "todo-http-1"; todo_title := "Edited offline on A";
                     todo_completed := true |} in
  on_a <-- first_device (query (get_todo "todo-http-1")) ;;
  assert_that (bool_decide (on_a = Some expected)) ;;;
  on_b <-- second_device (query (get_todo "todo-http-1")) ;;
  assert_that (bool_decide (on_b = Some expected)).

(** ** http_partial_replica.rs: the first device is the writer, the second
    the reader; [nonce] is the time in nanoseconds. *)
Definition http_partial_main (nonce : N) : ExampleM HttpWorld unit :=
  secret <-- secret_or_error ;;
  let row_id := "partial-example-" +:+ pretty nonce in
  let writer_device := "partial-writer-" +:+ pretty nonce in
  let reader_device := "partial-reader-" +:+ pretty nonce in
  let tenant := "http-partial-example-tenant" in
  writer_token <-- expect_some (encode_token (str_bytes secret) tenant writer_device (now_a + 3600)) ;;
  reader_token <-- expect_some (encode_token (str_bytes secret) tenant reader_device (now_b + 3600)) ;;
  remove_files ;;;
  first_device (alone (bind_device writer_device)) ;;;
  second_device (alone (bind_device reader_device)) ;;;
  let i := {| predicates := [ColumnEquals COMPLETED_COLUMN (VBoolean false)]; limit := 10000 |} in
  let sync_writer := first_device (sync_full state env writer_token todos_table) in
  let sync_reader := second_device (http_sync_partial state env reader_token todos_table i) in
  first_device (alone (create_todo row_id "Partial replica membership" false)) ;;;
  sync_writer ;;;
  joined <-- sync_reader ;;
  assert_that (bool_decide (member_ids joined = [row_id])) ;;;
  here <-- second_device (query (get_todo row_id)) ;;
  assert_that (bool_decide (is_Some here)) ;;;
  first_device (alone (update_completed row_id true)) ;;;
  sync_writer ;;;
  left <-- sync_reader ;;
  assert_that (bool_decide (evicted_row_ids left = [row_id])) ;;;
  gone <-- second_device (query (get_todo row_id)) ;;
  assert_that (bool_decide (gone = None)) ;;;
  second_device (alone (remove_partial_replica_scope todos_table "incomplete")).
End http.
End examples.
