(* ===== verification/ServerMain.v ===== *)
(** * The server binary (src/server_main.rs)

    What it makes of its environment: limits, pool, authenticator, and the
    statements it runs before it listens. Sockets, signals and logging are
    not modelled; fetching a key set is an argument. *)
From stdpp Require Import gmap.
From S2P Require Import Prelude RustStd Error Schema Crdt Policy Replica State Postgres Server.
From S2P Require Import Sqlite Http Auth.

Local Open Scope loom_scope.

(** [std::env::var(name).ok()] *)
Definition Env : Type := string → option string.
Definition U32_MAX : N := 4294967295.

(** [str::parse] of an unsigned integer of at most [max]: decimal digits after
    an optional plus sign. *)
Definition parse_uint (max : N) (s : string) : option N :=
  let digits := match s with
                | String c rest => if Ascii.eqb c "+" then rest else s
                | EmptyString => s
                end in
  z ← parse_nonempty_digits digits;
  if (Z.to_N z <=? max)%N then Some (Z.to_N z) else None.

(** [s.contains(pattern)], [s.trim_end_matches('/')] *)
Fixpoint str_contains (s pattern : string) : bool :=
  str_starts_with s pattern ||
  match s with EmptyString => false | String _ s => str_contains s pattern end.
Fixpoint trim_end_matches (c : ascii) (s : string) : string :=
  match s with
  | EmptyString => EmptyString
  | String x s =>
    let s := trim_end_matches c s in
    if str_is_empty s && Ascii.eqb x c then EmptyString else String x s
  end.

Definition nonempty_env (env : Env) (name : string) : option string :=
  match env name with
  | Some value => if str_is_empty value then None else Some value
  | None => None
  end.
Definition env_parse (max : N) (env : Env) (name : string) (default : N) : result string N :=
  match env name with
  | Some value => ok_or (parse_uint max value) (name +:+ " has an invalid value")
  | None => Ok default
  end.
Definition optional_env_parse (max : N) (env : Env) (name : string) : result string (option N) :=
  match env name with
  | Some value => Some <$> ok_or (parse_uint max value) (name +:+ " has an invalid value")
  | None => Ok None
  end.
Definition env_bool (env : Env) (name : string) : result string bool :=
  match env name with
  | None => Ok false
  | Some value =>
    if decide (value = "true" ∨ value = "1") then Ok true
    else if decide (value = "false" ∨ value = "0") then Ok false
    else Err (name +:+ " must be true/false or 1/0")
  end.

(** ** Limits *)
Definition env_limit (env : Env) (name message : string) (default : N) : result string N :=
  match env name with
  | Some value => ok_or (parse_uint U64_MAX value) message
  | None => Ok default
  end.
Definition env_secs (env : Env) (name message : string) (default : Duration)
  : result string Duration :=
  match env name with
  | Some value => Duration_from_secs <$> ok_or (parse_uint U64_MAX value) message
  | None => Ok default
  end.
Definition server_config_from_env (env : Env) : result string ServerConfig :=
  let config := ServerConfig_default in
  body ← env_limit env "LOOMABASE_BODY_LIMIT_BYTES"
           "LOOMABASE_BODY_LIMIT_BYTES must be a positive integer" (body_limit_bytes config);
  request ← env_secs env "LOOMABASE_REQUEST_TIMEOUT_SECS"
              "LOOMABASE_REQUEST_TIMEOUT_SECS must be a non-negative integer"
              (request_timeout config);
  concurrent ← env_limit env "LOOMABASE_MAX_CONCURRENT_REQUESTS"
                 "LOOMABASE_MAX_CONCURRENT_REQUESTS must be a positive integer"
                 (max_concurrent_requests config);
  statement ← env_secs env "LOOMABASE_STATEMENT_TIMEOUT_SECS"
                "LOOMABASE_STATEMENT_TIMEOUT_SECS must be a positive integer"
                (statement_timeout config);
  lock ← env_secs env "LOOMABASE_LOCK_TIMEOUT_SECS"
           "LOOMABASE_LOCK_TIMEOUT_SECS must be a positive integer" (lock_timeout config);
  if (body =? 0)%N || (concurrent =? 0)%N || (request =? 0)%N || (statement =? 0)%N || (lock =? 0)%N
  then Err "server limits and timeouts must be greater than zero"
  else Ok {| body_limit_bytes := body; request_timeout := request;
             max_concurrent_requests := concurrent; statement_timeout := statement;
             lock_timeout := lock |}.

Record PoolOptions := {
  po_max_connections : N;
  po_min_connections : N;
  po_acquire_timeout : Duration;
  po_statement_cache : bool;
}.
(** [build_pool] up to the connection. *)
Definition build_pool (env : Env) (database_url : string) : result string PoolOptions :=
  max_connections ← env_parse U32_MAX env "LOOMABASE_DB_MAX_CONNECTIONS" 20;
  min_connections ← env_parse U32_MAX env "LOOMABASE_DB_MIN_CONNECTIONS" 1;
  acquire ← env_parse U64_MAX env "LOOMABASE_DB_ACQUIRE_TIMEOUT_SECS" 10;
  if (max_connections =? 0)%N || (max_connections <? min_connections)%N || (acquire =? 0)%N
  then Err "invalid PostgreSQL pool limits"
  else
    pooler ← env_bool env "LOOMABASE_DB_TRANSACTION_POOLER";
    Ok {| po_max_connections := max_connections; po_min_connections := min_connections;
          po_acquire_timeout := Duration_from_secs acquire;
          po_statement_cache := negb (pooler || str_contains database_url ":6543/") |}.

(** ** The authenticator *)
Section authenticator.
Context `{!Jwt_externals}.

(** The [Arc<dyn DeviceAuthenticator>], and the task that refreshes keys. *)
Inductive Authenticator :=
| UseSupabase (a : SupabaseJwtAuthenticator) (refresh : option (string * N))
| UseRsa (a : RsaJwtDeviceAuthenticator)
| UseJwt (a : JwtDeviceAuthenticator)
| UseHeaders.
Definition run_authenticator (a : Authenticator)
  : N → HeaderMap → result string AuthenticatedDevice :=
  match a with
  | UseSupabase a _ => authenticate a
  | UseRsa a => authenticate a
  | UseJwt a => authenticate a
  | UseHeaders => authenticate mk_HeaderDeviceAuthenticator
  end.

(** [a.or_else(|| b)] *)
Definition or_else (a b : option string) : option string :=
  match a with Some _ => a | None => b end.
Definition apply_option {A} (f : string → A → A) (o : option string) (a : A) : A :=
  match o with Some v => f v a | None => a end.

Definition build_supabase (env : Env) (fetch_jwks : string → result string string)
    (audience issuer : option string) (supabase_url : string) : result string Authenticator :=
  let supabase_url := trim_end_matches "/" supabase_url in
  let jwks_url := supabase_url +:+ "/auth/v1/.well-known/jwks.json" in
  let configured := or_else (nonempty_env env "LOOMABASE_SUPABASE_JWKS")
                      (nonempty_env env "SUPABASE_JWKS") in
  jwks ← (match configured with Some jwks => Ok jwks | None => fetch_jwks jwks_url end);
  authenticator ← from_jwks_json jwks (default (supabase_url +:+ "/auth/v1") issuer);
  let authenticator :=
    supabase_with_audience (Some (default "authenticated" audience)) authenticator in
  let authenticator :=
    apply_option with_tenant_claim (nonempty_env env "LOOMABASE_SUPABASE_TENANT_CLAIM")
      authenticator in
  let authenticator :=
    apply_option with_tables_claim (nonempty_env env "LOOMABASE_SUPABASE_TABLES_CLAIM")
      authenticator in
  match configured with
  | Some _ => Ok (UseSupabase authenticator None)
  | None =>
    refresh_seconds ← env_parse U64_MAX env "LOOMABASE_JWKS_REFRESH_SECS" 600;
    if (refresh_seconds =? 0)%N
    then Err "LOOMABASE_JWKS_REFRESH_SECS must be greater than zero"
    else Ok (UseSupabase authenticator (Some (jwks_url, refresh_seconds)))
  end.

Definition build_authenticator (env : Env) (fetch_jwks : string → result string string)
  : result string Authenticator :=
  let audience := nonempty_env env "LOOMABASE_JWT_AUDIENCE" in
  let issuer := nonempty_env env "LOOMABASE_JWT_ISSUER" in
  match or_else (nonempty_env env "LOOMABASE_SUPABASE_URL") (nonempty_env env "SUPABASE_URL") with
  | Some supabase_url => build_supabase env fetch_jwks audience issuer supabase_url
  | None =>
    match nonempty_env env "LOOMABASE_JWT_PUBLIC_KEY" with
    | Some pem =>
      authenticator ← from_public_key_pem pem;
      Ok (UseRsa (apply_option rsa_with_issuer issuer
                    (apply_option rsa_with_audience audience authenticator)))
    | None =>
      match nonempty_env env "LOOMABASE_JWT_SECRET" with
      | Some secret =>
        if (str_len secret <? 32)%N
        then Err "LOOMABASE_JWT_SECRET must contain at least 32 bytes"
        else Ok (UseJwt (apply_option jwt_with_issuer issuer
                           (apply_option jwt_with_audience audience
                              (JwtDeviceAuthenticator_new (str_bytes secret)))))
      | None =>
        insecure ← env_bool env "LOOMABASE_ALLOW_INSECURE_HEADERS";
        if insecure : bool then Ok UseHeaders
        else Err ("configure LOOMABASE_SUPABASE_URL, LOOMABASE_JWT_PUBLIC_KEY, or " +:+
                  "LOOMABASE_JWT_SECRET; insecure headers require " +:+
                  "LOOMABASE_ALLOW_INSECURE_HEADERS=true")
      end
    end
  end.

(** One round of [spawn_jwks_refresh]: a key set that cannot be fetched or
    read leaves the old one in place. *)
Definition jwks_refresh (fetched : result string string) (a : SupabaseJwtAuthenticator)
  : SupabaseJwtAuthenticator :=
  match fetched with
  | Ok jwks => (replace_jwks_json jwks a).2
  | Err _ => a
  end.
End authenticator.

(** ** [main], up to the listener *)
Section main.
Context `{!Pg_externals, !Jwt_externals}.

(** What the process does next: nothing, or serve. *)
Inductive Startup :=
| Migrated
| Listen (bind : string) (config : ServerConfig) (authenticator : Authenticator).

(** Results that end [main] are boxed as their text. *)
Definition MainM (A : Type) : Type := stM PgDb string A.
Definition boxed {A} (m : PgM A) : MainM A := λ db,
  match m db with
  | (Ok a, db') => (Ok a, db')
  | (Err e, db') => (Err (SyncError_to_string e), db')
  end.

Definition main_migrate (env : Env) (existing existing_crdt : gmap string string) : MainM Startup :=
  boxed (initialize_server_schema_with todos_table existing existing_crdt) ;;;
  rotate <-- st_lift (env_bool env "LOOMABASE_ROTATE_SERVER_EPOCH") ;;
  (if rotate : bool then boxed rotate_server_epoch ;;; st_ret tt else st_ret tt) ;;;
  seconds <-- st_lift (optional_env_parse U64_MAX env "LOOMABASE_EXPIRE_CURSOR_LEASES_SECS") ;;
  (match seconds with
   | Some seconds => boxed (expire_cursor_leases seconds) ;;; st_ret tt
   | None => st_ret tt
   end) ;;;
  st_ret Migrated.

Definition main (env : Env) (fetch_jwks : string → result string string)
    (existing existing_crdt : gmap string string) : MainM Startup :=
  database_url <-- st_lift (ok_or (env "DATABASE_URL")
    "DATABASE_URL must be set to a PostgreSQL connection string") ;;
  let bind := default "127.0.0.1:8080" (env "LOOMABASE_BIND") in
  config <-- st_lift (server_config_from_env env) ;;
  _ <-- st_lift (build_pool env database_url) ;;
  migrate_only <-- st_lift (env_bool env "LOOMABASE_MIGRATE_ONLY") ;;
  skip_schema_init <-- st_lift (env_bool env "LOOMABASE_SKIP_SCHEMA_INIT") ;;
  if (migrate_only : bool) && (skip_schema_init : bool)
  then st_lift (Err ("LOOMABASE_MIGRATE_ONLY and LOOMABASE_SKIP_SCHEMA_INIT are mutually " +:+
                     "exclusive"))
  else if migrate_only then main_migrate env existing existing_crdt
  else
    (if skip_schema_init then st_ret tt
     else boxed (initialize_server_schema_with todos_table existing existing_crdt) ;;; st_ret tt) ;;;
    authenticator <-- st_lift (build_authenticator env fetch_jwks) ;;
    st_ret (Listen bind config authenticator).
End main.

(** ** Theorems *)
Section theorems.
Context `{!Jwt_externals}.

Definition unset (env : Env) (name : string) : Prop := nonempty_env env name = None.

(** C36: Authentication fails closed. The server trusts bare headers only when
    no Supabase project, no public key and no secret is configured and
    [LOOMABASE_ALLOW_INSECURE_HEADERS] says true; with none of them configured
    and the switch unset it refuses to start; every other choice verifies
    signatures, and a shared secret has at least 32 bytes. *)
Theorem auth_fails_closed env fetch_jwks :
  (build_authenticator env fetch_jwks = Ok UseHeaders ↔
   unset env "LOOMABASE_SUPABASE_URL" ∧ unset env "SUPABASE_URL" ∧
   unset env "LOOMABASE_JWT_PUBLIC_KEY" ∧ unset env "LOOMABASE_JWT_SECRET" ∧
   (env "LOOMABASE_ALLOW_INSECURE_HEADERS" = Some "true" ∨
    env "LOOMABASE_ALLOW_INSECURE_HEADERS" = Some "1")) ∧
  (∀ a, build_authenticator env fetch_jwks = Ok (UseJwt a) →
   ∃ secret, env "LOOMABASE_JWT_SECRET" = Some secret ∧ (32 ≤ str_len secret)%N ∧
     jwt_secret a = str_bytes secret ∧
     jwt_policy a = {| cp_audience := nonempty_env env "LOOMABASE_JWT_AUDIENCE";
                       cp_issuer := nonempty_env env "LOOMABASE_JWT_ISSUER" |}).
Proof.
  unfold build_authenticator, unset, or_else.
  assert (env_bool env "LOOMABASE_ALLOW_INSECURE_HEADERS" = Ok true ↔
          env "LOOMABASE_ALLOW_INSECURE_HEADERS" = Some "true" ∨
          env "LOOMABASE_ALLOW_INSECURE_HEADERS" = Some "1") as Hbool.
  { unfold env_bool. destruct (env "LOOMABASE_ALLOW_INSECURE_HEADERS") as [v|];
      [|split; [done|by intros []]].
    case_decide as Hv; [by split; [intros _; destruct Hv as [->| ->]; auto|]|].
    case_decide; (split; [done|]); intros [[= ->]|[= ->]]; destruct Hv; auto. }
  assert (∀ url audience issuer a, build_supabase env fetch_jwks audience issuer url = Ok a →
    ∃ s r, a = UseSupabase s r) as Hsupa.
  { unfold build_supabase. intros url audience issuer a (jwks & _ & (s & _ & Hrest)%bind_ok)%bind_ok.
    destruct (or_else _ _); [injection Hrest as <-; by eexists _, _|].
    apply bind_ok in Hrest as (n & _ & Hrest). destruct (n =? 0)%N; [done|].
    injection Hrest as <-. by eexists _, _. }
  destruct (nonempty_env env "LOOMABASE_SUPABASE_URL") as [url|];
    [|destruct (nonempty_env env "SUPABASE_URL") as [url|]].
  1,2: split; [split; [by intros (? & ? & ?)%Hsupa|by intros (? & ? & _)]
              |by intros a (? & ? & ?)%Hsupa].
  destruct (nonempty_env env "LOOMABASE_JWT_PUBLIC_KEY") as [pem|].
  { split; [split; [by intros (? & _ & ?)%bind_ok|by intros (_ & _ & ? & _)]
           |by intros a (? & _ & ?)%bind_ok]. }
  destruct (nonempty_env env "LOOMABASE_JWT_SECRET") as [secret|] eqn:Hsecret.
  - split; [destruct (_ <? _)%N; split; [done|by intros (_ & _ & _ & ? & _)|done|by intros (_ & _ & _ & ? & _)]|].
    intros a. destruct (N.ltb_spec (str_len secret) 32); [done|]. intros [= <-].
    exists secret. unfold nonempty_env in Hsecret.
    destruct (env "LOOMABASE_JWT_SECRET") as [v|]; [|done].
    destruct (str_is_empty v); [done|]. injection Hsecret as ->.
    split_and!; [done|done| |];
      by destruct (nonempty_env env "LOOMABASE_JWT_AUDIENCE"),
                  (nonempty_env env "LOOMABASE_JWT_ISSUER").
  - rewrite <-Hbool. split.
    + destruct (env_bool env "LOOMABASE_ALLOW_INSECURE_HEADERS") as [[]|]; simpl; naive_solver.
    + by destruct (env_bool env "LOOMABASE_ALLOW_INSECURE_HEADERS") as [[]|].
Qed.
End theorems.

(** ** Timeouts *)
Lemma env_limit_ok env name message d n :
  env_limit env name message d = Ok n → n = d ∨ (n ≤ U64_MAX)%N.
Proof.
  unfold env_limit. destruct (env name) as [v|]; [|intros [= ->]; by left].
  intros Hp%ok_or_ok. right. unfold parse_uint in Hp.
  destruct (parse_nonempty_digits _) as [k|]; [|done]. simpl in Hp.
  destruct (N.leb_spec (Z.to_N k) U64_MAX); [|done]. by injection Hp as <-.
Qed.
Lemma env_secs_ok env name message d n :
  env_secs env name message d = Ok n → n = d ∨ ∃ secs, n = Duration_from_secs secs.
Proof.
  unfold env_secs. destruct (env name) as [v|]; [|intros [= ->]; by left].
  destruct (ok_or (parse_uint U64_MAX v) message); simpl; [|done]. intros [= <-]. eauto.
Qed.
Lemma secs_millis secs : (0 < Duration_from_secs secs)%N → (1000 ≤ as_millis (Duration_from_secs secs))%N.
Proof.
  unfold Duration_from_secs, as_millis. intros Hpos.
  apply N.div_le_lower_bound; lia.
Qed.

(** Every limit the server starts with is positive, and its timeouts are at
    least a second, so none reaches PostgreSQL as the zero that disables it. *)
Theorem server_config_bounds env config :
  server_config_from_env env = Ok config →
  (0 < body_limit_bytes config)%N ∧ (0 < max_concurrent_requests config)%N ∧
  (1000 ≤ as_millis (request_timeout config))%N ∧
  (1000 ≤ as_millis (statement_timeout config))%N ∧ (1000 ≤ as_millis (lock_timeout config))%N.
Proof.
  unfold server_config_from_env.
  intros (body & _ & (request & Hr%env_secs_ok & (n & _ & Hrest)%bind_ok)%bind_ok)%bind_ok.
  apply bind_ok in Hrest as (statement & Hs%env_secs_ok & Hrest).
  apply bind_ok in Hrest as (lock & Hl%env_secs_ok & Hrest).
  destruct (_ || _) eqn:Hzero; [done|]. injection Hrest as <-.
  repeat (apply orb_false_iff in Hzero as [Hzero ?]).
  repeat match goal with H : (_ =? 0)%N = false |- _ => apply N.eqb_neq in H end.
  assert (∀ d, (d ≠ 0)%N → d = Duration_from_secs 30 ∨ d = Duration_from_secs 25 ∨
    d = Duration_from_secs 5 ∨ (∃ secs, d = Duration_from_secs secs) → (1000 ≤ as_millis d)%N) as Hmin.
  { intros d Hd [->|[->|[->|[secs ->]]]]; apply secs_millis; lia. }
  simpl. split_and!; [lia|lia| | |]; (apply Hmin; [done|]);
    [destruct Hr|destruct Hs|destruct Hl]; auto.
Qed.

Section timeouts.
Context `{!Pg_externals, !SerdeJson, !StrDebug}.

(** A timeout the server accepts at start-up but PostgreSQL does not - more
    than 2147483 seconds - makes it refuse every sync. *)
Theorem oversized_timeout_blocks_sync state pool payload identity db :
  (MAX_TIMEOUT_MILLIS < as_millis (statement_timeout (as_config state)))%N →
  ∃ e, run_merge state pool payload identity db = (Err (Postgres e), db).
Proof.
  intros Hlong. unfold run_merge, in_transaction, run_transaction.
  destruct (begin_error pool) as [what|]; [by exists what|].
  unfold st_bind, set_transaction_timeout, st_lift, pg_err.
  rewrite (proj2 (N.ltb_lt _ _)) by done. eexists. f_equal. by destruct db.
Qed.
Lemma oversized_timeout_accepted :
  let env : Env := λ name,
    if String.eqb name "LOOMABASE_STATEMENT_TIMEOUT_SECS" then Some "2147484" else None in
  match server_config_from_env env with
  | Ok config => (MAX_TIMEOUT_MILLIS <? as_millis (statement_timeout config))%N = true
  | Err _ => False
  end.
Proof. vm_compute. reflexivity. Qed.
End timeouts.
