(* ===== verification/HttpDemo.v ===== *)
(** * A concrete run of the HTTP server

    Externals of the authenticators that compute, and the witnesses of the
    theorems on HTTP, authentication and start-up. *)
From stdpp Require Import gmap countable.
From S2P Require Import Prelude RustStd Error Schema Crdt Payload Policy Replica State Demo Partial.
From S2P Require Import Postgres Server ServerFacts ServerSteps ServerDemo Http HttpTheorems.
From S2P Require Import Auth AuthTheorems ServerMain.

(** ** Externals *)
Fixpoint bits_of (p : positive) : string :=
  match p with
  | xI p => String "1" (bits_of p)
  | xO p => String "0" (bits_of p)
  | xH => EmptyString
  end.
Fixpoint of_bits (s : string) : option positive :=
  match s with
  | EmptyString => Some xH
  | String c s =>
    if Ascii.eqb c "1" then xI <$> of_bits s
    else if Ascii.eqb c "0" then xO <$> of_bits s else None
  end.
Lemma of_bits_of p : of_bits (bits_of p) = Some p.
Proof. induction p; simpl; rewrite ?IHp; done. Qed.
Lemma bits_of_lacks p : lacks "." (bits_of p).
Proof. induction p; [by apply lacks_cons..|]. unfold lacks. simpl. set_solver. Qed.

Definition claims_tuple (c : Claims) :=
  (cl_tenant_id c, cl_device_id c, cl_exp c, cl_nbf c, cl_aud c, cl_iss c, cl_allowed_tables c).
Definition tuple_claims (x : string * string * N * option N * option string * option string *
                             option (gset string)) : Claims :=
  let '(tenant, device, exp, nbf, aud, iss, tables) := x in
  {| cl_tenant_id := tenant; cl_device_id := device; cl_exp := exp; cl_nbf := nbf; cl_aud := aud;
     cl_iss := iss; cl_allowed_tables := tables |}.

Definition demo_jwt : Jwt_externals :=
  {| b64_encode := λ bytes, bits_of (encode bytes);
     b64_decode := λ s, of_bits s ≫= decode;
     hmac_sha256 := λ secret, Some (λ bytes, secret ++ [N.of_nat (length bytes)]);
     json_header_alg := λ bytes,
       if decide (bytes = str_bytes HS256_HEADER) then Some "HS256" else None;
     json_to_claims := λ bytes,
       match bytes with [Npos p] => tuple_claims <$> decode p | _ => None end;
     claims_to_json := λ c, Some [Npos (encode (claims_tuple c))];
     DecodingKey := string; EncodingKey := string; Jwk := string; JwkSet := list string;
     key_from_rsa_pem := Ok;
     private_key_from_rsa_pem := Ok;
     crypto_verify := λ _ _ _ _, Some false;
     jwt_encode := λ _ _ _, Err "no signer";
     jwt_decode_header := λ _, Some (RS256, Some "key-1");
     jwks_from_json := λ s, Some [s];
     jwks_keys := id;
     jwks_find := λ jwks kid, if decide (kid ∈ jwks) then Some kid else None;
     key_from_jwk := Some;
     jwt_decode := λ _ _ _ _, Some (JObject [("sub", JString "user-1")]) |}.

#[local] Existing Instance demo_jwt.
#[local] Existing Instance demo_json.
#[local] Existing Instance demo_debug.
#[local] Existing Instance demo_pg.

Lemma demo_laws : jwt_laws.
Proof.
  split.
  - intros bytes. cbn [b64_decode b64_encode demo_jwt]. rewrite of_bits_of. apply decode_encode.
  - intros bytes. apply bits_of_lacks.
  - intros c. eexists. split; [reflexivity|]. cbn [json_to_claims demo_jwt].
    rewrite decode_encode. by destruct c.
  - cbn [json_header_alg demo_jwt]. by rewrite decide_True.
  - intros secret. by eexists.
Qed.

(** ** Tokens *)
Definition demo_secret : list N := [1; 2; 3]%N.
Definition demo_token : string := default "" (encode_token demo_secret "acme" "device-a" 100).
Definition demo_claims : Claims := mk_claims "acme" "device-a" 100.
Definition demo_authenticator : JwtDeviceAuthenticator := JwtDeviceAuthenticator_new demo_secret.
Lemma demo_token_size : (str_len demo_token ≤ MAX_BEARER_TOKEN_BYTES)%N.
Proof. apply N.leb_le. vm_compute. reflexivity. Qed.
Lemma demo_claims_hold : claims_hold 50 ClaimPolicy_default demo_claims.
Proof. by split. Qed.

Lemma jwt_token_roundtrip_witness :
  authenticate demo_authenticator 50 (bearer_headers demo_token) = Ok (claims_identity demo_claims).
Proof.
  destruct (jwt_token_roundtrip demo_secret "acme" "device-a" 100 None None None demo_laws)
    as (token & Htoken & Hverdict).
  assert (demo_token = token) as Heq by (unfold demo_token, encode_token; by rewrite Htoken).
  destruct (Hverdict demo_secret ClaimPolicy_default 50%N) as (input & mac & mac' & Hm & Hm' & _ & Hok).
  { rewrite <-Heq. exact demo_token_size. }
  rewrite Heq. apply Hok; [congruence|]. split; [exact demo_claims_hold|reflexivity].
Defined.

Lemma demo_authenticated :
  authenticate demo_authenticator 50 (bearer_headers demo_token) = Ok (claims_identity demo_claims).
Proof. vm_compute. reflexivity. Qed.

(** A verifier that expects RS256. *)
Definition demo_rsa : RsaJwtDeviceAuthenticator :=
  {| rsa_decoding_key := "key"; rsa_policy := ClaimPolicy_default |}.
Lemma jwt_accepts_exactly_witness :
  is_ok (authenticate demo_authenticator 50 (bearer_headers demo_token)) = true ∧
  is_ok (authenticate demo_rsa 50 (bearer_headers demo_token)) = false.
Proof.
  destruct (jwt_accepts_exactly demo_secret ClaimPolicy_default 50 (bearer_headers demo_token)
    (claims_identity demo_claims)) as [_ Hother].
  split; [rewrite demo_authenticated; reflexivity|].
  destruct (authenticate demo_rsa 50 (bearer_headers demo_token)) as [identity|e] eqn:Hrsa;
    [|reflexivity].
  destruct (Hother demo_authenticated demo_rsa identity Hrsa).
Defined.

Definition supabase_headers : HeaderMap := λ name,
  if String.eqb name "authorization" then Some "Bearer token"
  else if String.eqb name "x-device-id" then Some "phone" else None.
Definition demo_supabase : SupabaseJwtAuthenticator :=
  {| sb_jwks := ["key-1"]; sb_poisoned := false; sb_issuer := "issuer"; sb_audience := None;
     sb_tenant_claim := "tenant"; sb_tables_claim := "tables" |}.
Definition supabase_device : AuthenticatedDevice :=
  {| ad_tenant_id := "user-1"; ad_device_id := "user-1/phone"; allowed_tables := None |}.
Lemma supabase_accepts : authenticate demo_supabase 0 supabase_headers = Ok supabase_device.
Proof. vm_compute. reflexivity. Qed.
Definition supabase_claims : JsonValue := JObject [("sub", JString "user-1")].
Lemma supabase_demo_user :
  supabase_user demo_supabase supabase_headers supabase_claims "user-1" "phone" supabase_device.
Proof. by split. Qed.
Lemma supabase_demo_slashless : lacks "/" "user-1".
Proof. unfold lacks. simpl. set_solver. Qed.
Lemma supabase_identity_safe_witness :
  (∃ token, supabase_headers "authorization" = Some ("Bearer " +:+ token) ∧
            (str_len token ≤ 16384)%N) ∧
  ("user-1" = "user-1" ∧ "phone" = "phone").
Proof.
  destruct (supabase_identity_safe demo_supabase 0 supabase_headers supabase_device)
    as [Hexact Hunique].
  split.
  - destruct (proj1 Hexact supabase_accepts) as (_ & token & _ & _ & _ & _ & _ & _ & _ & Ht & Hlen & _).
    exists token. split; [exact Ht|exact Hlen].
  - exact (Hunique _ _ _ _ _ _ _ _ _ supabase_demo_user supabase_demo_user eq_refl
      supabase_demo_slashless supabase_demo_slashless).
Defined.

(** ** The server *)
Definition header_map : HeaderMap := λ name,
  if String.eqb name "x-tenant-id" then Some demo_tenant
  else if String.eqb name "x-device-id" then Some "device-a" else None.
Definition demo_state : AppState :=
  {| as_table := todos_table; as_authenticator := authenticate mk_HeaderDeviceAuthenticator;
     as_security := SyncSecurity_default; as_config := ServerConfig_default |}.
Definition served : Response * (PgDb * Metrics) :=
  sync demo_state 0 header_map pool_works 2000000%N request_a (pg_0, Metrics_default).
Lemma served_eq :
  sync demo_state 0 header_map pool_works 2000000%N request_a (pg_0, Metrics_default)
  = (served.1, served.2).
Proof. exact (surjective_pairing served). Qed.
Lemma served_status : rsp_status served.1 = 200%N.
Proof. vm_compute. reflexivity. Qed.
Lemma header_identity identity :
  as_authenticator demo_state 0 header_map = Ok identity → ad_tenant_id identity = demo_tenant.
Proof. vm_compute. by intros [= <-]. Qed.

Lemma http_sync_safe_witness :
  same_tenant other_tenant pg_0 served.2.1.
Proof.
  refine (proj2 (proj2 (http_sync_safe demo_state 0 header_map pool_works 2000000%N request_a
    partial_todos pg_0 Metrics_default)) other_tenant served.1 served.2 _ (or_introl served_eq)).
  intros identity Hid. apply header_identity in Hid. rewrite Hid. discriminate.
Defined.

(** One request is handled and dropped, and a second one is cut off in the
    middle of its drop: it is past its duration and not out of flight. *)
Definition serving : (Response * Atomic) * PgDb :=
  sync_handle demo_state 0 header_map pool_works request_a pg_0.
Lemma serving_eq :
  sync_handle demo_state 0 header_map pool_works request_a pg_0
  = (serving.1.1, serving.1.2, serving.2).
Proof. unfold serving. by destruct (sync_handle _ _ _ _ _ _) as [[? ?] ?]. Qed.
Lemma serving_ok : serving.1.2 = CountOk ∧ rsp_status serving.1.1 = 200%N.
Proof. split; vm_compute; reflexivity. Qed.
Definition slow : Duration := 60000000000%N.
Definition process_n (db : PgDb) (m : Metrics) (x : Stage) : Process :=
  {| pr_db := db; pr_metrics := m; pr_requests := {[ 1%N := x ]} |}.
Lemma process_move db m x a y :
  next_atomic x = Some (a, y) →
  http_step demo_state (process_n db m x) (process_n db (atomic a m) y).
Proof.
  intros Hnext. unfold process_n. rewrite <-(insert_singleton_eq 1%N x y).
  by apply (http_atomic _ (process_n db m x) 1 x a y).
Qed.
Definition metrics_3 : Metrics := atomic CountOk (atomic EnterFlight (atomic CountRequest Metrics_default)).
Definition metrics_4 : Metrics :=
  atomic CountDuration (atomic (CountMicros (observed_micros slow)) metrics_3).
Definition process_4 : Process :=
  process_n serving.2 metrics_4 (Dropping (Some (rsp_status serving.1.1)) slow [LeaveFlight]).
Lemma process_steps : rtc (http_step demo_state) (process_start pg_0) process_4.
Proof.
  eapply rtc_l; [apply (http_receive _ (process_start pg_0) 1); reflexivity|].
  eapply rtc_l; [apply (process_move _ _ Received); reflexivity|].
  eapply rtc_l.
  { apply (http_sync _ (process_n _ _ Observing) 1 0 header_map pool_works request_a _ _ _
      (lookup_singleton_eq _ _) serving_eq). }
  cbn [pr_requests pr_metrics process_n]. rewrite insert_singleton_eq, (proj1 serving_ok).
  eapply rtc_l; [apply (process_move _ _ (Handled _ _)); reflexivity|].
  eapply rtc_l.
  { apply (http_drop _ (process_n _ _ (Answered _)) 1 _ slow (lookup_singleton_eq _ _)). }
  cbn [pr_requests pr_metrics process_n]. rewrite insert_singleton_eq.
  eapply rtc_l; [apply (process_move _ _ (Dropping _ _ _)); reflexivity|].
  eapply rtc_l; [apply (process_move _ _ (Dropping _ _ _)); reflexivity|].
  apply rtc_refl.
Qed.
Lemma process_stages :
  stages process_4 = [Dropping (Some (rsp_status serving.1.1)) slow [LeaveFlight]].
Proof. unfold stages. cbn [pr_requests process_4 process_n]. by rewrite map_to_list_singleton. Qed.
Lemma process_room : (N.of_nat (length (stages process_4)) < 2 ^ 64)%N.
Proof. rewrite process_stages. done. Qed.

Lemma http_metrics_account_witness :
  m_in_flight (pr_metrics process_4) = number is_in_flight (stages process_4) ∧
  m_sync_ok (pr_metrics process_4) = number (answered_in [200%N]) (stages process_4).
Proof.
  destruct (http_metrics_account demo_state pg_0 process_4 process_steps process_room)
    as (_ & Hfly & Hok & _).
  split; [exact Hfly|exact Hok].
Defined.

(** ** Start-up *)
Definition insecure_env : Env := λ name,
  if String.eqb name "LOOMABASE_ALLOW_INSECURE_HEADERS" then Some "true" else None.
Lemma auth_fails_closed_witness :
  build_authenticator insecure_env (λ _, Err "no network") = Ok UseHeaders.
Proof.
  apply (auth_fails_closed insecure_env (λ _, Err "no network")).
  repeat split; try reflexivity. left. reflexivity.
Defined.
