(* ===== verification/StackDemo.v ===== *)
(** * A concrete run of the whole stack

    A device, its token, the network, the HTTP server and its database: the
    first answer is lost, and the device catches up afterwards. *)
From S2P Require Import Prelude RustStd Error Schema SchemaFacts Crdt Lww Payload Policy Explain.
From S2P Require Import Replica State Demo Sqlite Client ClientFacts ClientInv ClientOps ClientDemo.
From S2P Require Import ClientDelta SyncServer LiveServer ClientSync ClientTermination Postgres.
From S2P Require Import Server ServerFacts ServerRun ServerInv ServerSteps.
From S2P Require Import ServerSession ServerDemo ServerSync ServerTotal ServerAnswers ServerLive.
From S2P Require Import PolicyFacts Http HttpTheorems Auth AuthTheorems HttpClient HttpSync HttpLive.
From S2P Require Import Examples HttpDemo.

#[local] Existing Instance demo_jwt.
#[local] Existing Instance demo_json.
#[local] Existing Instance demo_debug.
#[local] Existing Instance demo_pg.
#[local] Existing Instance demo_text.

(** JSON numbers as they are; failures as their debug texts. *)
Definition demo_reqwest : Reqwest_externals :=
  {| json_real := λ r, r;
     reqwest_message := λ failure,
       match failure with
       | SendFailed detail => "error sending request: " +:+ detail
       | StatusError status => "HTTP status " +:+ pretty status
       | DecodeFailed => "error decoding response body"
       end;
     error_for_status := λ response,
       if (400 <=? rsp_status response)%N && (rsp_status response <? 600)%N
       then Err (StatusError (rsp_status response)) else Ok response;
     response_json_sync := λ response,
       match rsp_body response with JsonSync p => Ok p | _ => Err DecodeFailed end;
     response_json_partial := λ response,
       match rsp_body response with JsonPartial r => Ok r | _ => Err DecodeFailed end |}.
#[local] Existing Instance demo_reqwest.
Lemma demo_wire p : wire_payload p = p.
Proof. apply wire_payload_same; intros; [by destruct (sr_value x)|by destruct (value c)]. Qed.
Lemma demo_reqwest_laws : reqwest_laws.
Proof.
  split.
  - intros response response'. cbn [error_for_status demo_reqwest].
    destruct (_ && _); [done|]. by intros [= <-].
  - intros response p. cbn [response_json_sync demo_reqwest].
    destruct (rsp_body response) as [p0| |]; [|done..]. intros [= <-]. exists p0.
    by rewrite demo_wire.
  - intros response r. cbn [response_json_partial demo_reqwest].
    destruct (rsp_body response) as [|r0|]; [done| |done]. intros [= <-]. exists r0.
    split; [done|]. destruct r0. unfold wire_response. cbn. by rewrite demo_wire.
Qed.

Definition stack_state : AppState :=
  {| as_table := todos_table; as_authenticator := authenticate demo_authenticator;
     as_security := SyncSecurity_default; as_config := ServerConfig_default |}.
Definition stack_tokens (device : string) : string :=
  default "" (encode_token demo_secret demo_tenant device 100).
(** The first answer is lost. *)
Definition stack_env (n : N) : Exchange :=
  {| ex_now := 50; ex_pool := pool_works; ex_elapsed := 1000000%N;
     ex_network := if (n =? 0)%N then ResponseLost "connection reset" else Delivered |}.

Lemma stack_tokens_eq device : encode_token demo_secret demo_tenant device 100 = Some (stack_tokens device).
Proof. reflexivity. Qed.
Lemma stack_tokens_tenant : tokens_of_tenant stack_state demo_tenant stack_tokens.
Proof.
  exact (encoded_tokens_of_tenant stack_state demo_tenant stack_tokens demo_secret
    ClaimPolicy_default 100 demo_laws eq_refl stack_tokens_eq).
Qed.
Lemma todos_no_reals : no_reals todos_table.
Proof.
  intros name Hty%column_type_iff; [|exact todos_table_wf].
  assert (Forall (λ c, cd_ty c ≠ TReal) (synchronized_columns todos_table)) as Hall
    by (apply (bool_decide_unpack _); vm_compute; exact I).
  rewrite list.Forall_forall in Hall. by apply Hall in Hty.
Qed.

#[local] Instance stack_server : SyncServer todos_table HttpWorld :=
  http_server stack_state stack_env demo_tenant stack_tokens
    "Loomabase server rejected synchronization" "invalid Loomabase server response".
Definition device_transport : SyncPayload → stM HttpWorld SyncError SyncPayload :=
  sync_transport stack_state stack_env (stack_tokens "device-a").

(** ** The first attempt *)
Definition stack_0 : HttpWorld := {| hw_server := (pg_0, Metrics_default); hw_sent := 0 |}.
Definition first_attempt : result SyncError SyncPayload * (ClientDb * HttpWorld) :=
  sync_with todos_table device_transport (db_one, stack_0).
Definition db_tried : ClientDb := first_attempt.2.1.
Definition stack_1 : HttpWorld := first_attempt.2.2.

Lemma pg_0_drawn : epoch_drawn pg_0.
Proof.
  intros e He. exists 0%N. split.
  - assert (pg_epoch pg_0 = Some (pretty 0%N)) as Heq by (vm_compute; reflexivity).
    rewrite Heq in He. by injection He as <-.
  - apply N.ltb_lt. vm_compute. reflexivity.
Qed.
Lemma stack_0_ready : srv_ready stack_0.
Proof.
  split; [exact pg_0_wf|]. split; [exact pg_0_drawn|].
  intros k c Hc. exfalso. revert Hc. change (tenant_cells demo_tenant pg_0 !! k ≠ Some c).
  assert (tenant_cells demo_tenant pg_0 = ∅) as -> by (vm_compute; reflexivity).
  by rewrite lookup_empty.
Qed.

Lemma stack_laws : SyncServerLaws todos_table HttpWorld.
Proof.
  exact (http_server_laws demo_reqwest_laws stack_state stack_env demo_tenant stack_tokens _ _ demo_finite demo_uuids
    (conj eq_refl eq_refl) todos_no_reals stack_tokens_tenant).
Qed.

(** The server merged what the device sent, and the device does not know. *)
Lemma first_attempt_eq :
  first_attempt = (Err (InvalidPayload
    "HTTP transport failed: error sending request: connection reset"), (db_tried, stack_1)).
Proof. vm_compute. reflexivity. Qed.
Lemma first_attempt_merged :
  tenant_cells demo_tenant (hw_db stack_1) !! ("todo-1", TITLE_COLUMN)
    = Some (demo_cell (VText "milk") 1 "device-a").
Proof. vm_compute. reflexivity. Qed.

Lemma stack_execution : execution todos_table db_tried stack_1.
Proof.
  pose proof stack_laws as Hlaws.
  apply (sync_with_execution todos_table 0 "device-a" db_one stack_0 _ db_tried stack_1
    demo_text_exact todos_table_wf) with (2 := I) (3 := first_attempt_eq).
  apply (ex_edit _ db_new).
  - apply (ex_start _ "device-a"); [exact demo_bind|exact stack_0_ready].
  - apply (edit_op _ _ _ op_insert (Ok tt)); [done|exact insert_typed|exact demo_insert].
Qed.

(** ** Catching up *)
Definition stack_run : result SyncError SyncPayload * (ClientDb * HttpWorld) :=
  sync_until_caught_up todos_table device_transport (db_tried, stack_1).
Definition stack_answer : SyncPayload := match stack_run.1 with Ok r => r | Err _ => request_a end.
Lemma stack_run_eq :
  sync_until_caught_up todos_table device_transport (db_tried, stack_1)
  = (Ok stack_answer, (stack_run.2.1, stack_run.2.2)).
Proof. vm_compute. reflexivity. Qed.
Lemma stack_run_cell :
  tenant_cells demo_tenant (hw_db stack_run.2.2) !! ("todo-1", TITLE_COLUMN)
    = Some (demo_cell (VText "milk") 1 "device-a").
Proof. vm_compute. reflexivity. Qed.

Lemma stack_converges_witness :
  client_cells todos_table stack_run.2.1 ≡ tenant_cells demo_tenant (hw_db stack_run.2.2) ∧
  both_show stack_state demo_tenant stack_run.2.1 (hw_db stack_run.2.2) ("todo-1", TITLE_COLUMN)
    (VText "milk").
Proof.
  destruct (stack_converges demo_reqwest_laws stack_state stack_env demo_tenant stack_tokens
    "Loomabase server rejected synchronization" "invalid Loomabase server response" "device-a"
    db_tried stack_1 stack_answer stack_run.2.1 stack_run.2.2 demo_finite demo_uuids demo_text_exact
    todos_table_wf todos_no_reals (conj eq_refl eq_refl) stack_tokens_tenant stack_execution
    stack_run_eq) as (_ & Hcells & Hshow & _).
  split; [exact Hcells|exact (Hshow _ _ stack_run_cell)].
Defined.

(** ** Catching up returns *)
Lemma demo_escape_ascii s : ascii_text (demo_escape s).
Proof.
  unfold ascii_text, str_bytes. induction s as [|c s IH]; [constructor|].
  cbn [demo_escape String.list_ascii_of_string]. rewrite fmap_cons. constructor; [|exact IH].
  destruct (plain_char c) eqn:Hc; [|vm_compute; by split]. unfold plain_char in Hc.
  rewrite !andb_true_iff in Hc. destruct Hc as [[[?%N.leb_le ?%N.ltb_lt] _] _]. by split.
Qed.
Lemma demo_escape_len s : str_len (demo_escape s) = str_len s.
Proof. unfold str_len. induction s as [|c s IH]; [done|]. cbn. lia. Qed.
Lemma demo_debug_ascii s : ascii_text (str_debug s).
Proof.
  cbn [str_debug demo_debug]. apply ascii_text_app; [repeat constructor; by vm_compute|].
  apply ascii_text_app; [apply demo_escape_ascii|repeat constructor; by vm_compute].
Qed.
Lemma demo_debug_laws : debug_laws.
Proof.
  split.
  - intros s _. apply ascii_text_no_control, demo_debug_ascii.
  - intros s rest _. rewrite str_chars_ascii_app by apply demo_debug_ascii.
    by rewrite (ascii_text_chars _ (demo_debug_ascii s)).
  - intros s _. cbn [str_debug demo_debug]. rewrite !str_len_app, demo_escape_len.
    change (str_len (String _ "")) with 1%N. lia.
Qed.
Lemma demo_pg_laws : pg_laws.
Proof.
  split; [exact demo_finite|exact demo_uuids| |intros v _; by eexists|exact demo_debug_laws].
  intros n Hn. destruct (decide (n = 0%N)) as [->|Hne].
  { split; [done|]. split; [vm_compute; congruence|]. apply (bool_decide_unpack _). by vm_compute. }
  assert (gen_random_uuid n = pretty_N_go (n `div` 10) (String (pretty_N_char (n `mod` 10)) "")) as ->.
  { cbn [gen_random_uuid demo_pg]. unfold pretty, pretty_N. rewrite decide_False by done.
    by rewrite pretty_N_go_step by lia. }
  destruct (pretty_N_go_text 40 (n `div` 10) (String (pretty_N_char (n `mod` 10)) "")) as [Ha [Hge Hle]].
  - apply N.Div0.div_lt_upper_bound. eapply N.lt_trans; [exact Hn|]. by vm_compute.
  - repeat constructor; unfold pretty_N_char; repeat case_match; by vm_compute.
  - change (str_len (String _ "")) with 1%N in Hge, Hle. split_and!.
    + intros Heq. rewrite Heq in Hge. change (str_len "") with 0%N in Hge. lia.
    + lia.
    + by apply ascii_text_no_control.
Qed.

Lemma demo_reads : reqwest_reads.
Proof.
  split.
  - intros response Hs. cbn [error_for_status demo_reqwest]. by rewrite Hs.
  - intros response p Hbody _ _. cbn [response_json_sync demo_reqwest]. rewrite Hbody.
    by rewrite demo_wire.
Qed.

#[local] Instance stack_live : LiveServer todos_table HttpWorld :=
  http_live_server stack_state stack_env demo_tenant stack_tokens.

Lemma demo_tenant_ok : identifier_ok demo_tenant.
Proof. apply (validate_identifier_ok ""). reflexivity. Qed.
Lemma stack_delivered i : (1 ≤ i)%N → delivered stack_state stack_tokens "device-a" (stack_env i).
Proof.
  intros Hi. unfold stack_env. destruct (N.eqb_spec i 0) as [->|_]; [done|].
  split; [done|done|]. eexists. split; [vm_compute; reflexivity|]. by split.
Qed.
#[local] Instance no_nul_dec v : Decision (no_nul v).
Proof. destruct v; apply _. Defined.
Lemma stack_http_live n :
  (N.of_nat n ≤ 1000)%N → http_live stack_state stack_env demo_tenant stack_tokens n "device-a" stack_1.
Proof.
  intros Hn. split.
  - split.
    + vm_compute. by eexists.
    + assert (map_Forall (λ _ row, no_nul (lr_value row)) (tenant_log demo_tenant (hw_db stack_1))) as Hall
        by (apply (bool_decide_unpack _); vm_compute; exact I).
      intros k row Hk. by apply (Hall k row).
    + assert (pg_gap (hw_db stack_1) = λ _, 0%N) as Hgap by (vm_compute; reflexivity).
      rewrite seq_after_alone by (intros z; by rewrite Hgap).
      assert (pg_sequence (hw_db stack_1) = 3%Z) as -> by (vm_compute; reflexivity).
      unfold MAX_PAYLOAD_CELLS, i64_max. lia.
    + assert (pg_uuids (hw_db stack_1) = 2%N) as -> by (vm_compute; reflexivity).
      unfold UUIDS. lia.
    + intros l Hl. apply (validate_identifier_ok "").
      assert (ls_token <$> pg_leases (hw_db stack_1) !! (demo_tenant, "device-a", crdt_table todos_table)
        = Some "1") as Htok by (vm_compute; reflexivity).
      unfold token_sound in Hl. cbn [as_table stack_state] in Hl. rewrite Hl in Htok.
      injection Htok as ->. reflexivity.
  - intros i Hi. apply stack_delivered.
    assert (hw_sent stack_1 = 1%N) as Hs by (vm_compute; reflexivity). lia.
Qed.

Lemma stack_fit (m : cell_map) :
  map_Forall (λ k c, (str_len k.1 + str_len k.2 + str_len (device_id (metadata c)) ≤ 100)%N) m →
  ∀ k c, m !! k = Some c → feed_cell_le 128 k c.
Proof.
  intros Hm k c Hc n. specialize (Hm k c Hc). cbv beta in Hm. unfold feed_cell_bytes.
  cbn [value_json_len demo_json mbind result_bind]. intros [= <-]. lia.
Qed.

Definition stack_client_state : ClientState :=
  default {| cs_device_id := ""; cs_lamport := 0; cs_applying_remote := false |}
    (client_state db_tried).
Lemma stack_ready :
  sync_ready todos_table (SyncServer0 := stack_server) (LiveServer0 := stack_live) 128 "device-a"
    MAX_SYNC_PAGES_PER_CALL db_tried stack_1 stack_client_state.
Proof.
  split; [by vm_compute|by vm_compute|done|vm_le|vm_le| | |split|vm_le|vm_le|].
  - assert (Forall (λ w, no_nul (value w.2)) (dirty_writes todos_table db_tried)) as Hall
      by (apply (bool_decide_unpack _); vm_compute; exact I).
    rewrite list.Forall_forall in Hall. intros k c Hin. by apply (Hall (k, c)).
  - apply demo_agree. apply (bool_decide_unpack _). vm_compute. exact I.
  - refine (stack_fit _ _). apply (bool_decide_unpack _). vm_compute. exact I.
  - refine (stack_fit _ _). apply (bool_decide_unpack _). vm_compute. exact I.
  - apply stack_http_live. vm_le.
Qed.
Lemma stack_timeouts : timeouts_ok stack_state.
Proof. split; vm_le. Qed.
Lemma stack_returns_witness :
  ∃ r db' w', sync_until_caught_up todos_table device_transport (db_tried, stack_1)
      = (Ok r, (db', w')) ∧
    has_more r = false ∧ client_cells todos_table db' ≡ tenant_cells demo_tenant (hw_db w') ∧
    (∀ k c, tenant_cells demo_tenant (hw_db w') !! k = Some c →
       both_show stack_state demo_tenant db' (hw_db w') k (value c)) ∧
    dirty_writes todos_table db' = [].
Proof.
  apply (stack_returns stack_state stack_env demo_tenant stack_tokens
    "Loomabase server rejected synchronization" "invalid Loomabase server response" 128 1000
    "device-a" db_tried stack_1 stack_client_state demo_pg_laws demo_reqwest_laws demo_reads
    demo_text_exact todos_table_wf todos_no_reals demo_tenant_ok (conj eq_refl eq_refl)
    stack_tokens_tenant stack_timeouts stack_execution); [vm_le|vm_le|vm_le|exact stack_ready|].
  apply Nat.ltb_lt. by vm_compute.
Defined.

(** ** The example programs

    Run to the end, assertions included, against a new server. Their tokens
    are shorter than those of the encoding above. *)
Definition number (s : string) : option N :=
  match parse_digits s 0 with Some z => Some (Z.to_N z) | None => None end.
Fixpoint before_256 (l : list N) : list N * list N :=
  match l with
  | [] => ([], [])
  | n :: l => if (n =? 256)%N then ([], l) else let '(a, b) := before_256 l in (n :: a, b)
  end.
Definition text_of_bytes (l : list N) : string := String.string_of_list_ascii (ascii_of_N <$> l).
Definition short_jwt : Jwt_externals :=
  {| b64_encode := λ bytes, String.concat "-" (pretty <$> bytes);
     b64_decode := λ s, mapM number (str_split "-" s);
     hmac_sha256 := λ secret, Some (λ bytes, secret ++ [N.of_nat (length bytes)]);
     json_header_alg := λ bytes,
       if decide (bytes = str_bytes HS256_HEADER) then Some "HS256" else None;
     json_to_claims := λ bytes,
       let '(tenant, rest) := before_256 bytes in let '(device, rest) := before_256 rest in
       match rest with
       | [exp] => Some (mk_claims (text_of_bytes tenant) (text_of_bytes device) exp)
       | _ => None
       end;
     claims_to_json := λ c,
       Some (str_bytes (cl_tenant_id c) ++ [256%N] ++ str_bytes (cl_device_id c) ++
             [256%N; cl_exp c]);
     DecodingKey := string; EncodingKey := string; Jwk := string; JwkSet := list string;
     key_from_rsa_pem := Ok;
     private_key_from_rsa_pem := Ok;
     crypto_verify := λ _ _ _ _, Some false;
     jwt_encode := λ _ _ _, Err "no signer";
     jwt_decode_header := λ _, None;
     jwks_from_json := λ s, Some [s];
     jwks_keys := id;
     jwks_find := λ _ _, None;
     key_from_jwk := Some;
     jwt_decode := λ _ _ _ _, None |}.

Definition example_state : AppState :=
  {| as_table := todos_table;
     as_authenticator :=
       @authenticate _ (@JwtDeviceAuthenticator_authenticator short_jwt)
         (JwtDeviceAuthenticator_new (str_bytes "secret"));
     as_security := SyncSecurity_default; as_config := ServerConfig_default |}.
Definition delivered_env (n : N) : Exchange :=
  {| ex_now := 1000 + n; ex_pool := pool_works; ex_elapsed := 1000000%N;
     ex_network := Delivered |}.
Definition example_start : Devices HttpWorld := ((empty_db, empty_db), stack_0).
Definition roundtrip_result (secret : string) : result Failure unit :=
  (http_roundtrip_main (jwt := short_jwt) example_state delivered_env (Some secret)
     1000 1000 example_start).1.
Definition partial_result (secret : string) : result Failure unit :=
  (http_partial_main (jwt := short_jwt) example_state delivered_env (Some secret)
     1000 1000 42 example_start).1.

Example offline_main_ok : (offline_main offline_start).1 = Ok tt.
Proof. vm_compute. reflexivity. Qed.
Example http_roundtrip_main_ok : roundtrip_result "secret" = Ok tt.
Proof. vm_compute. reflexivity. Qed.
Example http_partial_main_ok : partial_result "secret" = Ok tt.
Proof. vm_compute. reflexivity. Qed.
(** Without the secret of the server every request is answered 401, and the
    first sync returns the error. *)
Example http_roundtrip_main_refused :
  roundtrip_result "another" = Err (Returned (InvalidPayload
    "Loomabase server rejected synchronization: HTTP status 401")).
Proof. vm_compute. reflexivity. Qed.
