(* ===== verification/MultiServerDemo.v ===== *)
(** * A concrete run of a device with two tables against PostgreSQL

    The script of MultiDemo against one database that holds both tables, and
    the witness of MultiServer. *)
From S2P Require Import Prelude RustStd Error Schema SchemaFacts Crdt Lww Payload Policy Explain.
From S2P Require Import Replica State Feed Merge Demo MergeTheorems Sqlite Client ClientFacts.
From S2P Require Import ClientInv ClientLocal ClientAck ClientDelta ClientScopes ClientOps ClientDemo.
From S2P Require Import SyncServer ClientSync ClientTotal ClientProgress LiveServer ClientTermination.
From S2P Require Import ClientInitTheorems SharedServer MultiTable MultiTableLive MultiDemo.
From S2P Require Import Postgres Server ServerFacts ServerRun ServerFeed ServerInv ServerSteps.
From S2P Require Import ServerSession ServerTotal ServerAnswers ServerSync ServerLive ServerDemo.
From S2P Require Import MultiServer StackDemo.

#[local] Existing Instance demo_json.
#[local] Existing Instance demo_debug.
#[local] Existing Instance demo_text.
#[local] Existing Instance demo_pg.

#[local] Instance multi_pg t : SyncServer t MultiPg := multi_server demo_tenant SyncSecurity_default t.
#[local] Instance multi_pg_live t : LiveServer t MultiPg := multi_live demo_tenant t.

(** The schema of both tables, initialized in turn. *)
Definition mp_empty : MultiPg :=
  {| mp_state := ∅; mp_tables := ∅; mp_sequence := 0; mp_gap := λ _, 0%N; mp_leases := ∅;
     mp_epoch := None; mp_audit := []; mp_uuids := 0; mp_now := 0 |}.
Definition mp_init (t : TableDef) : stM MultiPg SyncError (list string) :=
  through t (initialize_server_schema_with t ∅ ∅).
Definition mp_0 : MultiPg := (mp_init notes_table (mp_init todos_table mp_empty).2).2.

Lemma mp_0_ready t : t ∈ demo_full → srv_ready (t:=t) mp_0.
Proof.
  intros Ht. split; [|split].
  - apply (same_tables_wf t empty_pg); [|apply empty_pg_wf]. revert t Ht.
    apply demo_full_cases; (split_and!; [by vm_compute..|split; vm_le|done]).
  - intros e He. exists 0%N. change (mp_epoch mp_0 = Some e) in He.
    assert (mp_epoch mp_0 = Some (gen_random_uuid 0)) as H0 by (vm_compute; reflexivity).
    rewrite H0 in He. injection He as <-. split; [done|by vm_compute].
  - assert (∀ k, tenant_cells demo_tenant (pg_view t mp_0) !! k = None) as Hnone.
    { intros k. rewrite tenant_cells_lookup. revert t Ht. by apply demo_full_cases. }
    intros k c Hc. cbn [view pg_table_view] in Hc. by rewrite Hnone in Hc.
Qed.

Abbreviation pg_sys := (DeviceSys (W:=MultiPg)).
Definition pg_multi_0 : pg_sys := {| ds_edge := edge_new; ds_server := mp_0; ds_flight := ∅ |}.
Definition pg_multi_9 : pg_sys := script (srv := multi_pg) pg_multi_0.

Lemma pg_multi_start : device_start (srv := multi_pg) demo_full "device-a" pg_multi_0.
Proof. split; [vm_compute; reflexivity|exact mp_0_ready|done]. Qed.
Lemma pg_multi_ok : script_ok (srv := multi_pg) pg_multi_0 = true.
Proof. vm_compute. reflexivity. Qed.
Lemma pg_multi_run :
  rtc (device_step (srv := multi_pg) demo_full [] "device-a") pg_multi_0 pg_multi_9.
Proof. exact (script_run (srv := multi_pg) pg_multi_0 pg_multi_ok I I). Qed.

(** ** Syncing both tables *)
Definition pg_multi_state : ClientState :=
  default {| cs_device_id := ""; cs_lamport := 0; cs_applying_remote := false |}
    (eg_state (ds_edge pg_multi_9)).
Lemma pg_multi_clock : clock_ready "device-a" 1000 2 (ds_edge pg_multi_9) pg_multi_state.
Proof. split; [by vm_compute|by vm_compute|vm_le]. Qed.

Lemma pg_multi_epoch : is_Some (mp_epoch (ds_server pg_multi_9)).
Proof. vm_compute. by eexists. Qed.
Lemma pg_multi_gap : mp_gap (ds_server pg_multi_9) = λ _, 0%N.
Proof. vm_compute. reflexivity. Qed.
Lemma pg_multi_sequence : mp_sequence (ds_server pg_multi_9) = 5%Z.
Proof. vm_compute. reflexivity. Qed.
Lemma pg_multi_uuids : mp_uuids (ds_server pg_multi_9) = 4%N.
Proof. vm_compute. reflexivity. Qed.
#[local] Instance no_nul_dec v : Decision (no_nul v).
Proof. destruct v; apply _. Defined.

Lemma pg_multi_token t :
  t ∈ demo_full → token_sound t demo_tenant "device-a" (pg_view t (ds_server pg_multi_9)).
Proof.
  intros Ht l Hl. apply (validate_identifier_ok ""). revert l Hl.
  change (∀ l, mp_leases (ds_server pg_multi_9) !! (demo_tenant, "device-a", crdt_table t) = Some l →
    validate_identifier "" (ls_token l) = Ok tt).
  assert (map_Forall (λ _ l, validate_identifier "" (ls_token l) = Ok tt)
    (mp_leases (ds_server pg_multi_9))) as Hall by (apply (bool_decide_unpack _); vm_compute; exact I).
  intros l Hl. exact (Hall _ _ Hl).
Qed.

Lemma pg_multi_live t :
  t ∈ demo_full → pg_live t demo_tenant 200 "device-a" (pg_view t (ds_server pg_multi_9)).
Proof.
  intros Ht. split.
  - exact pg_multi_epoch.
  - assert (map_Forall (λ _ row, no_nul (lr_value row))
      (tenant_log demo_tenant (pg_view t (ds_server pg_multi_9)))) as Hall.
    { revert t Ht. apply demo_full_cases; apply (bool_decide_unpack _); vm_compute; exact I. }
    intros k row Hk. exact (Hall k row Hk).
  - rewrite seq_after_alone by (intros z; change (mp_gap (ds_server pg_multi_9) z = 0%N);
      by rewrite pg_multi_gap).
    change (pg_sequence (pg_view t (ds_server pg_multi_9))) with (mp_sequence (ds_server pg_multi_9)).
    rewrite pg_multi_sequence, Nat2Z.inj_mul, N_nat_Z. vm_le.
  - change (mp_uuids (ds_server pg_multi_9) + 2 * N.of_nat 200 ≤ UUIDS)%N.
    rewrite pg_multi_uuids. vm_le.
  - by apply pg_multi_token.
Qed.

Lemma pg_multi_ready t :
  t ∈ demo_full →
  table_ready (srv := multi_pg) (live := multi_pg_live) "device-a" 128 1000 1000 2 t
    (edge_view t (ds_edge pg_multi_9)) (ds_server pg_multi_9).
Proof.
  intros Ht. split.
  - revert t Ht. apply demo_full_cases; vm_le.
  - revert t Ht. apply demo_full_cases; vm_le.
  - assert (Forall (λ w, no_nul (value w.2)) (dirty_writes t (edge_view t (ds_edge pg_multi_9)))) as Hall
      by (revert t Ht; apply demo_full_cases; apply (bool_decide_unpack _); vm_compute; exact I).
    rewrite list.Forall_forall in Hall. intros k c Hin. by apply (Hall (k, c)).
  - apply demo_agree. revert t Ht. apply demo_full_cases; apply (bool_decide_unpack _); vm_compute; exact I.
  - split; refine (stack_fit _ _); revert t Ht; apply demo_full_cases;
      apply (bool_decide_unpack _); vm_compute; exact I.
  - revert t Ht. apply demo_full_cases; vm_le.
  - revert t Ht. apply demo_full_cases; vm_le.
  - by apply pg_multi_live.
  - exact I.
  - apply Nat.ltb_lt. revert t Ht. apply demo_full_cases; by vm_compute.
Qed.

Lemma pg_multi_apart : pg_apart demo_full.
Proof.
  split.
  1-4: intros t u Ht; revert u; revert t Ht;
    refine (demo_full_cases _ _ _); refine (demo_full_cases _ _ _);
    first [by apply (bool_decide_unpack _); vm_compute|by intros []].
  apply demo_full_cases; by apply (bool_decide_unpack _); vm_compute.
Qed.
Lemma pg_multi_exact t : t ∈ demo_full → json_exact t.
Proof.
  intros Ht. apply no_reals_json_exact. intros name Hty%column_type_iff.
  2:{ revert t Ht Hty. intros t Ht _. apply multi_tables. set_solver. }
  assert (Forall (λ c, cd_ty c ≠ TReal) (synchronized_columns t)) as Hall
    by (clear Hty; revert t Ht; apply demo_full_cases; apply (bool_decide_unpack _); vm_compute; exact I).
  rewrite list.Forall_forall in Hall. by apply Hall in Hty.
Qed.

Lemma device_returns_on_postgres_witness :
  ∃ s', device_sync_all (srv := multi_pg) demo_full "device-a" pg_multi_9 = (Ok tt, s') ∧
    ∀ t, t ∈ demo_full →
      client_cells t (edge_view t (ds_edge s')) ≡ tenant_cells demo_tenant (pg_view t (ds_server s')) ∧
      dirty_writes t (edge_view t (ds_edge s')) = [].
Proof.
  apply (device_returns_on_postgres demo_tenant SyncSecurity_default demo_full [] "device-a"
    demo_pg_laws demo_tenant_ok (conj eq_refl eq_refl) multi_tables pg_multi_apart pg_multi_exact 128 1000 1000
    pg_multi_0 pg_multi_9 pg_multi_state demo_text_exact multi_apart);
    [vm_le|vm_le|vm_le|done|vm_le|exact pg_multi_start|exact pg_multi_run| |exact pg_multi_clock
    |exact pg_multi_ready].
  apply demo_full_cases; by vm_compute.
Defined.
